(* ===== verification/_CoqProject ===== *)
-Q . S2P
XDevice.v
Prelude.v
Workers.v
Libc.v
StorageInterface.v
Counters.v
StorageSpec.v
MockStorage.v
MockBackend.v
MockProps.v
MockThreads.v
Posix.v
LocalStorage.v
LocalInv.v
LocalProps.v
LocalThreads.v
StorageManager.v
ManagerClient.v
ManagerProps.v
ManagerTypes.v
ManagerThreads.v
RaftAdapter.v
AdapterProps.v
LocalAdapter.v
CrcSpec.v
Crc32.v
WalEngine.v
WalLog.v
WalProps.v
WalCrash.v
Raft.v
RaftInv.v
RaftProps.v
RaftThreads.v
ThreadProps.v
Getopt.v
Double.v
Cli.v
CliProps.v
NodeMain.v
NodeProps.v
NodeThreads.v
StorageTest.v
StorageTestProps.v
