(* ===== verification/XDevice.v ===== *)
(** * XDevice: a verification library for the xDevice distributed block device

    xDevice is a C library for a replicated block device. This development models
    its two storage backends, the manager that routes to backends, the adapter that
    stores Raft's persistent state through the manager, the write-ahead log, the Raft
    node, the node daemon and the command line tool, and proves what each of them does.

    ** The program

    - [include/storage_interface.h] declares a table of function pointers that every
      storage backend fills in, with private data behind it.
    - [src/storage/mock_storage.c] is a backend that keeps its files in memory: a
      linked list of names and growing heap blocks under a space limit.
    - [src/storage/local_storage.c] is a backend over the operating system's files, with
      a cache of open descriptors.
    - [src/storage/storage_manager.c], first part, keeps up to eight pointers to
      backends, chooses one per call (primary first, then any healthy one), and counts
      what it did.
    - [src/storage/storage_manager.c], second part, is the Raft storage adapter: it
      names log entries, state items and snapshots with paths under a base directory
      and calls the manager.
    - [src/storage/wal_engine.c] is the write-ahead log: a memory-mapped file of a
      header and of records with sequence numbers and CRC-32 checksums.
    - [src/distributed/raft.c] is a consensus node: an election thread, a heartbeat
      thread and an API (start, add a member, append an entry, destroy), with the
      network behind two callbacks.
    - [src/main/node_main.c] is the daemon around a Raft node; [src/main/cli_main.c] is
      the command line tool of the device API.

    - [src/test/storage_test.c] is the test program of the backends, the manager and
      the adapter.

    The adapter calls the manager, the manager calls the backends through their
    tables. The daemon starts, runs and destroys a Raft node. The write-ahead log and
    the Raft node call none of the others.

    ** The files

    - [XDevice] (here): constants and enumerations of [include/xdevice.h].
    - [Prelude]: unsigned arithmetic with its wrap-around ([wrap64], [⊞], [⊟]), heap
      blocks as byte lists with checked [memcpy] and [memset], C strings, tactics and
      the hint database [xdev].
    - [Workers]: threads that make calls in steps, their interleavings, and the lemma
      that a simulation makes them a run of the calls one after the other; nothing in it
      is about this program. [MockThreads] and [ManagerThreads] use it.
    - [Libc]: the answers of the C library during a call, as a record [call_env].
    - [StorageInterface]: the data of [include/storage_interface.h], the table as a
      record [storage_vtable]. [Counters]: the updates of its statistics, which commute
      but for the average latencies.
    - [StorageSpec]: the abstract file system (a finite map from paths to contents)
      and the class [StorageBackend], the contract a backend promises its clients.
    - [MockStorage]: every function of [mock_storage.c], same names, and its invariant;
      [MockBackend]: the table it installs and the instance of [StorageBackend];
      [MockProps]: its properties. [MockThreads]: its calls by several threads, each
      call in two steps, one for each of its locks.
    - [Posix]: the file calls of the operating system as a class of operations [Posix],
      their documented behaviour as laws ([PosixLaws]) about descriptors, positions,
      names and contents, and a small kernel that has them. [LocalStorage]: every
      function of [local_storage.c], same names; [LocalInv]: its invariant and the
      outcomes of each call; [LocalProps]. [LocalThreads]: transfers by several threads,
      in the steps that another thread can come between. [LocalAdapter]: the manager and
      the adapter over this backend.
    - [StorageManager]: [storage_manager_*] over a store of shared interface objects;
      [ManagerClient]: the manager over any [StorageBackend]; [ManagerProps];
      [ManagerTypes]: the manager over any function tables whatever. [ManagerThreads]:
      transfers by several threads in three steps (the choice, the backend's call, the
      statistics), and the registry, which has no lock.
    - [RaftAdapter]: [raft_storage_*] and [build_full_path] over a store of managers,
      proved against the class, not against one backend; [AdapterProps].
    - [CrcSpec]: CRC-32 as a polynomial division, without the code; [Crc32]: the checksum
      with its lazily filled static table; [WalEngine]: [xdevice_wal_*] over the bytes of
      the mapped file, with the calls that a sync makes; [WalLog]: the decoder, the
      representation predicate [wal_log] and the abstract log; [WalProps]. [WalCrash]:
      the file on disk, to which pages are written back in any order or by [msync], and
      crashes.
    - [Raft]: the threads' rounds and [xdevice_raft_*]; [RaftInv]: the transition
      system [raft_step], [reachable] and the invariant [raft_inv]; [RaftProps].
      [RaftThreads]: the two threads, a client, the mutex and the thread handles as a
      finer transition system [sys_exec], and the same with the data races of C,
      [c_exec]; [ThreadProps]: how it refines the first, and where it races.
    - [Getopt]: [getopt_long] and [atoi] as both programs use them; [Double]: binary64
      numbers and [strtod]; [Cli]: [cli_main.c] as a function from a command line to an
      exit status and the calls of the device API; [CliProps].
    - [NodeMain]: the daemon's start-up, rounds and shutdown as events on its resources
      and steps of its Raft node; [NodeProps]. [NodeThreads]: its main function as the
      client of [RaftThreads].
    - [StorageTest]: the test program, as a client of the storage components;
      [StorageTestProps].

    ** Conventions

    A definition is named after the C function it translates and follows its order of
    checks and effects. A pointer that may be NULL is an [option]. A machine integer
    is a [Z] in its range, with the wrap-around written where the code computes.
    Undefined behaviour (an access outside a block, a NULL function called, memory
    read that was never written, a thread joined twice, a handle joined that
    [pthread_create] left unspecified) is [None]; a theorem that
    concludes [Some _] therefore says that the call returns and does none of these.
    What the code obtains from outside (does an allocation succeed, the time, [rand],
    what uninitialised memory holds, what a system call or a peer answers) is a record
    passed as an argument, so that a theorem for all its values covers every run. A
    call is one step in the files named after a component; the files [MockThreads],
    [ManagerThreads], [LocalThreads], [RaftThreads] and [NodeThreads] have the steps
    between which another thread can run, and relate them to the calls. Memory is
    sequentially consistent there. What threads access without a common lock while
    one of them writes is a data race: the [running] flag of a Raft node, where
    [c_exec] makes the race undefined, and the registry of the manager when a
    backend is unregistered during a transfer, where [manager_unregister_race] shows
    one order of the accesses that ends at NULL; the other concurrent theorems have
    neither. (C gives a program without data races the sequentially consistent
    runs.)

    ** The theorems

    - In-memory backend. No sequence of calls accesses memory outside its blocks; every
      outcome of a write and of a read, errors included, on an abstract file system;
      write/read round trip; other paths are untouched; the life cycle of a file. Where
      the code falls short: a refused write keeps the file's growth, names of
      [MAX_PATH_LEN] characters are stored truncated, the doubled capacity wraps above
      half the address space. Calls of several threads have the results, files and
      counters of the same calls in some order that keeps each thread's.
    - Manager. Registration refines operations on a list; the choice of a backend is
      the documented policy; reads and writes through the manager refine the primary
      backend's file system; the statistics; cleanup; the types of its fields, over
      backends that do anything at all. Registering a registered backend again destroys
      it. Transfers of several threads all return, with the results of a run of the
      abstract file system in some order that keeps each thread's, and each is counted
      once; a backend that is unregistered during a choice makes it follow a NULL.
    - Local backend. Every sequence of calls is defined for every behaviour of the
      operating system that the laws allow, keeps the descriptors of the cache distinct
      and open, and is undone by cleanup; every outcome of a write and of a read. Where
      the code falls short: the first transfer decides the direction of a path, so what
      the Raft adapter saves over this backend cannot be loaded again; deletion leaves
      the cached descriptor; a full cache loses descriptors; a file directly below the
      root is undefined behaviour; the largest offset is taken for the current position.
      Concurrent transfers of different paths stay at their own offsets; of two of one
      path, one can be stored at the other's offset.
    - Raft storage adapter. Any sequence of saves and loads refines an abstract item
      store; items are kept under distinct, untruncated paths; a saved item is loaded
      unchanged. Shorter data leave a stale tail, and long state keys can collide.
    - Write-ahead log. The checksum is the CRC-32 of the standard and detects every change
      within four bytes; any sequence of appends and syncs leaves a file that decodes
      to exactly the entries appended; sequence numbers increase strictly; resources
      are balanced. After a successful sync no crash loses an entry appended before it.
      The checksums of the header and of the records cover bytes that are
      never initialised, and a reopened log is treated as empty.
    - Raft node. Every step of a reachable node is defined and keeps the invariant,
      unless a member is added to a leader; a leader has a majority of distinct votes;
      two winners of one term are one node, when each member votes once per term; terms
      never decrease, the log only grows, the commit index stays 0. Where the code
      fails: adding a member to a leader, two concurrent additions, and destroying a
      node whose start failed. Any interleaving of the threads and of a client that adds
      its members first and starts the node once refines those steps, and destroying the
      node returns, if every access is atomic; in C the run is the same, and free of data
      races, until the flag is reset while a thread has not been joined, and that reset
      is a race. A node that is started twice is used after its release.
    - Daemon. What it acquires it releases, in reverse order, on every path; its node,
      which nobody adds members to, becomes leader exactly when its time-out is reached,
      with its threads running at any speed beside the main function too, and its
      shutdown is always a data race;
      its callbacks leave the responses uninitialised, and an election counts those.
    - Command line tool. The API context is released on every path; decimal sizes are
      read exactly, and not checked against 64 bits; printed sizes are accurate, and not
      read back. The options of a command are only accepted behind ["--"]; four of the
      ten commands that the help text lists are unknown to the program.
    - Test program. Its tests pass over the in-memory backend, 1000 writes and reads of
      the performance test included, which ignores failures; its test of the local
      backend cannot pass.

    ** Bounds and fuel

    Loops are structural, or take as fuel a bound that the code's loop condition gives
    (the length of the list walked, the size of the cluster, the number of slots); the
    theorems conclude that the result is there, so the fuel is enough. The decoder of
    the log has the number of bytes as fuel, and each entry takes at least 160. A file
    offset plus a length is below [2^63], so that C's [off_t] sum does not overflow;
    the contract of a backend limits its contents to [2^62] bytes, so that doubling a
    capacity stays in range; a log record is below [2^32] bytes, the width of its length
    field; a transfer of the local backend is below [2^63] bytes, and its full paths are
    below 511 characters, the size of its buffers. The Raft invariant holds for [2^57]
    steps, with terms received below [2^62]: each step adds at most one entry and one
    term, so no counter wraps.

    ** What is not modelled

    - What the programs print, apart from the size formatter; the signal that ends
      the daemon's loop (the rounds before it are any sequence); the daemon's network
      callbacks, which only print.
    - [include/network.h], which the daemon includes, and the network layer: not in the
      repository. Their answers are the environment of a run.
    - The device, context and node API of [include/xdevice.h], the asynchronous and
      batch entries of the storage interface, [xdevice_wal_read] and the like: declared,
      with no definition in the repository.
    - What C and the hardware may do after a data race, which is undefined behaviour;
      threads in the log, whose calls hold its
      mutex and are one step each; a backend's call is one step in [ManagerThreads]. The directories that a write of the local backend
      makes are one step in [LocalThreads], and its threads make transfers only. *)

From Stdlib Require Import ZArith.
From stdpp Require Import base numbers strings.

(** ** Configuration constants ([include/xdevice.h]) *)

Definition XDEVICE_MAX_NODES : Z := 64.
Definition XDEVICE_WAL_BUFFER_SIZE : Z := 64 * 1024 * 1024.
Definition XDEVICE_MAX_NODE_ID_LEN : Z := 64.
Definition XDEVICE_MAX_DEVICE_NAME_LEN : Z := 128.
Definition MAX_STORAGE_BACKENDS : Z := 8.
Definition MAX_PATH_LEN : Z := 512.

(** ** Enumerations *)

(** The error codes shared by all components. *)
Inductive xdevice_error_t : Set :=
| XDEVICE_OK
| XDEVICE_ERROR
| XDEVICE_ERROR_INVALID_PARAM
| XDEVICE_ERROR_OUT_OF_MEMORY
| XDEVICE_ERROR_IO
| XDEVICE_ERROR_NETWORK
| XDEVICE_ERROR_TIMEOUT
| XDEVICE_ERROR_NOT_FOUND
| XDEVICE_ERROR_EXISTS
| XDEVICE_ERROR_PERMISSION
| XDEVICE_ERROR_CONSISTENCY
| XDEVICE_ERROR_NODE_DOWN.

(** The integer value of an error code: the storage functions return [int]. *)
Definition error_code (e : xdevice_error_t) : Z :=
  match e with
  | XDEVICE_OK => 0
  | XDEVICE_ERROR => -1
  | XDEVICE_ERROR_INVALID_PARAM => -2
  | XDEVICE_ERROR_OUT_OF_MEMORY => -3
  | XDEVICE_ERROR_IO => -4
  | XDEVICE_ERROR_NETWORK => -5
  | XDEVICE_ERROR_TIMEOUT => -6
  | XDEVICE_ERROR_NOT_FOUND => -7
  | XDEVICE_ERROR_EXISTS => -8
  | XDEVICE_ERROR_PERMISSION => -9
  | XDEVICE_ERROR_CONSISTENCY => -10
  | XDEVICE_ERROR_NODE_DOWN => -11
  end.

Coercion error_code : xdevice_error_t >-> Z.
Arguments error_code : simpl never.

Inductive xdevice_node_state_t : Set :=
| XDEVICE_NODE_UNKNOWN
| XDEVICE_NODE_LEADER
| XDEVICE_NODE_FOLLOWER
| XDEVICE_NODE_CANDIDATE
| XDEVICE_NODE_DOWN.

Inductive storage_backend_type_t : Set :=
| STORAGE_BACKEND_NVMEOF
| STORAGE_BACKEND_NFS
| STORAGE_BACKEND_LOCAL
| STORAGE_BACKEND_MOCK.

Inductive xdevice_wal_op_type_t : Set :=
| XDEVICE_WAL_WRITE
| XDEVICE_WAL_SYNC
| XDEVICE_WAL_CHECKPOINT.

Definition wal_op_code (o : xdevice_wal_op_type_t) : Z :=
  match o with
  | XDEVICE_WAL_WRITE => 1
  | XDEVICE_WAL_SYNC => 2
  | XDEVICE_WAL_CHECKPOINT => 3
  end.

#[export] Instance xdevice_error_t_eq_dec : EqDecision xdevice_error_t.
Proof. solve_decision. Defined.
#[export] Instance xdevice_node_state_t_eq_dec : EqDecision xdevice_node_state_t.
Proof. solve_decision. Defined.
#[export] Instance storage_backend_type_t_eq_dec : EqDecision storage_backend_type_t.
Proof. solve_decision. Defined.
#[export] Instance xdevice_wal_op_type_t_eq_dec : EqDecision xdevice_wal_op_type_t.
Proof. solve_decision. Defined.

(** Distinct enumerators have distinct integer values, so comparing the
    [int]s is comparing the enumerators. *)
#[export] Instance error_code_inj : Inj (=) (=) error_code.
Proof. intros [] []; vm_compute; congruence. Qed.

#[export] Instance wal_op_code_inj : Inj (=) (=) wal_op_code.
Proof. intros [] []; vm_compute; congruence. Qed.
