(* ===== verification/Prelude.v ===== *)
(** * Prelude: machine integers, memory blocks and C strings

    What every component shares: fixed-width unsigned arithmetic with its
    wrap-around, heap blocks and buffers as byte lists with checked accesses
    ([memcpy], [memset]), NUL-terminated character arrays ([strncpy]), the
    library's tactics and its hint databases. An operation that C leaves
    undefined (an access outside its block) is [None]; a result [Some _] is
    therefore also a proof that the run has no such access. *)

From Stdlib Require Import String.
From stdpp Require Import base numbers list strings sets pretty.
From coqutil Require Import Byte Word.LittleEndianList.
From coqutil Require Export Datatypes.RecordSettersUsingExistingGetters.
Export RecordSetNotations1.

(** Record updates reduce under [cbn] and [simpl]. *)
Arguments RecordSettersUsingExistingGetters.const {E} newValue _ /.

Declare Scope c_scope.
Delimit Scope c_scope with C.
Local Open Scope Z_scope.

(** ** Unsigned machine integers *)

Definition wrap64 (z : Z) : Z := z mod 2 ^ 64.
Definition wrap32 (z : Z) : Z := z mod 2 ^ 32.
Definition UINT64_MAX : Z := 2 ^ 64 - 1.

(** [a + b], [a - b], [a * b] at type [uint64_t]/[size_t], and [a + b],
    [a - b] at type [uint32_t]. *)
Notation "a ⊞ b" := (wrap64 (a + b)) (at level 50, left associativity) : c_scope.
Notation "a ⊟ b" := (wrap64 (a - b)) (at level 50, left associativity) : c_scope.
Notation "a ⊠ b" := (wrap64 (a * b)) (at level 40, left associativity) : c_scope.
Notation "a ⊞₃₂ b" := (wrap32 (a + b)) (at level 50, left associativity) : c_scope.
Notation "a ⊟₃₂ b" := (wrap32 (a - b)) (at level 50, left associativity) : c_scope.
Open Scope c_scope.

(** The range of a [uint64_t] and of a [uint32_t]. *)
Definition u64 (z : Z) : Prop := 0 <= z < 2 ^ 64.
Definition u32 (z : Z) : Prop := 0 <= z < 2 ^ 32.

(** ** Bytes and blocks *)

#[export] Instance byte_eq_dec : EqDecision Init.Byte.byte := Byte.byte_eq_dec.

Abbreviation block := (list Init.Byte.byte).

(** The size of a block, as a [size_t]. *)
Definition blen (b : block) : Z := Z.of_nat (length b).

(** [n] zero bytes. *)
Definition zeros (n : Z) : block := replicate (Z.to_nat n) Byte.x00.

(** [memcpy(b + off, d, |d|)]. *)
Definition mem_write (b : block) (off : Z) (d : block) : option block :=
  if bool_decide (0 <= off ∧ off + blen d <= blen b) then
    Some (take (Z.to_nat off) b ++ d ++ drop (Z.to_nat off + length d) b)
  else None.

(** The bytes [b[off .. off+n-1]], the source of a [memcpy]. *)
Definition mem_read (b : block) (off n : Z) : option block :=
  if bool_decide (0 <= off ∧ 0 <= n ∧ off + n <= blen b) then
    Some (take (Z.to_nat n) (drop (Z.to_nat off) b))
  else None.

(** [memset(b + off, 0, n)]. *)
Definition mem_zero (b : block) (off n : Z) : option block :=
  if bool_decide (0 <= off ∧ 0 <= n ∧ off + n <= blen b) then
    mem_write b off (zeros n)
  else None.

(** [realloc(b, n)] when it succeeds: the common prefix is kept and the bytes
    added have the unspecified values [junk]. *)
Definition realloc_block (b : block) (n : Z) (junk : nat → Init.Byte.byte) : block :=
  take (Z.to_nat n) b ++ (junk <$> seq (length b) (Z.to_nat n - length b)).

(** ** C strings *)

(** The bytes of a string, without its terminator. *)
Definition chars (s : string) : block := list_byte_of_string s.

(** [strncpy(dst, src, n)]: the first [n] bytes of [src], padded with NUL up to
    [n]; the rest of [dst] is untouched. *)
Definition strncpy (dst : block) (src : string) (n : nat) : block :=
  take n (chars src ++ replicate n Byte.x00) ++ drop n dst.

(** The bytes before the first NUL; [None] when there is no NUL. *)
Fixpoint until_nul (b : block) : option block :=
  match b with
  | [] => None
  | c :: b' => if decide (c = Byte.x00) then Some [] else cons c <$> until_nul b'
  end.

(** The string a character array holds; [None] when it has no terminator. *)
Definition c_str (b : block) : option string := string_of_list_byte <$> until_nul b.

(** The string a zeroed array of [n + 1] bytes holds after
    [strncpy(dst, s, n)]: [s], cut to its first [n] characters. *)
Definition str_take (n : nat) (s : string) : string :=
  string_of_list_byte (take n (chars s)).

(** The characters of a C string are not NUL. *)
Definition c_string (s : string) : Prop := Byte.x00 ∉ chars s.

(** [snprintf(dst, n, "%s...", s...)] with [n > 0]: the formatted text [s], cut to
    its first [n - 1] characters. *)
Definition snprintf (n : Z) (s : string) : string := str_take (Z.to_nat (n - 1)) s.

(** ** Tactics *)

(** Case analysis on the tests of the goal and of the hypotheses. *)
Ltac split_ifs :=
  repeat match goal with
  | |- context [if ?b then _ else _] => destruct b eqn:?
  | H : context [if ?b then _ else _] |- _ => destruct b eqn:?
  end.

(** Turn boolean comparisons into propositions. *)
Ltac to_prop :=
  repeat match goal with
  | H : bool_decide _ = true |- _ => apply bool_decide_eq_true_1 in H
  | H : bool_decide _ = false |- _ => apply bool_decide_eq_false_1 in H
  | H : (_ <=? _) = true |- _ => apply Z.leb_le in H
  | H : (_ <=? _) = false |- _ => apply Z.leb_gt in H
  | H : (_ <? _) = true |- _ => apply Z.ltb_lt in H
  | H : (_ <? _) = false |- _ => apply Z.ltb_ge in H
  | H : (_ =? _) = true |- _ => apply Z.eqb_eq in H
  | H : (_ =? _) = false |- _ => apply Z.eqb_neq in H
  | H : (_ && _) = true |- _ => apply andb_true_iff in H; destruct H
  | H : (_ || _) = false |- _ => apply orb_false_iff in H; destruct H
  end.

(** Decide the test of an [if] from the arithmetic in the context. *)
Ltac if_true := rewrite bool_decide_eq_true_2 by (unfold blen in *; lia).

(** ** Integer lemmas *)

Create HintDb xdev discriminated.
Create HintDb xlen discriminated.

Lemma wrap64_small z : u64 z → wrap64 z = z.
Proof. apply Z.mod_small. Qed.

Lemma wrap32_small z : u32 z → wrap32 z = z.
Proof. apply Z.mod_small. Qed.

Lemma wrap64_range z : u64 (wrap64 z).
Proof. apply Z.mod_pos_bound. lia. Qed.

Lemma wrap32_range z : u32 (wrap32 z).
Proof. apply Z.mod_pos_bound. lia. Qed.

#[export] Hint Resolve wrap64_range wrap32_range : xdev.

(** ** Lists *)

Lemma take_drop_middle_len {A} (l : list A) (i n : nat) :
  (i + n <= length l)%nat → length (take n (drop i l)) = n.
Proof. intros. rewrite length_take, length_drop. lia. Qed.

(** ** Blocks *)

Lemma blen_nonneg b : 0 <= blen b.
Proof. unfold blen. lia. Qed.

Lemma blen_app b1 b2 : blen (b1 ++ b2) = blen b1 + blen b2.
Proof. unfold blen. rewrite length_app. lia. Qed.

Lemma blen_zeros n : 0 <= n → blen (zeros n) = n.
Proof. intros. unfold blen, zeros. rewrite length_replicate. lia. Qed.

Lemma blen_take n b : 0 <= n <= blen b → blen (take (Z.to_nat n) b) = n.
Proof. unfold blen. intros. rewrite length_take. lia. Qed.

Lemma blen_realloc b n junk : 0 <= n → blen (realloc_block b n junk) = n.
Proof.
  intros. unfold blen, realloc_block.
  rewrite length_app, length_take, length_fmap, length_seq. lia.
Qed.

(** Reallocation keeps the common prefix. *)
Lemma take_realloc b n junk (k : nat) :
  (k <= length b)%nat → (k <= Z.to_nat n)%nat →
  take k (realloc_block b n junk) = take k b.
Proof.
  intros. unfold realloc_block.
  rewrite take_app_le by (rewrite length_take; lia). rewrite take_take. f_equal. lia.
Qed.

Lemma mem_write_Some b off d b' :
  mem_write b off d = Some b' ↔
  0 <= off ∧ off + blen d <= blen b ∧
  b' = take (Z.to_nat off) b ++ d ++ drop (Z.to_nat off + length d) b.
Proof.
  unfold mem_write. case_bool_decide as H; split; try done; try tauto.
  - intros [= <-]. tauto.
  - by intros (_&_&->).
Qed.

Lemma mem_write_in b off d :
  0 <= off → off + blen d <= blen b →
  mem_write b off d = Some (take (Z.to_nat off) b ++ d ++ drop (Z.to_nat off + length d) b).
Proof. intros. apply mem_write_Some. auto. Qed.

Lemma mem_write_len b off d b' : mem_write b off d = Some b' → length b' = length b.
Proof.
  intros (?&?&->)%mem_write_Some. unfold blen in *.
  rewrite !length_app, length_take, length_drop. lia.
Qed.

Lemma mem_read_Some b off n d :
  mem_read b off n = Some d ↔
  0 <= off ∧ 0 <= n ∧ off + n <= blen b ∧ d = take (Z.to_nat n) (drop (Z.to_nat off) b).
Proof.
  unfold mem_read. case_bool_decide as H; split; try done; try tauto.
  - intros [= <-]. tauto.
  - by intros (_&_&_&->).
Qed.

(** The whole block. *)
Lemma mem_read_all d : mem_read d 0 (blen d) = Some d.
Proof. apply mem_read_Some. unfold blen. rewrite Nat2Z.id, drop_0, take_ge by lia. split_and!; (done || lia). Qed.

(** The whole block, not looked at when it is empty. *)
Lemma mem_read_data d : (if 0 <? blen d then mem_read d 0 (blen d) else Some []) = Some d.
Proof.
  destruct (0 <? blen d) eqn:Hd; [apply mem_read_all|]. apply Z.ltb_ge in Hd.
  destruct d; [done|]. unfold blen in Hd. cbn in Hd. lia.
Qed.

Lemma mem_read_blen b off n d : mem_read b off n = Some d → blen d = n.
Proof.
  intros (?&?&?&->)%mem_read_Some. unfold blen in *.
  rewrite length_take, length_drop. lia.
Qed.

Lemma mem_zero_in b off n :
  0 <= off → 0 <= n → off + n <= blen b →
  mem_zero b off n =
    Some (take (Z.to_nat off) b ++ zeros n ++ drop (Z.to_nat (off + n)) b).
Proof.
  intros. unfold mem_zero. rewrite bool_decide_eq_true_2 by lia.
  rewrite mem_write_in by (rewrite ?blen_zeros; lia).
  unfold zeros at 2. rewrite length_replicate.
  by replace (Z.to_nat (off + n)) with (Z.to_nat off + Z.to_nat n)%nat by lia.
Qed.

(** ** C strings *)

Lemma string_of_chars s : string_of_list_byte (chars s) = s.
Proof. apply string_of_list_byte_of_string. Qed.

Lemma chars_of_bytes b : chars (string_of_list_byte b) = b.
Proof. apply list_byte_of_string_of_list_byte. Qed.

#[export] Instance chars_inj : Inj (=) (=) chars.
Proof. intros s1 s2 H. by rewrite <- (string_of_chars s1), H, string_of_chars. Qed.

Lemma chars_str_take n s : chars (str_take n s) = take n (chars s).
Proof. apply chars_of_bytes. Qed.

Lemma str_take_short n s : (length (chars s) <= n)%nat → str_take n s = s.
Proof.
  intros. unfold str_take. rewrite take_ge by done. apply string_of_chars.
Qed.

Lemma chars_append s1 s2 : chars (s1 +:+ s2) = chars s1 ++ chars s2.
Proof.
  unfold chars, list_byte_of_string.
  induction s1 as [|c s1 IH]; cbn; [done|].
  change (String c s1 +:+ s2) with (String c (s1 +:+ s2)). cbn. by rewrite IH.
Qed.

Lemma length_strncpy dst src n :
  (n <= length dst)%nat → length (strncpy dst src n) = length dst.
Proof.
  intros. unfold strncpy.
  rewrite length_app, length_take, length_app, length_replicate, length_drop. lia.
Qed.

Lemma until_nul_app b rest :
  Byte.x00 ∉ b → until_nul (b ++ Byte.x00 :: rest) = Some b.
Proof.
  induction b as [|c b IH]; intros Hb; cbn; [done|].
  rewrite decide_False by set_solver. rewrite IH by set_solver. done.
Qed.

(** A string shorter than the copied length is stored whole, terminator
    included. *)
Lemma c_str_strncpy dst src n :
  c_string src → (length (chars src) < n)%nat → c_str (strncpy dst src n) = Some src.
Proof.
  intros Hs Hn. unfold c_str, strncpy.
  rewrite take_app_ge, take_replicate, <- app_assoc by lia.
  destruct (n - length (chars src))%nat as [|k] eqn:Hk; [lia|].
  rewrite Nat.min_l by lia. cbn [replicate app].
  rewrite until_nul_app by done. cbn. by rewrite string_of_chars.
Qed.

(** [str_take] is what a zeroed array holds. *)
Lemma c_str_strncpy_zeroed src n :
  c_string src →
  c_str (strncpy (replicate (S n) Byte.x00) src n) = Some (str_take n src).
Proof.
  intros Hs. unfold c_str, strncpy.
  rewrite drop_replicate. replace (S n - n)%nat with 1%nat by lia. cbn [replicate].
  destruct (decide (length (chars src) < n)%nat) as [Hlt|Hge].
  - rewrite take_app_ge, take_replicate, <- app_assoc by lia.
    destruct (n - length (chars src))%nat as [|k] eqn:Hk; [lia|].
    rewrite Nat.min_l by lia. cbn [replicate app].
    rewrite until_nul_app by done. cbn.
    by rewrite str_take_short, string_of_chars by lia.
  - rewrite take_app_le by lia. rewrite until_nul_app; [done|].
    intros (i&Hi&_)%elem_of_take.
    apply Hs. apply list_elem_of_lookup. eauto.
Qed.

(** ** Decimal numbers *)

Lemma chars_cons c s : chars (String c s) = Ascii.byte_of_ascii c :: chars s.
Proof. done. Qed.

Lemma digit_not_nul d : Ascii.byte_of_ascii (pretty_N_char d) ≠ Byte.x00.
Proof. unfold pretty_N_char. by repeat case_match. Qed.

Lemma pretty_N_go_chars (k : nat) x s :
  (x < 10 ^ N.of_nat k)%N → c_string s →
  (length (chars (pretty_N_go x s)) <= k + length (chars s))%nat ∧ c_string (pretty_N_go x s).
Proof.
  revert x s. induction k as [|k IH]; intros x s Hx Hs.
  { assert (x = 0%N) as -> by (cbn in Hx; lia). rewrite pretty_N_go_0. split; [lia|done]. }
  destruct (decide (x = 0%N)) as [->|Hne]; [rewrite pretty_N_go_0; split; [lia|done]|].
  rewrite pretty_N_go_step by lia.
  destruct (IH (x `div` 10)%N (String (pretty_N_char (x `mod` 10)) s)) as [Hlen Hnul].
  - rewrite Nat2N.inj_succ, N.pow_succ_r' in Hx. apply N.Div0.div_lt_upper_bound. lia.
  - unfold c_string. rewrite chars_cons. intros [Hd|?]%elem_of_cons; [|done].
    symmetry in Hd. by apply digit_not_nul in Hd.
  - rewrite (chars_cons _ s), length_cons in Hlen. split; [lia|done].
Qed.

Lemma pretty_chars (k : nat) (x : N) :
  (0 < k)%nat → (x < 10 ^ N.of_nat k)%N → (length (chars (pretty x)) <= k)%nat ∧ c_string (pretty x).
Proof.
  intros Hk Hx. unfold pretty, pretty_N. case_decide.
  { split; [cbn; lia|]. unfold c_string. by apply (bool_decide_unpack _). }
  destruct (pretty_N_go_chars k x "") as [Hlen Hnul]; [done|unfold c_string; cbn; set_solver|].
  change (length (chars "")) with 0%nat in Hlen. split; [lia|done].
Qed.
