(* ===== verification/Workers.v ===== *)
(** * Workers: threads that make calls on a shared state

    What the concurrent models of the storage components have in common. A thread is a
    worker with a list of calls to make, in order; a call is a first step, and further
    ones as long as it has not returned, between any two of which other workers can take
    theirs. A call takes effect in one of its steps: [effect] says whether it has, and
    with which result. [conc_run_sim] lifts a simulation of single steps to runs: the
    results of the threads are those of the calls made one after the other, in the order
    of their effects, which keeps the order of each thread. *)

From stdpp Require Import base numbers list.
From S2P Require Import XDevice Prelude.

Section workers.
Context {S C G R : Type}.

(** The first step of a call, and a later one: it goes on, or returns. [None] is
    undefined behaviour. *)
Context (begin_call : C → S → option (S * G)).
Context (go_on : C → G → S → option (S * (G + R))).

Record worker := mk_worker {
  wk_todo : list C;
  wk_now : option (C * G);
  wk_done : list R
}.

Record conc := mk_conc { cc_state : S; cc_workers : list worker }.

(** Without anything to do a step does nothing. *)
Definition worker_step (s : S) (wk : worker) : option (S * worker) :=
  match wk_now wk with
  | Some (c, g) =>
      '(s, o) ← go_on c g s;
      Some (s, match o with
               | inl g => mk_worker (wk_todo wk) (Some (c, g)) (wk_done wk)
               | inr r => mk_worker (wk_todo wk) None (wk_done wk ++ [r])
               end)
  | None =>
      match wk_todo wk with
      | [] => Some (s, wk)
      | c :: todo => '(s, g) ← begin_call c s; Some (s, mk_worker todo (Some (c, g)) (wk_done wk))
      end
  end.

Definition conc_step (s : conc) (k : nat) : option conc :=
  match cc_workers s !! k with
  | None => Some s
  | Some wk =>
      '(st, wk) ← worker_step (cc_state s) wk;
      Some (mk_conc st (<[k := wk]> (cc_workers s)))
  end.

(** A schedule says whose step is next. *)
Fixpoint conc_run (s : conc) (sched : list nat) : option conc :=
  match sched with
  | [] => Some s
  | k :: sched => s ← conc_step s k; conc_run s sched
  end.

Definition fresh_worker (todo : list C) : worker := mk_worker todo None [].

Definition conc_start (s : S) (todos : list (list C)) : conc := mk_conc s (fresh_worker <$> todos).

(** ** The order of the effects *)

(** A call of a thread, with its result. *)
Abbreviation event := (nat * (C * R))%type.

Definition of_thread (k : nat) (evs : list event) : list (C * R) :=
  snd <$> filter (λ ev : event, ev.1 = k) evs.

Context (effect : G → option R).

(** The results of the calls that have taken effect, and the calls that have not. *)
Definition effected (wk : worker) : list R :=
  wk_done wk ++ match wk_now wk with Some (_, g) => option_list (effect g) | None => [] end.

Definition waiting (wk : worker) : list C :=
  match wk_now wk with
  | Some (c, g) => match effect g with Some _ => wk_todo wk | None => c :: wk_todo wk end
  | None => wk_todo wk
  end.

(** Between [s] and [s'] the calls [evs] take effect. *)
Definition follows (s s' : conc) (evs : list event) : Prop :=
  ∀ k wk, cc_workers s !! k = Some wk → ∃ wk', cc_workers s' !! k = Some wk' ∧
    effected wk' = effected wk ++ (of_thread k evs).*2 ∧
    waiting wk = (of_thread k evs).*1 ++ waiting wk'.

Lemma of_thread_app k evs1 evs2 : of_thread k (evs1 ++ evs2) = of_thread k evs1 ++ of_thread k evs2.
Proof. unfold of_thread. by rewrite filter_app, fmap_app. Qed.

Lemma of_thread_one k j x : of_thread k [(j, x)] = if decide (j = k) then [x] else [].
Proof. unfold of_thread. rewrite filter_cons. cbn [fst]. by case_decide. Qed.

Lemma follows_refl s : follows s s [].
Proof. intros k wk Hk. exists wk. by rewrite app_nil_r. Qed.

Lemma follows_trans s1 s2 s3 evs1 evs2 :
  follows s1 s2 evs1 → follows s2 s3 evs2 → follows s1 s3 (evs1 ++ evs2).
Proof.
  intros H1 H2 k wk Hk. destruct (H1 k wk Hk) as (wk2&Hk2&He2&Hw2).
  destruct (H2 k wk2 Hk2) as (wk3&Hk3&He3&Hw3). exists wk3. split; [done|].
  rewrite of_thread_app, !fmap_app. split; [by rewrite He3, He2, app_assoc|by rewrite Hw2, Hw3, app_assoc].
Qed.

(** A step of one worker. *)
Lemma follows_step s k wk st wk' (evs : list (C * R)) :
  cc_workers s !! k = Some wk →
  effected wk' = effected wk ++ evs.*2 → waiting wk = evs.*1 ++ waiting wk' →
  follows s (mk_conc st (<[k := wk']> (cc_workers s))) (pair k <$> evs).
Proof.
  intros Hk He Hw j wj Hj. cbn [cc_workers].
  assert (Hf : of_thread j (pair k <$> evs) = if decide (k = j) then evs else []).
  { unfold of_thread. induction evs as [|x l IH] in |- *; [by case_decide|]. cbn [fmap list_fmap].
    rewrite filter_cons. cbn [fst]. case_decide; [cbn; by f_equal|done]. }
  rewrite Hf. destruct (decide (k = j)) as [<-|Hne].
  - rewrite Hk in Hj. injection Hj as <-. exists wk'. split; [|done].
    apply list_lookup_insert_eq. by eapply lookup_lt_Some.
  - exists wj. rewrite list_lookup_insert_ne by done. by rewrite app_nil_r.
Qed.

(** ** Simulation *)

Section simulation.
Context {Q : Type} (spec : Q → C → R → Q → Prop) (rel : conc → Q → Prop).

(** The calls one after the other. *)
Inductive spec_run : Q → list (C * R) → Q → Prop :=
| spec_nil q : spec_run q [] q
| spec_cons q c r q' evs q'' : spec q c r q' → spec_run q' evs q'' → spec_run q ((c, r) :: evs) q''.

Lemma spec_run_app q1 q2 q3 evs1 evs2 :
  spec_run q1 evs1 q2 → spec_run q2 evs2 q3 → spec_run q1 (evs1 ++ evs2) q3.
Proof. induction 1; [done|]. intros. econstructor; eauto. Qed.

Lemma spec_run_one q c r q' : spec q c r q' → spec_run q [(c, r)] q'.
Proof. intros. repeat (econstructor; eauto). Qed.

(** Every step of a related state is a call that takes effect, or none. *)
Definition simulates : Prop :=
  ∀ s q k, rel s q →
    ∃ s' evs q', conc_step s k = Some s' ∧ spec_run q (snd <$> evs) q' ∧ rel s' q' ∧ follows s s' evs.

Lemma conc_run_sim s q sched :
  simulates → rel s q →
  ∃ s' evs q', conc_run s sched = Some s' ∧ spec_run q (snd <$> evs) q' ∧ rel s' q' ∧ follows s s' evs.
Proof.
  intros Hsim. revert s q. induction sched as [|k sched IH]; intros s q Hr.
  { exists s, [], q. split_and!; [done|constructor|done|apply follows_refl]. }
  destruct (Hsim s q k Hr) as (s1&evs1&q1&Hs1&Hq1&Hr1&Hf1).
  destruct (IH s1 q1 Hr1) as (s'&evs&q'&Hs'&Hq'&Hr'&Hf'). exists s', (evs1 ++ evs), q'.
  cbn [conc_run]. rewrite Hs1, fmap_app. split_and!; [done|by eapply spec_run_app|done|by eapply follows_trans].
Qed.

End simulation.

(** ** A schedule that is long enough *)

(** A call that has begun makes at most [left g] more steps, and any call at most
    [bound]. *)
Context (bound : nat) (left : G → nat).

Record bounded : Prop := {
  bd_begin c s s' g : begin_call c s = Some (s', g) → (left g < bound)%nat;
  bd_go c g s s' g' : go_on c g s = Some (s', inl g') → (left g' < left g)%nat;
  bd_pos g : (0 < left g)%nat
}.

Definition worker_left (wk : worker) : nat :=
  bound * length (wk_todo wk) + match wk_now wk with Some (_, g) => left g | None => 0 end.

Lemma worker_step_left s wk s' wk' :
  bounded → worker_step s wk = Some (s', wk') → (worker_left wk' <= pred (worker_left wk))%nat.
Proof.
  intros Hb. unfold worker_step, worker_left. destruct wk as [[|c todo] [[c' g]|] d]; cbn.
  - destruct (go_on c' g s) as [[s1 [g'|r]]|] eqn:Hg; [| |done]; cbn; intros [= <- <-]; cbn.
    + pose proof (bd_go Hb _ _ _ _ _ Hg). lia.
    + lia.
  - intros [= <- <-]. cbn. lia.
  - destruct (go_on c' g s) as [[s1 [g'|r]]|] eqn:Hg; [| |done]; cbn; intros [= <- <-]; cbn.
    + pose proof (bd_go Hb _ _ _ _ _ Hg). lia.
    + pose proof (bd_pos Hb g). lia.
  - destruct (begin_call c s) as [[s1 g]|] eqn:Hg; [|done]. cbn. intros [= <- <-]. cbn.
    pose proof (bd_begin Hb _ _ _ _ Hg). lia.
Qed.

Lemma conc_run_left s sched s' k wk :
  bounded → conc_run s sched = Some s' → cc_workers s !! k = Some wk →
  ∃ wk', cc_workers s' !! k = Some wk' ∧
    (worker_left wk' <= worker_left wk - length (filter (k =.) sched))%nat.
Proof.
  intros Hb. revert s wk. induction sched as [|j sched IH]; intros s wk Hr Hk.
  { cbn in Hr. injection Hr as <-. exists wk. split; [done|cbn; lia]. }
  cbn [conc_run] in Hr. destruct (conc_step s j) as [s1|] eqn:Hs; [|done]. cbn [mbind option_bind] in Hr.
  unfold conc_step in Hs. rewrite filter_cons. destruct (decide (k = j)) as [<-|Hne].
  - rewrite Hk in Hs. destruct (worker_step (cc_state s) wk) as [[p wk1]|] eqn:Hw; [|done].
    cbn in Hs. injection Hs as <-. destruct (IH (mk_conc p (<[k := wk1]> (cc_workers s))) wk1 Hr) as (wk'&?&Hl).
    { cbn. apply list_lookup_insert_eq. by eapply lookup_lt_Some. }
    exists wk'. split; [done|]. pose proof (worker_step_left _ _ _ _ Hb Hw). cbn. lia.
  - destruct (cc_workers s !! j) as [wj|]; [|injection Hs as <-; by apply (IH _ wk Hr)].
    destruct (worker_step (cc_state s) wj) as [[p wk1]|]; [|done]. cbn in Hs. injection Hs as <-.
    apply (IH _ wk Hr). cbn. by rewrite list_lookup_insert_ne.
Qed.

Lemma conc_run_length s sched s' :
  conc_run s sched = Some s' → length (cc_workers s') = length (cc_workers s).
Proof.
  revert s. induction sched as [|k sched IH]; intros s Hr; cbn [conc_run] in Hr; [by injection Hr as <-|].
  destruct (conc_step s k) as [s1|] eqn:Hs; [|done]. rewrite (IH _ Hr). unfold conc_step in Hs.
  destruct (cc_workers s !! k) as [wk|]; [|by injection Hs as <-].
  destruct (worker_step (cc_state s) wk) as [[p wk1]|]; [|done]. injection Hs as <-. apply length_insert.
Qed.

(** Every call of every thread has returned, with the results of [evs]. *)
Definition all_returned (todos : list (list C)) (s : conc) (evs : list event) : Prop :=
  length (cc_workers s) = length todos ∧
  ∀ k todo, todos !! k = Some todo →
    cc_workers s !! k = Some (mk_worker [] None (of_thread k evs).*2) ∧ todo = (of_thread k evs).*1.

(** A schedule that gives every thread its steps. *)
Definition fair (todos : list (list C)) (sched : list nat) : Prop :=
  ∀ k todo, todos !! k = Some todo → (bound * length todo <= length (filter (k =.) sched))%nat.

(** All calls return in a run that takes every thread far enough. *)
Lemma run_returns st todos sched s evs :
  bounded → fair todos sched → (0 < bound)%nat →
  conc_run (conc_start st todos) sched = Some s → follows (conc_start st todos) s evs →
  all_returned todos s evs.
Proof.
  intros Hb Hfair Hb0 Hrun Hfol. split.
  { rewrite (conc_run_length _ _ _ Hrun). cbn. by rewrite length_fmap. }
  intros k todo Hk. assert (Hk0 : cc_workers (conc_start st todos) !! k = Some (fresh_worker todo)).
  { cbn. by rewrite list_lookup_fmap, Hk. }
  destruct (conc_run_left _ _ _ _ _ Hb Hrun Hk0) as (wk&Hwk&Hl). specialize (Hfair k todo Hk).
  destruct (Hfol k _ Hk0) as (wk'&Hwk'&He&Hw). rewrite Hwk in Hwk'. injection Hwk' as <-.
  assert (H0 : worker_left wk = 0%nat).
  { assert (Hs : worker_left (fresh_worker todo) = (bound * length todo)%nat) by (unfold worker_left; cbn; lia). lia. }
  destruct wk as [t n d]. unfold worker_left in H0. cbn in H0.
  assert (n = None) as -> by (destruct n as [[c g]|]; [pose proof (bd_pos Hb g); lia|done]).
  assert (t = []) as -> by (destruct t; [done|cbn in H0; lia]).
  cbn in He, Hw. rewrite app_nil_r in He, Hw. by subst.
Qed.

(** ** What the calls under way have still to do *)

Context {U : Type} (pending : C * G → option U).

Definition pending_of (wk : worker) : option U := x ← wk_now wk; pending x.

Definition all_pending (ws : list worker) : list U := omap pending_of ws.

Lemma delete_insert_same {A} (l : list A) k x : delete k (<[k := x]> l) = delete k l.
Proof. revert k. induction l as [|y l IH]; intros [|k]; [done..|]. exact (f_equal (cons y) (IH k)). Qed.

(** Thread [k] replaced by [wk']. *)
Lemma all_pending_insert ws k wk wk' :
  ws !! k = Some wk →
  all_pending ws ≡ₚ option_list (pending_of wk) ++ all_pending (delete k ws) ∧
  all_pending (<[k := wk']> ws) ≡ₚ option_list (pending_of wk') ++ all_pending (delete k ws).
Proof.
  intros Hk. assert (Hone : ∀ x l, all_pending (x :: l) = option_list (pending_of x) ++ all_pending l).
  { intros x l. unfold all_pending. cbn. by destruct (pending_of x). }
  split.
  - rewrite <- Hone. unfold all_pending. by rewrite (delete_Permutation ws k wk Hk) at 1.
  - rewrite <- Hone. unfold all_pending.
    rewrite (delete_Permutation (<[k:=wk']> ws) k wk') by (apply list_lookup_insert_eq; by eapply lookup_lt_Some).
    by rewrite delete_insert_same.
Qed.

Lemma nothing_pending todos s evs : all_returned todos s evs → all_pending (cc_workers s) = [].
Proof.
  intros [Hlen Hall]. assert (Hn : Forall (λ wk, pending_of wk = None) (cc_workers s)).
  { apply Forall_lookup_2. intros k wk Hk. assert (is_Some (todos !! k)) as [todo Ht].
    { apply lookup_lt_is_Some. rewrite <- Hlen. by eapply lookup_lt_Some. }
    destruct (Hall k todo Ht) as [Hw _]. rewrite Hk in Hw. injection Hw as ->. done. }
  clear -Hn. induction Hn as [|wk ws Hwk _ IH]; [done|]. unfold all_pending in *. cbn. by rewrite Hwk.
Qed.

Lemma fresh_pending st todos : all_pending (cc_workers (conc_start st todos)) = [].
Proof. cbn. induction todos; [done|exact IHtodos]. Qed.

End workers.

Arguments worker : clear implicits.
Arguments conc : clear implicits.

(** What a step of a worker makes of its results and its calls. *)
Ltac solve_follows := unfold effected, waiting; cbn; by rewrite ?app_nil_r.
