(* ===== verification/Libc.v ===== *)
(** * Libc: what a call obtains from the C library

    Every answer of the C library the modelled code branches on (does an
    allocation succeed, what time is it, what does [rand] return, what does
    fresh memory contain) is a field of a [call_env], the environment of one
    call of an API function. A definition takes the environment as an argument,
    so a theorem stated for all environments covers every run. The [nat]
    argument of a field numbers the uses inside one call, in program order. *)

From stdpp Require Import base numbers list.
From S2P Require Import Prelude.
Local Open Scope Z_scope.

(** [struct timespec]. *)
Record timespec := mk_timespec { tv_sec : Z; tv_nsec : Z }.

Record call_env := mk_call_env {
  malloc_ok : nat → bool;            (* the k-th malloc/realloc of the call *)
  mutex_init_ok : nat → bool;        (* the k-th pthread_*_init of the call *)
  time_now : nat → Z;                (* the k-th time(NULL), in seconds *)
  clock_start : timespec;            (* first clock_gettime *)
  clock_end : timespec;              (* second clock_gettime *)
  rand_value : Z;                    (* rand() *)
  junk : nat → Init.Byte.byte        (* contents of memory never written *)
}.

(** An environment in which every request succeeds. *)
Definition default_env : call_env :=
  {| malloc_ok := λ _, true; mutex_init_ok := λ _, true; time_now := λ _, 1700000000;
     clock_start := mk_timespec 10 500; clock_end := mk_timespec 10 900;
     rand_value := 0; junk := λ _, Byte.xaa |}.

(** [(end.tv_sec - start.tv_sec) * 1000000000UL + (end.tv_nsec - start.tv_nsec)]
    at type [uint64_t], as every I/O path computes its latency. *)
Definition latency_ns (t0 t1 : timespec) : Z :=
  wrap64 ((tv_sec t1 - tv_sec t0) * 1000000000 + (tv_nsec t1 - tv_nsec t0)).

Lemma latency_ns_range t0 t1 : u64 (latency_ns t0 t1).
Proof. apply wrap64_range. Qed.
#[export] Hint Resolve latency_ns_range : xdev.

(** With normalised timestamps in order, the latency is the elapsed time. *)
Lemma latency_ns_exact t0 t1 :
  0 <= tv_nsec t0 < 1000000000 → 0 <= tv_nsec t1 < 1000000000 →
  tv_sec t0 * 1000000000 + tv_nsec t0 <= tv_sec t1 * 1000000000 + tv_nsec t1 →
  tv_sec t1 - tv_sec t0 < 2 ^ 32 →
  latency_ns t0 t1 =
    (tv_sec t1 * 1000000000 + tv_nsec t1) - (tv_sec t0 * 1000000000 + tv_nsec t0).
Proof. intros. unfold latency_ns. rewrite wrap64_small; [lia|]. unfold u64. lia. Qed.
