(* ===== verification/StorageInterface.v ===== *)
(** * StorageInterface: the storage abstraction ([include/storage_interface.h])

    The data every backend shares: statistics, file information, the interface
    object with its private data, and the table of function pointers. A C
    pointer that may be NULL is an [option]. The function pointers take the
    interface object, which the table itself is part of in C; here the object
    ([iface]) and its table ([storage_vtable]) are two records, paired in
    [storage_interface_t], so that the type is not circular. *)

From stdpp Require Import base numbers list strings.
From S2P Require Import XDevice Prelude Libc.
Local Open Scope Z_scope.

Record storage_file_info_t := mk_file_info {
  info_size : Z;
  info_created_time : Z;
  info_modified_time : Z;
  info_permissions : Z;
  info_is_directory : bool
}.

Record storage_stats_t := mk_stats {
  read_ops : Z;
  write_ops : Z;
  read_bytes : Z;
  write_bytes : Z;
  read_latency_avg_ns : Z;
  write_latency_avg_ns : Z;
  read_latency_p99_ns : Z;
  write_latency_p99_ns : Z;
  error_count : Z;
  timeout_count : Z
}.

(** The part of a [storage_interface_t] that is data. *)
Record iface (P : Type) := mk_iface {
  if_type : storage_backend_type_t;
  if_name : string;
  if_private : option P
}.
Arguments mk_iface {P}.
Arguments if_type {P}.
Arguments if_name {P}.
Arguments if_private {P}.

(** A possibly NULL pointer to an interface object, as a function sees it. *)
Definition iptr (P : Type) : Type := option (iface P).

(** [iface->private_data], when neither pointer is NULL. *)
Definition private_of {P} (p : iptr P) : option P := i ← p; if_private i.

(** The object after its private data has been replaced or modified. *)
Definition set_private {P} (p : iptr P) (priv : option P) : iptr P :=
  (λ i : iface P, mk_iface (if_type i) (if_name i) priv) <$> p.

(** [memset(&stats, 0, sizeof(storage_stats_t))]. *)
Definition zero_stats : storage_stats_t := mk_stats 0 0 0 0 0 0 0 0 0 0.

(** The three updates of the statistics that the backends and the manager make. *)
Definition count_read (st : storage_stats_t) (bytes latency : Z) : storage_stats_t :=
  st <| read_ops := read_ops st ⊞ 1 |>
     <| read_bytes := read_bytes st ⊞ bytes |>
     <| read_latency_avg_ns := (read_latency_avg_ns st ⊞ latency) / 2 |>.

Definition count_write (st : storage_stats_t) (bytes latency : Z) : storage_stats_t :=
  st <| write_ops := write_ops st ⊞ 1 |>
     <| write_bytes := write_bytes st ⊞ bytes |>
     <| write_latency_avg_ns := (write_latency_avg_ns st ⊞ latency) / 2 |>.

Definition count_error (st : storage_stats_t) : storage_stats_t :=
  st <| error_count := error_count st ⊞ 1 |>.

(** ** The function table

    [W] is what the functions share beside the interface object (a file system,
    say) and [E] the environment of a call. A function returns its [int] result,
    the object and the shared world after the call, and its output buffer;
    [None] is undefined behaviour. A pointer that may be NULL is an [option]. The
    entries are in the order of the C table. Not in the record are [read_async],
    [write_async] and [batch_operations]: both backends set them to NULL, and nothing
    calls them. *)
Record storage_vtable (E W P : Type) := mk_vtable {
  vt_init : option (E → W → iptr P → option string → option (Z * W * iptr P));
  vt_cleanup : option (E → W → iptr P → option (Z * W * iptr P));
  vt_health_check : option (E → W → iptr P → option (Z * W * iptr P));
  vt_read_sync : option (E → W → iptr P → option string → Z → option block → Z →
                         option (Z * W * iptr P * option block));
  vt_write_sync : option (E → W → iptr P → option string → Z → option block → Z →
                          option (Z * W * iptr P));
  vt_fsync : option (E → W → iptr P → option string → option (Z * W * iptr P));
  vt_create_file : option (E → W → iptr P → option string → Z → option (Z * W * iptr P));
  vt_delete_file : option (E → W → iptr P → option string → option (Z * W * iptr P));
  vt_get_file_info : option (E → W → iptr P → option string → option storage_file_info_t →
                             option (Z * W * iptr P * option storage_file_info_t));
  vt_get_stats : option (E → W → iptr P → option storage_stats_t →
                         option (Z * W * iptr P * option storage_stats_t));
  vt_reset_stats : option (E → W → iptr P → option (Z * W * iptr P))
}.
Arguments mk_vtable {E W P}.
Arguments vt_init {E W P}.
Arguments vt_cleanup {E W P}.
Arguments vt_health_check {E W P}.
Arguments vt_read_sync {E W P}.
Arguments vt_write_sync {E W P}.
Arguments vt_fsync {E W P}.
Arguments vt_create_file {E W P}.
Arguments vt_delete_file {E W P}.
Arguments vt_get_file_info {E W P}.
Arguments vt_get_stats {E W P}.
Arguments vt_reset_stats {E W P}.

Record storage_interface_t (E W P : Type) := mk_storage_interface {
  si_iface : iface P;
  si_vtable : storage_vtable E W P
}.
Arguments mk_storage_interface {E W P}.
Arguments si_iface {E W P}.
Arguments si_vtable {E W P}.

(** ** Lemmas *)

Lemma private_of_set {P} (p : iptr P) (priv x : option P) q :
  private_of p = Some q → private_of (set_private p priv) = priv.
Proof. by destruct p. Qed.

Lemma iface_id {P} (i : iface P) priv : if_private i = Some priv → i <| if_private := Some priv |> = i.
Proof. destruct i; cbn. by intros ->. Qed.

Lemma iface_same {P} (i : iface P) priv :
  if_private i = Some priv → Some (i <| if_private := Some priv |>) = Some i.
Proof. intros Hi. by rewrite iface_id. Qed.

(** A statistics record all of whose counters are in range. *)
Definition stats_u64 (st : storage_stats_t) : Prop :=
  u64 (read_ops st) ∧ u64 (write_ops st) ∧ u64 (read_bytes st) ∧ u64 (write_bytes st) ∧
  u64 (read_latency_avg_ns st) ∧ u64 (write_latency_avg_ns st) ∧ u64 (error_count st).

Lemma half_u64 z : u64 z → u64 (z / 2).
Proof. unfold u64. intros. split; [apply Z.div_pos; lia|]. apply Z.div_lt_upper_bound; lia. Qed.
#[export] Hint Resolve half_u64 : xdev.

Lemma stats_u64_zero : stats_u64 zero_stats.
Proof. unfold stats_u64, u64. cbn. lia. Qed.

Lemma stats_u64_read st b l : stats_u64 st → stats_u64 (count_read st b l).
Proof. unfold stats_u64. cbn. intuition auto with xdev. Qed.

Lemma stats_u64_write st b l : stats_u64 st → stats_u64 (count_write st b l).
Proof. unfold stats_u64. cbn. intuition auto with xdev. Qed.

Lemma stats_u64_error st : stats_u64 st → stats_u64 (count_error st).
Proof. unfold stats_u64. cbn. intuition auto with xdev. Qed.

#[export] Hint Resolve stats_u64_zero stats_u64_read stats_u64_write stats_u64_error : xdev.
