(* ===== verification/Counters.v ===== *)
(** * Counters: the statistics of the backends and of the manager, as updates

    Every component that keeps a [storage_stats_t] changes it under a lock of its own, in
    one of three ways. The averages depend on the order of the updates, the counters do
    not. *)

From stdpp Require Import base numbers list.
From S2P Require Import XDevice Prelude StorageInterface.
Local Open Scope Z_scope.

(** What a call does under the lock of the statistics. *)
Inductive stat_update : Set :=
| CountRead (bytes latency : Z)
| CountWrite (bytes latency : Z)
| CountError.

Definition count_update (u : stat_update) (st : storage_stats_t) : storage_stats_t :=
  match u with
  | CountRead bytes latency => count_read st bytes latency
  | CountWrite bytes latency => count_write st bytes latency
  | CountError => count_error st
  end.

Definition update_all (us : list stat_update) (st : storage_stats_t) : storage_stats_t :=
  foldr count_update st us.

(** ** Statistics up to the averages

    The average latencies depend on the order of the updates, the counters do not. *)

Definition counters (st : storage_stats_t) : storage_stats_t :=
  st <| read_latency_avg_ns := 0 |> <| write_latency_avg_ns := 0 |>.

Definition same_counters (st1 st2 : storage_stats_t) : Prop := counters st1 = counters st2.

#[export] Instance same_counters_equiv : Equivalence same_counters.
Proof. unfold same_counters. split; [by intros ?|by intros ???|intros ?????; congruence]. Qed.

Lemma counters_update u st : counters (count_update u st) = counters (count_update u (counters st)).
Proof. by destruct u. Qed.

#[export] Instance count_update_proper u : Proper (same_counters ==> same_counters) (count_update u).
Proof. intros st1 st2 H. unfold same_counters in *. rewrite counters_update, H. by rewrite <- counters_update. Qed.

Lemma wrap64_swap a b c : a ⊞ b ⊞ c = a ⊞ c ⊞ b.
Proof. unfold wrap64. rewrite !Z.add_mod_idemp_l by lia. f_equal. lia. Qed.

Lemma count_update_comm u v st : same_counters (count_update u (count_update v st)) (count_update v (count_update u st)).
Proof.
  destruct st, u as [b l|b l|], v as [b' l'|b' l'|]; unfold same_counters; lazy -[wrap64 Z.add Z.div];
    f_equal; apply wrap64_swap.
Qed.

#[export] Instance update_all_proper us : Proper (same_counters ==> same_counters) (update_all us).
Proof. induction us as [|u us IH]; intros st1 st2 H; [done|]. by apply count_update_proper, IH. Qed.

Lemma update_all_permutation us us' st : us ≡ₚ us' → same_counters (update_all us st) (update_all us' st).
Proof.
  intros H. apply (foldr_permutation same_counters); [intros u; apply count_update_proper|intros; apply count_update_comm|exact H].
Qed.

Lemma update_all_snoc us u st : same_counters (count_update u (update_all us st)) (update_all us (count_update u st)).
Proof.
  change (same_counters (update_all (u :: us) st) (update_all us (count_update u st))).
  rewrite (update_all_permutation (u :: us) (us ++ [u])) by apply Permutation_cons_append.
  unfold update_all at 1. by rewrite foldr_app.
Qed.
