(* ===== verification/StorageSpec.v ===== *)
(** * StorageSpec: what a storage backend promises

    The abstract state of a backend is a finite map from paths to contents. A
    write overlays the data on the old content, which is padded with zeros up to
    the offset; a read returns a segment. [StorageBackend] states the contract
    between a backend's function table and its clients (the storage manager and
    the Raft adapter are proved against it, and the in-memory backend implements
    it). *)

From stdpp Require Import base numbers list strings gmap.
From S2P Require Import XDevice Prelude Libc StorageInterface.
Local Open Scope Z_scope.

(** [c] extended with zeros to [n] bytes, when it is shorter. *)
Definition pad_to (n : Z) (c : block) : block := c ++ zeros (n - blen c).

(** The content after writing [d] at [off]. *)
Definition spec_write (c : block) (off : Z) (d : block) : block :=
  let c := pad_to (off + blen d) c in
  take (Z.to_nat off) c ++ d ++ drop (Z.to_nat off + length d) c.

(** The [n] bytes at [off]; past the end of the content, zeros. *)
Definition spec_read (c : block) (off n : Z) : block :=
  take (Z.to_nat n) (drop (Z.to_nat off) (pad_to (off + n) c)).

(** The abstract file system after a write to [path]: a missing file is empty. *)
Definition spec_write_file (fs : gmap string block) (path : string) (off : Z) (d : block)
    : gmap string block :=
  <[path := spec_write (default [] (fs !! path)) off d]> fs.

(** ** The contract of a backend

    [st_inv w i] says that the interface object [i] is initialised and, in the
    shared world [w], represents the abstract file system [st_files w i].
    [st_ready e] holds of the environments in which the C library grants what
    the backend asks for. *)
Class StorageBackend {E W P : Type} (vt : storage_vtable E W P) := {
  st_inv : W → iface P → Prop;
  st_files : W → iface P → gmap string block;
  st_path_ok : string → Prop;
  st_limit : Z;
  st_ready : E → W → iface P → string → Prop;

  st_limit_u64 : st_limit < 2 ^ 62;

  (** A healthy object reports so, and the check changes nothing. *)
  st_health e w i :
    st_inv w i →
    ∃ f, vt_health_check vt = Some f ∧
         f e w (Some i) = Some (error_code XDEVICE_OK, w, Some i);

  (** A write within the limits either succeeds with the specified content or
      fails without changing any file; when resources are granted it succeeds. *)
  st_write e w i path off d :
    st_inv w i → st_path_ok path → 0 <= off → 0 < blen d → off + blen d <= st_limit →
    ∃ f ret w' i',
      vt_write_sync vt = Some f ∧
      f e w (Some i) (Some path) off (Some d) (blen d) = Some (ret, w', Some i') ∧
      st_inv w' i' ∧ if_type i' = if_type i ∧
      (ret = error_code XDEVICE_OK ∧ st_files w' i' = spec_write_file (st_files w i) path off d
       ∨ ret ≠ error_code XDEVICE_OK ∧ st_files w' i' = st_files w i) ∧
      (st_ready e w i path → ret = error_code XDEVICE_OK);

  (** A read returns and changes no file. Of bytes the file has it returns them;
      past the end of the file, or of a missing file, it fails. *)
  st_read e w i path off n buf :
    st_inv w i → st_path_ok path → 0 <= off → 0 < n → off + n <= st_limit → blen buf = n →
    ∃ f ret w' i' buf',
      vt_read_sync vt = Some f ∧
      f e w (Some i) (Some path) off (Some buf) n = Some (ret, w', Some i', Some buf') ∧
      st_inv w' i' ∧ if_type i' = if_type i ∧ st_files w' i' = st_files w i ∧
      blen buf' = n ∧
      (∀ c, st_files w i !! path = Some c → off + n <= blen c →
         ret = error_code XDEVICE_OK ∧ buf' = spec_read c off n) ∧
      (blen (default [] (st_files w i !! path)) <= off → ret ≠ error_code XDEVICE_OK)
}.

(** ** The contract as a transition system

    What a client of a backend can observe of a sequence of operations. *)

Inductive fs_op : Type :=
| FsWrite (path : string) (off : Z) (d : block)
| FsRead (path : string) (off n : Z).

(** The [int] an operation returns, and for a read the buffer after it. *)
Definition fs_result : Type := Z * option block.

Inductive fs_step (fs : gmap string block) : fs_op → fs_result → gmap string block → Prop :=
| step_write path off d :
    fs_step fs (FsWrite path off d) (error_code XDEVICE_OK, None) (spec_write_file fs path off d)
| step_write_failed path off d ret :
    ret ≠ error_code XDEVICE_OK → fs_step fs (FsWrite path off d) (ret, None) fs
| step_read path off n c :
    fs !! path = Some c → off + n <= blen c →
    fs_step fs (FsRead path off n) (error_code XDEVICE_OK, Some (spec_read c off n)) fs
| step_read_short path off n c ret buf :
    fs !! path = Some c → off < blen c < off + n → blen buf = n →
    fs_step fs (FsRead path off n) (ret, Some buf) fs
| step_read_failed path off n ret buf :
    blen (default [] (fs !! path)) <= off → ret ≠ error_code XDEVICE_OK → blen buf = n →
    fs_step fs (FsRead path off n) (ret, Some buf) fs.

Inductive fs_trace : gmap string block → list fs_op → list fs_result → gmap string block → Prop :=
| trace_nil fs : fs_trace fs [] [] fs
| trace_cons fs op r fs' ops rs fs'' :
    fs_step fs op r fs' → fs_trace fs' ops rs fs'' → fs_trace fs (op :: ops) (r :: rs) fs''.

(** ** Lemmas on the specification *)

Lemma blen_pad_to n c : blen (pad_to n c) = Z.max n (blen c).
Proof.
  unfold pad_to, zeros, blen. rewrite length_app, length_replicate. lia.
Qed.

Lemma blen_spec_write c off d :
  0 <= off → blen (spec_write c off d) = Z.max (off + blen d) (blen c).
Proof.
  intros. pose proof (blen_pad_to (off + blen d) c) as Hp.
  pose proof (blen_nonneg c). pose proof (blen_nonneg d).
  unfold spec_write, blen in *. rewrite !length_app, length_take, length_drop. lia.
Qed.

Lemma spec_read_within c off n :
  0 <= off → 0 <= n → off + n <= blen c →
  spec_read c off n = take (Z.to_nat n) (drop (Z.to_nat off) c).
Proof.
  intros. unfold spec_read, pad_to, zeros.
  by replace (Z.to_nat (off + n - blen c)) with 0%nat by lia; rewrite app_nil_r.
Qed.

Lemma blen_spec_read c off n : 0 <= off → 0 <= n → blen (spec_read c off n) = n.
Proof.
  intros. unfold spec_read. pose proof (blen_pad_to (off + n) c) as Hp.
  unfold blen in *. rewrite length_take, length_drop. lia.
Qed.

(** Reading back what was written. *)
Lemma spec_read_write_same c off d :
  0 <= off → spec_read (spec_write c off d) off (blen d) = d.
Proof.
  intros. pose proof (blen_nonneg d). pose proof (blen_nonneg c).
  rewrite spec_read_within by (rewrite ?blen_spec_write; lia).
  unfold spec_write, blen. rewrite Nat2Z.id.
  pose proof (blen_pad_to (off + blen d) c) as Hp. unfold blen in Hp.
  rewrite drop_app_length' by (rewrite length_take; lia).
  apply take_app_length.
Qed.

(** Bytes before the write are those of the padded old content. *)
Lemma spec_read_write_before c off d off' n :
  0 <= off' → 0 <= n → off' + n <= off →
  spec_read (spec_write c off d) off' n = spec_read c off' n.
Proof.
  intros. pose proof (blen_nonneg d). pose proof (blen_nonneg c).
  rewrite spec_read_within by (rewrite ?blen_spec_write; lia).
  unfold spec_write, spec_read.
  apply list_eq. intros k. rewrite !lookup_take, !lookup_drop.
  case_decide; [|done].
  pose proof (blen_pad_to (off + blen d) c) as Hp. unfold blen in *.
  rewrite lookup_app_l by (rewrite length_take; lia).
  rewrite lookup_take_lt by lia.
  unfold pad_to, zeros, blen.
  destruct (decide (Z.to_nat off' + k < length c)%nat) as [Hlt|Hge].
  - by rewrite !lookup_app_l by lia.
  - rewrite !lookup_app_r by lia.
    by rewrite !lookup_replicate_2 by lia.
Qed.

(** Bytes after the write are those of the old content. *)
Lemma spec_read_write_after c off d off' n :
  0 <= off → off + blen d <= off' → 0 <= n → off' + n <= blen c →
  spec_read (spec_write c off d) off' n = spec_read c off' n.
Proof.
  intros. pose proof (blen_nonneg d).
  rewrite !spec_read_within by (rewrite ?blen_spec_write; lia). f_equal.
  unfold spec_write, pad_to, zeros.
  replace (Z.to_nat (off + blen d - blen c)) with 0%nat by lia.
  rewrite app_nil_r, app_assoc. unfold blen in *.
  rewrite drop_app_ge by (rewrite length_app, length_take; lia).
  rewrite drop_drop, length_app, length_take. f_equal. lia.
Qed.

(** At offset 0 a write replaces a prefix and keeps what is behind it. *)
Lemma spec_write_0 c d : spec_write c 0 d = d ++ drop (length d) c.
Proof.
  unfold spec_write, pad_to, zeros, blen. change (Z.to_nat 0) with 0%nat. rewrite take_0.
  cbn [app Nat.add]. f_equal.
  set (k := Z.to_nat _). assert (k = length d - length c)%nat as -> by lia.
  rewrite drop_app, drop_replicate, Nat.sub_diag. apply app_nil_r.
Qed.

(** The outcome of a read, as the contract states it, is a step. *)
Lemma read_outcome_step fs path off n ret buf :
  0 <= off → blen buf = n →
  (∀ c, fs !! path = Some c → off + n <= blen c → ret = error_code XDEVICE_OK ∧ buf = spec_read c off n) →
  (blen (default [] (fs !! path)) <= off → ret ≠ error_code XDEVICE_OK) →
  fs_step fs (FsRead path off n) (ret, Some buf) fs.
Proof.
  intros Hoff Hlen Hfull Hpast.
  destruct (decide (blen (default [] (fs !! path)) <= off)) as [Hle|Hgt]; [apply step_read_failed; auto|].
  destruct (fs !! path) as [c|] eqn:Hc; cbn in Hgt; [|by destruct Hgt].
  destruct (decide (off + n <= blen c)).
  - destruct (Hfull c) as [-> ->]; [done..|]. by apply step_read.
  - eapply step_read_short; [done|lia|done].
Qed.
