(* ===== verification/MockStorage.v ===== *)
(** * MockStorage: the in-memory backend ([src/storage/mock_storage.c])

    A linked list of files in memory. The list is modelled by a Rocq list, head
    first; a pointer to a list node is its index. The heap block of a file is a
    [block]; NULL is the empty block, which like NULL has no byte to access. *)

From stdpp Require Import base numbers list strings gmap.
From S2P Require Import XDevice Prelude Libc StorageInterface StorageSpec.
Local Open Scope Z_scope.

(** ** Data *)

Record mock_file_t := mk_mock_file {
  mf_path : string;            (* what the zeroed char[512] holds *)
  mf_data : block;
  mf_size : Z;
  mf_capacity : Z;
  mf_created_time : Z;
  mf_modified_time : Z
}.

Record mock_storage_private_t := mk_mock_private {
  mp_files : list mock_file_t;
  mp_max_file_size : Z;
  mp_max_files : Z;
  mp_file_count : Z;
  mp_read_delay_us : Z;
  mp_write_delay_us : Z;
  mp_inject_read_errors : bool;
  mp_inject_write_errors : bool;
  mp_error_rate_percent : Z;
  mp_stats : storage_stats_t
}.

(** [create_mock_storage_interface]: [None] when the allocation fails. *)
Definition create_mock_storage_interface (e : call_env) : iptr mock_storage_private_t :=
  if malloc_ok e 0 then Some (mk_iface STORAGE_BACKEND_MOCK "MockStorage" None) else None.

(** ** Operations on the file list *)

Fixpoint find_file (files : list mock_file_t) (path : string) : option nat :=
  match files with
  | [] => None
  | file :: next =>
      if decide (mf_path file = path) then Some O else S <$> find_file next path
  end.

(** The new file becomes the head of the list; [None] is the NULL result, which
    leaves the state as it was. *)
Definition create_new_file (e : call_env) (priv : mock_storage_private_t) (path : string)
    (initial_size : Z) : option mock_storage_private_t :=
  if mp_max_files priv <=? mp_file_count priv then None
  else if negb (malloc_ok e 0) then None
  else if (0 <? initial_size) && negb (malloc_ok e 1) then None
  else
    let sized := 0 <? initial_size in
    let now := time_now e 0 in
    let file :=
      {| mf_path := str_take 511 path;
         mf_data := if sized then zeros initial_size else [];
         mf_size := if sized then initial_size else 0;
         mf_capacity := if sized then initial_size else 0;
         mf_created_time := now;
         mf_modified_time := now |} in
    Some (priv <| mp_files := file :: mp_files priv |>
               <| mp_file_count := mp_file_count priv ⊞₃₂ 1 |>).

(** The loop of [remove_file]: unlink the first node with the path. *)
Fixpoint unlink_first (files : list mock_file_t) (path : string) : option (list mock_file_t) :=
  match files with
  | [] => None
  | file :: next =>
      if decide (mf_path file = path) then Some next else cons file <$> unlink_first next path
  end.

Definition remove_file (priv : mock_storage_private_t) (path : string)
    : Z * mock_storage_private_t :=
  match unlink_first (mp_files priv) path with
  | Some files =>
      (error_code XDEVICE_OK,
       priv <| mp_files := files |> <| mp_file_count := mp_file_count priv ⊟₃₂ 1 |>)
  | None => (error_code XDEVICE_ERROR_NOT_FOUND, priv)
  end.

(** [realloc] to 0 bytes (the doubled size can wrap around to 0) is left
    undefined, like an access outside the block. *)
Definition expand_file (e : call_env) (file : mock_file_t) (new_size : Z)
    : option (Z * mock_file_t) :=
  if new_size <=? mf_capacity file then
    if mf_size file <? new_size then
      data ← mem_zero (mf_data file) (mf_size file) (new_size ⊟ mf_size file);
      Some (error_code XDEVICE_OK, file <| mf_data := data |> <| mf_size := new_size |>)
    else Some (error_code XDEVICE_OK, file)
  else
    let new_capacity := new_size ⊠ 2 in
    if new_capacity =? 0 then None
    else if negb (malloc_ok e 2) then Some (error_code XDEVICE_ERROR_OUT_OF_MEMORY, file)
    else
      let new_data := realloc_block (mf_data file) new_capacity (junk e) in
      data ← mem_zero new_data (mf_size file) (new_capacity ⊟ mf_size file);
      Some (error_code XDEVICE_OK,
            file <| mf_data := data |> <| mf_capacity := new_capacity |> <| mf_size := new_size |>).

(** The argument of [nanosleep]; no sleep for a zero delay. *)
Definition simulate_delay (delay_us : Z) : option timespec :=
  if 0 <? delay_us then
    Some (mk_timespec (delay_us / 1000000) (wrap32 (delay_us mod 1000000 * 1000)))
  else None.

Definition should_inject_error (e : call_env) (priv : mock_storage_private_t) : bool :=
  if mp_error_rate_percent priv =? 0 then false
  else Z.rem (rand_value e) 100 <? mp_error_rate_percent priv.

(** ** The interface functions *)

(** The private data built by [mock_storage_init]. *)
Definition mock_initial_private : mock_storage_private_t :=
  {| mp_files := []; mp_max_file_size := 1024 * 1024 * 1024; mp_max_files := 1000;
     mp_file_count := 0; mp_read_delay_us := 0; mp_write_delay_us := 0;
     mp_inject_read_errors := false; mp_inject_write_errors := false;
     mp_error_rate_percent := 0; mp_stats := zero_stats |}.

Definition mock_storage_init (e : call_env) (p : iptr mock_storage_private_t)
    (config : option string) : Z * iptr mock_storage_private_t :=
  match p with
  | None => (error_code XDEVICE_ERROR_INVALID_PARAM, p)
  | Some _ =>
      if negb (malloc_ok e 0) then (error_code XDEVICE_ERROR_OUT_OF_MEMORY, p)
      else if negb (mutex_init_ok e 0) then (error_code XDEVICE_ERROR, p)
      else if negb (mutex_init_ok e 1) then (error_code XDEVICE_ERROR, p)
      else (error_code XDEVICE_OK, set_private p (Some mock_initial_private))
  end.

Definition mock_storage_cleanup (p : iptr mock_storage_private_t)
    : Z * iptr mock_storage_private_t :=
  match private_of p with
  | None => (error_code XDEVICE_ERROR_INVALID_PARAM, p)
  | Some _ => (error_code XDEVICE_OK, set_private p None)
  end.

Definition mock_storage_health_check (p : iptr mock_storage_private_t) : Z :=
  match private_of p with
  | None => error_code XDEVICE_ERROR_INVALID_PARAM
  | Some _ => error_code XDEVICE_OK
  end.

(** The third component of the result is the caller's buffer after the call. *)
Definition mock_storage_read_sync (e : call_env) (p : iptr mock_storage_private_t)
    (path : option string) (offset : Z) (buffer : option block) (size : Z)
    : option (Z * iptr mock_storage_private_t * option block) :=
  match private_of p, path, buffer with
  | Some priv, Some path, Some buf =>
      if size =? 0 then Some (error_code XDEVICE_ERROR_INVALID_PARAM, p, buffer)
      else if mp_inject_read_errors priv && should_inject_error e priv then
        Some (error_code XDEVICE_ERROR_IO,
              set_private p (Some (priv <| mp_stats := count_error (mp_stats priv) |>)), buffer)
      else
        match find_file (mp_files priv) path with
        | None => Some (error_code XDEVICE_ERROR_NOT_FOUND, p, buffer)
        | Some i =>
            file ← mp_files priv !! i;
            if mf_size file <=? offset then
              Some (error_code XDEVICE_ERROR_NOT_FOUND, p, buffer)
            else
              let read_size :=
                if mf_size file <? offset ⊞ size then mf_size file ⊟ offset else size in
              src ← mem_read (mf_data file) offset read_size;
              buf ← mem_write buf 0 src;
              buf ← (if read_size <? size
                     then mem_zero buf read_size (size ⊟ read_size) else Some buf);
              let lat := latency_ns (clock_start e) (clock_end e) in
              Some (error_code XDEVICE_OK,
                    set_private p (Some (priv <| mp_stats := count_read (mp_stats priv) read_size lat |>)),
                    Some buf)
        end
  | _, _, _ => Some (error_code XDEVICE_ERROR_INVALID_PARAM, p, buffer)
  end.

(** The lookup at the head of [mock_storage_write_sync]: the file's node, created
    when it is missing; [None] when the creation fails. *)
Definition find_or_create (e : call_env) (priv : mock_storage_private_t) (path : string)
    (initial_size : Z) : option (nat * mock_storage_private_t) :=
  match find_file (mp_files priv) path with
  | Some i => Some (i, priv)
  | None => priv ← create_new_file e priv path initial_size; Some (O, priv)
  end.

Section write_sync.
(** The identifier the write path returns for a file over the size limit. No
    header of the repository declares it, so its value is a parameter. *)
Context (XDEVICE_ERROR_NO_SPACE : Z).

Definition mock_storage_write_sync (e : call_env) (p : iptr mock_storage_private_t)
    (path : option string) (offset : Z) (data : option block) (size : Z)
    : option (Z * iptr mock_storage_private_t) :=
  match private_of p, path, data with
  | Some priv, Some path, Some data =>
      if size =? 0 then Some (error_code XDEVICE_ERROR_INVALID_PARAM, p)
      else if mp_inject_write_errors priv && should_inject_error e priv then
        Some (error_code XDEVICE_ERROR_IO,
              set_private p (Some (priv <| mp_stats := count_error (mp_stats priv) |>)))
      else
        match find_or_create e priv path (offset ⊞ size) with
        | None => Some (error_code XDEVICE_ERROR_OUT_OF_MEMORY, p)
        | Some (i, priv) =>
            file ← mp_files priv !! i;
            '(ret, file) ← (if mf_size file <? offset ⊞ size
                            then expand_file e file (offset ⊞ size)
                            else Some (error_code XDEVICE_OK, file));
            let priv := priv <| mp_files := <[i:=file]> (mp_files priv) |> in
            if negb (ret =? XDEVICE_OK) then
              Some (error_code XDEVICE_ERROR_OUT_OF_MEMORY, set_private p (Some priv))
            else if mp_max_file_size priv <? mf_size file then
              Some (XDEVICE_ERROR_NO_SPACE, set_private p (Some priv))
            else
              src ← mem_read data 0 size;
              buf ← mem_write (mf_data file) offset src;
              let file := file <| mf_data := buf |> <| mf_modified_time := time_now e 1 |> in
              let lat := latency_ns (clock_start e) (clock_end e) in
              Some (error_code XDEVICE_OK,
                    set_private p (Some (priv <| mp_files := <[i:=file]> (mp_files priv) |>
                                              <| mp_stats := count_write (mp_stats priv) size lat |>)))
        end
  | _, _, _ => Some (error_code XDEVICE_ERROR_INVALID_PARAM, p)
  end.
End write_sync.

Definition mock_storage_fsync (p : iptr mock_storage_private_t) (path : option string) : Z :=
  match private_of p, path with
  | Some _, Some _ => error_code XDEVICE_OK
  | _, _ => error_code XDEVICE_ERROR_INVALID_PARAM
  end.

Definition mock_storage_create_file (e : call_env) (p : iptr mock_storage_private_t)
    (path : option string) (initial_size : Z) : Z * iptr mock_storage_private_t :=
  match private_of p, path with
  | Some priv, Some path =>
      match find_file (mp_files priv) path with
      | Some _ => (error_code XDEVICE_ERROR_EXISTS, p)
      | None =>
          match create_new_file e priv path initial_size with
          | None => (error_code XDEVICE_ERROR_OUT_OF_MEMORY, p)
          | Some priv => (error_code XDEVICE_OK, set_private p (Some priv))
          end
      end
  | _, _ => (error_code XDEVICE_ERROR_INVALID_PARAM, p)
  end.

Definition mock_storage_delete_file (p : iptr mock_storage_private_t) (path : option string)
    : Z * iptr mock_storage_private_t :=
  match private_of p, path with
  | Some priv, Some path =>
      let '(ret, priv) := remove_file priv path in (ret, set_private p (Some priv))
  | _, _ => (error_code XDEVICE_ERROR_INVALID_PARAM, p)
  end.

(** The [info] argument is the structure the caller's pointer refers to. *)
Definition mock_storage_get_file_info (p : iptr mock_storage_private_t) (path : option string)
    (info : option storage_file_info_t) : option (Z * option storage_file_info_t) :=
  match private_of p, path, info with
  | Some priv, Some path, Some _ =>
      match find_file (mp_files priv) path with
      | None => Some (error_code XDEVICE_ERROR_NOT_FOUND, info)
      | Some i =>
          file ← mp_files priv !! i;
          Some (error_code XDEVICE_OK,
                Some {| info_size := mf_size file;
                        info_created_time := mf_created_time file;
                        info_modified_time := mf_modified_time file;
                        info_permissions := 420; (* 0644 *)
                        info_is_directory := false |})
      end
  | _, _, _ => Some (error_code XDEVICE_ERROR_INVALID_PARAM, info)
  end.

Definition mock_storage_get_stats (p : iptr mock_storage_private_t)
    (stats : option storage_stats_t) : Z * option storage_stats_t :=
  match private_of p, stats with
  | Some priv, Some _ => (error_code XDEVICE_OK, Some (mp_stats priv))
  | _, _ => (error_code XDEVICE_ERROR_INVALID_PARAM, stats)
  end.

Definition mock_storage_reset_stats (p : iptr mock_storage_private_t)
    : Z * iptr mock_storage_private_t :=
  match private_of p with
  | Some priv => (error_code XDEVICE_OK, set_private p (Some (priv <| mp_stats := zero_stats |>)))
  | None => (error_code XDEVICE_ERROR_INVALID_PARAM, p)
  end.

Definition mock_storage_set_delays (p : iptr mock_storage_private_t)
    (read_delay_us write_delay_us : Z) : iptr mock_storage_private_t :=
  match p, private_of p with
  | Some i, Some priv =>
      if decide (if_type i = STORAGE_BACKEND_MOCK) then
        set_private p (Some (priv <| mp_read_delay_us := read_delay_us |>
                                  <| mp_write_delay_us := write_delay_us |>))
      else p
  | _, _ => p
  end.

Definition mock_storage_set_error_injection (p : iptr mock_storage_private_t)
    (inject_read_errors inject_write_errors : bool) (error_rate_percent : Z)
    : iptr mock_storage_private_t :=
  match p, private_of p with
  | Some i, Some priv =>
      if decide (if_type i = STORAGE_BACKEND_MOCK) then
        set_private p (Some (priv <| mp_inject_read_errors := inject_read_errors |>
                                  <| mp_inject_write_errors := inject_write_errors |>
                                  <| mp_error_rate_percent := error_rate_percent |>))
      else p
  | _, _ => p
  end.

(** ** Well-formedness and abstraction *)

(** The bytes of a file a reader can see. *)
Definition mf_content (file : mock_file_t) : block :=
  take (Z.to_nat (mf_size file)) (mf_data file).

Definition mock_file_wf (file : mock_file_t) : Prop :=
  0 <= mf_size file <= mf_capacity file ∧
  blen (mf_data file) = mf_capacity file ∧
  u64 (mf_capacity file).

Record mock_wf (priv : mock_storage_private_t) : Prop := {
  wf_files : Forall mock_file_wf (mp_files priv);
  wf_paths : NoDup (mf_path <$> mp_files priv);
  wf_count : mp_file_count priv = Z.of_nat (length (mp_files priv));
  wf_max : mp_file_count priv <= mp_max_files priv;
  wf_max_u32 : u32 (mp_max_files priv);
  wf_stats : stats_u64 (mp_stats priv)
}.

(** The abstract file system a file list represents: for each path, the content
    of the first node with that path. *)
Fixpoint mock_abs (files : list mock_file_t) : gmap string block :=
  match files with
  | [] => ∅
  | file :: next => <[mf_path file := mf_content file]> (mock_abs next)
  end.

(** A path the [char[512]] field stores in full. *)
Definition mock_path_ok (path : string) : Prop := (length (chars path) < 512)%nat.

#[export] Instance mock_path_ok_dec path : Decision (mock_path_ok path).
Proof. unfold mock_path_ok. apply _. Defined.

(** ** Lemmas on the file list *)

Lemma find_file_Some files path i :
  find_file files path = Some i →
  ∃ file, files !! i = Some file ∧ mf_path file = path ∧
          mock_abs files !! path = Some (mf_content file).
Proof.
  revert i. induction files as [|f fs IH]; intros i; cbn; [done|].
  case_decide as Hp.
  - intros [= <-]. exists f. by rewrite <- Hp, lookup_insert_eq.
  - destruct (find_file fs path) as [j|] eqn:Hj; [|done]. intros [= <-].
    destruct (IH j eq_refl) as (file&Hl&Hpath&Habs).
    exists file. by rewrite lookup_insert_ne.
Qed.

Lemma find_file_None files path :
  find_file files path = None →
  (path ∉ mf_path <$> files) ∧ mock_abs files !! path = None.
Proof.
  induction files as [|f fs IH]; cbn; intros Hf; [split; [set_solver|done]|].
  case_decide as Hp; [done|].
  destruct (find_file fs path); [done|]. destruct (IH eq_refl) as [Hin Habs].
  split; [set_solver|]. by rewrite lookup_insert_ne.
Qed.

Lemma find_file_abs_None files path :
  mock_abs files !! path = None → find_file files path = None.
Proof.
  intros Habs. destruct (find_file files path) eqn:Hf; [|done].
  apply find_file_Some in Hf as (?&_&_&?). congruence.
Qed.

Lemma find_file_abs_Some files path c :
  mock_abs files !! path = Some c →
  ∃ i file, find_file files path = Some i ∧ files !! i = Some file ∧
            mf_path file = path ∧ mf_content file = c.
Proof.
  intros Habs. destruct (find_file files path) as [i|] eqn:Hf.
  - destruct (find_file_Some _ _ _ Hf) as (file&?&?&?).
    exists i, file. repeat split; congruence.
  - apply find_file_None in Hf as [_ ?]. congruence.
Qed.

(** Replacing a file found by its path, the path kept. *)
Lemma mock_abs_update files path i file' :
  find_file files path = Some i → mf_path file' = path →
  mock_abs (<[i:=file']> files) = <[path := mf_content file']> (mock_abs files).
Proof.
  revert i. induction files as [|f fs IH]; intros i; cbn; [done|].
  case_decide as Hp; intros Hi Hp'.
  - injection Hi as <-. cbn. by rewrite Hp, Hp', insert_insert_eq.
  - destruct (find_file fs path) as [j|] eqn:Hj; [|done]. injection Hi as <-.
    change (<[S j:=file']> (f :: fs)) with (f :: <[j:=file']> fs). cbn.
    rewrite (IH j eq_refl Hp'). by apply insert_insert_ne.
Qed.

Lemma paths_update (files : list mock_file_t) (i : nat) file file' :
  files !! i = Some file → mf_path file' = mf_path file →
  mf_path <$> <[i:=file']> files = mf_path <$> files.
Proof.
  intros Hi Hp. rewrite list_fmap_insert. apply list_insert_id.
  rewrite list_lookup_fmap, Hi. cbn. by rewrite Hp.
Qed.

Lemma find_file_update files path i file' :
  find_file files path = Some i → mf_path file' = path →
  find_file (<[i:=file']> files) path = Some i.
Proof.
  revert i. induction files as [|f fs IH]; intros i; cbn; [done|].
  case_decide as Hp; intros Hi Hp'.
  - injection Hi as <-. cbn. by rewrite decide_True.
  - destruct (find_file fs path) as [j|] eqn:Hj; [|done]. injection Hi as <-.
    change (<[S j:=file']> (f :: fs)) with (f :: <[j:=file']> fs). cbn.
    rewrite decide_False by done. by rewrite (IH j).
Qed.

Lemma unlink_first_None files path :
  unlink_first files path = None ↔ mock_abs files !! path = None.
Proof.
  induction files as [|f fs IH]; cbn; [done|].
  case_decide as Hp.
  - rewrite <- Hp, lookup_insert_eq. done.
  - rewrite lookup_insert_ne by done. rewrite <- IH.
    destruct (unlink_first fs path); cbn; done.
Qed.

(** With distinct paths, unlinking the first node removes the path. *)
Lemma unlink_first_Some files path files' :
  unlink_first files path = Some files' → NoDup (mf_path <$> files) →
  mock_abs files' = delete path (mock_abs files) ∧
  (mf_path <$> files') `sublist_of` (mf_path <$> files) ∧
  length files = S (length files') ∧
  (∀ Q : mock_file_t → Prop, Forall Q files → Forall Q files').
Proof.
  revert files'. induction files as [|f fs IH]; intros files' Hu Hnd; cbn in Hu; [done|].
  cbn in Hnd. apply NoDup_cons in Hnd as [Hf Hnd]. case_decide as Hp.
  - injection Hu as <-. cbn. rewrite Hp, delete_insert_id.
    + split_and!; [done|by apply sublist_cons|done|]. intros Q HQ. by inversion HQ.
    + destruct (find_file fs path) as [i|] eqn:Hi.
      * apply find_file_Some in Hi as (g&Hg&Hgp&_). exfalso. apply Hf.
        rewrite Hp, <- Hgp. apply list_elem_of_fmap_2, list_elem_of_lookup. eauto.
      * by apply find_file_None in Hi as [_ ?].
  - destruct (unlink_first fs path) as [fs'|] eqn:Hfs; [|done]. injection Hu as <-.
    destruct (IH fs' eq_refl Hnd) as (Habs&Hsub&Hlen&HQ). cbn.
    rewrite Habs, delete_insert_ne by done.
    split_and!; [done|by apply sublist_skip|lia|].
    intros Q. inversion 1; subst. constructor; [done|]. by apply HQ.
Qed.

(** ** Lemmas on one file *)

Lemma blen_content file : mock_file_wf file → blen (mf_content file) = mf_size file.
Proof. intros (?&Hd&?). unfold mf_content. apply blen_take. lia. Qed.

(** Growing a file pads its content with zeros; a refused allocation leaves it
    as it was. Below half the address space the doubled capacity is exact. *)
Lemma expand_file_spec e file n :
  mock_file_wf file → mf_size file <= n < 2 ^ 63 →
  (expand_file e file n = Some (error_code XDEVICE_ERROR_OUT_OF_MEMORY, file) ∧
   malloc_ok e 2 = false) ∨
  ∃ file', expand_file e file n = Some (error_code XDEVICE_OK, file') ∧
    mock_file_wf file' ∧ mf_size file' = n ∧ mf_path file' = mf_path file ∧
    mf_content file' = pad_to n (mf_content file).
Proof.
  intros Hwf Hn. pose proof Hwf as (Hsz&Hd&Hc). pose proof (blen_content _ Hwf) as Hcl.
  unfold expand_file. destruct (n <=? mf_capacity file) eqn:Hcap; to_prop.
  - right. destruct (mf_size file <? n) eqn:Hlt; to_prop.
    + rewrite wrap64_small by (unfold u64; lia).
      rewrite mem_zero_in by lia. cbn. eexists. split; [done|].
      rewrite Z.add_sub_assoc, Z.add_simpl_l in *.
      unfold mock_file_wf, mf_content, pad_to; cbn. fold (mf_content file). rewrite Hcl.
      split_and!; try done; try lia.
      * rewrite !blen_app, Hcl, blen_zeros by lia. unfold blen in *. rewrite length_drop. lia.
      * rewrite app_assoc. apply take_app_length'.
        unfold blen, zeros in *. rewrite length_app, length_replicate. lia.
    + exists file. replace (mf_size file) with n by lia.
      unfold pad_to, zeros. rewrite Hcl.
      replace (Z.to_nat (n - mf_size file)) with 0%nat by lia. by rewrite app_nil_r.
  - unfold u64 in *. rewrite !(wrap64_small (n * 2)) by (unfold u64; lia).
    rewrite (proj2 (Z.eqb_neq _ _)) by lia.
    destruct (malloc_ok e 2) eqn:Hm; cbn [negb]; [right|by left].
    rewrite wrap64_small by (unfold u64; lia).
    pose proof (blen_realloc (mf_data file) (n * 2) (junk e) ltac:(lia)) as Hr.
    rewrite mem_zero_in by lia. cbn. eexists. split; [done|].
    unfold mock_file_wf, mf_content, pad_to; cbn. fold (mf_content file). rewrite Hcl.
    rewrite Z.add_sub_assoc, Z.add_simpl_l in *.
    split_and!; try done; try (unfold u64; lia).
    + rewrite !blen_app, blen_take, blen_zeros by lia. unfold blen in *. rewrite length_drop. lia.
    + rewrite take_realloc by (unfold blen in *; lia). fold (mf_content file).
      rewrite take_app_ge by (unfold blen in *; lia). f_equal.
      unfold zeros, blen in *. rewrite take_app_le by (rewrite length_replicate; lia).
      rewrite take_replicate. f_equal. lia.
Qed.

(** Copying data into a file that is large enough overlays it on the content. *)
Lemma content_write file off d t :
  mock_file_wf file → 0 <= off → off + blen d <= mf_size file →
  ∃ buf, mem_write (mf_data file) off d = Some buf ∧
    let file' := file <| mf_data := buf |> <| mf_modified_time := t |> in
    mock_file_wf file' ∧ mf_content file' = spec_write (mf_content file) off d.
Proof.
  intros Hwf Hoff Hin. pose proof Hwf as (Hsz&Hd&Hc).
  eexists. split; [apply mem_write_in; lia|].
  set (buf := take _ _ ++ d ++ _).
  assert (Hw : mem_write (mf_data file) off d = Some buf) by (apply mem_write_in; lia).
  pose proof (blen_content _ Hwf) as Hcl. pose proof (blen_nonneg d).
  pose proof (mem_write_len _ _ _ _ Hw) as Hl.
  clear Hw. subst buf. split; [unfold mock_file_wf, blen in *; cbn; split_and!; (done || lia)|].
  unfold spec_write, pad_to, zeros. rewrite Hcl.
  replace (Z.to_nat (off + blen d - mf_size file)) with 0%nat by lia. rewrite app_nil_r.
  unfold mf_content; cbn. unfold blen in *.
  rewrite take_app_ge by (rewrite length_take; lia).
  rewrite take_take, (Nat.min_l (Z.to_nat off)) by lia. f_equal.
  rewrite length_take, take_app_ge by lia. f_equal.
  rewrite skipn_firstn_comm. f_equal. lia.
Qed.

Lemma pad_to_zeros n : pad_to n [] = zeros n.
Proof. unfold pad_to, zeros, blen. cbn. by rewrite Z.sub_0_r. Qed.

Lemma pad_to_idem n c : pad_to n (pad_to n c) = pad_to n c.
Proof.
  unfold pad_to at 1. rewrite blen_pad_to. unfold zeros.
  replace (Z.to_nat (n - n `max` blen c)) with 0%nat by lia. by rewrite app_nil_r.
Qed.

Lemma pad_to_le n c : n <= blen c → pad_to n c = c.
Proof.
  intros. unfold pad_to, zeros. replace (Z.to_nat (n - blen c)) with 0%nat by lia.
  apply app_nil_r.
Qed.

Lemma spec_write_pad c off d :
  spec_write (pad_to (off + blen d) c) off d = spec_write c off d.
Proof. unfold spec_write. by rewrite pad_to_idem. Qed.

(** ** The state-level steps of a write *)

(** What no operation on files changes. *)
Definition mock_same_config (p1 p2 : mock_storage_private_t) : Prop :=
  mp_max_file_size p2 = mp_max_file_size p1 ∧ mp_max_files p2 = mp_max_files p1 ∧
  mp_inject_read_errors p2 = mp_inject_read_errors p1 ∧
  mp_inject_write_errors p2 = mp_inject_write_errors p1 ∧
  mp_error_rate_percent p2 = mp_error_rate_percent p1.

#[export] Instance mock_same_config_refl : Reflexive mock_same_config.
Proof. done. Qed.
#[export] Instance mock_same_config_trans : Transitive mock_same_config.
Proof. intros p1 p2 p3 (?&?&?&?&?) (?&?&?&?&?). split_and!; congruence. Qed.

Lemma mock_wf_update priv path i file' :
  mock_wf priv → find_file (mp_files priv) path = Some i →
  mock_file_wf file' → mf_path file' = path →
  mock_wf (priv <| mp_files := <[i:=file']> (mp_files priv) |>).
Proof.
  intros [] Hi Hf' Hp'. destruct (find_file_Some _ _ _ Hi) as (f&Hf&Hp&_).
  split; cbn; try done.
  - by apply Forall_insert.
  - by rewrite (paths_update _ _ f) by congruence.
  - by rewrite length_insert.
Qed.

Lemma mock_wf_stats priv st :
  mock_wf priv → stats_u64 st → mock_wf (priv <| mp_stats := st |>).
Proof. by intros [] ?. Qed.
#[export] Hint Resolve mock_wf_stats wf_stats : xdev.

Lemma create_new_file_spec e priv path n priv' :
  mock_wf priv → find_file (mp_files priv) path = None → mock_path_ok path → u64 n →
  create_new_file e priv path n = Some priv' →
  mock_wf priv' ∧ mock_same_config priv priv' ∧
  mp_file_count priv' = mp_file_count priv + 1 ∧
  mock_abs (mp_files priv') = <[path := zeros n]> (mock_abs (mp_files priv)) ∧
  find_file (mp_files priv') path = Some 0%nat ∧
  ∃ file, mp_files priv' !! 0%nat = Some file ∧ mf_path file = path ∧
          mock_file_wf file ∧ mf_size file = n ∧ mf_content file = zeros n.
Proof.
  intros Hwf Hnone Hp Hn. destruct Hwf as [Hfs Hnd Hct Hmx Hmx32 Hst].
  unfold create_new_file. destruct (_ <=? _) eqn:Hmax; [done|to_prop].
  destruct (malloc_ok e 0); [|done]. destruct (_ && _); [done|].
  rewrite str_take_short by (unfold mock_path_ok in Hp; lia). intros [= <-]. cbn.
  set (file := mk_mock_file path _ _ _ _ _).
  assert (Hz : (if 0 <? n then n else 0) = n) by (unfold u64 in Hn; split_ifs; to_prop; lia).
  assert (Hd : mf_data file = zeros n).
  { unfold file; cbn. destruct (0 <? n) eqn:H0; to_prop; [done|].
    unfold u64 in Hn. by replace n with 0 by lia. }
  assert (Hfw : mock_file_wf file).
  { unfold mock_file_wf. rewrite Hd. unfold u64 in *. subst file; cbn. rewrite Hz.
    rewrite blen_zeros by lia. lia. }
  assert (Hc : mf_content file = zeros n).
  { unfold mf_content. rewrite Hd. subst file; cbn. rewrite Hz.
    apply take_ge. unfold zeros. rewrite length_replicate. lia. }
  rewrite wrap32_small by (unfold u32 in *; lia).
  split_and!; cbn; try done.
  - split; cbn; try done; try lia.
    + by constructor.
    + constructor; [|done]. by apply find_file_None in Hnone as [? _].
  - by rewrite Hc.
  - by rewrite decide_True.
  - exists file. by split_and!.
Qed.

(** Creation fails only on the file limit or a refused allocation. *)
Lemma create_new_file_ready e priv path n :
  malloc_ok e 0 = true → malloc_ok e 1 = true → mp_file_count priv < mp_max_files priv →
  is_Some (create_new_file e priv path n).
Proof.
  intros H0 H1 Hc. unfold create_new_file. rewrite (proj2 (Z.leb_gt _ _)) by lia.
  rewrite H0, H1, andb_false_r. cbn. eauto.
Qed.

Lemma find_or_create_spec e priv path n i priv1 c :
  mock_wf priv → mock_path_ok path → u64 n →
  find_or_create e priv path n = Some (i, priv1) →
  c = default [] (mock_abs (mp_files priv) !! path) →
  mock_wf priv1 ∧ mock_same_config priv priv1 ∧
  find_file (mp_files priv1) path = Some i ∧
  ∃ file, mp_files priv1 !! i = Some file ∧ mf_path file = path ∧ mock_file_wf file ∧
    (mf_content file = c ∧ priv1 = priv ∨ mf_content file = pad_to n c) ∧
    ∀ c', <[path := c']> (mock_abs (mp_files priv1)) = <[path := c']> (mock_abs (mp_files priv)).
Proof.
  intros Hwf Hp Hn. unfold find_or_create.
  destruct (find_file (mp_files priv) path) as [j|] eqn:Hj.
  - intros [= <- <-] ->. destruct (find_file_Some _ _ _ Hj) as (f&Hf&Hfp&Habs).
    rewrite Habs. split_and!; try done. exists f. split_and!; try done; [|by left].
    eapply Forall_lookup_1; [apply Hwf|done].
  - destruct (create_new_file e priv path n) as [p'|] eqn:Hc; [|done].
    intros [= <- <-] ->.
    destruct (create_new_file_spec _ _ _ _ _ Hwf Hj Hp Hn Hc)
      as (?&?&_&Habs&?&f&?&?&?&?&Hcont).
    rewrite (proj2 (find_file_None _ _ Hj)). split_and!; try done.
    exists f. split_and!; try done.
    + right. by rewrite pad_to_zeros.
    + intros c'. by rewrite Habs, insert_insert_eq.
Qed.

(** ** The outcomes of a write *)

(** What [mock_storage_write_sync] returns and the state it leaves, as far as
    files are concerned. Note [wo_no_space]: the limit is tested after the file
    has been created or grown, so a refused write still changes the file. *)
Inductive write_outcome (nospace : Z) (priv : mock_storage_private_t) (path : string)
    (off : Z) (d : block) : Z → mock_storage_private_t → Prop :=
| wo_injected priv' :
    mp_inject_write_errors priv = true →
    priv' = priv <| mp_stats := count_error (mp_stats priv) |> →
    write_outcome nospace priv path off d (error_code XDEVICE_ERROR_IO) priv'
| wo_no_memory priv' :
    mock_abs (mp_files priv') = mock_abs (mp_files priv) →
    write_outcome nospace priv path off d (error_code XDEVICE_ERROR_OUT_OF_MEMORY) priv'
| wo_no_space priv' :
    mp_max_file_size priv < blen (pad_to (off + blen d) (default [] (mock_abs (mp_files priv) !! path))) →
    mock_abs (mp_files priv') =
      <[path := pad_to (off + blen d) (default [] (mock_abs (mp_files priv) !! path))]>
        (mock_abs (mp_files priv)) →
    write_outcome nospace priv path off d nospace priv'
| wo_ok priv' :
    blen (pad_to (off + blen d) (default [] (mock_abs (mp_files priv) !! path)))
      <= mp_max_file_size priv →
    mock_abs (mp_files priv') = spec_write_file (mock_abs (mp_files priv)) path off d →
    write_outcome nospace priv path off d (error_code XDEVICE_OK) priv'.

(** The environments that grant a write everything it asks for. *)
Definition mock_ready (e : call_env) (priv : mock_storage_private_t) (path : string) : Prop :=
  malloc_ok e 0 = true ∧ malloc_ok e 1 = true ∧ malloc_ok e 2 = true ∧
  mp_inject_write_errors priv = false ∧
  (mp_file_count priv < mp_max_files priv ∨ is_Some (mock_abs (mp_files priv) !! path)).

Lemma find_or_create_ready e priv path n :
  mock_ready e priv path → is_Some (find_or_create e priv path n).
Proof.
  intros (H0&H1&_&_&Hc). unfold find_or_create.
  destruct (find_file (mp_files priv) path) as [j|] eqn:Hj; [eauto|].
  destruct Hc as [Hc|[c Hc]].
  - destruct (create_new_file_ready e priv path n H0 H1 Hc) as [p' ->]. cbn. eauto.
  - apply find_file_None in Hj as [_ Hj]. congruence.
Qed.

(** The size test and the growth before the copy. *)
Lemma grow_spec e file n c :
  mock_file_wf file → 0 <= n < 2 ^ 63 →
  mf_content file = c ∨ mf_content file = pad_to n c →
  ∃ ret file',
    (if mf_size file <? n then expand_file e file n else Some (error_code XDEVICE_OK, file)) =
      Some (ret, file') ∧
    mock_file_wf file' ∧ mf_path file' = mf_path file ∧
    ((ret = error_code XDEVICE_ERROR_OUT_OF_MEMORY ∧ malloc_ok e 2 = false ∧
      file' = file ∧ mf_size file < n) ∨
     (ret = error_code XDEVICE_OK ∧ mf_content file' = pad_to n c)).
Proof.
  intros Hwf Hn Hc. pose proof (blen_content _ Hwf) as Hcl.
  destruct (mf_size file <? n) eqn:Hlt; to_prop.
  - assert (mf_content file = c) as Hcc.
    { destruct Hc as [?|Hc]; [done|]. pose proof (blen_pad_to n c). rewrite <- Hc in *. lia. }
    destruct (expand_file_spec e file n Hwf) as [[-> Hm]|(f'&->&?&?&?&Hc')]; [destruct Hwf; lia|..].
    + do 2 eexists. split; [done|]. split_and!; try done. by left.
    + do 2 eexists. split; [done|]. split_and!; try done. right. by rewrite Hc', Hcc.
  - do 2 eexists. split; [done|]. split_and!; try done. right. split; [done|].
    destruct Hc as [<-|?]; [|done]. symmetry. apply pad_to_le. lia.
Qed.

(** Every write of bytes the caller has, below half the address space, has one
    of the outcomes above, keeps the representation well formed and touches
    nothing it should not. *)
(** The file a write works on, found or created and grown when it is too short. *)
Lemma prepare_spec e priv path n k p1 :
  mock_wf priv → mock_path_ok path → 0 <= n < 2 ^ 63 →
  find_or_create e priv path n = Some (k, p1) →
  let c := default [] (mock_abs (mp_files priv) !! path) in
  ∃ file ret file', mp_files p1 !! k = Some file ∧
    (if mf_size file <? n then expand_file e file n else Some (error_code XDEVICE_OK, file)) =
      Some (ret, file') ∧
    mock_file_wf file' ∧ mf_path file' = path ∧
    let p2 := p1 <| mp_files := <[k:=file']> (mp_files p1) |> in
    mock_wf p2 ∧ mock_same_config priv p2 ∧ find_file (mp_files p2) path = Some k ∧
    (ret = error_code XDEVICE_ERROR_OUT_OF_MEMORY ∧ malloc_ok e 2 = false ∧
     mock_abs (mp_files p2) = mock_abs (mp_files priv) ∨
     ret = error_code XDEVICE_OK ∧ mf_content file' = pad_to n c ∧
     mock_abs (mp_files p2) = <[path := pad_to n c]> (mock_abs (mp_files priv))).
Proof.
  intros Hwf Hp Hn Hfc c. assert (Hu : u64 n) by (unfold u64; lia).
  destruct (find_or_create_spec _ _ _ _ _ _ c Hwf Hp Hu Hfc eq_refl)
    as (Hwf1&Hcfg&Hk&file&Hf&Hfp&Hfw&Hcont&Habs).
  destruct (grow_spec e file n c Hfw Hn) as (ret&file'&Hgrow&Hfw'&Hfp'&Hret);
    [destruct Hcont as [[? _]|?]; auto|].
  rewrite Hfp in Hfp'. exists file, ret, file'. cbv zeta. split_and!; try done.
  - by apply (mock_wf_update _ path).
  - by apply find_file_update.
  - destruct Hret as [(->&Hm&->&Hlt)|(->&Hcc)]; [left|right]; split_and!; try done; cbn.
    + rewrite list_insert_id by done. destruct Hcont as [[_ ->]|Hc]; [done|].
      pose proof (blen_content _ Hfw) as Hl. pose proof (blen_pad_to n c). rewrite Hc in Hl. lia.
    + by erewrite mock_abs_update, Hcc, Habs.
Qed.

Lemma mock_write_spec nospace e i priv path off d :
  if_private i = Some priv → mock_wf priv → mock_path_ok path →
  0 <= off → 0 < blen d → off + blen d < 2 ^ 63 →
  ∃ ret priv',
    mock_storage_write_sync nospace e (Some i) (Some path) off (Some d) (blen d) =
      Some (ret, Some (i <| if_private := Some priv' |>)) ∧
    mock_wf priv' ∧ mock_same_config priv priv' ∧
    write_outcome nospace priv path off d ret priv' ∧
    (mock_ready e priv path →
     blen (pad_to (off + blen d) (default [] (mock_abs (mp_files priv) !! path)))
       <= mp_max_file_size priv → ret = error_code XDEVICE_OK).
Proof.
  intros Hi Hwf Hp Hoff Hd Hlim. unfold mock_storage_write_sync. cbn. rewrite Hi.
  rewrite (proj2 (Z.eqb_neq _ _)) by lia.
  destruct (mp_inject_write_errors priv && _) eqn:Hinj.
  { apply andb_true_iff in Hinj as [Hinj _]. do 2 eexists. split; [done|].
    split_and!; [auto with xdev|done|by constructor|].
    intros (_&_&_&?&_) _. congruence. }
  rewrite (wrap64_small (off + blen d)) by (unfold u64; lia).
  destruct (find_or_create e priv path (off + blen d)) as [[k p1]|] eqn:Hfc; cycle 1.
  { exists (error_code XDEVICE_ERROR_OUT_OF_MEMORY), priv. split_and!; try done.
    - by destruct i; cbn in *; subst.
    - by constructor.
    - intros [? ?]%(find_or_create_ready e priv path (off + blen d)). congruence. }
  assert (Hn : 0 <= off + blen d < 2 ^ 63) by lia.
  destruct (prepare_spec _ _ _ _ _ _ Hwf Hp Hn Hfc)
    as (file&ret&file'&->&Hgrow&Hfw&Hfp&Hwf2&Hcfg&Hk2&Hret).
  set (c := default [] (mock_abs (mp_files priv) !! path)) in *.
  cbn [mbind option_bind]. rewrite Hgrow. cbn [mbind option_bind].
  set (p2 := p1 <| mp_files := _ |>) in *.
  destruct Hret as [(->&Hm&Habs)|(->&Hc&Habs)]; cbn.
  { do 2 eexists. split; [done|]. split_and!; [done|done|by constructor|intros (_&_&?&_); congruence]. }
  pose proof (blen_content _ Hfw) as Hcl. rewrite Hc in Hcl. destruct Hcfg as (Hmx&Hcfg).
  change (mp_max_file_size p1) with (mp_max_file_size p2). rewrite Hmx.
  destruct (mp_max_file_size priv <? mf_size file') eqn:Hbig; to_prop.
  { do 2 eexists. split; [done|]. split_and!; [done|by split| |lia].
    apply wo_no_space; fold c; [lia|done]. }
  pose proof (blen_pad_to (off + blen d) c) as Hpl. rewrite mem_read_all. cbn.
  destruct (content_write file' off d (time_now e 1) Hfw Hoff) as (buf&->&Hfw2&Hcw); [lia|]. cbn.
  do 2 eexists. split; [done|]. split_and!; [|by split| |done].
  - apply mock_wf_stats; [|apply stats_u64_write; apply Hwf2].
    by apply (mock_wf_update p2 path k _ Hwf2 Hk2).
  - apply wo_ok; fold c; [lia|]. unfold spec_write_file. fold c.
    rewrite <- spec_write_pad, <- Hc, <- Hcw.
    rewrite <- (insert_insert_eq _ path _ (pad_to (off + blen d) c)), <- Habs.
    by apply (mock_abs_update (mp_files p2) path k).
Qed.

(** ** The outcomes of the other operations *)

(** A segment of the content, as the copy and the zero fill of a read build it. *)
Lemma spec_read_split c off n :
  0 <= off <= blen c → 0 <= n →
  spec_read c off n =
    take (Z.to_nat n) (drop (Z.to_nat off) c) ++ zeros (n - Z.min n (blen c - off)).
Proof.
  intros. unfold spec_read, pad_to, zeros, blen in *.
  rewrite drop_app_le by lia.
  destruct (decide (off + n <= Z.of_nat (length c))) as [Hin|Hout].
  - rewrite take_app_le by (rewrite length_drop; lia).
    replace (Z.to_nat (n - n `min` (Z.of_nat (length c) - off))) with 0%nat by lia.
    by rewrite app_nil_r.
  - rewrite take_app_ge by (rewrite length_drop; lia).
    rewrite length_drop, take_replicate. f_equal; [|f_equal; lia].
    symmetry. apply take_ge. rewrite length_drop. lia.
Qed.

(** Every outcome of a read, with the private data after it. *)
Lemma mock_read_exact e i priv path off buf size :
  if_private i = Some priv → mock_wf priv →
  0 <= off → 0 < size <= blen buf → off + size < 2 ^ 64 →
  ∃ ret priv' buf',
    mock_storage_read_sync e (Some i) (Some path) off (Some buf) size =
      Some (ret, Some (i <| if_private := Some priv' |>), Some buf') ∧
    if mp_inject_read_errors priv && should_inject_error e priv then
      ret = error_code XDEVICE_ERROR_IO ∧ buf' = buf ∧ priv' = priv <| mp_stats := count_error (mp_stats priv) |>
    else
      match mock_abs (mp_files priv) !! path with
      | Some c =>
          if off <? blen c then
            ret = error_code XDEVICE_OK ∧ buf' = spec_read c off size ++ drop (Z.to_nat size) buf ∧
            priv' = priv <| mp_stats := count_read (mp_stats priv) (Z.min size (blen c - off))
                                          (latency_ns (clock_start e) (clock_end e)) |>
          else ret = error_code XDEVICE_ERROR_NOT_FOUND ∧ buf' = buf ∧ priv' = priv
      | None => ret = error_code XDEVICE_ERROR_NOT_FOUND ∧ buf' = buf ∧ priv' = priv
      end.
Proof.
  intros Hi Hwf Hoff Hsize Hlim. unfold mock_storage_read_sync. cbn. rewrite Hi.
  rewrite (proj2 (Z.eqb_neq _ _)) by lia.
  destruct (mp_inject_read_errors priv && _); [do 3 eexists; by split_and!|].
  destruct (find_file (mp_files priv) path) as [k|] eqn:Hk; cycle 1.
  { exists (error_code XDEVICE_ERROR_NOT_FOUND), priv, buf. rewrite iface_id by done.
    apply find_file_None in Hk as [_ ->]. by split_and!. }
  destruct (find_file_Some _ _ _ Hk) as (f&Hf&Hfp&Habs). rewrite Hf, Habs. cbn.
  assert (mock_file_wf f) as Hfw by (eapply Forall_lookup_1; [apply Hwf|done]).
  pose proof (blen_content _ Hfw) as Hcl. rewrite Hcl, (Z.ltb_antisym (mf_size f) off).
  destruct (mf_size f <=? off) eqn:Hle; to_prop; cbn [negb].
  { exists (error_code XDEVICE_ERROR_NOT_FOUND), priv, buf. rewrite iface_id by done. by split_and!. }
  destruct Hfw as (Hsz&Hd&Hcap). rewrite (wrap64_small (off + size)) by (unfold u64; lia).
  set (rs := if mf_size f <? off + size then _ else _).
  assert (Hrs : rs = Z.min size (mf_size f - off)).
  { unfold rs. unfold u64 in *. split_ifs; to_prop; [rewrite wrap64_small by (unfold u64; lia)|]; lia. }
  set (src := take (Z.to_nat rs) (drop (Z.to_nat off) (mf_data f))).
  rewrite (proj2 (mem_read_Some (mf_data f) off rs src)) by (split_and!; (done || lia)). cbn.
  assert (Hsl : length src = Z.to_nat rs)
    by (unfold src; rewrite take_drop_middle_len; unfold blen in *; lia).
  rewrite mem_write_in by (unfold blen in *; lia). rewrite take_0, Nat.add_0_l, Hsl. cbn.
  set (fin := if rs <? size then _ else _).
  assert (Hfin : fin = Some (src ++ zeros (size - rs) ++ drop (Z.to_nat size) buf)).
  { unfold fin. destruct (rs <? size) eqn:Hlt; to_prop.
    - rewrite wrap64_small by (unfold u64; lia).
      rewrite mem_zero_in by (unfold blen in *; rewrite ?length_app, ?length_drop; lia).
      rewrite take_app_length' by lia.
      rewrite drop_app_ge, drop_drop by lia. do 4 f_equal. lia.
    - unfold zeros. replace (Z.to_nat (size - rs)) with 0%nat by lia.
      cbn. do 3 f_equal. lia. }
  rewrite Hfin. cbn. do 3 eexists. split; [done|]. split_and!; [done| |by rewrite Hrs].
  rewrite spec_read_split by lia. rewrite Hcl, Hrs, <- app_assoc. f_equal.
  unfold src, mf_content. rewrite skipn_firstn_comm, take_take. f_equal. lia.
Qed.

Lemma mock_read_spec e i priv path off buf size :
  if_private i = Some priv → mock_wf priv →
  0 <= off → 0 < size <= blen buf → off + size < 2 ^ 64 →
  ∃ ret priv' buf',
    mock_storage_read_sync e (Some i) (Some path) off (Some buf) size =
      Some (ret, Some (i <| if_private := Some priv' |>), Some buf') ∧
    mock_wf priv' ∧ mock_same_config priv priv' ∧ mp_files priv' = mp_files priv ∧
    ((ret = error_code XDEVICE_ERROR_IO ∧ buf' = buf ∧ mp_inject_read_errors priv = true) ∨
     (ret = error_code XDEVICE_ERROR_NOT_FOUND ∧ buf' = buf ∧ priv' = priv ∧
      ∀ c, mock_abs (mp_files priv) !! path = Some c → blen c <= off) ∨
     (ret = error_code XDEVICE_OK ∧ ∃ c, mock_abs (mp_files priv) !! path = Some c ∧
      off < blen c ∧ buf' = spec_read c off size ++ drop (Z.to_nat size) buf)).
Proof.
  intros Hi Hwf Hoff Hsize Hlim.
  destruct (mock_read_exact e i priv path off buf size Hi Hwf Hoff Hsize Hlim) as (ret&priv'&buf'&Hcall&Hout).
  exists ret, priv', buf'. split; [done|].
  destruct (mp_inject_read_errors priv && _) eqn:Hinj.
  { apply andb_true_iff in Hinj as [Hinj _]. destruct Hout as (->&->&->). split_and!; [auto with xdev|done|done|by left]. }
  destruct (mock_abs (mp_files priv) !! path) as [c|].
  - destruct (off <? blen c) eqn:Hlt; to_prop; destruct Hout as (->&->&->).
    + split_and!; [eauto with xdev|done|done|]. right; right. split; [done|]. by exists c.
    + split_and!; try done. right; left. split_and!; try done. by intros ? [= <-].
  - destruct Hout as (->&->&->). split_and!; try done. right; left. by split_and!.
Qed.

Lemma mock_create_spec e i priv path n :
  if_private i = Some priv → mock_wf priv → mock_path_ok path → u64 n →
  ∃ ret priv',
    mock_storage_create_file e (Some i) (Some path) n =
      (ret, Some (i <| if_private := Some priv' |>)) ∧
    mock_wf priv' ∧ mock_same_config priv priv' ∧
    ((ret = error_code XDEVICE_ERROR_EXISTS ∧ priv' = priv ∧
      is_Some (mock_abs (mp_files priv) !! path)) ∨
     (ret = error_code XDEVICE_ERROR_OUT_OF_MEMORY ∧ priv' = priv ∧
      mock_abs (mp_files priv) !! path = None) ∨
     (ret = error_code XDEVICE_OK ∧ mock_abs (mp_files priv) !! path = None ∧
      mp_file_count priv' = mp_file_count priv + 1 ∧
      mock_abs (mp_files priv') = <[path := zeros n]> (mock_abs (mp_files priv)))).
Proof.
  intros Hi Hwf Hp Hn. unfold mock_storage_create_file. cbn. rewrite Hi.
  destruct (find_file (mp_files priv) path) as [k|] eqn:Hk.
  { destruct (find_file_Some _ _ _ Hk) as (?&_&_&Habs).
    exists (error_code XDEVICE_ERROR_EXISTS), priv. rewrite iface_id by done.
    split_and!; try done. left. split_and!; [done|done|eauto]. }
  pose proof (find_file_None _ _ Hk) as [_ Habs].
  destruct (create_new_file e priv path n) as [p'|] eqn:Hc; cycle 1.
  { exists (error_code XDEVICE_ERROR_OUT_OF_MEMORY), priv. rewrite iface_id by done.
    split_and!; try done. right; by left. }
  destruct (create_new_file_spec _ _ _ _ _ Hwf Hk Hp Hn Hc) as (?&?&?&?&_).
  do 2 eexists. split; [done|]. split_and!; try done. right; by right.
Qed.

Lemma mock_delete_spec i priv path :
  if_private i = Some priv → mock_wf priv →
  ∃ ret priv',
    mock_storage_delete_file (Some i) (Some path) =
      (ret, Some (i <| if_private := Some priv' |>)) ∧
    mock_wf priv' ∧ mock_same_config priv priv' ∧
    mock_abs (mp_files priv') = delete path (mock_abs (mp_files priv)) ∧
    ret = (if decide (is_Some (mock_abs (mp_files priv) !! path))
           then error_code XDEVICE_OK else error_code XDEVICE_ERROR_NOT_FOUND).
Proof.
  intros Hi Hwf. unfold mock_storage_delete_file, remove_file. cbn. rewrite Hi.
  destruct (unlink_first (mp_files priv) path) as [fs|] eqn:Hu; cycle 1.
  { apply unlink_first_None in Hu. exists (error_code XDEVICE_ERROR_NOT_FOUND), priv. cbn.
    split_and!; try done.
    - by rewrite delete_id.
    - rewrite Hu. by rewrite decide_False by (intros [? ?]; done). }
  destruct (unlink_first_Some _ _ _ Hu (wf_paths _ Hwf)) as (Habs&Hsub&Hlen&HQ).
  do 2 eexists. split; [done|]. destruct Hwf as [Hfs Hnd Hct Hmx Hmx32 Hst].
  split_and!; try done.
  - split; cbn; try done.
    + by apply HQ.
    + by eapply sublist_NoDup.
    + rewrite wrap32_small by (unfold u32 in *; lia). lia.
    + rewrite wrap32_small by (unfold u32 in *; lia). lia.
  - rewrite decide_True; [done|].
    destruct (mock_abs (mp_files priv) !! path) eqn:Ha; [eauto|].
    apply unlink_first_None in Ha. congruence.
Qed.

(** ** Sequences of calls *)

(** One call of the interface by a client. *)
Inductive mock_op : Type :=
| OpInit (config : option string)
| OpCleanup
| OpRead (path : option string) (offset : Z) (buffer : option block) (size : Z)
| OpWrite (path : option string) (offset : Z) (data : option block) (size : Z)
| OpCreate (path : option string) (initial_size : Z)
| OpDelete (path : option string)
| OpResetStats
| OpSetDelays (read_delay_us write_delay_us : Z)
| OpSetErrorInjection (inject_read inject_write : bool) (rate : Z).

Definition mock_step (nospace : Z) (e : call_env) (op : mock_op)
    (p : iptr mock_storage_private_t) : option (Z * iptr mock_storage_private_t) :=
  match op with
  | OpInit config => Some (mock_storage_init e p config)
  | OpCleanup => Some (mock_storage_cleanup p)
  | OpRead path off buf size =>
      '(ret, p, _) ← mock_storage_read_sync e p path off buf size; Some (ret, p)
  | OpWrite path off data size => mock_storage_write_sync nospace e p path off data size
  | OpCreate path n => Some (mock_storage_create_file e p path n)
  | OpDelete path => Some (mock_storage_delete_file p path)
  | OpResetStats => Some (mock_storage_reset_stats p)
  | OpSetDelays r w => Some (0, mock_storage_set_delays p r w)
  | OpSetErrorInjection r w rate => Some (0, mock_storage_set_error_injection p r w rate)
  end.

(** The results of a sequence of calls; [None] as soon as one of them accesses
    memory outside its blocks. *)
Fixpoint mock_run (nospace : Z) (ops : list (call_env * mock_op))
    (p : iptr mock_storage_private_t) : option (list Z * iptr mock_storage_private_t) :=
  match ops with
  | [] => Some ([], p)
  | (e, op) :: ops =>
      '(ret, p) ← mock_step nospace e op p;
      '(rets, p) ← mock_run nospace ops p;
      Some (ret :: rets, p)
  end.

(** What a caller owes: buffers of the size it states, paths that fit in
    [MAX_PATH_LEN], offsets below half the address space. NULL pointers and
    zero sizes are allowed: the functions test for them. *)
Definition mock_op_ok (op : mock_op) : Prop :=
  match op with
  | OpRead _ off buf size =>
      0 <= off ∧ 0 <= size ∧ off + size < 2 ^ 64 ∧ (∀ b, buf = Some b → size <= blen b)
  | OpWrite path off data size =>
      0 <= off ∧ 0 <= size ∧ off + size < 2 ^ 63 ∧
      (∀ p, path = Some p → mock_path_ok p) ∧ (∀ d, data = Some d → size = blen d)
  | OpCreate path n => u64 n ∧ ∀ p, path = Some p → mock_path_ok p
  | _ => True
  end.

(** The object, if there is one, is not initialised or well formed. *)
Definition mock_inv (p : iptr mock_storage_private_t) : Prop :=
  ∀ priv, private_of p = Some priv → mock_wf priv.

Lemma mock_wf_initial : mock_wf mock_initial_private.
Proof. split; cbn; auto with xdev; [constructor|lia|unfold u32; lia]. Qed.

Lemma private_of_Some {P} (p : iptr P) priv :
  private_of p = Some priv → ∃ i, p = Some i ∧ if_private i = Some priv.
Proof. destruct p as [i|]; cbn; eauto; done. Qed.

Lemma mock_inv_set (i : iface mock_storage_private_t) priv :
  mock_wf priv → mock_inv (Some (i <| if_private := Some priv |>)).
Proof. intros Hwf priv'. cbn. by intros [= <-]. Qed.

(** Without private data only [init] does anything. *)
Lemma mock_step_uninit nospace e op p :
  private_of p = None →
  ∃ ret p', mock_step nospace e op p = Some (ret, p') ∧ mock_inv p'.
Proof.
  intros Hp. assert (Hinv : mock_inv p) by (intros ?; congruence).
  destruct op; cbn; unfold mock_storage_init, mock_storage_cleanup, mock_storage_read_sync,
    mock_storage_write_sync, mock_storage_create_file, mock_storage_delete_file,
    mock_storage_reset_stats, mock_storage_set_delays, mock_storage_set_error_injection;
    rewrite ?Hp; cbn; try (by destruct p as [i|]; cbn in Hp; rewrite ?Hp; eauto).
  destruct p as [i|]; eauto. split_ifs; do 2 eexists; split; eauto.
  apply (mock_inv_set i), mock_wf_initial.
Qed.

(** No admissible call reaches undefined behaviour, and all keep the invariant. *)
Lemma mock_step_safe nospace e op p :
  mock_inv p → mock_op_ok op →
  ∃ ret p', mock_step nospace e op p = Some (ret, p') ∧ mock_inv p'.
Proof.
  intros Hinv Hop.
  destruct (private_of p) as [priv|] eqn:Hpriv; [|by apply mock_step_uninit].
  pose proof (Hinv _ Hpriv) as Hwf.
  destruct (private_of_Some _ _ Hpriv) as (i&->&Hi).
  assert (Hsame : mock_inv (Some i)) by (intros ? [= ?]; congruence).
  destruct op as [config| |path off buf size|path off data size|path n|path| |r w|r w rate];
    cbn in Hop |- *.
  - unfold mock_storage_init. split_ifs; do 2 eexists; split; eauto.
    apply (mock_inv_set i), mock_wf_initial.
  - unfold mock_storage_cleanup. cbn. rewrite Hi. do 2 eexists. split; [done|]. by intros ?.
  - destruct path as [path|], buf as [buf|]; try (unfold mock_storage_read_sync; cbn; rewrite Hi; by eauto).
    destruct (decide (size = 0)) as [->|Hs];
      [unfold mock_storage_read_sync; cbn; rewrite Hi; by eauto|].
    destruct Hop as (?&?&?&Hb). specialize (Hb _ eq_refl).
    destruct (mock_read_spec e i priv path off buf size Hi Hwf) as (ret&p'&b'&->&?&_); [lia..|].
    cbn. do 2 eexists. split; [done|]. by apply mock_inv_set.
  - destruct path as [path|], data as [d|]; try (unfold mock_storage_write_sync; cbn; rewrite Hi; by eauto).
    destruct (decide (size = 0)) as [->|Hs];
      [unfold mock_storage_write_sync; cbn; rewrite Hi; by eauto|].
    destruct Hop as (?&?&?&Hp&Hb). specialize (Hb _ eq_refl). subst size.
    destruct (mock_write_spec nospace e i priv path off d Hi Hwf) as (ret&p'&->&?&_); [by eauto|lia..|].
    do 2 eexists. split; [done|]. by apply mock_inv_set.
  - destruct path as [path|]; [|unfold mock_storage_create_file; cbn; rewrite Hi; by eauto].
    destruct Hop as [Hn Hp].
    destruct (mock_create_spec e i priv path n Hi Hwf) as (ret&p'&->&?&_); [by eauto|done|].
    do 2 eexists. split; [done|]. by apply mock_inv_set.
  - destruct path as [path|]; [|unfold mock_storage_delete_file; cbn; rewrite Hi; by eauto].
    destruct (mock_delete_spec i priv path Hi Hwf) as (ret&p'&->&?&_).
    do 2 eexists. split; [done|]. by apply mock_inv_set.
  - unfold mock_storage_reset_stats. cbn. rewrite Hi. do 2 eexists. split; [done|].
    apply (mock_inv_set i). auto with xdev.
  - unfold mock_storage_set_delays. cbn. rewrite Hi. case_decide; eauto.
    do 2 eexists. split; [done|]. apply (mock_inv_set i). by destruct Hwf.
  - unfold mock_storage_set_error_injection. cbn. rewrite Hi. case_decide; eauto.
    do 2 eexists. split; [done|]. apply (mock_inv_set i). by destruct Hwf.
Qed.

Lemma mock_run_safe nospace ops p :
  mock_inv p → Forall (λ eo, mock_op_ok eo.2) ops →
  ∃ rets p', mock_run nospace ops p = Some (rets, p') ∧ mock_inv p' ∧ length rets = length ops.
Proof.
  revert p. induction ops as [|[e op] ops IH]; intros p Hinv Hok; cbn.
  { by eexists [], p. }
  apply Forall_cons in Hok as [Hop Hops]. cbn in Hop.
  destruct (mock_step_safe nospace e op p Hinv Hop) as (ret&p'&->&Hinv'). cbn.
  destruct (IH p' Hinv' Hops) as (rets&p''&->&?&?). cbn.
  do 2 eexists. split_and!; [done|done|cbn; lia].
Qed.

(** ** Stored paths are short *)

(** Every stored path fits its [char[512]] field, whatever path was asked for. *)
Definition mock_paths_short (priv : mock_storage_private_t) : Prop :=
  Forall (λ f, mock_path_ok (mf_path f)) (mp_files priv).

Lemma create_paths_short e priv path n priv' :
  mock_paths_short priv → create_new_file e priv path n = Some priv' → mock_paths_short priv'.
Proof.
  intros Hs. unfold create_new_file. destruct (_ <=? _); [done|].
  destruct (malloc_ok e 0); [|done]. destruct (_ && _); [done|]. intros [= <-].
  constructor; [|done]. unfold mock_path_ok. cbn [mf_path].
  rewrite chars_str_take, length_take. lia.
Qed.

Lemma expand_file_path e file n ret file' :
  expand_file e file n = Some (ret, file') → mf_path file' = mf_path file.
Proof.
  unfold expand_file. intros H.
  repeat case_match; try done; try (by injection H as _ <-);
    (destruct (mem_zero _ _ _); cbn in H; [by injection H as _ <-|done]).
Qed.

Lemma write_paths_short nospace e i priv path off d size ret p' :
  if_private i = Some priv → mock_paths_short priv →
  mock_storage_write_sync nospace e (Some i) path off d size = Some (ret, p') →
  ∃ priv', p' = Some (i <| if_private := Some priv' |>) ∧ mock_paths_short priv' ∧
           mock_same_config priv priv'.
Proof.
  intros Hi Hs. unfold mock_storage_write_sync. cbn. rewrite Hi.
  assert (Hnop : ∃ priv', Some i = Some (i <| if_private := Some priv' |>) ∧
    mock_paths_short priv' ∧ mock_same_config priv priv')
    by (exists priv; by rewrite iface_id).
  destruct path as [path|], d as [d|]; try (by intros [= <- <-]).
  destruct (size =? 0); [by intros [= <- <-]|].
  destruct (_ && _); [intros [= <- <-]; by eexists|].
  destruct (find_or_create e priv path (off ⊞ size)) as [[k p1]|] eqn:Hfc;
    [|by intros [= <- <-]].
  assert (Hs1 : mock_paths_short p1 ∧ mock_same_config priv p1).
  { unfold find_or_create in Hfc. destruct (find_file _ _); [by injection Hfc as _ <-|].
    destruct (create_new_file e priv path _) as [p|] eqn:Hc; [|done]. injection Hfc as _ <-.
    split; [by eapply create_paths_short|]. unfold create_new_file in Hc.
    destruct (_ <=? _); [done|]. destruct (malloc_ok e 0); [|done].
    destruct (_ && _); [done|]. by injection Hc as <-. }
  destruct Hs1 as [Hs1 Hcfg]. destruct (mp_files p1 !! k) as [f|] eqn:Hf; [|done]. cbn.
  assert (Hpf : mock_path_ok (mf_path f)) by exact (Forall_lookup_1 _ _ _ _ Hs1 Hf).
  destruct (if mf_size f <? _ then _ else _) as [[r f']|] eqn:Hg; [|done]. cbn.
  assert (Hpf' : mf_path f' = mf_path f).
  { destruct (mf_size f <? _); [by eapply expand_file_path|by injection Hg as _ <-]. }
  assert (Hup : ∀ g, mf_path g = mf_path f →
    mock_paths_short (p1 <| mp_files := <[k:=g]> (mp_files p1) |>)).
  { intros g Hg'. apply Forall_insert; [done|]. by rewrite Hg'. }
  destruct (negb _); [intros ?; simplify_eq; eexists; split_and!; [done|by apply Hup|by destruct Hcfg]|].
  destruct (mp_max_file_size _ <? _).
  { intros Heq. simplify_eq. eexists. split_and!; [done|by apply Hup|by destruct Hcfg]. }
  destruct (mem_read d 0 size) as [src|]; [|done]. cbn.
  destruct (mem_write (mf_data f') off src) as [buf|]; [|done]. cbn.
  intros ?; simplify_eq. eexists. split_and!; [done| |by destruct Hcfg].
  unfold mock_paths_short. cbn. rewrite list_insert_insert_eq. by apply Hup.
Qed.

Lemma find_file_long files path :
  Forall (λ f, mock_path_ok (mf_path f)) files → ¬ mock_path_ok path → find_file files path = None.
Proof.
  induction 1 as [|f fs Hf Hfs IH]; intros Hl; cbn; [done|].
  rewrite decide_False by congruence. by rewrite IH.
Qed.
