(* ===== verification/MockBackend.v ===== *)
(** * MockBackend: the in-memory backend implements the storage contract

    The function table [create_mock_storage_interface] installs, and the proof
    that it refines the abstract file system of [StorageSpec]: an instance of
    [StorageBackend], against which the storage manager and the Raft adapter
    are verified. *)

From stdpp Require Import base numbers list strings gmap fin_maps.
From S2P Require Import XDevice Prelude Libc StorageInterface StorageSpec MockStorage.
Local Open Scope Z_scope.

Section mock_backend.
Context (XDEVICE_ERROR_NO_SPACE : Z) (W : Type).

(** The function pointers of the interface. The backend shares nothing with
    other backends: the world [W] is untouched. *)
Definition mock_vtable : storage_vtable call_env W mock_storage_private_t :=
  {| vt_init := Some (λ e w p config, let '(ret, p) := mock_storage_init e p config in Some (ret, w, p));
     vt_cleanup := Some (λ _ w p, let '(ret, p) := mock_storage_cleanup p in Some (ret, w, p));
     vt_health_check := Some (λ _ w p, Some (mock_storage_health_check p, w, p));
     vt_read_sync := Some (λ e w p path off buf size,
       '(ret, p, buf) ← mock_storage_read_sync e p path off buf size; Some (ret, w, p, buf));
     vt_write_sync := Some (λ e w p path off data size,
       '(ret, p) ← mock_storage_write_sync XDEVICE_ERROR_NO_SPACE e p path off data size;
       Some (ret, w, p));
     vt_fsync := Some (λ _ w p path, Some (mock_storage_fsync p path, w, p));
     vt_create_file := Some (λ e w p path size,
       let '(ret, p) := mock_storage_create_file e p path size in Some (ret, w, p));
     vt_delete_file := Some (λ _ w p path,
       let '(ret, p) := mock_storage_delete_file p path in Some (ret, w, p));
     vt_get_file_info := Some (λ _ w p path info,
       '(ret, info) ← mock_storage_get_file_info p path info; Some (ret, w, p, info));
     vt_get_stats := Some (λ _ w p stats,
       let '(ret, stats) := mock_storage_get_stats p stats in Some (ret, w, p, stats));
     vt_reset_stats := Some (λ _ w p, let '(ret, p) := mock_storage_reset_stats p in Some (ret, w, p)) |}.

(** The size limit of [mock_storage_init]. *)
Definition mock_limit : Z := 1024 * 1024 * 1024.

(** The representation invariant of an object in use: well formed, no file over
    the limit, no read faults injected. *)
Definition mock_backend_inv (i : iface mock_storage_private_t) : Prop :=
  ∃ priv, if_private i = Some priv ∧ mock_wf priv ∧
    mp_max_file_size priv = mock_limit ∧ mp_inject_read_errors priv = false ∧
    map_Forall (λ _ c, blen c <= mock_limit) (mock_abs (mp_files priv)).

(** The abstract file system of an object. *)
Definition mock_backend_files (i : iface mock_storage_private_t) : gmap string block :=
  match if_private i with Some priv => mock_abs (mp_files priv) | None => ∅ end.

Definition mock_backend_ready (e : call_env) (i : iface mock_storage_private_t) (path : string)
    : Prop :=
  ∀ priv, if_private i = Some priv → mock_ready e priv path.

Lemma mock_backend_write e i path off d :
  mock_backend_inv i → mock_path_ok path → 0 <= off → 0 < blen d → off + blen d <= mock_limit →
  XDEVICE_ERROR_NO_SPACE ≠ error_code XDEVICE_OK →
  ∃ ret i',
    mock_storage_write_sync XDEVICE_ERROR_NO_SPACE e (Some i) (Some path) off (Some d) (blen d) =
      Some (ret, Some i') ∧
    mock_backend_inv i' ∧ if_type i' = if_type i ∧
    (ret = error_code XDEVICE_OK ∧
       mock_backend_files i' = spec_write_file (mock_backend_files i) path off d
     ∨ ret ≠ error_code XDEVICE_OK ∧ mock_backend_files i' = mock_backend_files i) ∧
    (mock_backend_ready e i path → ret = error_code XDEVICE_OK).
Proof.
  intros (priv&Hi&Hwf&Hmax&Hinj&Hall) Hp Hoff Hd Hlim Hns.
  pose proof (blen_pad_to (off + blen d) (default [] (mock_abs (mp_files priv) !! path))) as Hpl.
  assert (Hold : blen (default [] (mock_abs (mp_files priv) !! path)) <= mock_limit).
  { destruct (mock_abs (mp_files priv) !! path) as [c|] eqn:Hc; cbn.
    - by apply (Hall path).
    - unfold blen, mock_limit. cbn. lia. }
  destruct (mock_write_spec XDEVICE_ERROR_NO_SPACE e i priv path off d Hi Hwf Hp Hoff Hd)
    as (ret&priv'&Hw&Hwf'&Hcfg&Hout&Hready); [unfold mock_limit in *; lia|].
  destruct Hcfg as (Hm&_&Hr&_). unfold mock_backend_files. rewrite Hi.
  do 2 eexists. split; [exact Hw|]. cbn.
  assert (Hgoal : map_Forall (λ _ c, blen c <= mock_limit) (mock_abs (mp_files priv')) ∧
    (ret = error_code XDEVICE_OK ∧
       mock_abs (mp_files priv') = spec_write_file (mock_abs (mp_files priv)) path off d
     ∨ ret ≠ error_code XDEVICE_OK ∧ mock_abs (mp_files priv') = mock_abs (mp_files priv))).
  { destruct Hout as [priv' _ ->|priv' Habs|priv' Hbig _|priv' _ Habs].
    - split; [done|by right].
    - rewrite Habs. split; [done|by right].
    - lia.
    - rewrite Habs. split; [|by left]. unfold spec_write_file.
      apply map_Forall_insert_2; [|done]. rewrite blen_spec_write by lia. lia. }
  destruct Hgoal as [Hall' Hcases]. split_and!; [|done|done|].
  - exists priv'. split_and!; try done; congruence.
  - intros Hrdy. apply Hready; [by apply Hrdy|lia].
Qed.

Lemma mock_backend_read e i path off n buf :
  mock_backend_inv i → 0 <= off → 0 < n → off + n <= mock_limit → blen buf = n →
  ∃ ret i' buf',
    mock_storage_read_sync e (Some i) (Some path) off (Some buf) n =
      Some (ret, Some i', Some buf') ∧
    mock_backend_inv i' ∧ if_type i' = if_type i ∧ mock_backend_files i' = mock_backend_files i ∧
    blen buf' = n ∧
    (∀ c, mock_backend_files i !! path = Some c → off + n <= blen c →
       ret = error_code XDEVICE_OK ∧ buf' = spec_read c off n) ∧
    (blen (default [] (mock_backend_files i !! path)) <= off → ret ≠ error_code XDEVICE_OK).
Proof.
  intros (priv&Hi&Hwf&Hmax&Hinj&Hall) Hoff Hn Hin Hbuf.
  unfold mock_backend_files in *. rewrite Hi in *.
  destruct (mock_read_spec e i priv path off buf n Hi Hwf Hoff)
    as (ret&priv'&buf'&Hr&Hwf'&Hcfg&Hfs&Hcases); [lia|unfold mock_limit in *; lia|].
  assert (Hinv' : mock_backend_inv (i <| if_private := Some priv' |>)).
  { destruct Hcfg as (?&_&?&_). exists priv'. rewrite Hfs. split_and!; try done; congruence. }
  do 3 eexists. split; [exact Hr|]. split; [exact Hinv'|].
  destruct Hcases as [(_&_&?)|[(->&->&_&Hno)|(->&c&Hc&Hlt&->)]]; [congruence|..];
    cbn; rewrite Hfs; (split_and!; [done|done| | |]).
  - done.
  - intros c Hc. apply Hno in Hc. lia.
  - done.
  - rewrite (drop_ge buf) by (unfold blen in *; lia). rewrite app_nil_r.
    by apply blen_spec_read; lia.
  - intros c' Hc'. rewrite Hc in Hc'. injection Hc' as <-. split; [done|].
    rewrite (drop_ge buf) by (unfold blen in *; lia). by rewrite app_nil_r.
  - rewrite Hc. cbn. lia.
Qed.

(** The contract, once the undeclared error code is told apart from success. *)
Context (HNS : XDEVICE_ERROR_NO_SPACE ≠ error_code XDEVICE_OK).

#[export] Program Instance mock_storage_backend : StorageBackend mock_vtable := {|
  st_inv _ i := mock_backend_inv i;
  st_files _ i := mock_backend_files i;
  st_path_ok := mock_path_ok;
  st_limit := mock_limit;
  st_ready e _ i path := mock_backend_ready e i path
|}.
Next Obligation. by vm_compute. Qed.
Next Obligation.
  intros e w i (priv&Hi&_). eexists. split; [done|]. cbn.
  unfold mock_storage_health_check. cbn. by rewrite Hi.
Qed.
Next Obligation.
  intros e w i path off d Hinv Hp Hoff Hd Hlim.
  destruct (mock_backend_write e i path off d) as (ret&i'&Hw&?&?&?&?); try done.
  do 4 eexists. split; [done|]. cbn. rewrite Hw. cbn. by split_and!.
Qed.
Next Obligation.
  intros e w i path off n buf Hinv _ Hoff Hn Hin Hbuf.
  destruct (mock_backend_read e i path off n buf) as (ret&i'&buf'&Hr&?&?&?&?&?&?); try done.
  do 5 eexists. split; [done|]. cbn. rewrite Hr. cbn. by split_and!.
Qed.

End mock_backend.
