(* ===== verification/MockProps.v ===== *)
(** * MockProps: properties of the in-memory backend

    What a client of [mock_storage.c] can rely on, and where the code departs
    from it. *)

From Stdlib Require Import String.
From stdpp Require Import base numbers list strings gmap fin_maps.
From S2P Require Import XDevice Prelude Libc StorageInterface StorageSpec MockStorage.
Local Open Scope Z_scope.

(** ** A concrete object for the witnesses *)

Definition w_iface : iface mock_storage_private_t :=
  mk_iface STORAGE_BACKEND_MOCK "MockStorage" (Some mock_initial_private).

Definition w_data : block := [Byte.x01; Byte.x02; Byte.x03].

Definition w_read_path : string := "a".

Lemma w_inv : mock_inv (Some w_iface).
Proof. intros priv. cbn. intros [= <-]. apply mock_wf_initial. Qed.

(** The state after writing [w_data] at offset 2 of ["a"]. *)
Definition w_priv : mock_storage_private_t :=
  {| mp_files := [mk_mock_file "a" (zeros 2 ++ w_data) 5 5 1700000000 1700000000];
     mp_max_file_size := 1024 * 1024 * 1024; mp_max_files := 1000; mp_file_count := 1;
     mp_read_delay_us := 0; mp_write_delay_us := 0; mp_inject_read_errors := false;
     mp_inject_write_errors := false; mp_error_rate_percent := 0;
     mp_stats := count_write zero_stats 3 400 |}.

Lemma w_priv_wf : mock_wf w_priv.
Proof.
  split; cbn; auto with xdev; [|repeat constructor; set_solver|lia|unfold u32; lia].
  constructor; [|done]. split_and!; [done..|unfold u64; cbn; lia].
Qed.

Lemma w_a_ok : mock_path_ok "a".
Proof. by apply (bool_decide_unpack _). Qed.

(** Check the obligations of a concrete call. *)
Ltac solve_op_ok :=
  cbn; split_and?;
  first [lia | done | intros ? [= <-]; first [by apply (bool_decide_unpack _) | by vm_compute]].

(** ** Memory safety *)

(** C11: starting from an object without private data, no sequence of interface
    calls accesses memory outside its blocks, whatever the C library answers, as
    long as callers pass buffers of the stated size, paths shorter than
    [MAX_PATH_LEN] and offsets below half the address space; every call returns,
    and the private data stays well formed. *)
Theorem mock_calls_safe nospace ops i :
  if_private i = None → Forall (λ eo : call_env * mock_op, mock_op_ok eo.2) ops →
  ∃ rets p, mock_run nospace ops (Some i) = Some (rets, p) ∧
            length rets = length ops ∧ mock_inv p.
Proof.
  intros Hi Hok. destruct (mock_run_safe nospace ops (Some i)) as (rets&p&?&?&?); [|done|eauto].
  intros priv. cbn. congruence.
Qed.

Lemma mock_calls_safe_witness :
  ∃ rets p, mock_run (-99)
    [(default_env, OpInit None); (default_env, OpWrite (Some "a"%string) 2 (Some w_data) 3);
     (default_env, OpRead (Some "a"%string) 1 (Some (zeros 8)) 8); (default_env, OpRead None 0 None 4);
     (default_env, OpDelete (Some "a"%string)); (default_env, OpCleanup)]
    (Some (mk_iface STORAGE_BACKEND_MOCK "MockStorage" None)) = Some (rets, p) ∧
    length rets = 6%nat ∧ mock_inv p.
Proof.
  apply (mock_calls_safe (-99)); [reflexivity|].
  repeat (apply Forall_cons; split; [solve_op_ok|]). constructor.
Defined.

(** ** Functional behaviour *)

(** C12: a write of bytes the caller has, ending below half the address space, has
    exactly the outcomes of [write_outcome]: an injected error or a refused
    allocation leaves every file alone, a success overlays the data on the
    zero-padded old content of that path only, and a file over the limit is
    refused. With allocations granted, no injected error and room under the
    limits, it succeeds. *)
Theorem mock_write_outcomes nospace e i priv path off d :
  if_private i = Some priv → mock_wf priv → mock_path_ok path →
  0 <= off → 0 < blen d → off + blen d < 2 ^ 63 →
  ∃ ret priv',
    mock_storage_write_sync nospace e (Some i) (Some path) off (Some d) (blen d) =
      Some (ret, Some (i <| if_private := Some priv' |>)) ∧
    mock_wf priv' ∧ write_outcome nospace priv path off d ret priv' ∧
    (mock_ready e priv path →
     off + blen d <= mp_max_file_size priv →
     blen (default [] (mock_abs (mp_files priv) !! path)) <= mp_max_file_size priv →
     ret = error_code XDEVICE_OK).
Proof.
  intros Hi Hwf Hp Hoff Hd Hlim.
  destruct (mock_write_spec nospace e i priv path off d Hi Hwf Hp Hoff Hd Hlim)
    as (ret&priv'&?&?&_&?&Hready).
  exists ret, priv'. split_and!; try done. intros Hr ??. apply Hready; [done|].
  rewrite blen_pad_to. lia.
Qed.

Lemma mock_write_outcomes_witness :
  ∃ ret priv',
    mock_storage_write_sync (-99) default_env (Some w_iface) (Some w_read_path) 2 (Some w_data) 3 =
      Some (ret, Some (w_iface <| if_private := Some priv' |>)) ∧
    mock_wf priv' ∧ write_outcome (-99) mock_initial_private w_read_path 2 w_data ret priv' ∧
    ret = error_code XDEVICE_OK.
Proof.
  destruct (mock_write_outcomes (-99) default_env w_iface mock_initial_private w_read_path 2 w_data)
    as (ret&priv'&H1&H2&H3&H4);
    [reflexivity|apply mock_wf_initial|apply w_a_ok|lia|reflexivity|reflexivity|].
  exists ret, priv'. split; [exact H1|]. split; [exact H2|]. split; [exact H3|].
  apply H4; [|vm_compute; discriminate|vm_compute; discriminate].
  unfold mock_ready. cbn. split_and!; try reflexivity. left. lia.
Defined.

(** The generator makes this call fail. *)
Definition read_injected (e : call_env) (priv : mock_storage_private_t) : Prop :=
  mp_inject_read_errors priv = true ∧ mp_error_rate_percent priv ≠ 0 ∧
  Z.rem (rand_value e) 100 < mp_error_rate_percent priv.

#[export] Instance read_injected_dec e priv : Decision (read_injected e priv).
Proof. unfold read_injected. apply _. Defined.

Lemma read_injected_spec e priv :
  mp_inject_read_errors priv && should_inject_error e priv = bool_decide (read_injected e priv).
Proof.
  unfold read_injected, should_inject_error. apply Bool.eq_iff_eq_true. rewrite bool_decide_eq_true, andb_true_iff.
  destruct (Z.eqb_spec (mp_error_rate_percent priv) 0); [split; [by intros [_ ?]|by intros (_&?&_)]|]. rewrite Z.ltb_lt. tauto.
Qed.

(** C35: a read inside the address space has one of three outcomes, which the arguments,
    the file and the random number decide. An injected error gives [IO], leaves the
    buffer alone and is counted as an error; a missing file or an offset at or past its
    end gives [NOT_FOUND] and changes nothing, the statistics included; otherwise the
    first [size] bytes of the buffer are the content at the offset, with zeros past the
    end of the file, and one read of the bytes that the file had is counted. Nothing
    else in the private data changes. *)
Theorem mock_read_outcomes e i priv path off buf size :
  if_private i = Some priv → mock_wf priv →
  0 <= off → 0 < size <= blen buf → off + size < 2 ^ 64 →
  ∃ ret st' buf',
    let priv' := priv <| mp_stats := st' |> in
    mock_storage_read_sync e (Some i) (Some path) off (Some buf) size =
      Some (ret, Some (i <| if_private := Some priv' |>), Some buf') ∧
    mock_wf priv' ∧
    let st := mp_stats priv in
    if decide (read_injected e priv) then
      ret = error_code XDEVICE_ERROR_IO ∧ buf' = buf ∧ st' = st <| error_count := wrap64 (error_count st + 1) |>
    else
      match mock_abs (mp_files priv) !! path with
      | Some c =>
          if decide (off < blen c) then
            ret = error_code XDEVICE_OK ∧ buf' = spec_read c off size ++ drop (Z.to_nat size) buf ∧
            st' = st <| read_ops := wrap64 (read_ops st + 1) |>
                     <| read_bytes := wrap64 (read_bytes st + Z.min size (blen c - off)) |>
                     <| read_latency_avg_ns :=
                          wrap64 (read_latency_avg_ns st + latency_ns (clock_start e) (clock_end e)) / 2 |>
          else ret = error_code XDEVICE_ERROR_NOT_FOUND ∧ buf' = buf ∧ st' = st
      | None => ret = error_code XDEVICE_ERROR_NOT_FOUND ∧ buf' = buf ∧ st' = st
      end.
Proof.
  intros Hi Hwf Hoff Hsize Hlim.
  destruct (mock_read_exact e i priv path off buf size Hi Hwf Hoff Hsize Hlim) as (ret&priv'&buf'&Hcall&Hout).
  destruct (mock_read_spec e i priv path off buf size Hi Hwf Hoff Hsize Hlim) as (ret2&p2&buf2&Hcall2&Hwf'&_).
  rewrite Hcall in Hcall2. injection Hcall2 as _ <- _.
  assert (Hsame : priv = priv <| mp_stats := mp_stats priv |>) by by destruct priv.
  assert (Hpriv : priv' = priv <| mp_stats := mp_stats priv' |>).
  { destruct (_ && _); [by destruct Hout as (_&_&->)|]. destruct (mock_abs _ !! path); [destruct (off <? _)|];
      destruct Hout as (_&_&->); done. }
  exists ret, (mp_stats priv'), buf'. cbn zeta. rewrite <- Hpriv. split; [done|]. split; [done|].
  rewrite read_injected_spec in Hout. case_decide as Hinj.
  { rewrite bool_decide_eq_true_2 in Hout by done. by destruct Hout as (->&->&->). }
  rewrite bool_decide_eq_false_2 in Hout by done.
  destruct (mock_abs _ !! path) as [c|]; [|by destruct Hout as (->&->&->)].
  destruct (Z.ltb_spec off (blen c)); [rewrite decide_True by done|rewrite decide_False by lia];
    by destruct Hout as (->&->&->).
Qed.

Lemma mock_read_outcomes_witness :
  ∃ st' buf',
    mock_storage_read_sync default_env (Some (w_iface <| if_private := Some w_priv |>))
      (Some "a"%string) 3 (Some (zeros 4)) 4 =
      Some (error_code XDEVICE_OK, Some (w_iface <| if_private := Some (w_priv <| mp_stats := st' |>) |>), Some buf') ∧
    buf' = [Byte.x02; Byte.x03; Byte.x00; Byte.x00] ∧
    read_bytes st' = read_bytes (mp_stats w_priv) + 2.
Proof.
  destruct (mock_read_outcomes default_env (w_iface <| if_private := Some w_priv |>) w_priv "a" 3
              (zeros 4) 4) as (ret&st'&buf'&H1&_&H2);
    [reflexivity|apply w_priv_wf|lia|vm_compute; split; [reflexivity|discriminate]|lia|].
  rewrite decide_False in H2 by (intros (Hx&_); discriminate Hx).
  assert (Hc : mock_abs (mp_files w_priv) !! "a"%string = Some (zeros 2 ++ w_data)) by (vm_compute; reflexivity).
  rewrite Hc, decide_True in H2 by (vm_compute; reflexivity). destruct H2 as (->&->&->).
  eexists _, _. split; [exact H1|]. split; vm_compute; reflexivity.
Defined.

(** C22: after a successful write, reading the same range of the path returns the
    written bytes, whatever the C library answers to the read; with error
    injection off the read cannot fail. *)
Theorem mock_write_read_roundtrip nospace e e' i priv path off d p' buf :
  if_private i = Some priv → mock_wf priv → mock_path_ok path → nospace ≠ error_code XDEVICE_OK →
  0 <= off → 0 < blen d → off + blen d < 2 ^ 63 → blen buf = blen d →
  mp_inject_read_errors priv = false →
  mock_storage_write_sync nospace e (Some i) (Some path) off (Some d) (blen d) =
    Some (error_code XDEVICE_OK, p') →
  ∃ p'', mock_storage_read_sync e' p' (Some path) off (Some buf) (blen d) =
    Some (error_code XDEVICE_OK, p'', Some d).
Proof.
  intros Hi Hwf Hp Hns Hoff Hd Hlim Hbuf Hinj Hw.
  destruct (mock_write_spec nospace e i priv path off d Hi Hwf Hp Hoff Hd Hlim)
    as (ret&priv'&Hw'&Hwf'&(_&_&Hri&_)&Hout&_).
  rewrite Hw in Hw'. injection Hw' as <- ->.
  assert (Habs : mock_abs (mp_files priv') = spec_write_file (mock_abs (mp_files priv)) path off d).
  { inversion Hout; subst; (done || by exfalso). }
  destruct (mock_read_spec e' (i <| if_private := Some priv' |>) priv' path off buf (blen d))
    as (ret&priv''&buf'&Hr&_&_&_&Hcases); [done|done|lia..|].
  rewrite Hr. unfold spec_write_file in Habs. rewrite Habs, lookup_insert_eq in Hcases.
  destruct Hcases as [(_&_&?)|[(_&_&_&Hno)|(->&c&[= <-]&_&->)]].
  - congruence.
  - specialize (Hno _ eq_refl). rewrite blen_spec_write in Hno; lia.
  - rewrite spec_read_write_same, drop_ge by (unfold blen in *; lia).
    rewrite app_nil_r. eauto.
Qed.

Lemma mock_write_read_roundtrip_witness :
  ∃ p' p'', mock_storage_write_sync (-99) default_env (Some w_iface) (Some "a"%string) 2
      (Some w_data) (blen w_data) = Some (error_code XDEVICE_OK, p') ∧
    mock_storage_read_sync default_env p' (Some "a"%string) 2 (Some (zeros 3)) (blen w_data) =
      Some (error_code XDEVICE_OK, p'', Some w_data).
Proof.
  eexists. edestruct (mock_write_read_roundtrip (-99) default_env default_env w_iface
    mock_initial_private "a" 2 w_data) as [p'' Hr];
    [reflexivity|apply mock_wf_initial|apply w_a_ok|vm_compute; discriminate|lia
    |reflexivity|reflexivity| |reflexivity|vm_compute; reflexivity|].
  2: { exists p''. split; [vm_compute; reflexivity|exact Hr]. }
  reflexivity.
Defined.

(** An operation on one path leaves the content of every other path alone:
    a write whatever its outcome, a creation, a deletion. *)
Theorem mock_other_paths_kept nospace e i priv path q off d n :
  if_private i = Some priv → mock_wf priv → mock_path_ok path → q ≠ path →
  0 <= off → 0 < blen d → off + blen d < 2 ^ 63 → u64 n →
  (∃ ret priv',
     mock_storage_write_sync nospace e (Some i) (Some path) off (Some d) (blen d) =
       Some (ret, Some (i <| if_private := Some priv' |>)) ∧
     mock_abs (mp_files priv') !! q = mock_abs (mp_files priv) !! q) ∧
  (∃ ret priv',
     mock_storage_create_file e (Some i) (Some path) n =
       (ret, Some (i <| if_private := Some priv' |>)) ∧
     mock_abs (mp_files priv') !! q = mock_abs (mp_files priv) !! q) ∧
  (∃ ret priv',
     mock_storage_delete_file (Some i) (Some path) =
       (ret, Some (i <| if_private := Some priv' |>)) ∧
     mock_abs (mp_files priv') !! q = mock_abs (mp_files priv) !! q).
Proof.
  intros Hi Hwf Hp Hq Hoff Hd Hlim Hn. split_and!.
  - destruct (mock_write_spec nospace e i priv path off d Hi Hwf Hp Hoff Hd Hlim)
      as (ret&priv'&Hw&_&_&Hout&_).
    exists ret, priv'. split; [done|].
    destruct Hout as [? _ ->|? ->|? _ ->|? _ ->]; try done;
      unfold spec_write_file; by rewrite lookup_insert_ne.
  - destruct (mock_create_spec e i priv path n Hi Hwf Hp Hn) as (ret&priv'&Hw&_&_&Hc).
    exists ret, priv'. split; [done|].
    destruct Hc as [(_&->&_)|[(_&->&_)|(_&_&_&->)]]; try done. by rewrite lookup_insert_ne.
  - destruct (mock_delete_spec i priv path Hi Hwf) as (ret&priv'&Hw&_&_&Habs&_).
    exists ret, priv'. split; [done|]. by rewrite Habs, lookup_delete_ne.
Qed.

Lemma mock_other_paths_kept_witness :
  ∃ ret priv', mock_storage_delete_file (Some (w_iface <| if_private := Some w_priv |>))
      (Some "b"%string) = (ret, Some (w_iface <| if_private := Some priv' |>)) ∧
    mock_abs (mp_files priv') !! "a"%string = mock_abs (mp_files w_priv) !! "a"%string.
Proof.
  destruct (mock_other_paths_kept (-99) default_env (w_iface <| if_private := Some w_priv |>)
              w_priv "b" "a" 0 w_data 0) as (_&_&ret&priv'&H1&H2);
    [reflexivity|apply w_priv_wf|by apply (bool_decide_unpack _)|discriminate|lia|reflexivity
    |reflexivity|unfold u64; lia|].
  exists ret, priv'. split; [exact H1|exact H2].
Defined.

(** The life of a file. A creation that succeeds gives a file of the requested
    size full of zeros, a second creation reports [EXISTS], a deletion succeeds
    and restores the files as they were, and then reading or deleting the path
    reports [NOT_FOUND]. *)
Theorem mock_file_lifecycle e e' i priv path n p1 buf size off :
  if_private i = Some priv → mock_wf priv → mock_path_ok path → u64 n →
  mp_inject_read_errors priv = false →
  0 <= off → 0 < size <= blen buf → off + size < 2 ^ 64 →
  mock_storage_create_file e (Some i) (Some path) n = (error_code XDEVICE_OK, p1) →
  ∃ priv1 priv2,
    p1 = Some (i <| if_private := Some priv1 |>) ∧
    mock_abs (mp_files priv1) !! path = Some (zeros n) ∧
    mock_storage_create_file e' p1 (Some path) n = (error_code XDEVICE_ERROR_EXISTS, p1) ∧
    mock_storage_delete_file p1 (Some path) =
      (error_code XDEVICE_OK, Some (i <| if_private := Some priv2 |>)) ∧
    mock_abs (mp_files priv2) = mock_abs (mp_files priv) ∧
    let p2 := Some (i <| if_private := Some priv2 |>) in
    (∃ p3, mock_storage_read_sync e' p2 (Some path) off (Some buf) size =
       Some (error_code XDEVICE_ERROR_NOT_FOUND, p3, Some buf)) ∧
    (mock_storage_delete_file p2 (Some path)).1 = error_code XDEVICE_ERROR_NOT_FOUND.
Proof.
  intros Hi Hwf Hp Hn Hinj Hoff Hsize Hlim Hc.
  destruct (mock_create_spec e i priv path n Hi Hwf Hp Hn) as (ret&priv1&Hc'&Hwf1&Hcfg1&Hcase).
  rewrite Hc in Hc'. injection Hc' as <- ->.
  destruct Hcase as [(?&_)|[(?&_)|(_&Habs0&_&Habs)]]; [done..|].
  set (i1 := i <| if_private := Some priv1 |>).
  assert (Hi1 : if_private i1 = Some priv1) by done.
  destruct (mock_delete_spec i1 priv1 path Hi1 Hwf1) as (ret2&priv2&Hdel&Hwf2&Hcfg2&Habs2&Hret2).
  rewrite Habs, lookup_insert_eq, decide_True in Hret2 by eauto. subst ret2.
  rewrite Habs, delete_insert_eq, delete_id in Habs2 by done.
  set (i2 := i <| if_private := Some priv2 |>).
  assert (Hi2 : if_private i2 = Some priv2) by done.
  exists priv1, priv2. fold i1 i2. cbv zeta. split_and!; try done.
  - by rewrite Habs, lookup_insert_eq.
  - destruct (mock_create_spec e' i1 priv1 path n Hi1 Hwf1 Hp Hn) as (r&p'&->&_&_&Hcase).
    rewrite Habs, lookup_insert_eq in Hcase.
    by destruct Hcase as [(->&->&_)|[(_&_&?)|(_&?&_)]].
  - destruct (mock_read_spec e' i2 priv2 path off buf size Hi2 Hwf2 Hoff Hsize Hlim)
      as (r&p'&b'&->&_&_&_&Hcase).
    rewrite Habs2, Habs0 in Hcase.
    destruct Hcase as [(_&_&Hri)|[(->&->&_)|(_&?&?&_)]]; [|by eauto|done].
    destruct Hcfg1 as (_&_&Hr1&_), Hcfg2 as (_&_&Hr2&_). congruence.
  - destruct (mock_delete_spec i2 priv2 path Hi2 Hwf2) as (r&p'&->&_&_&_&Hr).
    cbn. rewrite Hr, Habs2, Habs0, decide_False by (intros [? ?]; done). done.
Qed.

Lemma mock_file_lifecycle_witness :
  ∃ p1 priv1 priv2,
    p1 = Some (w_iface <| if_private := Some priv1 |>) ∧
    mock_abs (mp_files priv1) !! "a"%string = Some (zeros 4) ∧
    mock_storage_delete_file p1 (Some "a"%string) =
      (error_code XDEVICE_OK, Some (w_iface <| if_private := Some priv2 |>)).
Proof.
  exists (mock_storage_create_file default_env (Some w_iface) (Some "a"%string) 4).2.
  destruct (mock_file_lifecycle default_env default_env w_iface mock_initial_private "a" 4
    (mock_storage_create_file default_env (Some w_iface) (Some "a"%string) 4).2 (zeros 1) 1 0)
    as (priv1&priv2&H1&H2&_&H3&_);
    [reflexivity|apply mock_wf_initial|apply w_a_ok|unfold u64; lia|reflexivity|lia
    |vm_compute; split; [reflexivity|discriminate]|lia|reflexivity|].
  exists priv1, priv2. split; [exact H1|]. split; [exact H2|exact H3].
Defined.

(** ** Departures *)

(** A write refused for space is not undone: the file is left at its grown
    size, over the limit, and every later size query reports that size. *)
Theorem mock_no_space_keeps_growth nospace e i priv path off d priv' :
  if_private i = Some priv → mock_wf priv → mock_path_ok path →
  0 <= off → 0 < blen d → off + blen d < 2 ^ 63 →
  nospace ≠ error_code XDEVICE_OK → nospace ≠ error_code XDEVICE_ERROR_IO →
  nospace ≠ error_code XDEVICE_ERROR_OUT_OF_MEMORY →
  mock_storage_write_sync nospace e (Some i) (Some path) off (Some d) (blen d) =
    Some (nospace, Some (i <| if_private := Some priv' |>)) →
  ∃ c, mock_abs (mp_files priv') !! path = Some c ∧ mp_max_file_size priv' < blen c ∧
       off + blen d <= blen c.
Proof.
  intros Hi Hwf Hp Hoff Hd Hlim Hn0 Hn1 Hn2 Hw.
  destruct (mock_write_spec nospace e i priv path off d Hi Hwf Hp Hoff Hd Hlim)
    as (ret&p2&Hw'&_&(Hmx&_)&Hout&_).
  rewrite Hw in Hw'. injection Hw' as Hr Hp2. assert (p2 = priv') as -> by congruence.
  subst ret. rewrite Hmx.
  inversion Hout as [| |? Hbig Habs|]; subst; try done.
  rewrite Habs, lookup_insert_eq. eexists. split_and!; [done|done|].
  rewrite blen_pad_to. lia.
Qed.

(** A small limit, so that the refusal can be computed. *)
Definition w_small : iface mock_storage_private_t :=
  w_iface <| if_private := Some (mock_initial_private <| mp_max_file_size := 4 |>) |>.

Lemma mock_no_space_keeps_growth_witness :
  ∃ priv' c, mock_storage_write_sync (-99) default_env (Some w_small) (Some "a"%string) 2
      (Some w_data) (blen w_data) = Some (-99, Some (w_small <| if_private := Some priv' |>)) ∧
    mock_abs (mp_files priv') !! "a"%string = Some c ∧ 4 < blen c.
Proof.
  set (priv' := mock_initial_private <| mp_max_file_size := 4 |>
    <| mp_files := [mk_mock_file "a" (zeros 5) 5 5 1700000000 1700000000] |>
    <| mp_file_count := 1 |>).
  destruct (mock_no_space_keeps_growth (-99) default_env w_small
    (mock_initial_private <| mp_max_file_size := 4 |>) "a" 2 w_data priv') as (c&H1&H2&_);
    [reflexivity| |apply w_a_ok|lia|reflexivity|reflexivity|discriminate|discriminate|discriminate
    |vm_compute; reflexivity|].
  - destruct mock_wf_initial as [? ? ? ? ? ?]. split; assumption.
  - exists priv', c. split; [vm_compute; reflexivity|]. split; [exact H1|exact H2].
Defined.

(** Above half the address space the doubled capacity wraps around. Writing one
    byte at offset [2^63 + 9] of an existing five-byte file reports "no space" but
    shrinks the allocation to 20 bytes while recording a size of [2^63 + 10]; the
    representation is no longer well formed and a read at offset 100, which the
    code believes to be inside the file, leaves the block. *)
Theorem mock_capacity_wraps nospace :
  ∃ p', mock_storage_write_sync nospace default_env
          (Some (w_iface <| if_private := Some w_priv |>)) (Some "a"%string) (2 ^ 63 + 9)
          (Some [Byte.x01]) 1 = Some (nospace, p') ∧
        ¬ mock_inv p' ∧
        mock_storage_read_sync default_env p' (Some "a"%string) 100 (Some (zeros 1)) 1 = None.
Proof.
  eexists. split; [vm_compute; reflexivity|]. split; [|vm_compute; reflexivity].
  intros Hinv. destruct (Hinv _ eq_refl) as [Hf _ _ _ _ _].
  apply Forall_cons in Hf as [[Hsz _] _]. cbn in Hsz. lia.
Qed.

(** A path of [MAX_PATH_LEN] or more characters is stored truncated, so it is
    never found again: even after a write to it succeeds, reading it reports
    [NOT_FOUND]. *)
Theorem mock_long_path_lost nospace e e' i priv path off d size p' off' buf size' :
  if_private i = Some priv → mock_paths_short priv → ¬ mock_path_ok path →
  mp_inject_read_errors priv = false → size' ≠ 0 →
  mock_storage_write_sync nospace e (Some i) (Some path) off (Some d) size =
    Some (error_code XDEVICE_OK, p') →
  mock_storage_read_sync e' p' (Some path) off' (Some buf) size' =
    Some (error_code XDEVICE_ERROR_NOT_FOUND, p', Some buf).
Proof.
  intros Hi Hs Hl Hinj Hsz Hw.
  destruct (write_paths_short _ _ _ _ _ _ _ _ _ _ Hi Hs Hw) as (priv'&->&Hs'&(_&_&Hri&_)).
  unfold mock_storage_read_sync. cbn. rewrite (proj2 (Z.eqb_neq _ _)) by done.
  rewrite Hri, Hinj. cbn. by rewrite find_file_long.
Qed.

(** A path of 600 characters. *)
Definition w_long_path : string := String.string_of_list_byte (replicate 600 Byte.x61).

Lemma mock_long_path_lost_witness :
  ∃ p', mock_storage_write_sync (-99) default_env (Some w_iface) (Some w_long_path) 0
      (Some w_data) 3 = Some (error_code XDEVICE_OK, p') ∧
    mock_storage_read_sync default_env p' (Some w_long_path) 0 (Some (zeros 3)) 3 =
      Some (error_code XDEVICE_ERROR_NOT_FOUND, p', Some (zeros 3)).
Proof.
  eexists. split; [vm_compute; reflexivity|].
  apply (mock_long_path_lost (-99) default_env default_env w_iface mock_initial_private
    w_long_path 0 w_data 3); [reflexivity|constructor|unfold mock_path_ok; vm_compute; lia
    |reflexivity|discriminate|vm_compute; reflexivity].
Defined.

(** The delay passed to [nanosleep] is normalised and exact: for a positive
    [uint32_t] number of microseconds the nanosecond field is below one second
    and the two fields add up to the delay. *)
Theorem simulate_delay_exact us :
  u32 us →
  match simulate_delay us with
  | None => us = 0
  | Some ts => 0 <= tv_nsec ts < 1000000000 ∧
               tv_sec ts * 1000000000 + tv_nsec ts = us * 1000
  end.
Proof.
  intros Hus. unfold simulate_delay, u32 in *. destruct (0 <? us) eqn:H0; to_prop; [|lia]. cbn.
  pose proof (Z.mod_pos_bound us 1000000 ltac:(lia)).
  rewrite wrap32_small by (unfold u32; lia).
  pose proof (Z.div_mod us 1000000 ltac:(lia)). lia.
Qed.

Lemma simulate_delay_exact_witness :
  u32 2500000 ∧ simulate_delay 2500000 = Some (mk_timespec 2 500000000) ∧
  2 * 1000000000 + 500000000 = 2500000 * 1000.
Proof.
  assert (H : u32 2500000) by (unfold u32; lia).
  split; [exact H|]. split; [reflexivity|exact (proj2 (simulate_delay_exact 2500000 H))].
Defined.
