(* ===== verification/MockThreads.v ===== *)
(** * MockThreads: concurrent calls of the in-memory backend ([src/storage/mock_storage.c])

    A transfer takes [files_lock] for its work on the files, gives it back, and takes
    [stats_lock] to count itself: between the two any other call can run. Here a call is
    two steps, each what one thread does while it holds a lock (with the code before it
    that touches nothing shared), and the calls of several threads are interleaved in any
    way. [MockStorage] has the same calls as one step. *)

From stdpp Require Import base numbers list strings gmap.
From S2P Require Import XDevice Prelude Workers Libc StorageInterface Counters StorageSpec MockStorage MockProps.
Local Open Scope Z_scope.

(** ** A call in two steps *)

(** The calls that work on the files, with arguments that are not NULL. *)
Inductive file_op : Type :=
| FRead (path : string) (offset size : Z) (buffer : block)
| FWrite (path : string) (offset size : Z) (data : block)
| FCreate (path : string) (initial_size : Z)
| FDelete (path : string).

(** The result of a call: its return value and the buffer of a read. *)
Abbreviation result := (Z * option block)%type.

Section mock_threads.
Context (XDEVICE_ERROR_NO_SPACE : Z).

Definition first_read (e : call_env) (priv : mock_storage_private_t) (path : string) (offset size : Z)
    (buf : block) : option (result * mock_storage_private_t * option stat_update) :=
  if size =? 0 then Some (error_code XDEVICE_ERROR_INVALID_PARAM, Some buf, priv, None)
  else if mp_inject_read_errors priv && should_inject_error e priv then
    Some (error_code XDEVICE_ERROR_IO, Some buf, priv, Some CountError)
  else
    match find_file (mp_files priv) path with
    | None => Some (error_code XDEVICE_ERROR_NOT_FOUND, Some buf, priv, None)
    | Some i =>
        file ← mp_files priv !! i;
        if mf_size file <=? offset then Some (error_code XDEVICE_ERROR_NOT_FOUND, Some buf, priv, None)
        else
          let read_size := if mf_size file <? offset ⊞ size then mf_size file ⊟ offset else size in
          src ← mem_read (mf_data file) offset read_size;
          buf ← mem_write buf 0 src;
          buf ← (if read_size <? size then mem_zero buf read_size (size ⊟ read_size) else Some buf);
          Some (error_code XDEVICE_OK, Some buf, priv,
                Some (CountRead read_size (latency_ns (clock_start e) (clock_end e))))
    end.

Definition first_write (e : call_env) (priv : mock_storage_private_t) (path : string) (offset size : Z)
    (data : block) : option (result * mock_storage_private_t * option stat_update) :=
  if size =? 0 then Some (error_code XDEVICE_ERROR_INVALID_PARAM, None, priv, None)
  else if mp_inject_write_errors priv && should_inject_error e priv then
    Some (error_code XDEVICE_ERROR_IO, None, priv, Some CountError)
  else
    match find_or_create e priv path (offset ⊞ size) with
    | None => Some (error_code XDEVICE_ERROR_OUT_OF_MEMORY, None, priv, None)
    | Some (i, priv) =>
        file ← mp_files priv !! i;
        '(ret, file) ← (if mf_size file <? offset ⊞ size then expand_file e file (offset ⊞ size)
                        else Some (error_code XDEVICE_OK, file));
        let priv := priv <| mp_files := <[i:=file]> (mp_files priv) |> in
        if negb (ret =? XDEVICE_OK) then Some (error_code XDEVICE_ERROR_OUT_OF_MEMORY, None, priv, None)
        else if mp_max_file_size priv <? mf_size file then Some (XDEVICE_ERROR_NO_SPACE, None, priv, None)
        else
          src ← mem_read data 0 size;
          buf ← mem_write (mf_data file) offset src;
          let file := file <| mf_data := buf |> <| mf_modified_time := time_now e 1 |> in
          Some (error_code XDEVICE_OK, None, priv <| mp_files := <[i:=file]> (mp_files priv) |>,
                Some (CountWrite size (latency_ns (clock_start e) (clock_end e))))
    end.

(** Up to the release of [files_lock]. *)
Definition first_step (e : call_env) (priv : mock_storage_private_t) (op : file_op)
    : option (result * mock_storage_private_t * option stat_update) :=
  match op with
  | FRead path off size buf => first_read e priv path off size buf
  | FWrite path off size data => first_write e priv path off size data
  | FCreate path size =>
      match find_file (mp_files priv) path with
      | Some _ => Some (error_code XDEVICE_ERROR_EXISTS, None, priv, None)
      | None =>
          match create_new_file e priv path size with
          | None => Some (error_code XDEVICE_ERROR_OUT_OF_MEMORY, None, priv, None)
          | Some priv => Some (error_code XDEVICE_OK, None, priv, None)
          end
      end
  | FDelete path => let '(ret, priv) := remove_file priv path in Some (ret, None, priv, None)
  end.

(** The update of the statistics, if there is one, and the return. *)
Definition second_step (u : option stat_update) (priv : mock_storage_private_t) : mock_storage_private_t :=
  match u with Some u => priv <| mp_stats := count_update u (mp_stats priv) |> | None => priv end.

(** The call as [MockStorage] has it. *)
Definition whole_call (e : call_env) (i : iface mock_storage_private_t) (op : file_op)
    : option (result * iptr mock_storage_private_t) :=
  match op with
  | FRead path off size buf =>
      '(ret, p, buf) ← mock_storage_read_sync e (Some i) (Some path) off (Some buf) size; Some (ret, buf, p)
  | FWrite path off size data =>
      '(ret, p) ← mock_storage_write_sync XDEVICE_ERROR_NO_SPACE e (Some i) (Some path) off (Some data) size;
      Some (ret, None, p)
  | FCreate path size =>
      let '(ret, p) := mock_storage_create_file e (Some i) (Some path) size in Some (ret, None, p)
  | FDelete path =>
      let '(ret, p) := mock_storage_delete_file (Some i) (Some path) in Some (ret, None, p)
  end.

(** ** Threads *)

(** A call begins with its first step, and returns with the second. *)
Definition mock_begin (c : call_env * file_op) (priv : mock_storage_private_t)
    : option (mock_storage_private_t * (result * option stat_update)) :=
  '(r, priv, u) ← first_step c.1 priv c.2; Some (priv, (r, u)).

Definition mock_go_on (c : call_env * file_op) (g : result * option stat_update) (priv : mock_storage_private_t)
    : option (mock_storage_private_t * (result * option stat_update + result)) :=
  Some (second_step g.2 priv, inr g.1).

(** It takes effect in the first, up to the statistics. *)
Definition mock_effect (g : result * option stat_update) : option result := Some g.1.

(** The update that is still to be made. *)
Definition mock_pending (x : (call_env * file_op) * (result * option stat_update)) : option stat_update := x.2.2.

(** The call as a step of an interface object. *)
Definition mock_spec (i : iface mock_storage_private_t) (c : call_env * file_op) (r : result)
    (i' : iface mock_storage_private_t) : Prop := whole_call c.1 i c.2 = Some (r, Some i').

(** ** The two steps make the call *)

Lemma whole_call_split e i priv op :
  if_private i = Some priv →
  whole_call e i op =
    ('(r, priv', u) ← first_step e priv op; Some (r, Some (i <| if_private := Some (second_step u priv') |>))).
Proof.
  intros Hi. pose proof (iface_same i priv Hi) as Hsame. destruct op as [path off size buf|path off size data|path n|path];
    cbn [whole_call first_step].
  - unfold mock_storage_read_sync, first_read. cbn [private_of mbind option_bind]. rewrite Hi.
    destruct (size =? 0); [by cbn; rewrite Hsame|]. destruct (_ && _); [done|].
    destruct (find_file _ _) as [k|]; [|by cbn; rewrite Hsame].
    destruct (mp_files priv !! k) as [file|]; [|done]. cbn [mbind option_bind].
    destruct (_ <=? _); [by cbn; rewrite Hsame|]. cbv zeta.
    destruct (mem_read _ _ _) as [src|]; [|done]. cbn [mbind option_bind].
    destruct (mem_write _ _ _) as [b1|]; [|done]. cbn [mbind option_bind].
    by destruct (if _ <? size then _ else _).
  - unfold mock_storage_write_sync, first_write. cbn [private_of mbind option_bind]. rewrite Hi.
    destruct (size =? 0); [by cbn; rewrite Hsame|]. destruct (_ && _); [done|].
    destruct (find_or_create e priv path _) as [[k p1]|]; [|by cbn; rewrite Hsame].
    destruct (mp_files p1 !! k) as [file|]; [|done]. cbn [mbind option_bind].
    destruct (if _ <? _ then _ else _) as [[ret f]|]; [|done]. cbn [mbind option_bind]. cbv zeta.
    destruct (negb _); [done|]. destruct (_ <? _); [done|].
    destruct (mem_read _ _ _) as [src|]; [|done]. cbn [mbind option_bind].
    by destruct (mem_write _ _ _) as [b1|].
  - unfold mock_storage_create_file. cbn [private_of mbind option_bind]. rewrite Hi.
    destruct (find_file _ _); [by cbn; rewrite Hsame|].
    destruct (create_new_file _ _ _ _); [done|by cbn; rewrite Hsame].
  - unfold mock_storage_delete_file. cbn [private_of mbind option_bind]. rewrite Hi.
    by destruct (remove_file priv path).
Qed.

(** ** The first step and the statistics *)

(** The same files and settings with other statistics. *)
Definition with_stats (st : storage_stats_t) (priv : mock_storage_private_t) : mock_storage_private_t :=
  priv <| mp_stats := st |>.

Definition lift_stats (st : storage_stats_t) (x : result * mock_storage_private_t * option stat_update)
    : result * mock_storage_private_t * option stat_update :=
  (x.1.1, with_stats st x.1.2, x.2).

Lemma create_with_stats e priv path n st :
  create_new_file e (with_stats st priv) path n = with_stats st <$> create_new_file e priv path n.
Proof.
  unfold create_new_file. cbn. destruct (_ <=? _); [done|]. destruct (negb _); [done|]. by destruct (_ && _).
Qed.

Lemma find_or_create_with_stats e priv path n st :
  find_or_create e (with_stats st priv) path n =
    (λ x : nat * mock_storage_private_t, (x.1, with_stats st x.2)) <$> find_or_create e priv path n.
Proof.
  unfold find_or_create. cbn [with_stats mp_files]. destruct (find_file _ _); [done|].
  rewrite create_with_stats. by destruct (create_new_file e priv path n).
Qed.

(** It does not look at the statistics. *)
Lemma first_step_with_stats e priv op st :
  first_step e (with_stats st priv) op = lift_stats st <$> first_step e priv op.
Proof.
  destruct op as [path off size buf|path off size data|path n|path]; cbn [first_step].
  - unfold first_read. cbn. destruct (size =? 0); [done|]. change (should_inject_error e (with_stats st priv)) with (should_inject_error e priv).
    destruct (_ && _); [done|]. destruct (find_file _ _) as [k|]; [|done].
    destruct (mp_files priv !! k) as [file|]; [|done]. cbn. destruct (_ <=? _); [done|].
    destruct (mem_read _ _ _) as [src|]; [|done]. cbn. destruct (mem_write _ _ _) as [b1|]; [|done]. cbn.
    by destruct (if _ <? size then _ else _).
  - unfold first_write. change (mp_inject_write_errors (with_stats st priv)) with (mp_inject_write_errors priv).
    change (should_inject_error e (with_stats st priv)) with (should_inject_error e priv).
    destruct (size =? 0); [done|]. destruct (_ && _); [done|]. rewrite find_or_create_with_stats.
    destruct (find_or_create e priv path _) as [[k p1]|]; [|done]. cbn.
    destruct (mp_files p1 !! k) as [file|]; [|done]. cbn.
    destruct (if _ <? _ then _ else _) as [[ret f]|]; [|done]. cbn.
    destruct (negb _); [done|]. destruct (_ <? _); [done|].
    destruct (mem_read _ _ _) as [src|]; [|done]. cbn. by destruct (mem_write _ _ _) as [b1|].
  - change (mp_files (with_stats st priv)) with (mp_files priv). destruct (find_file _ _); [done|].
    rewrite create_with_stats. by destruct (create_new_file e priv path n).
  - unfold remove_file. cbn [with_stats mp_files]. by destruct (unlink_first _ _).
Qed.

(** Nor does it change them. *)
Lemma first_step_keeps_stats e priv op r priv' u :
  first_step e priv op = Some (r, priv', u) → mp_stats priv' = mp_stats priv.
Proof.
  intros H. pose proof (first_step_with_stats e priv op (mp_stats priv)) as Hw.
  assert (with_stats (mp_stats priv) priv = priv) as Hp by by destruct priv.
  rewrite Hp, H in Hw. cbn in Hw. injection Hw as Hw. rewrite Hw. done.
Qed.

End mock_threads.

(** ** Simulation *)

Section refinement.
Context (nospace : Z).

Definition file_op_ok (op : file_op) : Prop :=
  match op with
  | FRead _ off size buf => 0 <= off ∧ 0 <= size <= blen buf ∧ off + size < 2 ^ 64
  | FWrite path off size data => mock_path_ok path ∧ 0 <= off ∧ size = blen data ∧ off + size < 2 ^ 63
  | FCreate path n => mock_path_ok path ∧ u64 n
  | FDelete _ => True
  end.

(** An admissible call returns and keeps the object well formed. *)
Lemma whole_call_safe e i priv op :
  if_private i = Some priv → mock_wf priv → file_op_ok op →
  ∃ r priv', whole_call nospace e i op = Some (r, Some (i <| if_private := Some priv' |>)) ∧ mock_wf priv'.
Proof.
  intros Hi Hwf Hok. destruct op as [path off size buf|path off size data|path n|path]; cbn [whole_call].
  - destruct Hok as (Ho&Hs&Hlim). destruct (decide (size = 0)) as [->|Hne].
    { unfold mock_storage_read_sync. cbn. rewrite Hi. cbn. rewrite <- (iface_same i priv Hi). by do 2 eexists. }
    destruct (mock_read_spec e i priv path off buf size Hi Hwf Ho) as (ret&p'&b'&->&?&_); [lia..|].
    cbn. by do 2 eexists.
  - destruct Hok as (Hp&Ho&->&Hlim). destruct (decide (blen data = 0)) as [H0|Hne].
    { unfold mock_storage_write_sync. cbn. rewrite Hi, H0. cbn. rewrite <- (iface_same i priv Hi). by do 2 eexists. }
    pose proof (blen_nonneg data).
    destruct (mock_write_spec nospace e i priv path off data Hi Hwf Hp Ho) as (ret&p'&->&?&_); [lia..|].
    cbn. by do 2 eexists.
  - destruct Hok as [Hp Hn]. destruct (mock_create_spec e i priv path n Hi Hwf Hp Hn) as (ret&p'&->&?&_). by do 2 eexists.
  - destruct (mock_delete_spec i priv path Hi Hwf) as (ret&p'&->&?&_). by do 2 eexists.
Qed.

(** The concurrent state and the object of the calls made one after the other: the same
    files and settings; the counters are those of the concurrent state once the pending
    updates are made. *)
Record agrees (s : conc mock_storage_private_t (call_env * file_op) (result * option stat_update) result)
    (i : iface mock_storage_private_t) : Prop := {
  ag_ok : Forall (λ wk, Forall (λ c, file_op_ok c.2) (wk_todo wk)) (cc_workers s);
  ag_priv : ∃ priv, if_private i = Some priv ∧ mock_wf priv ∧
    cc_state s = with_stats (mp_stats (cc_state s)) priv ∧
    same_counters (mp_stats priv) (update_all (all_pending mock_pending (cc_workers s)) (mp_stats (cc_state s)))
}.

(** The second step of a call makes its update. *)
Lemma second_sim s i k wk c r u :
  agrees s i → cc_workers s !! k = Some wk → wk_now wk = Some (c, (r, u)) →
  agrees (mk_conc (second_step u (cc_state s))
            (<[k := mk_worker (wk_todo wk) None (wk_done wk ++ [r])]> (cc_workers s))) i.
Proof.
  intros [Hok (priv&Hi&Hwf&Hf&Hst)] Hk Hp. set (wk' := mk_worker _ _ _).
  destruct (all_pending_insert mock_pending (cc_workers s) k wk wk' Hk) as [H1 H2].
  assert (Hu : pending_of mock_pending wk = u) by (unfold pending_of; by rewrite Hp).
  rewrite Hu in H1. change (pending_of mock_pending wk') with (@None stat_update) in H2. cbn [option_list app] in H2.
  split; [apply Forall_insert; [done|exact (Forall_lookup_1 _ _ _ _ Hok Hk)]|].
  exists priv. split_and!; [done|done| |]; cbn [cc_state cc_workers].
  - rewrite Hf. by destruct u.
  - rewrite (update_all_permutation _ _ _ H2). rewrite Hst, (update_all_permutation _ _ _ H1).
    destruct u as [u|]; [|done]. cbn [option_list app]. symmetry. etrans; [symmetry; apply update_all_snoc|done].
Qed.

(** The first step is the call made at once, up to the update. *)
Lemma first_sim s i k wk e op todo :
  agrees s i → cc_workers s !! k = Some wk → wk_now wk = None → wk_todo wk = (e, op) :: todo →
  ∃ r u p i', first_step nospace e (cc_state s) op = Some (r, p, u) ∧
    whole_call nospace e i op = Some (r, Some i') ∧
    agrees (mk_conc p (<[k := mk_worker todo (Some ((e, op), (r, u))) (wk_done wk)]> (cc_workers s))) i'.
Proof.
  intros [Hok (priv&Hi&Hwf&Hf&Hst)] Hk Hp Ht. set (st := mp_stats (cc_state s)) in *.
  pose proof (Forall_lookup_1 _ _ _ _ Hok Hk) as Hwk. cbn in Hwk. rewrite Ht in Hwk.
  apply Forall_cons in Hwk as [Hop Htodo]. cbn in Hop.
  destruct (whole_call_safe e i priv op Hi Hwf Hop) as (r&priv'&Hw&Hwf').
  pose proof (whole_call_split nospace e i priv op Hi) as Hs. rewrite Hw in Hs.
  destruct (first_step nospace e priv op) as [[[r1 p1] u]|] eqn:Hfs; [|done]. cbn [mbind option_bind] in Hs.
  apply (inj Some), pair_equal_spec in Hs as [-> Hs]. apply (inj Some), (f_equal if_private) in Hs. cbn in Hs.
  apply (inj Some) in Hs. pose proof (first_step_keeps_stats _ _ _ _ _ _ _ Hfs) as Hks.
  pose proof (first_step_with_stats nospace e priv op st) as Hc. rewrite <- Hf, Hfs in Hc.
  exists r1, u, (with_stats st p1), (i <| if_private := Some priv' |>). split; [exact Hc|]. split; [done|].
  set (wk' := mk_worker todo _ _).
  destruct (all_pending_insert mock_pending (cc_workers s) k wk wk' Hk) as [H1 H2].
  assert (Hu : pending_of mock_pending wk = None) by (unfold pending_of; by rewrite Hp).
  rewrite Hu in H1. change (pending_of mock_pending wk') with u in H2. cbn [option_list app] in H1.
  split; [by apply Forall_insert|]. exists priv'. split_and!; [by destruct i|done| |]; cbn [cc_state cc_workers].
  - rewrite Hs. by destruct u.
  - change (mp_stats (with_stats st p1)) with st.
    rewrite (update_all_permutation _ _ _ H2). rewrite (update_all_permutation _ _ _ H1) in Hst.
    destruct u as [u|]; rewrite Hs; cbn [second_step option_list app]; [|by rewrite Hks].
    apply (count_update_proper u). by rewrite Hks.
Qed.

Lemma mock_simulates :
  simulates (mock_begin nospace) mock_go_on mock_effect (mock_spec nospace) agrees.
Proof.
  intros s i k Ha. unfold conc_step. destruct (cc_workers s !! k) as [wk|] eqn:Hk; cbn [mbind option_bind].
  2: { exists s, [], i. split_and!; [done|constructor|done|apply follows_refl]. }
  unfold worker_step. destruct (wk_now wk) as [[c [r u]]|] eqn:Hp.
  - eexists _, [], i. split_and!; [reflexivity|constructor|by eapply second_sim|].
    apply (follows_step _ s k wk _ _ [] Hk); unfold effected, waiting; by rewrite Hp, ?app_nil_r.
  - destruct (wk_todo wk) as [|[e op] todo] eqn:Ht.
    { cbn [mbind option_bind]. rewrite list_insert_id by done. exists s, [], i.
      split_and!; [by destruct s|constructor|done|apply follows_refl]. }
    destruct (first_sim s i k wk e op todo Ha Hk Hp Ht) as (r&u&p&i'&Hfs&Hw&Ha').
    unfold mock_begin. cbn [fst snd]. rewrite Hfs. cbn [mbind option_bind].
    eexists _, [(k, ((e, op), r))], i'. split_and!; [reflexivity|by apply spec_run_one|exact Ha'|].
    apply (follows_step _ s k wk _ _ [((e, op), r)] Hk); unfold effected, waiting; rewrite Hp; cbn; [by rewrite app_nil_r|exact Ht].
Qed.

Lemma mock_bounded : bounded (mock_begin nospace) mock_go_on 2 (λ _, 1%nat).
Proof. split; [intros; cbn; lia|by intros ????? [= ?]|intros; lia]. Qed.

Lemma agrees_initial i priv todos :
  if_private i = Some priv → mock_wf priv → Forall (Forall (λ c, file_op_ok c.2)) todos →
  agrees (conc_start priv todos) i.
Proof.
  intros Hi Hwf Hok. split; [by apply Forall_fmap|]. exists priv. split_and!; [done|done|by destruct priv|].
  by rewrite fresh_pending.
Qed.

(** C8: the transfers, creations and deletions of any number of threads on one in-memory
    backend, each taking [files_lock] for its work on the files and then, separately,
    [stats_lock] to count itself: in any interleaving that gives every thread its steps
    all calls return, and there is an order of the calls that keeps the order of each
    thread in which they could have been made one after the other with the same results,
    the same files and settings and the same counters. (The average latencies can
    differ.) *)
Theorem mock_concurrent_calls (i : iface mock_storage_private_t) (priv : mock_storage_private_t)
    (todos : list (list (call_env * file_op))) (sched : list nat) :
  if_private i = Some priv → mock_wf priv → Forall (Forall (λ c, file_op_ok c.2)) todos → fair 2 todos sched →
  ∃ s evs i' priv',
    conc_run (mock_begin nospace) mock_go_on (conc_start priv todos) sched = Some s ∧ all_returned todos s evs ∧
    spec_run (mock_spec nospace) i (snd <$> evs) i' ∧ if_private i' = Some priv' ∧ mock_wf priv' ∧
    cc_state s = with_stats (mp_stats (cc_state s)) priv' ∧
    same_counters (mp_stats (cc_state s)) (mp_stats priv').
Proof.
  intros Hi Hwf Hok Hfair.
  destruct (conc_run_sim _ _ _ _ _ _ _ sched mock_simulates (agrees_initial i priv todos Hi Hwf Hok))
    as (s&evs&i'&Hrun&Hspec&[_ (priv'&Hi'&Hwf'&Hf'&Hst')]&Hfol).
  assert (Hret : all_returned todos s evs) by (eapply run_returns; [apply mock_bounded|done|lia|done|done]).
  exists s, evs, i', priv'. split_and!; [done|exact Hret|done|done|done|done|].
  rewrite Hst', (nothing_pending _ _ _ _ Hret). done.
Qed.

End refinement.

(** One thread writes three bytes, another two of them again and reads. *)
Definition w_todos : list (list (call_env * file_op)) :=
  [[(default_env, FWrite "a" 0 3 w_data)];
   [(default_env, FWrite "a" 1 3 w_data); (default_env, FRead "a" 0 4 (zeros 4))]].

Definition w_sched : list nat := [0; 1; 1; 1; 0; 1]%nat.

Lemma mock_concurrent_calls_witness :
  ∃ s evs i',
    conc_run (mock_begin (-99)) mock_go_on (conc_start mock_initial_private w_todos) w_sched = Some s ∧
    all_returned w_todos s evs ∧ spec_run (mock_spec (-99)) w_iface (snd <$> evs) i'.
Proof.
  destruct (mock_concurrent_calls (-99) w_iface mock_initial_private w_todos w_sched)
    as (s&evs&i'&priv'&Hr&Hret&Hs&_).
  - reflexivity.
  - apply mock_wf_initial.
  - repeat constructor; cbn; try apply w_a_ok; try (vm_compute; congruence); lia.
  - intros [|[|k]] todo Hk; cbn in Hk; simplify_eq/=; lia.
  - exists s, evs, i'. split; [exact Hr|]. split; [exact Hret|exact Hs].
Defined.
