(* ===== verification/Posix.v ===== *)
(** * Posix: the file calls of the operating system, as an interface

    [local_storage.c] stores its files with the POSIX calls. The kernel behind them is
    not part of this repository: its state [K] and its calls are the fields of a class
    [Posix], and what POSIX documents of them are the laws of [PosixLaws], stated on a
    view of the kernel's state (open descriptors, names, contents, file positions). A
    call may fail at any time; the laws say what it has then left unchanged. A small
    kernel at the end satisfies the laws, so that they are known to be consistent. *)

From stdpp Require Import base numbers list strings gmap.
From S2P Require Import XDevice Prelude Libc StorageInterface StorageSpec.
Local Open Scope Z_scope.

(** ** Calls *)

(** The values of [errno] the code tells apart. *)
Inductive errno_t : Set := EEXIST | ENOENT | EOTHER.

#[export] Instance errno_t_eq_dec : EqDecision errno_t.
Proof. solve_decision. Defined.

(** The flags of [open] the code uses. *)
Record open_flags := mk_open_flags {
  fl_read : bool;
  fl_write : bool;
  fl_creat : bool;
  fl_excl : bool;
  fl_direct : bool;
  fl_sync : bool
}.

Definition O_RDONLY : open_flags := mk_open_flags true false false false false false.
Definition O_WRONLY : open_flags := mk_open_flags false true false false false false.
Definition O_WRONLY_CREAT : open_flags := mk_open_flags false true true false false false.
Definition O_WRONLY_CREAT_EXCL : open_flags := mk_open_flags false true true true false false.

(** The fields of [struct stat] the code reads. *)
Record stat_t := mk_stat {
  st_size : Z;
  st_ctime : Z;
  st_mtime : Z;
  st_mode : Z;
  st_isdir : bool
}.

(** A descriptor or a byte count is a [Z], -1 when the call fails; [errno] is given
    where the code looks at it. A successful [read] returns the bytes it stored. *)
Class Posix (K : Type) := {
  sys_open : K → string → open_flags → (Z + errno_t) * K;
  sys_close : K → Z → K;
  sys_lseek : K → Z → Z → Z * K;
  sys_read : K → Z → Z → option block * K;
  sys_write : K → Z → block → Z * K;
  sys_fsync : K → Z → bool * K;
  sys_ftruncate : K → Z → Z → bool * K;
  sys_unlink : K → string → option errno_t * K;
  sys_mkdir : K → string → option errno_t * K;
  sys_access : K → string → bool * K;
  sys_stat : K → string → (stat_t + errno_t) * K
}.

(** ** What the calls do *)

(** An open file: the file it refers to and its access mode. *)
Record open_file := mk_open_file {
  of_ino : positive;
  of_read : bool;
  of_write : bool
}.

#[export] Instance open_file_eq_dec : EqDecision open_file.
Proof. solve_decision. Defined.

Record posix_view := mk_view {
  pv_fds : gmap Z open_file;               (* the descriptors that are open *)
  pv_pos : Z → Z;                          (* the file position of a descriptor *)
  pv_name : string → option positive;      (* the file a path leads to *)
  pv_data : positive → block               (* the content of a file *)
}.

(** A file exists as long as a path or a descriptor leads to it. *)
Definition live (v : posix_view) (i : positive) : Prop :=
  (∃ path, pv_name v path = Some i) ∨ (∃ fd o, pv_fds v !! fd = Some o ∧ of_ino o = i).

(** Paths that lead to a file still do. More may: a new directory can make other
    paths valid. *)
Definition names_kept (v v' : posix_view) : Prop :=
  ∀ path i, pv_name v path = Some i → pv_name v' path = Some i.

Definition data_kept (v v' : posix_view) : Prop := ∀ i, pv_data v' i = pv_data v i.

(** Nothing but file positions changes, and the position of [fd] at most. *)
Definition unchanged_but (fd : Z) (v v' : posix_view) : Prop :=
  pv_fds v' = pv_fds v ∧ pv_name v' = pv_name v ∧ data_kept v v' ∧
  ∀ x, x ≠ fd → pv_pos v' x = pv_pos v x.

(** Everything that was there is there. *)
Definition unchanged (v v' : posix_view) : Prop :=
  pv_fds v' = pv_fds v ∧ pv_pos v' = pv_pos v ∧ names_kept v v' ∧ data_kept v v'.

(** [open] returns a descriptor that was not in use, positioned at the start, for the
    file the path leads to: an existing one, or a new empty one. *)
Definition opened (path : string) (flags : open_flags) (fd : Z) (v v' : posix_view) : Prop :=
  0 <= fd ∧ pv_fds v !! fd = None ∧ names_kept v v' ∧ data_kept v v' ∧ pv_pos v' fd = 0 ∧
  (∀ x, x ≠ fd → pv_pos v' x = pv_pos v x) ∧
  ∃ i, pv_name v' path = Some i ∧
    pv_fds v' = <[fd := mk_open_file i (fl_read flags) (fl_write flags)]> (pv_fds v) ∧
    (fl_excl flags = false ∧ pv_name v path = Some i ∨
     fl_creat flags = true ∧ pv_name v path = None ∧ ¬ live v i).

(** The content of one file becomes [c]. *)
Definition stored (i : positive) (c : block) (v v' : posix_view) : Prop :=
  pv_fds v' = pv_fds v ∧ pv_name v' = pv_name v ∧
  pv_data v' i = c ∧ ∀ j, j ≠ i → pv_data v' j = pv_data v j.

Class PosixLaws (K : Type) {HP : Posix K} := {
  view : K → posix_view;
  law_empty k i : ¬ live (view k) i → pv_data (view k) i = [];
  law_open k path flags r k' :
    sys_open k path flags = (r, k') →
    match r with
    | inl fd => opened path flags fd (view k) (view k')
    | inr _ => unchanged (view k) (view k')
    end;
  law_close k fd :
    pv_fds (view (sys_close k fd)) = delete fd (pv_fds (view k)) ∧
    pv_name (view (sys_close k fd)) = pv_name (view k) ∧
    (∀ i, live (view (sys_close k fd)) i → pv_data (view (sys_close k fd)) i = pv_data (view k) i) ∧
    (∀ x, x ≠ fd → pv_pos (view (sys_close k fd)) x = pv_pos (view k) x);
  law_lseek k fd off r k' :
    sys_lseek k fd off = (r, k') → unchanged_but fd (view k) (view k') ∧
    (r = off ∧ 0 <= off ∧ pv_pos (view k') fd = off ∨
     r = -1 ∧ pv_pos (view k') fd = pv_pos (view k) fd);
  law_read k fd n r k' :
    sys_read k fd n = (r, k') → unchanged_but fd (view k) (view k') ∧
    match r with
    | None => True
    | Some d => ∃ o, pv_fds (view k) !! fd = Some o ∧ of_read o = true ∧ blen d <= Z.max 0 n ∧
        d = take (length d) (drop (Z.to_nat (pv_pos (view k) fd)) (pv_data (view k) (of_ino o)))
    end;
  law_write k fd d r k' :
    sys_write k fd d = (r, k') → r <= blen d ∧
    (r <= 0 ∧ unchanged_but fd (view k) (view k') ∨
     0 < r ∧ ∃ o, pv_fds (view k) !! fd = Some o ∧ of_write o = true ∧
       stored (of_ino o) (spec_write (pv_data (view k) (of_ino o)) (pv_pos (view k) fd)
                            (take (Z.to_nat r) d)) (view k) (view k') ∧
       ∀ x, x ≠ fd → pv_pos (view k') x = pv_pos (view k) x);
  law_fsync k fd : unchanged (view k) (view (sys_fsync k fd).2);
  law_ftruncate k fd n ok k' :
    sys_ftruncate k fd n = (ok, k') →
    if ok then
      0 <= n ∧ pv_pos (view k') = pv_pos (view k) ∧
      ∃ o, pv_fds (view k) !! fd = Some o ∧ of_write o = true ∧
        stored (of_ino o) (take (Z.to_nat n) (pad_to n (pv_data (view k) (of_ino o))))
          (view k) (view k')
    else unchanged (view k) (view k');
  law_unlink k path r k' :
    sys_unlink k path = (r, k') →
    match r with
    | None =>
        pv_fds (view k') = pv_fds (view k) ∧ pv_pos (view k') = pv_pos (view k) ∧
        pv_name (view k') path = None ∧
        (∀ q i, pv_name (view k') q = Some i → pv_name (view k) q = Some i) ∧
        (∀ i, live (view k') i → pv_data (view k') i = pv_data (view k) i)
    | Some _ => unchanged (view k) (view k')
    end;
  law_mkdir k path : unchanged (view k) (view (sys_mkdir k path).2);
  law_access k path : unchanged (view k) (view (sys_access k path).2);
  law_stat k path r k' :
    sys_stat k path = (r, k') → unchanged (view k) (view k') ∧
    match r with
    | inl st => ∃ i, pv_name (view k) path = Some i ∧
        (st_isdir st = false → st_size st = blen (pv_data (view k) i))
    | inr _ => True
    end
}.

(** ** Lemmas on views *)

#[export] Instance unchanged_refl : Reflexive unchanged.
Proof. intros v. split_and!; [done|done|by intros ??|by intros ?]. Qed.

#[export] Instance unchanged_trans : Transitive unchanged.
Proof.
  intros v1 v2 v3 (?&?&Hn&Hd) (?&?&Hn'&Hd'). split_and!; [congruence..| |].
  - intros path i Hi. auto.
  - intros i. by rewrite Hd', Hd.
Qed.

Lemma live_fd v fd o : pv_fds v !! fd = Some o → live v (of_ino o).
Proof. right. eauto. Qed.

Lemma live_name v path i : pv_name v path = Some i → live v i.
Proof. left. eauto. Qed.
#[export] Hint Resolve live_fd live_name : xdev.

(** ** A kernel that keeps the laws

    Files in memory, paths compared as they are, directories not represented; no call
    fails without a reason. *)

Record kernel := mk_kernel {
  k_fds : gmap Z open_file;
  k_pos : gmap Z Z;
  k_names : gmap string positive;
  k_data : gmap positive block
}.

Definition empty_kernel : kernel := mk_kernel ∅ ∅ ∅ ∅.

(** The files in use. *)
Definition k_live (k : kernel) : list positive :=
  (map_to_list (k_names k)).*2 ++ (of_ino <$> (map_to_list (k_fds k)).*2).

(** A number above all of [l], at least 3. *)
Definition next_above (l : list Z) : Z := foldr (λ x a, Z.max (x + 1) a) 3 l.

Definition kernel_data (k : kernel) (i : positive) : block :=
  if decide (i ∈ k_live k) then default [] (k_data k !! i) else [].

Definition kernel_pos (k : kernel) (fd : Z) : Z := default 0 (k_pos k !! fd).

Definition kernel_alloc (k : kernel) (i : positive) (flags : open_flags) : (Z + errno_t) * kernel :=
  let fd := next_above (map_to_list (k_fds k)).*1 in
  (inl fd, k <| k_fds := <[fd := mk_open_file i (fl_read flags) (fl_write flags)]> (k_fds k) |>
             <| k_pos := <[fd := 0]> (k_pos k) |>).

Definition kernel_open (k : kernel) (path : string) (flags : open_flags)
    : (Z + errno_t) * kernel :=
  match k_names k !! path with
  | Some i => if fl_excl flags then (inr EEXIST, k) else kernel_alloc k i flags
  | None =>
      if fl_creat flags then
        let i := Z.to_pos (next_above (Zpos <$> k_live k)) in
        kernel_alloc (k <| k_names := <[path := i]> (k_names k) |>
                        <| k_data := <[i := []]> (k_data k) |>) i flags
      else (inr ENOENT, k)
  end.

Definition kernel_read (k : kernel) (fd n : Z) : option block * kernel :=
  match k_fds k !! fd with
  | Some (mk_open_file i true _) =>
      let d := take (Z.to_nat n) (drop (Z.to_nat (kernel_pos k fd)) (kernel_data k i)) in
      (Some d, k <| k_pos := <[fd := kernel_pos k fd + blen d]> (k_pos k) |>)
  | _ => (None, k)
  end.

Definition kernel_write (k : kernel) (fd : Z) (d : block) : Z * kernel :=
  match k_fds k !! fd with
  | Some (mk_open_file i _ true) =>
      if decide (d = []) then (0, k)
      else (blen d, k <| k_data := <[i := spec_write (kernel_data k i) (kernel_pos k fd) d]> (k_data k) |>
                      <| k_pos := <[fd := kernel_pos k fd + blen d]> (k_pos k) |>)
  | _ => (-1, k)
  end.

Definition kernel_ftruncate (k : kernel) (fd n : Z) : bool * kernel :=
  match k_fds k !! fd with
  | Some (mk_open_file i _ true) =>
      if 0 <=? n then
        (true, k <| k_data := <[i := take (Z.to_nat n) (pad_to n (kernel_data k i))]> (k_data k) |>)
      else (false, k)
  | _ => (false, k)
  end.

#[export] Instance kernel_posix : Posix kernel := {|
  sys_open := kernel_open;
  sys_close k fd := k <| k_fds := delete fd (k_fds k) |>;
  sys_lseek k fd off :=
    if 0 <=? off then (off, k <| k_pos := <[fd := off]> (k_pos k) |>) else (-1, k);
  sys_read := kernel_read;
  sys_write := kernel_write;
  sys_fsync k fd := (true, k);
  sys_ftruncate := kernel_ftruncate;
  sys_unlink k path :=
    match k_names k !! path with
    | Some _ => (None, k <| k_names := delete path (k_names k) |>)
    | None => (Some ENOENT, k)
    end;
  sys_mkdir k path := (None, k);
  sys_access k path := (true, k);
  sys_stat k path :=
    match k_names k !! path with
    | Some i => (inl (mk_stat (blen (kernel_data k i)) 0 0 420 false), k)
    | None => (inr ENOENT, k)
    end
|}.

Definition kernel_view (k : kernel) : posix_view :=
  mk_view (k_fds k) (kernel_pos k) (λ path, k_names k !! path) (kernel_data k).

Lemma next_above_spec l x : x ∈ l → x < next_above l.
Proof.
  induction l as [|y l IH]; [by intros ?%not_elem_of_nil|].
  cbn. intros [->|Hx]%elem_of_cons; [lia|]. specialize (IH Hx). unfold next_above in *. lia.
Qed.

Lemma next_above_pos l : 3 <= next_above l.
Proof. induction l as [|y l IH]; cbn; [done|]. unfold next_above in *. lia. Qed.

Lemma elem_of_k_live k i : i ∈ k_live k ↔ live (kernel_view k) i.
Proof.
  unfold k_live, live. cbn. rewrite elem_of_app, !list_elem_of_fmap. split.
  - intros [([path j]&->&?%elem_of_map_to_list)|(o&->&([fd o']&->&?%elem_of_map_to_list)%list_elem_of_fmap)];
      [left|right]; eauto.
  - intros [[path ?]|(fd&o&?&<-)]; [left; exists (path, i)|right; exists o].
    + split; [done|]. by apply elem_of_map_to_list.
    + split; [done|]. apply list_elem_of_fmap. exists (fd, o). split; [done|].
      by apply elem_of_map_to_list.
Qed.

(** The content of a file depends on the names and descriptors only through whether
    there are some. *)
Lemma kernel_data_eq k k' i :
  (live (kernel_view k') i ↔ live (kernel_view k) i) → k_data k' !! i = k_data k !! i →
  kernel_data k' i = kernel_data k i.
Proof.
  rewrite <- !elem_of_k_live. intros Hl Hd. unfold kernel_data. rewrite Hd.
  repeat case_decide; tauto.
Qed.

Lemma kernel_data_dead k i : ¬ live (kernel_view k) i → kernel_data k i = [].
Proof. rewrite <- elem_of_k_live. intros ?. unfold kernel_data. by rewrite decide_False. Qed.

Lemma kernel_data_empty k i : k_data k !! i = Some [] → kernel_data k i = [].
Proof. intros Hd. unfold kernel_data. rewrite Hd. by case_decide. Qed.

Lemma next_fd_free (fds : gmap Z open_file) : fds !! next_above (map_to_list fds).*1 = None.
Proof.
  set (fd := next_above _). destruct (fds !! fd) as [o|] eqn:Ho; [|done].
  enough (fd < fd) by lia. apply next_above_spec, list_elem_of_fmap. exists (fd, o).
  split; [done|]. by apply elem_of_map_to_list.
Qed.

Lemma next_ino_dead k : ¬ live (kernel_view k) (Z.to_pos (next_above (Zpos <$> k_live k))).
Proof.
  set (n := next_above _). pose proof (next_above_pos (Zpos <$> k_live k)) as Hp. fold n in Hp.
  rewrite <- elem_of_k_live. intros Hin. enough (Zpos (Z.to_pos n) < n) by (rewrite Z2Pos.id in *; lia).
  apply next_above_spec, list_elem_of_fmap. eauto.
Qed.

Lemma kernel_alloc_opened k k0 path i flags r k' :
  kernel_alloc k0 i flags = (r, k') → k_fds k0 = k_fds k → k_pos k0 = k_pos k →
  k_names k0 !! path = Some i → names_kept (kernel_view k) (kernel_view k0) →
  data_kept (kernel_view k) (kernel_view k') →
  (fl_excl flags = false ∧ k_names k !! path = Some i ∨
   fl_creat flags = true ∧ k_names k !! path = None ∧ ¬ live (kernel_view k) i) →
  match r with
  | inl fd => opened path flags fd (kernel_view k) (kernel_view k')
  | inr _ => unchanged (kernel_view k) (kernel_view k')
  end.
Proof.
  intros Ha Hf Hp Hn Hnames Hd Hcase. unfold kernel_alloc in Ha. injection Ha as <- <-.
  pose proof (next_fd_free (k_fds k0)) as Hfree.
  pose proof (next_above_pos (map_to_list (k_fds k0)).*1) as Hpos.
  set (fd := next_above _) in *. unfold opened. cbn. rewrite Hf in Hd, Hfree |- *.
  split_and!; [lia|done|exact Hnames|exact Hd| | |by exists i].
  - unfold kernel_pos. cbn. by rewrite lookup_insert_eq.
  - intros x Hx. unfold kernel_pos. cbn. by rewrite lookup_insert_ne, Hp.
Qed.

Lemma kernel_law_open k path flags r k' :
  kernel_open k path flags = (r, k') →
  match r with
  | inl fd => opened path flags fd (kernel_view k) (kernel_view k')
  | inr _ => unchanged (kernel_view k) (kernel_view k')
  end.
Proof.
  unfold kernel_open. destruct (k_names k !! path) as [i|] eqn:Hi.
  - destruct (fl_excl flags) eqn:He; [by intros [= <- <-]|]. intros Ha.
    eapply (kernel_alloc_opened k k path i flags); [exact Ha|done|done|done|by intros ??| |by left].
    injection Ha as _ <-. intros j. apply kernel_data_eq; [|done]. unfold live. cbn. split.
    + intros [?|(fd&o&[[_ <-]|[_ ?]]%lookup_insert_Some&<-)]; [by left|left; eauto|right; eauto].
    + intros [?|(fd&o&Ho&<-)]; [by left|]. right. exists fd, o. split; [|done].
      rewrite lookup_insert_ne; [done|]. intros <-. by rewrite next_fd_free in Ho.
  - destruct (fl_creat flags) eqn:Hc; [|by intros [= <- <-]].
    pose proof (next_ino_dead k) as Hdead. set (i := Z.to_pos _) in *. intros Ha.
    eapply (kernel_alloc_opened k _ path i flags); [exact Ha|done|done| | | |by right].
    + cbn. by rewrite lookup_insert_eq.
    + intros q j Hq. cbn. rewrite lookup_insert_ne; [done|]. intros <-. cbn in Hq. congruence.
    + injection Ha as _ <-. intros j. cbn. destruct (decide (j = i)) as [->|Hj].
      { rewrite kernel_data_empty by (cbn; by rewrite lookup_insert_eq). by rewrite kernel_data_dead. }
      apply kernel_data_eq; [|cbn; by rewrite lookup_insert_ne]. unfold live. cbn. split.
      * intros [(q&[[_ <-]|[_ ?]]%lookup_insert_Some)|(fd&o&[[_ <-]|[_ ?]]%lookup_insert_Some&<-)];
          [done|left; eauto|done|right; eauto].
      * intros [(q&Hq)|(fd&o&Ho&<-)]; [left; exists q|right; exists fd, o; split; [|done]];
          (rewrite lookup_insert_ne; [done|]; intros <-; [congruence || by rewrite next_fd_free in Ho]).
Qed.

Lemma kernel_law_close k fd :
  let k' := k <| k_fds := delete fd (k_fds k) |> in
  ∀ i, live (kernel_view k') i → kernel_data k' i = kernel_data k i.
Proof.
  intros k' i Hl. apply kernel_data_eq; [|done]. split; [|done]. intros _.
  destruct Hl as [?|(x&o&Ho&<-)]; [by left|]. cbn in Ho. apply lookup_delete_Some in Ho as [_ Ho].
  right. eauto.
Qed.

(** Storing a content changes that file only. *)
Lemma kernel_stored k k' fd o c :
  k_fds k !! fd = Some o → k_fds k' = k_fds k → k_names k' = k_names k →
  k_data k' = <[of_ino o := c]> (k_data k) → stored (of_ino o) c (kernel_view k) (kernel_view k').
Proof.
  intros Ho Hf Hn Hd. unfold stored. cbn. rewrite Hf, Hn.
  assert (Hl : ∀ i, live (kernel_view k') i ↔ live (kernel_view k) i) by (unfold live; cbn; by rewrite Hf, Hn).
  split_and!; [done|done| |].
  - unfold kernel_data. rewrite decide_True, Hd, lookup_insert_eq; [done|].
    apply elem_of_k_live, Hl. by apply live_fd with fd.
  - intros j Hj. apply kernel_data_eq; [done|]. by rewrite Hd, lookup_insert_ne.
Qed.

Lemma kernel_pos_other k pos' fd x :
  x ≠ fd → kernel_pos (k <| k_pos := <[fd := pos']> (k_pos k) |>) x = kernel_pos k x.
Proof. intros Hx. unfold kernel_pos. cbn. by rewrite lookup_insert_ne. Qed.

Lemma kernel_law_read k fd n r k' :
  kernel_read k fd n = (r, k') → unchanged_but fd (kernel_view k) (kernel_view k') ∧
  match r with
  | None => True
  | Some d => ∃ o, k_fds k !! fd = Some o ∧ of_read o = true ∧ blen d <= Z.max 0 n ∧
      d = take (length d) (drop (Z.to_nat (kernel_pos k fd)) (kernel_data k (of_ino o)))
  end.
Proof.
  unfold kernel_read. destruct (k_fds k !! fd) as [[i [|] w]|] eqn:Ho; intros [= <- <-];
    try (split; [by split_and!|done]). split.
  - split_and!; [done|done|by intros j|]. intros x Hx. by apply kernel_pos_other.
  - eexists. split_and!; [done|done| |].
    + unfold blen. rewrite length_take. lia.
    + cbn [of_ino]. set (l := drop _ _). rewrite length_take.
      destruct (decide (Z.to_nat n <= length l)%nat).
      * by rewrite Nat.min_l.
      * by rewrite Nat.min_r, !take_ge by lia.
Qed.

Lemma kernel_law_write k fd d r k' :
  kernel_write k fd d = (r, k') → r <= blen d ∧
  (r <= 0 ∧ unchanged_but fd (kernel_view k) (kernel_view k') ∨
   0 < r ∧ ∃ o, k_fds k !! fd = Some o ∧ of_write o = true ∧
     stored (of_ino o) (spec_write (kernel_data k (of_ino o)) (kernel_pos k fd)
                          (take (Z.to_nat r) d)) (kernel_view k) (kernel_view k') ∧
     ∀ x, x ≠ fd → kernel_pos k' x = kernel_pos k x).
Proof.
  unfold kernel_write. pose proof (blen_nonneg d).
  destruct (k_fds k !! fd) as [[i rd [|]]|] eqn:Ho; cycle 1.
  { intros [= <- <-]. split; [lia|]. left. by split_and!. }
  { intros [= <- <-]. split; [lia|]. left. by split_and!. }
  destruct (decide (d = [])) as [->|Hd]; intros [= <- <-]; (split; [done|]).
  { left. by split_and!. }
  right. split; [destruct d; [done|unfold blen; cbn; lia]|].
  exists (mk_open_file i rd true). rewrite (take_ge d) by (unfold blen; lia).
  split_and!; [done|done|by apply (kernel_stored k _ fd (mk_open_file i rd true))|].
  intros x Hx. unfold kernel_pos. cbn. by rewrite lookup_insert_ne.
Qed.

Lemma kernel_law_ftruncate k fd n ok k' :
  kernel_ftruncate k fd n = (ok, k') →
  if ok then
    0 <= n ∧ kernel_pos k' = kernel_pos k ∧
    ∃ o, k_fds k !! fd = Some o ∧ of_write o = true ∧
      stored (of_ino o) (take (Z.to_nat n) (pad_to n (kernel_data k (of_ino o))))
        (kernel_view k) (kernel_view k')
  else unchanged (kernel_view k) (kernel_view k').
Proof.
  unfold kernel_ftruncate. destruct (k_fds k !! fd) as [[i rd [|]]|] eqn:Ho; try by intros [= <- <-].
  destruct (0 <=? n) eqn:Hn; intros [= <- <-]; [|done]. apply Z.leb_le in Hn.
  split_and!; [done|done|]. exists (mk_open_file i rd true).
  split_and!; [done|done|by apply (kernel_stored k _ fd (mk_open_file i rd true))].
Qed.

Lemma kernel_law_unlink k path :
  let k' := k <| k_names := delete path (k_names k) |> in
  (∀ q i, k_names k' !! q = Some i → k_names k !! q = Some i) ∧
  (∀ i, live (kernel_view k') i → kernel_data k' i = kernel_data k i).
Proof.
  intros k'. assert (Hq : ∀ q i, k_names k' !! q = Some i → k_names k !! q = Some i).
  { intros q i Hi. cbn in Hi. by apply lookup_delete_Some in Hi as [_ Hi]. }
  split; [done|]. intros i Hl. apply kernel_data_eq; [|done]. split; [|done]. intros _.
  destruct Hl as [(q&Hi)|?]; [left; exists q; by apply Hq|by right].
Qed.

#[export] Program Instance kernel_laws : PosixLaws kernel := {| view := kernel_view |}.
Next Obligation. apply kernel_data_dead. Qed.
Next Obligation. apply kernel_law_open. Qed.
Next Obligation. intros k fd. split_and!; [done|done|apply kernel_law_close|done]. Qed.
Next Obligation.
  intros k fd off r k'. cbn. destruct (0 <=? off) eqn:Ho; intros [= <- <-]; to_prop.
  - split; [split_and!; [done|done|by intros ?|]|].
    + intros x Hx. by apply kernel_pos_other.
    + left. split_and!; [done|done|]. unfold kernel_pos. cbn. by rewrite lookup_insert_eq.
  - split; [by split_and!|by right].
Qed.
Next Obligation. apply kernel_law_read. Qed.
Next Obligation. apply kernel_law_write. Qed.
Next Obligation. done. Qed.
Next Obligation. apply kernel_law_ftruncate. Qed.
Next Obligation.
  intros k path r k'. cbn. destruct (k_names k !! path) eqn:Hp; intros [= <- <-]; [|done].
  split_and!; [done|done|cbn; by rewrite lookup_delete_eq|apply kernel_law_unlink..].
Qed.
Next Obligation. done. Qed.
Next Obligation. done. Qed.
Next Obligation.
  intros k path r k'. cbn. destruct (k_names k !! path) as [i|] eqn:Hp; intros [= <- <-]; split; try done.
  by exists i.
Qed.
