(* ===== verification/LocalStorage.v ===== *)
(** * LocalStorage: the local file backend ([src/storage/local_storage.c])

    The backend keeps a cache of at most 100 open descriptors, indexed by full path,
    and makes its transfers with the calls of [Posix]. The slots of the cache that are
    in use are a list, in order; a slot's path is its array of 512 bytes, of which
    [strncpy] leaves the last one as [malloc] delivered it. *)

From Stdlib Require Import String.
From stdpp Require Import base numbers list strings gmap.
From S2P Require Import XDevice Prelude Libc StorageInterface StorageSpec Posix.
Local Open Scope Z_scope.

(** ** Data *)

Inductive local_storage_type_t : Set :=
| LOCAL_STORAGE_REGULAR
| LOCAL_STORAGE_MMAP
| LOCAL_STORAGE_DIRECT
| LOCAL_STORAGE_TMPFS
| LOCAL_STORAGE_BLOCK
| LOCAL_STORAGE_SPARSE
| LOCAL_STORAGE_COMPRESSED
| LOCAL_STORAGE_HYBRID.

Record fd_cache_entry := mk_fd_entry {
  fc_path : block;                  (* char[512] *)
  fc_fd : Z;
  fc_last_access : Z
}.

(** The memory mapping cache has no operation but its allocation and its release:
    its size stays 0. *)
Record local_storage_private_t := mk_local_private {
  lp_base_path : string;            (* what the zeroed char[512] holds *)
  lp_storage_type : local_storage_type_t;
  lp_use_odirect : bool;
  lp_use_osync : bool;
  lp_io_buffer_size : Z;
  lp_max_open_files : Z;
  lp_fd_cache : list fd_cache_entry;
  lp_fd_cache_size : Z;
  lp_mmap_cache_size : Z;
  lp_stats : storage_stats_t
}.

(** [create_local_storage_interface]: [None] when the allocation fails. *)
Definition create_local_storage_interface (e : call_env) : iptr local_storage_private_t :=
  if malloc_ok e 0 then Some (mk_iface STORAGE_BACKEND_LOCAL "LocalFileStorage" None) else None.

(** ** Paths *)

Definition SLASH : Init.Byte.byte := Byte.x2f.

(** The array is full-sized and its last byte is set to NUL, so the result is cut to
    511 characters either way. *)
Definition build_file_path (base_path path : string) : string :=
  if decide (head (chars path) = Some SLASH) then str_take 511 path
  else snprintf MAX_PATH_LEN (base_path +:+ "/" +:+ path).

(** [strcmp(a, s) == 0] for an array [a] longer than the string [s]: the comparison
    does not look behind the terminator of [s]. *)
Definition strcmp_eq (a : block) (s : string) : bool :=
  bool_decide (take (S (length (chars s))) a = chars s ++ [Byte.x00]).

(** The position of the last [c] of [s]. *)
Fixpoint last_index (c : Init.Byte.byte) (s : block) : option nat :=
  match s with
  | [] => None
  | x :: s' =>
      match last_index c s' with
      | Some n => Some (S n)
      | None => if decide (x = c) then Some O else None
      end
  end.

(** The positions of the [c]s of [s], counted from [n]. *)
Fixpoint indices (c : Init.Byte.byte) (s : block) (n : nat) : list nat :=
  match s with
  | [] => []
  | x :: s' => if decide (x = c) then n :: indices c s' (S n) else indices c s' (S n)
  end.

Section local_storage.
Context {K : Type} {HP : Posix K}.

(** [mkdir] of the paths in order, up to the first failure other than [EEXIST]. *)
Fixpoint mkdir_all (k : K) (paths : list string) : bool * K :=
  match paths with
  | [] => (true, k)
  | path :: paths =>
      let '(r, k) := sys_mkdir k path in
      match r with
      | None | Some EEXIST => mkdir_all k paths
      | Some _ => (false, k)
      end
  end.

(** [None] is the access to [temp_path[-1]] that an empty path leads to. The loop
    makes the directory in front of every slash behind the first character. *)
Definition create_directories (k : K) (path : string) : option (Z * K) :=
  let temp_path := take 511 (chars path) in
  match last temp_path with
  | None => None
  | Some c =>
      let temp_path := if decide (c = SLASH) then take (length temp_path - 1) temp_path else temp_path in
      let inner := (λ n, take n temp_path) <$> indices SLASH (drop 1 temp_path) 1 in
      let '(ok, k) := mkdir_all k (string_of_list_byte <$> inner ++ [temp_path]) in
      Some (if ok then error_code XDEVICE_OK else error_code XDEVICE_ERROR_IO, k)
  end.

(** The directories of a file. [strncpy] of at most 511 characters into the local
    array leaves its last byte as it was: when the path has 511 characters and that
    byte is not NUL, [strrchr] runs out of the array. The result of
    [create_directories] is ignored. *)
Definition create_parent (e : call_env) (k : K) (full_path : string) : option K :=
  dir_path ← until_nul (strncpy (junk e <$> seq 0 512) full_path 511);
  match last_index SLASH dir_path with
  | Some n => '(_, k) ← create_directories k (string_of_list_byte (take n dir_path)); Some k
  | None => Some k
  end.

(** ** The descriptor cache *)

Fixpoint find_fd (cache : list fd_cache_entry) (path : string) : option nat :=
  match cache with
  | [] => None
  | entry :: next => if strcmp_eq (fc_path entry) path then Some O else S <$> find_fd next path
  end.

(** The descriptor, or -1. *)
Definition get_file_descriptor (e : call_env) (k : K) (priv : local_storage_private_t)
    (path : string) (flags : open_flags) : option (Z * K * local_storage_private_t) :=
  match find_fd (lp_fd_cache priv) path with
  | Some i =>
      entry ← lp_fd_cache priv !! i;
      let entry := entry <| fc_last_access := wrap64 (time_now e 0) |> in
      Some (fc_fd entry, k, priv <| lp_fd_cache := <[i:=entry]> (lp_fd_cache priv) |>)
  | None =>
      let open_flags := flags <| fl_direct := lp_use_odirect priv |> <| fl_sync := lp_use_osync priv |> in
      let '(r, k) := sys_open k path open_flags in
      match r with
      | inr _ => Some (-1, k, priv)
      | inl fd =>
          if lp_fd_cache_size priv <? lp_max_open_files priv then
            let entry := {| fc_path := strncpy (junk e <$> seq 512 512) path 511; fc_fd := fd;
                            fc_last_access := wrap64 (time_now e 0) |} in
            Some (fd, k, priv <| lp_fd_cache := lp_fd_cache priv ++ [entry] |>
                              <| lp_fd_cache_size := lp_fd_cache_size priv ⊞₃₂ 1 |>)
          else Some (fd, k, priv)
      end
  end.

(** ** The interface functions *)

(** A [uint64_t] or [size_t] as a signed 64-bit integer ([off_t], [ssize_t]). *)
Definition to_signed (z : Z) : Z := if z <? 2 ^ 63 then z else z - 2 ^ 64.

Definition local_initial_private (config : option string) : local_storage_private_t :=
  {| lp_base_path := match config with Some c => str_take 511 c | None => "/tmp/xdevice" end;
     lp_storage_type := LOCAL_STORAGE_REGULAR; lp_use_odirect := false; lp_use_osync := false;
     lp_io_buffer_size := 64 * 1024; lp_max_open_files := 100; lp_fd_cache := [];
     lp_fd_cache_size := 0; lp_mmap_cache_size := 0; lp_stats := zero_stats |}.

Definition local_storage_init (e : call_env) (k : K) (p : iptr local_storage_private_t)
    (config : option string) : option (Z * K * iptr local_storage_private_t) :=
  match p with
  | None => Some (error_code XDEVICE_ERROR_INVALID_PARAM, k, p)
  | Some _ =>
      if negb (malloc_ok e 0) then Some (error_code XDEVICE_ERROR_OUT_OF_MEMORY, k, p)
      else
        let priv := local_initial_private config in
        '(ret, k) ← create_directories k (lp_base_path priv);
        if negb (ret =? XDEVICE_OK) then Some (error_code XDEVICE_ERROR_IO, k, p)
        else if negb (malloc_ok e 1) then Some (error_code XDEVICE_ERROR_OUT_OF_MEMORY, k, p)
        else if negb (mutex_init_ok e 0) then Some (error_code XDEVICE_ERROR, k, p)
        else if negb (malloc_ok e 2) then Some (error_code XDEVICE_ERROR_OUT_OF_MEMORY, k, p)
        else if negb (mutex_init_ok e 1) then Some (error_code XDEVICE_ERROR, k, p)
        else if negb (mutex_init_ok e 2) then Some (error_code XDEVICE_ERROR, k, p)
        else Some (error_code XDEVICE_OK, k, set_private p (Some priv))
  end.

(** The loop that closes the cached descriptors. *)
Definition close_all (k : K) (cache : list fd_cache_entry) : K :=
  foldl (λ k entry, if 0 <=? fc_fd entry then sys_close k (fc_fd entry) else k) k cache.

Definition local_storage_cleanup (k : K) (p : iptr local_storage_private_t)
    : Z * K * iptr local_storage_private_t :=
  match private_of p with
  | None => (error_code XDEVICE_ERROR_INVALID_PARAM, k, p)
  | Some priv => (error_code XDEVICE_OK, close_all k (lp_fd_cache priv), set_private p None)
  end.

Definition local_storage_health_check (k : K) (p : iptr local_storage_private_t) : Z * K :=
  match private_of p with
  | None => (error_code XDEVICE_ERROR_INVALID_PARAM, k)
  | Some priv =>
      let '(ok, k) := sys_access k (lp_base_path priv) in
      (if ok then error_code XDEVICE_OK else error_code XDEVICE_ERROR_IO, k)
  end.

(** The last component of the result is the caller's buffer. *)
Definition local_storage_read_sync (e : call_env) (k : K) (p : iptr local_storage_private_t)
    (path : option string) (offset : Z) (buffer : option block) (size : Z)
    : option (Z * K * iptr local_storage_private_t * option block) :=
  match private_of p, path, buffer with
  | Some priv, Some path, Some buf =>
      if size =? 0 then Some (error_code XDEVICE_ERROR_INVALID_PARAM, k, p, buffer)
      else
        let full_path := build_file_path (lp_base_path priv) path in
        '(fd, k, priv) ← get_file_descriptor e k priv full_path O_RDONLY;
        let p := set_private p (Some priv) in
        if fd <? 0 then Some (error_code XDEVICE_ERROR_IO, k, p, buffer)
        else
          let '(pos, k) := sys_lseek k fd (to_signed offset) in
          if negb (pos =? to_signed offset) then Some (error_code XDEVICE_ERROR_IO, k, p, buffer)
          else
            let '(r, k) := sys_read k fd size in
            buf ← (match r with Some d => mem_write buf 0 d | None => Some buf end);
            let bytes_read := match r with Some d => blen d | None => -1 end in
            if negb (bytes_read =? to_signed size) then
              if bytes_read <? 0 then Some (error_code XDEVICE_ERROR_IO, k, p, Some buf)
              else Some (error_code XDEVICE_ERROR_NOT_FOUND, k, p, Some buf)
            else
              let lat := latency_ns (clock_start e) (clock_end e) in
              Some (error_code XDEVICE_OK, k,
                set_private p (Some (priv <| lp_stats := count_read (lp_stats priv) size lat |>)),
                Some buf)
  | _, _, _ => Some (error_code XDEVICE_ERROR_INVALID_PARAM, k, p, buffer)
  end.

Definition local_storage_write_sync (e : call_env) (k : K) (p : iptr local_storage_private_t)
    (path : option string) (offset : Z) (data : option block) (size : Z)
    : option (Z * K * iptr local_storage_private_t) :=
  match private_of p, path, data with
  | Some priv, Some path, Some data =>
      if size =? 0 then Some (error_code XDEVICE_ERROR_INVALID_PARAM, k, p)
      else
        let full_path := build_file_path (lp_base_path priv) path in
        k ← create_parent e k full_path;
        '(fd, k, priv) ← get_file_descriptor e k priv full_path O_WRONLY_CREAT;
        let p := set_private p (Some priv) in
        if fd <? 0 then Some (error_code XDEVICE_ERROR_IO, k, p)
        else
          let '(pos, k) := sys_lseek k fd (to_signed offset) in
          if negb (pos =? to_signed offset) then Some (error_code XDEVICE_ERROR_IO, k, p)
          else
            src ← mem_read data 0 size;
            let '(bytes_written, k) := sys_write k fd src in
            if negb (bytes_written =? to_signed size) then Some (error_code XDEVICE_ERROR_IO, k, p)
            else
              let lat := latency_ns (clock_start e) (clock_end e) in
              Some (error_code XDEVICE_OK, k,
                set_private p (Some (priv <| lp_stats := count_write (lp_stats priv) size lat |>)))
  | _, _, _ => Some (error_code XDEVICE_ERROR_INVALID_PARAM, k, p)
  end.

Definition local_storage_fsync (e : call_env) (k : K) (p : iptr local_storage_private_t)
    (path : option string) : option (Z * K * iptr local_storage_private_t) :=
  match private_of p, path with
  | Some priv, Some path =>
      let full_path := build_file_path (lp_base_path priv) path in
      '(fd, k, priv) ← get_file_descriptor e k priv full_path O_WRONLY;
      let p := set_private p (Some priv) in
      if fd <? 0 then Some (error_code XDEVICE_ERROR_IO, k, p)
      else
        let '(ok, k) := sys_fsync k fd in
        Some (if ok then error_code XDEVICE_OK else error_code XDEVICE_ERROR_IO, k, p)
  | _, _ => Some (error_code XDEVICE_ERROR_INVALID_PARAM, k, p)
  end.

Definition local_storage_create_file (e : call_env) (k : K) (p : iptr local_storage_private_t)
    (path : option string) (initial_size : Z) : option (Z * K) :=
  match private_of p, path with
  | Some priv, Some path =>
      let full_path := build_file_path (lp_base_path priv) path in
      k ← create_parent e k full_path;
      let '(r, k) := sys_open k full_path O_WRONLY_CREAT_EXCL in
      match r with
      | inr EEXIST => Some (error_code XDEVICE_ERROR_EXISTS, k)
      | inr _ => Some (error_code XDEVICE_ERROR_IO, k)
      | inl fd =>
          if 0 <? initial_size then
            let '(ok, k) := sys_ftruncate k fd (to_signed initial_size) in
            if negb ok then
              let k := sys_close k fd in
              let '(_, k) := sys_unlink k full_path in
              Some (error_code XDEVICE_ERROR_IO, k)
            else Some (error_code XDEVICE_OK, sys_close k fd)
          else Some (error_code XDEVICE_OK, sys_close k fd)
      end
  | _, _ => Some (error_code XDEVICE_ERROR_INVALID_PARAM, k)
  end.

Definition local_storage_delete_file (k : K) (p : iptr local_storage_private_t)
    (path : option string) : Z * K :=
  match private_of p, path with
  | Some priv, Some path =>
      let full_path := build_file_path (lp_base_path priv) path in
      let '(r, k) := sys_unlink k full_path in
      match r with
      | None => (error_code XDEVICE_OK, k)
      | Some ENOENT => (error_code XDEVICE_ERROR_NOT_FOUND, k)
      | Some _ => (error_code XDEVICE_ERROR_IO, k)
      end
  | _, _ => (error_code XDEVICE_ERROR_INVALID_PARAM, k)
  end.

(** The [info] argument is the structure the caller's pointer refers to. *)
Definition local_storage_get_file_info (k : K) (p : iptr local_storage_private_t)
    (path : option string) (info : option storage_file_info_t)
    : Z * K * option storage_file_info_t :=
  match private_of p, path, info with
  | Some priv, Some path, Some _ =>
      let full_path := build_file_path (lp_base_path priv) path in
      let '(r, k) := sys_stat k full_path in
      match r with
      | inr ENOENT => (error_code XDEVICE_ERROR_NOT_FOUND, k, info)
      | inr _ => (error_code XDEVICE_ERROR_IO, k, info)
      | inl st =>
          (error_code XDEVICE_OK, k,
           Some {| info_size := wrap64 (st_size st); info_created_time := wrap64 (st_ctime st);
                   info_modified_time := wrap64 (st_mtime st);
                   info_permissions := Z.land (st_mode st) 511; (* 0777 *)
                   info_is_directory := st_isdir st |})
      end
  | _, _, _ => (error_code XDEVICE_ERROR_INVALID_PARAM, k, info)
  end.

Definition local_storage_get_stats (p : iptr local_storage_private_t)
    (stats : option storage_stats_t) : Z * option storage_stats_t :=
  match private_of p, stats with
  | Some priv, Some _ => (error_code XDEVICE_OK, Some (lp_stats priv))
  | _, _ => (error_code XDEVICE_ERROR_INVALID_PARAM, stats)
  end.

Definition local_storage_reset_stats (p : iptr local_storage_private_t)
    : Z * iptr local_storage_private_t :=
  match private_of p with
  | Some priv => (error_code XDEVICE_OK, set_private p (Some (priv <| lp_stats := zero_stats |>)))
  | None => (error_code XDEVICE_ERROR_INVALID_PARAM, p)
  end.

(** The function table, over the kernel as the shared world. *)
Definition local_vtable : storage_vtable call_env K local_storage_private_t :=
  {| vt_init := Some local_storage_init;
     vt_cleanup := Some (λ _ k p, Some (local_storage_cleanup k p));
     vt_health_check := Some (λ _ k p, let '(ret, k) := local_storage_health_check k p in Some (ret, k, p));
     vt_read_sync := Some local_storage_read_sync;
     vt_write_sync := Some local_storage_write_sync;
     vt_fsync := Some local_storage_fsync;
     vt_create_file := Some (λ e k p path size,
       '(ret, k) ← local_storage_create_file e k p path size; Some (ret, k, p));
     vt_delete_file := Some (λ _ k p path,
       let '(ret, k) := local_storage_delete_file k p path in Some (ret, k, p));
     vt_get_file_info := Some (λ _ k p path info,
       let '(ret, k, info) := local_storage_get_file_info k p path info in Some (ret, k, p, info));
     vt_get_stats := Some (λ _ k p stats,
       let '(ret, stats) := local_storage_get_stats p stats in Some (ret, k, p, stats));
     vt_reset_stats := Some (λ _ k p, let '(ret, p) := local_storage_reset_stats p in Some (ret, k, p)) |}.

End local_storage.
