(* ===== verification/LocalInv.v ===== *)
(** * LocalInv: the invariant of the local file backend

    Which descriptors the backend holds, what each function does to a state that
    satisfies the invariant, and that every function keeps it. *)

From Stdlib Require Import String.
From stdpp Require Import base numbers list strings gmap.
From S2P Require Import XDevice Prelude Libc StorageInterface StorageSpec Posix LocalStorage.
Local Open Scope Z_scope.

(** ** The cache as an association list *)

(** What of a cache decides lookups: the time of the last access does not. *)
Definition fd_keys (cache : list fd_cache_entry) : list (block * Z) :=
  (λ en, (fc_path en, fc_fd en)) <$> cache.

Fixpoint first_fd (keys : list (block * Z)) (path : string) : option Z :=
  match keys with
  | [] => None
  | (a, fd) :: keys => if strcmp_eq a path then Some fd else first_fd keys path
  end.

(** The cached descriptor of a full path. *)
Definition cached (priv : local_storage_private_t) (full_path : string) : option Z :=
  first_fd (fd_keys (lp_fd_cache priv)) full_path.

Lemma find_fd_first cache path :
  match find_fd cache path with
  | Some i => ∃ en, cache !! i = Some en ∧ first_fd (fd_keys cache) path = Some (fc_fd en)
  | None => first_fd (fd_keys cache) path = None
  end.
Proof.
  induction cache as [|en cache IH]; cbn; [done|].
  destruct (strcmp_eq (fc_path en) path); [by exists en|].
  destruct (find_fd cache path) as [i|]; cbn; done.
Qed.

Lemma fd_keys_access cache i en t :
  cache !! i = Some en → fd_keys (<[i := en <| fc_last_access := t |>]> cache) = fd_keys cache.
Proof.
  intros Hi. unfold fd_keys. rewrite list_fmap_insert. cbn. apply list_insert_id.
  by rewrite list_lookup_fmap, Hi.
Qed.

Lemma first_fd_app l1 l2 path :
  first_fd (l1 ++ l2) path =
    match first_fd l1 path with Some fd => Some fd | None => first_fd l2 path end.
Proof. induction l1 as [|[a fd] l1 IH]; cbn; [done|]. by destruct (strcmp_eq a path). Qed.

Lemma first_fd_in keys path fd : first_fd keys path = Some fd → fd ∈ keys.*2.
Proof.
  induction keys as [|[a x] keys IH]; cbn; [done|].
  destruct (strcmp_eq a path); [intros [= ->]; left|intros; right; auto].
Qed.

(** A path of fewer than 511 characters is found again in the slot it was copied to. *)
Lemma strcmp_eq_strncpy dst path :
  (length (chars path) < 511)%nat → strcmp_eq (strncpy dst path 511) path = true.
Proof.
  intros Hl. unfold strcmp_eq, strncpy. apply bool_decide_eq_true_2.
  rewrite take_app_le by (rewrite length_take, length_app, length_replicate; lia).
  rewrite take_take, Nat.min_l by lia. rewrite take_app_ge by lia.
  replace (S (length (chars path)) - length (chars path))%nat with 1%nat by lia. done.
Qed.

(** ** Invariant *)

Record local_inv (v : posix_view) (priv : local_storage_private_t) : Prop := {
  li_size : lp_fd_cache_size priv = Z.of_nat (length (lp_fd_cache priv));
  li_max : lp_fd_cache_size priv <= lp_max_open_files priv;
  li_max_u32 : u32 (lp_max_open_files priv);
  li_nodup : NoDup (fd_keys (lp_fd_cache priv)).*2;
  li_open : ∀ fd, fd ∈ (fd_keys (lp_fd_cache priv)).*2 →
    0 <= fd ∧ ∃ o, pv_fds v !! fd = Some o ∧ of_read o = negb (of_write o);
  li_stats : stats_u64 (lp_stats priv)
}.

(** What a call may do to the descriptors and to the cache: open more of them, cache
    more of those. *)
Record local_grows (v : posix_view) (priv : local_storage_private_t)
    (v' : posix_view) (priv' : local_storage_private_t) : Prop := {
  lg_fds : ∀ fd o, pv_fds v !! fd = Some o → pv_fds v' !! fd = Some o;
  lg_cached : ∀ path fd, cached priv path = Some fd → cached priv' path = Some fd;
  lg_new : ∀ fd o, pv_fds v !! fd = Some o →
    fd ∈ (fd_keys (lp_fd_cache priv')).*2 → fd ∈ (fd_keys (lp_fd_cache priv)).*2;
  lg_base : lp_base_path priv' = lp_base_path priv;
  lg_max : lp_max_open_files priv' = lp_max_open_files priv
}.

Lemma local_grows_trans v1 p1 v2 p2 v3 p3 :
  local_grows v1 p1 v2 p2 → local_grows v2 p2 v3 p3 → local_grows v1 p1 v3 p3.
Proof. intros [] []. split; eauto; congruence. Qed.

(** Changes outside the cache. *)
Lemma local_grows_fds v v' priv priv' :
  (∀ fd o, pv_fds v !! fd = Some o → pv_fds v' !! fd = Some o) →
  fd_keys (lp_fd_cache priv') = fd_keys (lp_fd_cache priv) →
  lp_base_path priv' = lp_base_path priv → lp_max_open_files priv' = lp_max_open_files priv →
  local_grows v priv v' priv'.
Proof. intros Hf Hk Hb Hm. unfold cached. split; unfold cached; rewrite ?Hk; eauto. Qed.

Lemma local_inv_fds v v' priv priv' :
  local_inv v priv → (∀ fd o, pv_fds v !! fd = Some o → pv_fds v' !! fd = Some o) →
  fd_keys (lp_fd_cache priv') = fd_keys (lp_fd_cache priv) →
  lp_fd_cache_size priv' = lp_fd_cache_size priv →
  lp_max_open_files priv' = lp_max_open_files priv → stats_u64 (lp_stats priv') →
  local_inv v' priv'.
Proof.
  intros [] Hf Hk Hs Hm Hst.
  assert (length (lp_fd_cache priv') = length (lp_fd_cache priv)).
  { unfold fd_keys in Hk. apply (f_equal length) in Hk. by rewrite !length_fmap in Hk. }
  split; rewrite ?Hk, ?Hs, ?Hm; [congruence|done..| |done].
  intros fd (?&o&?&?)%li_open0. eauto.
Qed.

(** A call that only uses descriptors. *)
Lemma local_same_fds v v' priv st :
  local_inv v priv → pv_fds v' = pv_fds v → stats_u64 st →
  local_inv v' (priv <| lp_stats := st |>) ∧ local_grows v priv v' (priv <| lp_stats := st |>).
Proof.
  intros Hinv Hf Hst. split.
  - apply (local_inv_fds v v' priv); try done. by rewrite Hf.
  - apply local_grows_fds; try done. by rewrite Hf.
Qed.

Lemma local_inv_kept v v' priv : local_inv v priv → pv_fds v' = pv_fds v → local_inv v' priv.
Proof. intros Hinv Hf. apply (local_inv_fds v v' priv); try done; [by rewrite Hf|apply Hinv]. Qed.

Lemma local_grows_kept v v' priv : pv_fds v' = pv_fds v → local_grows v priv v' priv.
Proof. intros Hf. apply local_grows_fds; try done. by rewrite Hf. Qed.

(** ** Paths *)

Lemma until_nul_strncpy dst path :
  c_string path → (length (chars path) < 511)%nat →
  until_nul (strncpy dst path 511) = Some (chars path).
Proof.
  intros Hs Hl. pose proof (c_str_strncpy dst path 511 Hs Hl) as Hc. unfold c_str in Hc.
  destruct (until_nul _) as [b|]; [|done]. cbn in Hc. injection Hc as <-.
  by rewrite chars_of_bytes.
Qed.

(** The full paths whose directories the backend can make: shorter than the buffers,
    and not directly below the root. *)
Definition local_path_ok (full_path : string) : Prop :=
  c_string full_path ∧ (length (chars full_path) < 511)%nat ∧
  last_index SLASH (chars full_path) ≠ Some O.

Section local_inv.
Context {K : Type} {HP : Posix K} {HL : PosixLaws K}.

Lemma mkdir_all_unchanged (k : K) paths : unchanged (view k) (view (mkdir_all k paths).2).
Proof.
  revert k. induction paths as [|path paths IH]; intros k; cbn; [done|].
  pose proof (law_mkdir k path) as Hm. destruct (sys_mkdir k path) as [[[]|] k1]; cbn in *;
    first [by etrans|done].
Qed.

Lemma create_directories_spec (k : K) path :
  chars path ≠ [] → ∃ ret k', create_directories k path = Some (ret, k') ∧
    unchanged (view k) (view k').
Proof.
  intros Hp. unfold create_directories.
  destruct (last (take 511 (chars path))) as [c|] eqn:Hl.
  - set (paths := string_of_list_byte <$> _). pose proof (mkdir_all_unchanged k paths).
    destruct (mkdir_all k paths) as [ok k']. eauto.
  - apply last_None in Hl. by destruct (chars path).
Qed.

Lemma create_parent_spec e (k : K) full_path :
  local_path_ok full_path →
  ∃ k', create_parent e k full_path = Some k' ∧ unchanged (view k) (view k').
Proof.
  intros (Hs&Hl&Hr). unfold create_parent. rewrite until_nul_strncpy by done. cbn [mbind option_bind].
  destruct (last_index SLASH (chars full_path)) as [[|n]|] eqn:Hn; [done| |by exists k].
  destruct (create_directories_spec k (string_of_list_byte (take (S n) (chars full_path))))
    as (ret&k'&->&?); [|by exists k'].
  rewrite chars_of_bytes. by destruct (chars full_path).
Qed.

(** ** The cache *)

(** How a path got its descriptor: from the cache, or from [open]. *)
Definition fd_source (v : posix_view) (priv : local_storage_private_t) (path : string)
    (flags : open_flags) (v' : posix_view) (fd : Z) (o : open_file) : Prop :=
  cached priv path = Some fd ∧ v' = v ∧ pv_fds v !! fd = Some o ∨
  cached priv path = None ∧ (∃ flags', fl_read flags' = fl_read flags ∧ fl_write flags' = fl_write flags ∧
    fl_creat flags' = fl_creat flags ∧ fl_excl flags' = fl_excl flags ∧ opened path flags' fd v v') ∧
    o = mk_open_file (of_ino o) (fl_read flags) (fl_write flags) ∧ pv_name v' path = Some (of_ino o).

(** A result of [get_file_descriptor]. *)
Definition fd_result (v : posix_view) (priv : local_storage_private_t) (path : string)
    (flags : open_flags) (fd : Z) (v' : posix_view) (priv' : local_storage_private_t) : Prop :=
  local_inv v' priv' ∧ local_grows v priv v' priv' ∧ lp_stats priv' = lp_stats priv ∧
  names_kept v v' ∧ data_kept v v' ∧
  (fd = -1 ∧ cached priv path = None ∧ pv_fds v' = pv_fds v ∨
   0 <= fd ∧ ∃ o, pv_fds v' !! fd = Some o ∧ of_read o = negb (of_write o) ∧
     fd_source v priv path flags v' fd o ∧
     (lp_fd_cache_size priv < lp_max_open_files priv → (length (chars path) < 511)%nat →
      cached priv' path = Some fd) ∧
     (cached priv path = None → lp_max_open_files priv <= lp_fd_cache_size priv →
      fd ∉ (fd_keys (lp_fd_cache priv')).*2)).

(** The descriptor that was found, with a new time of access. *)
Lemma fd_result_hit v priv path flags i en t :
  local_inv v priv → lp_fd_cache priv !! i = Some en → cached priv path = Some (fc_fd en) →
  fd_result v priv path flags (fc_fd en) v
    (priv <| lp_fd_cache := <[i := en <| fc_last_access := t |>]> (lp_fd_cache priv) |>).
Proof.
  intros Hinv Hen Hc. pose proof (fd_keys_access _ _ _ t Hen) as Hk.
  destruct (li_open _ _ Hinv (fc_fd en)) as (Hpos&o&Ho&Hm); [by apply (first_fd_in _ path)|].
  split_and!; [|by apply local_grows_fds|done|by intros ??|by intros ?|].
  - apply (local_inv_fds v v priv); try done. apply Hinv.
  - right. split; [done|]. exists o. split_and!; [done|done|by left| |by rewrite Hc].
    intros _ _. rewrite <- Hc. unfold cached. f_equal. exact Hk.
Qed.

(** The cache with a descriptor that was just opened in the next slot. *)
Definition cache_add (priv : local_storage_private_t) (en : fd_cache_entry) : local_storage_private_t :=
  priv <| lp_fd_cache := lp_fd_cache priv ++ [en] |>
       <| lp_fd_cache_size := lp_fd_cache_size priv ⊞₃₂ 1 |>.

Lemma cache_add_keys priv en :
  fd_keys (lp_fd_cache (cache_add priv en)) = fd_keys (lp_fd_cache priv) ++ [(fc_path en, fc_fd en)].
Proof. unfold fd_keys, cache_add. cbn. by rewrite fmap_app. Qed.

Lemma cache_add_spec v v' priv en o :
  local_inv v priv → lp_fd_cache_size priv < lp_max_open_files priv →
  (∀ fd o, pv_fds v !! fd = Some o → pv_fds v' !! fd = Some o) →
  0 <= fc_fd en → pv_fds v !! fc_fd en = None → pv_fds v' !! fc_fd en = Some o →
  of_read o = negb (of_write o) →
  local_inv v' (cache_add priv en) ∧ local_grows v priv v' (cache_add priv en).
Proof.
  intros Hinv Hroom Hgrow Hpos Hfree Ho Hm. pose proof (cache_add_keys priv en) as Hk.
  pose proof (li_size _ _ Hinv) as Hsz. pose proof (li_max_u32 _ _ Hinv) as Hu. unfold u32 in Hu.
  split; split; rewrite ?Hk, ?fmap_app; try done; try apply Hinv.
  - cbn. rewrite wrap32_small, length_app by (unfold u32; lia). cbn. lia.
  - cbn. rewrite wrap32_small by (unfold u32; lia). lia.
  - apply NoDup_app. split_and!; [apply Hinv| |apply NoDup_singleton].
    intros x Hx ->%list_elem_of_singleton. apply (li_open _ _ Hinv) in Hx as (_&y&Hy&_). cbn in Hy. congruence.
  - intros x [(?&y&?&?)%(li_open _ _ Hinv)| ->%list_elem_of_singleton]%elem_of_app; eauto.
  - intros q x. unfold cached. rewrite Hk, first_fd_app. by intros ->.
  - intros x y Hx [?| ->%list_elem_of_singleton]%elem_of_app; [done|]. cbn in Hx. congruence.
Qed.

(** A descriptor just opened, put into the next slot when there is one. *)
Lemma fd_result_open v priv path flags flags' fd v' dst t :
  local_inv v priv → cached priv path = None → opened path flags' fd v v' →
  fl_read flags' = fl_read flags → fl_write flags' = fl_write flags →
  fl_creat flags' = fl_creat flags → fl_excl flags' = fl_excl flags →
  fl_read flags = negb (fl_write flags) →
  fd_result v priv path flags fd v'
    (if lp_fd_cache_size priv <? lp_max_open_files priv
     then cache_add priv (mk_fd_entry (strncpy dst path 511) fd t) else priv).
Proof.
  intros Hinv Hc Hop Hfr Hfw Hfc Hfe Hmode. pose proof Hop as Hop'.
  destruct Hop as (Hpos&Hfree&Hn&Hd&_&_&i&Hi&Hf&_).
  set (o := mk_open_file i (fl_read flags) (fl_write flags)).
  assert (Ho : pv_fds v' !! fd = Some o) by by rewrite Hf, Hfr, Hfw, lookup_insert_eq.
  assert (Hsrc : fd_source v priv path flags v' fd o).
  { right. split_and!; [done|by exists flags'|done|done]. }
  assert (Hgrow : ∀ x y, pv_fds v !! x = Some y → pv_fds v' !! x = Some y).
  { intros x y Hx. rewrite Hf, lookup_insert_ne; [done|]. intros ->. congruence. }
  destruct (lp_fd_cache_size priv <? lp_max_open_files priv) eqn:Hroom; to_prop.
  - set (en := mk_fd_entry _ _ _).
    destruct (cache_add_spec v v' priv en o) as [Hinv' Hgr]; try done.
    split_and!; [done..|]. right. split; [done|]. exists o. split_and!; [done|done|done| |lia].
    intros _ Hlen. unfold cached in *. rewrite cache_add_keys, first_fd_app, Hc. cbn.
    by rewrite strcmp_eq_strncpy.
  - split_and!; [|by apply local_grows_fds|done|done|done|].
    + apply (local_inv_fds v v' priv); try done. apply Hinv.
    + right. split; [done|]. exists o. split_and!; [done|done|done|lia|].
      intros _ _ (_&y&Hy&_)%(li_open _ _ Hinv). congruence.
Qed.

Lemma get_file_descriptor_spec e (k : K) priv path flags :
  local_inv (view k) priv → fl_read flags = negb (fl_write flags) →
  ∃ fd k' priv', get_file_descriptor e k priv path flags = Some (fd, k', priv') ∧
    fd_result (view k) priv path flags fd (view k') priv' ∧
    (cached priv path ≠ None → k' = k).
Proof.
  intros Hinv Hmode. unfold get_file_descriptor. pose proof (find_fd_first (lp_fd_cache priv) path) as Hf.
  destruct (find_fd (lp_fd_cache priv) path) as [i|].
  { destruct Hf as (en&Hen&Hc). rewrite Hen. cbn [mbind option_bind].
    do 3 eexists. split; [done|]. split; [exact (fd_result_hit _ _ _ _ i en _ Hinv Hen Hc)|done]. }
  set (flags' := flags <| fl_direct := _ |> <| fl_sync := _ |>).
  destruct (sys_open k path flags') as [[fd|err] k'] eqn:Ho; apply law_open in Ho.
  - pose proof (λ dst t, fd_result_open _ _ path flags flags' fd _ dst t Hinv Hf Ho
      eq_refl eq_refl eq_refl eq_refl Hmode) as Hr.
    destruct (lp_fd_cache_size priv <? lp_max_open_files priv);
      do 3 eexists; (split; [done|]); (split; [first [apply (Hr [] 0)|apply Hr]|intros Hx; by destruct (Hx Hf)]).
  - destruct Ho as (Hfds&_&Hn&Hd). do 3 eexists. split; [done|]. split; [|intros Hx; by destruct (Hx Hf)].
    split_and!; [by apply (local_inv_kept (view k))|by apply local_grows_kept|done|done|done|by left].
Qed.

(** ** Transfers *)

(** The file a transfer works on, and the position of its descriptor at the start: the
    file of the cached descriptor, whatever the path leads to by now; without one, the
    file the path leads to, with a new descriptor. That descriptor is cached if there is
    room, and the path fits into a slot; when there is no room, it is not. *)
Definition local_target (v : posix_view) (priv : local_storage_private_t) (path : string)
    (v' : posix_view) (priv' : local_storage_private_t) (o : open_file) (start : Z) : Prop :=
  (∃ fd, cached priv path = Some fd ∧ pv_fds v !! fd = Some o ∧ start = pv_pos v fd) ∨
  cached priv path = None ∧ pv_name v' path = Some (of_ino o) ∧ start = 0 ∧
  ∃ fd, pv_fds v !! fd = None ∧ pv_fds v' !! fd = Some o ∧
    (lp_fd_cache_size priv < lp_max_open_files priv → (length (chars path) < 511)%nat →
     cached priv' path = Some fd) ∧
    (lp_max_open_files priv <= lp_fd_cache_size priv → fd ∉ (fd_keys (lp_fd_cache priv')).*2).

(** The position of a transfer. [lseek] returns -1 for a failure, and the largest
    offset is -1 as an [off_t]. *)
Definition transfer_pos (off start : Z) : Z := if decide (off = 2 ^ 64 - 1) then start else off.

(** The content of a file is [c], the others are as before. *)
Definition data_set (i : positive) (c : block) (v v' : posix_view) : Prop :=
  pv_data v' i = c ∧ ∀ j, j ≠ i → pv_data v' j = pv_data v j.

Lemma seek_spec (k : K) fd off r k' :
  u64 off → sys_lseek k fd (to_signed off) = (r, k') →
  unchanged_but fd (view k) (view k') ∧
  (r = to_signed off → pv_pos (view k') fd = transfer_pos off (pv_pos (view k) fd)).
Proof.
  intros Hoff Hs. apply law_lseek in Hs as [Hk Hr]. split; [done|]. intros ->.
  unfold to_signed, transfer_pos, u64 in *.
  destruct (off <? 2 ^ 63) eqn:Hlt; to_prop.
  - rewrite decide_False by lia. lia.
  - rewrite decide_True by lia. lia.
Qed.


Lemma target_kept v priv path v' priv' v'' o start :
  local_target v priv path v' priv' o start → pv_fds v'' = pv_fds v' → pv_name v'' = pv_name v' →
  local_target v priv path v'' priv' o start.
Proof. intros [?|(?&?&?&?)] Hf Hn; [by left|right]. by rewrite Hf, Hn. Qed.

Lemma names_kept_eq v v' : pv_name v' = pv_name v → names_kept v v'.
Proof. intros Hn path i. by rewrite Hn. Qed.

Lemma names_kept_trans v1 v2 v3 : names_kept v1 v2 → names_kept v2 v3 → names_kept v1 v3.
Proof. intros H1 H2 path i Hi. auto. Qed.

Lemma data_kept_trans v1 v2 v3 : data_kept v1 v2 → data_kept v2 v3 → data_kept v1 v3.
Proof. intros H1 H2 i. by rewrite H2, H1. Qed.

(** What a write does. *)
Inductive local_write_outcome (v : posix_view) (priv : local_storage_private_t) (path : string)
    (off : Z) (d : block) (e : call_env) (v' : posix_view) : Z → local_storage_private_t → Prop :=
| lw_failed priv' :
    data_kept v v' → lp_stats priv' = lp_stats priv →
    local_write_outcome v priv path off d e v' (error_code XDEVICE_ERROR_IO) priv'
| lw_partial priv' o start n :
    local_target v priv path v' priv' o start → of_write o = true → 0 < n < blen d →
    data_set (of_ino o) (spec_write (pv_data v (of_ino o)) (transfer_pos off start)
                           (take (Z.to_nat n) d)) v v' →
    lp_stats priv' = lp_stats priv →
    local_write_outcome v priv path off d e v' (error_code XDEVICE_ERROR_IO) priv'
| lw_ok priv' o start :
    local_target v priv path v' priv' o start → of_write o = true →
    data_set (of_ino o) (spec_write (pv_data v (of_ino o)) (transfer_pos off start) d) v v' →
    lp_stats priv' = count_write (lp_stats priv) (blen d) (latency_ns (clock_start e) (clock_end e)) →
    local_write_outcome v priv path off d e v' (error_code XDEVICE_OK) priv'.

(** What a read does; [buf'] is the buffer after it. *)
Inductive local_read_outcome (v : posix_view) (priv : local_storage_private_t) (path : string)
    (off n : Z) (buf : block) (e : call_env) (v' : posix_view)
    : Z → local_storage_private_t → block → Prop :=
| lr_failed priv' :
    lp_stats priv' = lp_stats priv →
    local_read_outcome v priv path off n buf e v' (error_code XDEVICE_ERROR_IO) priv' buf
| lr_data priv' ret o start d :
    local_target v priv path v' priv' o start → of_read o = true →
    d = take (length d) (drop (Z.to_nat (transfer_pos off start)) (pv_data v (of_ino o))) →
    (ret = error_code XDEVICE_OK ∧ blen d = n ∧
       lp_stats priv' = count_read (lp_stats priv) n (latency_ns (clock_start e) (clock_end e)) ∨
     ret = error_code XDEVICE_ERROR_NOT_FOUND ∧ blen d < n ∧ lp_stats priv' = lp_stats priv) →
    local_read_outcome v priv path off n buf e v' ret priv' (d ++ drop (length d) buf).

(** The state of a transfer between two of its system calls: [priv'] is the backend,
    [v'] the kernel. *)
Record in_transfer (v : posix_view) (priv : local_storage_private_t)
    (v' : posix_view) (priv' : local_storage_private_t) : Prop := {
  it_inv : local_inv v' priv';
  it_grows : local_grows v priv v' priv';
  it_stats : lp_stats priv' = lp_stats priv;
  it_names : names_kept v v';
  it_data : data_kept v v'
}.

Lemma in_transfer_kept v priv v1 v2 priv' fd :
  in_transfer v priv v1 priv' → unchanged_but fd v1 v2 → in_transfer v priv v2 priv'.
Proof.
  intros [Hi Hg ? Hn Hd] (Hf&Hn2&Hd2&_). split; [by apply (local_inv_kept v1)| |done| |].
  - eapply local_grows_trans; [done|]. by apply local_grows_kept.
  - eapply names_kept_trans; [done|]. by apply names_kept_eq.
  - by eapply data_kept_trans.
Qed.

(** The end of a transfer. *)
Lemma in_transfer_done v priv v1 v2 priv' st :
  in_transfer v priv v1 priv' → pv_fds v2 = pv_fds v1 → pv_name v2 = pv_name v1 → stats_u64 st →
  local_inv v2 (priv' <| lp_stats := st |>) ∧ local_grows v priv v2 (priv' <| lp_stats := st |>) ∧
  names_kept v v2.
Proof.
  intros [Hi Hg ? Hn Hd] Hf Hn2 Hst.
  destruct (local_same_fds v1 v2 priv' st Hi Hf Hst) as [??]. split_and!; [done| |].
  - by eapply local_grows_trans.
  - eapply names_kept_trans; [done|]. by apply names_kept_eq.
Qed.

(** The descriptor of a transfer, before [lseek]. *)
Lemma descriptor_spec e (k k1 : K) priv path flags :
  local_inv (view k) priv → unchanged (view k) (view k1) → fl_read flags = negb (fl_write flags) →
  ∃ fd k2 priv', get_file_descriptor e k1 priv path flags = Some (fd, k2, priv') ∧
    in_transfer (view k) priv (view k2) priv' ∧
    (fd < 0 ∨
     0 <= fd ∧ ∃ o, pv_fds (view k2) !! fd = Some o ∧
       local_target (view k) priv path (view k2) priv' o (pv_pos (view k2) fd)).
Proof.
  intros Hinv Hu Hmode. pose proof Hu as (Hf&Hp&Hn&Hd).
  destruct (get_file_descriptor_spec e k1 priv path flags) as (fd&k2&priv'&->&Hr&_);
    [by apply (local_inv_kept (view k))|done|].
  destruct Hr as (Hi&Hg&Hst&Hn2&Hd2&Hcase). do 3 eexists. split; [done|]. split.
  { split; [done| |done|by eapply names_kept_trans|by eapply data_kept_trans].
    eapply local_grows_trans; [by apply (local_grows_kept _ (view k1))|done]. }
  destruct Hcase as [(->&Hc&_)|(Hpos&o&Ho&Hm&Hsrc&Hin&Hout)]; [left; lia|right].
  split; [done|]. exists o. split; [done|].
  destruct Hsrc as [(Hc&Heq&Ho1)|(Hc&(flags'&_&_&_&_&Hop)&_&Hname)].
  - left. exists fd. by rewrite <- Hf, <- Hp, Heq.
  - right. destruct Hop as (_&Hfree&_&_&Hstart&_). rewrite Hf in Hfree.
    split_and!; [done|done|done|]. exists fd. split_and!; [done|done|done|auto].
Qed.

(** The [write] of a transfer. *)
Lemma write_call v priv priv' path (k k' : K) fd o start off d w :
  in_transfer v priv (view k) priv' → pv_fds (view k) !! fd = Some o →
  local_target v priv path (view k) priv' o start → pv_pos (view k) fd = transfer_pos off start →
  sys_write k fd d = (w, k') →
  w <= 0 ∧ in_transfer v priv (view k') priv' ∨
  0 < w <= blen d ∧ of_write o = true ∧ local_target v priv path (view k') priv' o start ∧
    pv_fds (view k') = pv_fds (view k) ∧ pv_name (view k') = pv_name (view k) ∧
    data_set (of_ino o) (spec_write (pv_data v (of_ino o)) (transfer_pos off start)
                           (take (Z.to_nat w) d)) v (view k').
Proof.
  intros Ht Ho Htg Hpos Hw. apply law_write in Hw as [Hle [[Hw0 Hbut]|(Hw0&o'&Ho'&How&Hsto&_)]].
  { left. split; [done|]. by eapply in_transfer_kept. }
  right. assert (o' = o) as -> by congruence. destruct Hsto as (Hf&Hn&Hset&Hothers).
  split_and!; [done|done|done| |done|done|split].
  - by eapply target_kept.
  - by rewrite Hset, Hpos, (it_data _ _ _ _ Ht).
  - intros j Hj. by rewrite Hothers, (it_data _ _ _ _ Ht).
Qed.

(** The [read] of a transfer. *)
Lemma read_call v priv priv' path (k k' : K) fd o start off n r :
  in_transfer v priv (view k) priv' → pv_fds (view k) !! fd = Some o →
  local_target v priv path (view k) priv' o start → pv_pos (view k) fd = transfer_pos off start →
  0 <= n → sys_read k fd n = (r, k') →
  in_transfer v priv (view k') priv' ∧ local_target v priv path (view k') priv' o start ∧
  match r with
  | None => True
  | Some d => of_read o = true ∧ blen d <= n ∧
      d = take (length d) (drop (Z.to_nat (transfer_pos off start)) (pv_data v (of_ino o)))
  end.
Proof.
  intros Ht Ho Htg Hpos Hn Hr. apply law_read in Hr as [Hbut Hd]. split_and!.
  - by eapply in_transfer_kept.
  - destruct Hbut as (?&?&_). by eapply target_kept.
  - destruct r as [d|]; [|done]. destruct Hd as (o'&Ho'&Hor&Hle&Hd).
    assert (o' = o) as -> by congruence. rewrite Hpos, (it_data _ _ _ _ Ht) in Hd.
    split_and!; [done|lia|done].
Qed.

(** The descriptor after [lseek]. *)
Lemma seek_call v priv priv' path (k k' : K) fd o off r :
  in_transfer v priv (view k) priv' → pv_fds (view k) !! fd = Some o →
  local_target v priv path (view k) priv' o (pv_pos (view k) fd) → u64 off →
  sys_lseek k fd (to_signed off) = (r, k') →
  in_transfer v priv (view k') priv' ∧ pv_fds (view k') !! fd = Some o ∧
  local_target v priv path (view k') priv' o (pv_pos (view k) fd) ∧
  (r = to_signed off → pv_pos (view k') fd = transfer_pos off (pv_pos (view k) fd)).
Proof.
  intros Ht Ho Htg Hoff Hs. apply seek_spec in Hs as [Hbut Hseek]; [|done].
  pose proof Hbut as (Hf&Hn&_). split_and!; [by eapply in_transfer_kept|by rewrite Hf| |done].
  by eapply target_kept.
Qed.

Lemma to_signed_small n : n < 2 ^ 63 → to_signed n = n.
Proof. intros. unfold to_signed. by rewrite (proj2 (Z.ltb_lt _ _)). Qed.

Lemma local_write_spec e (k : K) i priv path off d :
  if_private i = Some priv → local_inv (view k) priv →
  local_path_ok (build_file_path (lp_base_path priv) path) → u64 off → 0 < blen d < 2 ^ 63 →
  ∃ ret k' priv',
    local_storage_write_sync e k (Some i) (Some path) off (Some d) (blen d) =
      Some (ret, k', Some (i <| if_private := Some priv' |>)) ∧
    local_inv (view k') priv' ∧ local_grows (view k) priv (view k') priv' ∧
    names_kept (view k) (view k') ∧
    local_write_outcome (view k) priv (build_file_path (lp_base_path priv) path) off d e
      (view k') ret priv'.
Proof.
  intros Hi Hinv Hp Hoff Hd. unfold local_storage_write_sync. cbn [private_of mbind option_bind].
  rewrite Hi, (proj2 (Z.eqb_neq (blen d) 0)) by lia. set (fp := build_file_path _ _) in *.
  destruct (create_parent_spec e k fp Hp) as (k1&->&Hu). cbn [mbind option_bind].
  destruct (descriptor_spec e k k1 priv fp O_WRONLY_CREAT Hinv Hu eq_refl)
    as (fd&k2&priv2&->&Ht&Hcase). cbn [mbind option_bind set_private fmap option_fmap option_map].
  assert (Hfail : ∀ k' priv', in_transfer (view k) priv (view k') priv' →
    local_inv (view k') priv' ∧ local_grows (view k) priv (view k') priv' ∧
    names_kept (view k) (view k') ∧ local_write_outcome (view k) priv fp off d e (view k')
      (error_code XDEVICE_ERROR_IO) priv').
  { intros k' priv' []. split_and!; [done..|]. by apply lw_failed. }
  destruct Hcase as [Hneg|(Hpos&o&Ho&Htg)].
  { rewrite (proj2 (Z.ltb_lt fd 0)) by lia. do 3 eexists. split; [done|]. by apply Hfail. }
  rewrite (proj2 (Z.ltb_ge fd 0)) by lia.
  destruct (sys_lseek k2 fd (to_signed off)) as [r k3] eqn:Hs.
  destruct (seek_call _ _ _ _ _ _ _ _ _ _ Ht Ho Htg Hoff Hs) as (Ht3&Ho3&Htg3&Hseek).
  destruct (r =? to_signed off) eqn:Hr; cbn [negb]; to_prop; cycle 1.
  { do 3 eexists. split; [done|]. by apply Hfail. }
  rewrite mem_read_all. cbn [mbind option_bind]. rewrite to_signed_small by lia.
  destruct (sys_write k3 fd d) as [w k4] eqn:Hw.
  destruct (write_call _ _ _ _ _ _ _ _ _ _ _ _ Ht3 Ho3 Htg3 (Hseek Hr) Hw)
    as [[Hw0 Ht4]|(Hw0&How&Htg4&Hf4&Hn4&Hset)].
  { rewrite (proj2 (Z.eqb_neq _ _)) by lia. do 3 eexists. split; [done|]. by apply Hfail. }
  assert (Hst : stats_u64 (lp_stats priv2)) by apply Ht3.
  destruct (w =? blen d) eqn:Hwd; cbn [negb]; to_prop; do 3 eexists; (split; [done|]).
  - destruct (in_transfer_done _ _ _ _ _ (count_write (lp_stats priv2) (blen d)
      (latency_ns (clock_start e) (clock_end e))) Ht3 Hf4 Hn4) as (?&?&?); [by apply stats_u64_write|].
    split_and!; [done..|]. apply lw_ok with o (pv_pos (view k2) fd); [done|done| |].
    + by rewrite Hwd, (take_ge d) in Hset by (unfold blen; lia).
    + cbn. by rewrite (it_stats _ _ _ _ Ht3).
  - destruct (in_transfer_done _ _ _ _ _ (lp_stats priv2) Ht3 Hf4 Hn4 Hst) as (?&?&?).
    assert (Heq : priv2 <| lp_stats := lp_stats priv2 |> = priv2) by by destruct priv2.
    rewrite Heq in *. split_and!; [done..|].
    apply lw_partial with o (pv_pos (view k2) fd) w; try done; [lia|apply Ht3].
Qed.

Lemma local_read_spec e (k : K) i priv path off n buf :
  if_private i = Some priv → local_inv (view k) priv → u64 off → 0 < n <= blen buf → n < 2 ^ 63 →
  ∃ ret k' priv' buf',
    local_storage_read_sync e k (Some i) (Some path) off (Some buf) n =
      Some (ret, k', Some (i <| if_private := Some priv' |>), Some buf') ∧
    local_inv (view k') priv' ∧ local_grows (view k) priv (view k') priv' ∧
    names_kept (view k) (view k') ∧ data_kept (view k) (view k') ∧
    local_read_outcome (view k) priv (build_file_path (lp_base_path priv) path) off n buf e
      (view k') ret priv' buf'.
Proof.
  intros Hi Hinv Hoff Hn Hn63. unfold local_storage_read_sync. cbn [private_of mbind option_bind].
  rewrite Hi, (proj2 (Z.eqb_neq n 0)) by lia. set (fp := build_file_path _ _) in *.
  destruct (descriptor_spec e k k priv fp O_RDONLY Hinv (reflexivity _) eq_refl)
    as (fd&k2&priv2&->&Ht&Hcase). cbn [mbind option_bind set_private fmap option_fmap option_map].
  assert (Hfail : ∀ k' priv', in_transfer (view k) priv (view k') priv' →
    local_inv (view k') priv' ∧ local_grows (view k) priv (view k') priv' ∧
    names_kept (view k) (view k') ∧ data_kept (view k) (view k') ∧
    local_read_outcome (view k) priv fp off n buf e (view k') (error_code XDEVICE_ERROR_IO) priv' buf).
  { intros k' priv' []. split_and!; [done..|]. by apply lr_failed. }
  destruct Hcase as [Hneg|(Hpos&o&Ho&Htg)].
  { rewrite (proj2 (Z.ltb_lt fd 0)) by lia. do 4 eexists. split; [done|]. by apply Hfail. }
  rewrite (proj2 (Z.ltb_ge fd 0)) by lia.
  destruct (sys_lseek k2 fd (to_signed off)) as [r k3] eqn:Hs.
  destruct (seek_call _ _ _ _ _ _ _ _ _ _ Ht Ho Htg Hoff Hs) as (Ht3&Ho3&Htg3&Hseek).
  destruct (r =? to_signed off) eqn:Hr; cbn [negb]; to_prop; cycle 1.
  { do 4 eexists. split; [done|]. by apply Hfail. }
  rewrite to_signed_small by lia. assert (Hn0 : 0 <= n) by lia.
  destruct (sys_read k3 fd n) as [[d|] k4] eqn:Hrd;
    (destruct (read_call _ _ _ _ _ _ _ _ _ _ _ _ Ht3 Ho3 Htg3 (Hseek Hr) Hn0 Hrd)
      as (Ht4&Htg4&Hd)); cycle 1.
  { cbn [mbind option_bind]. rewrite (proj2 (Z.eqb_neq (-1) n)) by lia. cbn.
    do 4 eexists. split; [done|]. by apply Hfail. }
  destruct Hd as (Hor&Hle&Hd). pose proof (blen_nonneg d).
  rewrite mem_write_in by lia. cbn [mbind option_bind]. change (Z.to_nat 0) with 0%nat.
  rewrite take_0, app_nil_l, Nat.add_0_l.
  assert (Hst : stats_u64 (lp_stats priv2)) by apply Ht4.
  destruct (blen d =? n) eqn:Hdn; cbn [negb]; to_prop.
  - do 4 eexists. split; [done|].
    destruct (in_transfer_done _ _ _ _ _ (count_read (lp_stats priv2) n
      (latency_ns (clock_start e) (clock_end e))) Ht4 eq_refl eq_refl) as (?&?&?); [by apply stats_u64_read|].
    split_and!; [done..|apply Ht4|]. eapply lr_data; [done|done|done|]. left.
    split_and!; [done|done|]. cbn. by rewrite (it_stats _ _ _ _ Ht4).
  - rewrite (proj2 (Z.ltb_ge _ _)) by lia. do 4 eexists. split; [done|].
    destruct Ht4 as [?? Hst4 ??]. split_and!; [done..|]. eapply lr_data; [done|done|done|]. right.
    split_and!; [done|lia|done].
Qed.

(** ** The other functions *)

Lemma local_fsync_spec e (k : K) i priv path :
  if_private i = Some priv → local_inv (view k) priv →
  ∃ ret k' priv',
    local_storage_fsync e k (Some i) (Some path) =
      Some (ret, k', Some (i <| if_private := Some priv' |>)) ∧
    in_transfer (view k) priv (view k') priv' ∧
    (ret = error_code XDEVICE_OK ∨ ret = error_code XDEVICE_ERROR_IO).
Proof.
  intros Hi Hinv. unfold local_storage_fsync. cbn [private_of mbind option_bind]. rewrite Hi.
  destruct (descriptor_spec e k k priv (build_file_path (lp_base_path priv) path) O_WRONLY Hinv
    (reflexivity _) eq_refl) as (fd&k2&priv2&->&Ht&_).
  cbn [mbind option_bind set_private fmap option_fmap option_map].
  destruct (fd <? 0); [do 3 eexists; split; [done|]; by auto|].
  pose proof (law_fsync k2 fd) as (Hf&_&Hn&Hd). destruct (sys_fsync k2 fd) as [ok k3].
  do 3 eexists. split; [done|]. split; [|by destruct ok; auto].
  destruct Ht as [Hi2 Hg ? Hn2 Hd2]. split; [by apply (local_inv_kept (view k2))| |done| |].
  - eapply local_grows_trans; [done|]. by apply local_grows_kept.
  - by eapply names_kept_trans.
  - by eapply data_kept_trans.
Qed.

(** The new file of a creation, on the way to its close. *)
Lemma create_truncate (k k' : K) fd i size ok :
  pv_fds (view k) !! fd = Some (mk_open_file i false true) → pv_data (view k) i = [] →
  sys_ftruncate k fd (to_signed size) = (ok, k') → 0 < size < 2 ^ 63 →
  pv_fds (view k') = pv_fds (view k) ∧ names_kept (view k) (view k') ∧
  (∀ j, j ≠ i → pv_data (view k') j = pv_data (view k) j) ∧
  (ok = true → pv_data (view k') i = zeros size).
Proof.
  intros Ho Hempty Ht Hs. rewrite to_signed_small in Ht by lia. apply law_ftruncate in Ht.
  destruct ok.
  - destruct Ht as (_&_&o&Ho'&_&Hf&Hn&Hset&Hothers). rewrite Ho in Ho'. injection Ho' as <-.
    cbn in Hset, Hothers. split_and!; [done|by apply names_kept_eq|done|]. intros _.
    rewrite Hset, Hempty. unfold pad_to, zeros, blen. cbn. rewrite Z.sub_0_r. apply take_ge.
    by rewrite length_replicate.
  - destruct Ht as (Hf&_&Hn&Hd). by split_and!.
Qed.

(** The files behind open descriptors are as they were. *)
Definition open_data_kept (v v' : posix_view) : Prop :=
  ∀ fd o, pv_fds v !! fd = Some o → pv_data v' (of_ino o) = pv_data v (of_ino o).

(** Closing a descriptor that was opened since [v]. *)
Lemma close_opened v (k : K) fd o :
  pv_fds v !! fd = None → pv_fds (view k) = <[fd := o]> (pv_fds v) → open_data_kept v (view k) →
  pv_fds (view (sys_close k fd)) = pv_fds v ∧ open_data_kept v (view (sys_close k fd)) ∧
  pv_name (view (sys_close k fd)) = pv_name (view k) ∧
  (∀ path i, pv_name (view k) path = Some i →
     pv_data (view (sys_close k fd)) i = pv_data (view k) i).
Proof.
  intros Hfree Hf Hk. destruct (law_close k fd) as (Hf2&Hn&Hd&_).
  assert (Hfds : pv_fds (view (sys_close k fd)) = pv_fds v) by by rewrite Hf2, Hf, delete_insert_id.
  split_and!; [done| |done|].
  - intros x y Hx. rewrite Hd; [by eapply Hk|]. apply live_fd with x. by rewrite Hfds.
  - intros path i Hi. apply Hd. apply live_name with path. by rewrite Hn.
Qed.

(** What creating a file does. *)
Inductive local_create_outcome (v : posix_view) (path : string) (size : Z) (v' : posix_view)
    : Z → Prop :=
| lc_exists : local_create_outcome v path size v' (error_code XDEVICE_ERROR_EXISTS)
| lc_failed : local_create_outcome v path size v' (error_code XDEVICE_ERROR_IO)
| lc_ok i :
    ¬ live v i → pv_name v' path = Some i → pv_data v' i = zeros size →
    local_create_outcome v path size v' (error_code XDEVICE_OK).

(** After [open] has made the file [i]. *)
Lemma create_opened v (k2 : K) fd i path size :
  pv_fds v !! fd = None → pv_fds (view k2) = <[fd := mk_open_file i false true]> (pv_fds v) →
  pv_name (view k2) path = Some i → data_kept v (view k2) → ¬ live v i → pv_data v i = [] →
  0 <= size < 2 ^ 63 →
  ∃ ret k', (if 0 <? size then
      let '(ok, k) := sys_ftruncate k2 fd (to_signed size) in
      if negb ok then
        let k := sys_close k fd in
        let '(_, k) := sys_unlink k path in
        Some (error_code XDEVICE_ERROR_IO, k)
      else Some (error_code XDEVICE_OK, sys_close k fd)
    else Some (error_code XDEVICE_OK, sys_close k2 fd)) = Some (ret, k') ∧
    pv_fds (view k') = pv_fds v ∧ open_data_kept v (view k') ∧
    local_create_outcome v path size (view k') ret.
Proof.
  intros Hfree Hf Hn Hd Hdead Hempty Hs.
  assert (Hother : ∀ x y, pv_fds v !! x = Some y → of_ino y ≠ i).
  { intros x y Hx <-. apply Hdead. by apply live_fd with x. }
  destruct (0 <? size) eqn:Hpos; to_prop; cycle 1.
  { destruct (close_opened v k2 fd _ Hfree Hf) as (?&?&Hn2&Hd2); [by intros ???|].
    do 2 eexists. split; [done|]. split_and!; [done|done|]. apply lc_ok with i; [done|by rewrite Hn2|].
    rewrite (Hd2 path i Hn), Hd, Hempty. by replace size with 0 by lia. }
  destruct (sys_ftruncate k2 fd (to_signed size)) as [ok k3] eqn:Ht.
  destruct (create_truncate k2 k3 fd i size ok) as (Hf3&Hn3&Hd3&Hok);
    [by rewrite Hf, lookup_insert_eq|by rewrite Hd|done|lia|].
  destruct (close_opened v k3 fd (mk_open_file i false true)) as (Hf4&Hk4&Hn4&Hd4); [done|by rewrite Hf3| |].
  { intros x y Hx. rewrite Hd3, Hd; [done|]. by eapply Hother. }
  destruct ok; cbn [negb].
  - do 2 eexists. split; [done|]. split_and!; [done|done|]. apply lc_ok with i; [done| |].
    + rewrite Hn4. by apply Hn3.
    + rewrite (Hd4 path i), Hok by auto. done.
  - destruct (sys_unlink (sys_close k3 fd) path) as [r k4] eqn:Hu. apply law_unlink in Hu.
    do 2 eexists. split; [done|]. destruct r as [err|].
    + destruct Hu as (Hf5&_&_&Hd5). split_and!; [congruence| |constructor].
      intros x y Hx. by rewrite Hd5, (Hk4 x).
    + destruct Hu as (Hf5&_&_&_&Hd5). split_and!; [congruence| |constructor].
      intros x y Hx. rewrite Hd5, (Hk4 x); [done|done|]. apply live_fd with x. by rewrite Hf5, Hf4.
Qed.

Lemma local_create_spec e (k : K) i priv path size :
  if_private i = Some priv → local_path_ok (build_file_path (lp_base_path priv) path) →
  0 <= size < 2 ^ 63 →
  ∃ ret k', local_storage_create_file e k (Some i) (Some path) size = Some (ret, k') ∧
    pv_fds (view k') = pv_fds (view k) ∧ open_data_kept (view k) (view k') ∧
    local_create_outcome (view k) (build_file_path (lp_base_path priv) path) size (view k') ret.
Proof.
  intros Hi Hp Hs. unfold local_storage_create_file. cbn [private_of mbind option_bind]. rewrite Hi.
  set (fp := build_file_path _ _) in *.
  destruct (create_parent_spec e k fp Hp) as (k1&->&Hf1&_&Hn1&Hd1). cbn [mbind option_bind].
  destruct (sys_open k1 fp O_WRONLY_CREAT_EXCL) as [[fd|err] k2] eqn:Ho; apply law_open in Ho; cycle 1.
  { destruct Ho as (Hf2&_&_&Hd2).
    assert (Hok : open_data_kept (view k) (view k2)) by (intros x y _; by rewrite Hd2, Hd1).
    destruct err; do 2 eexists; (split; [done|]); (split_and!; [congruence|done|constructor]). }
  destruct Ho as (_&Hfree&_&Hd2&_&_&j&Hj&Hf2&[[? _]|(_&_&Hdead)]); [done|]. cbn in Hf2.
  rewrite Hf1 in Hfree, Hf2.
  assert (Hdead' : ¬ live (view k) j).
  { intros [(q&Hq)|(x&y&Hx&Hy)]; apply Hdead; [left; exists q; auto|right; exists x, y]. by rewrite Hf1. }
  apply (create_opened (view k) k2 fd j fp size); try done.
  - by eapply data_kept_trans.
  - by apply law_empty.
Qed.

Lemma local_delete_spec (k : K) i priv path :
  if_private i = Some priv →
  ∃ ret k', local_storage_delete_file k (Some i) (Some path) = (ret, k') ∧
    pv_fds (view k') = pv_fds (view k) ∧ open_data_kept (view k) (view k') ∧
    (ret = error_code XDEVICE_OK ∧ pv_name (view k') (build_file_path (lp_base_path priv) path) = None ∨
     ret ≠ error_code XDEVICE_OK ∧ unchanged (view k) (view k')).
Proof.
  intros Hi. unfold local_storage_delete_file. cbn [private_of mbind option_bind]. rewrite Hi.
  set (fp := build_file_path _ _). destruct (sys_unlink k fp) as [[err|] k'] eqn:Hu; apply law_unlink in Hu.
  - pose proof Hu as (Hf&_&_&Hd).
    assert (open_data_kept (view k) (view k')) by (intros x y _; by rewrite Hd).
    destruct err; do 2 eexists; (split; [done|]); (split_and!; [done|done|by right]).
  - destruct Hu as (Hf&_&Hn&_&Hd). do 2 eexists. split; [done|]. split_and!; [done| |by left].
    intros x y Hx. apply Hd, live_fd with x. by rewrite Hf.
Qed.
End local_inv.
