(* ===== verification/LocalProps.v ===== *)
(** * LocalProps: properties of the local file backend

    Sequences of calls are safe, what a transfer does, and what the descriptor cache
    makes of it: a path is used in one direction only, a deleted file stays the target
    of its path, descriptors are lost once the cache is full. *)

From Stdlib Require Import String.
From stdpp Require Import base numbers list strings gmap.
From S2P Require Import XDevice Prelude Libc StorageInterface StorageSpec Posix LocalStorage LocalInv.
Local Open Scope Z_scope.

(** ** Sequences of calls *)

Inductive local_op : Type :=
| LWrite (e : call_env) (path : string) (off : Z) (d : block)
| LRead (e : call_env) (path : string) (off n : Z) (buf : block)
| LFsync (e : call_env) (path : string)
| LCreate (e : call_env) (path : string) (size : Z)
| LDelete (path : string)
| LHealth
| LInfo (path : string) (info : storage_file_info_t)
| LStats (stats : storage_stats_t)
| LResetStats.

Section runs.
Context {K : Type} {HP : Posix K}.

(** The interface object in use and the kernel. [None] is undefined behaviour. *)
Definition local_step (k : K) (p : iptr local_storage_private_t) (op : local_op)
    : option (Z * K * iptr local_storage_private_t) :=
  match op with
  | LWrite e path off d => local_storage_write_sync e k p (Some path) off (Some d) (blen d)
  | LRead e path off n buf =>
      '(ret, k, p, _) ← local_storage_read_sync e k p (Some path) off (Some buf) n; Some (ret, k, p)
  | LFsync e path => local_storage_fsync e k p (Some path)
  | LCreate e path size =>
      '(ret, k) ← local_storage_create_file e k p (Some path) size; Some (ret, k, p)
  | LDelete path => let '(ret, k) := local_storage_delete_file k p (Some path) in Some (ret, k, p)
  | LHealth => let '(ret, k) := local_storage_health_check k p in Some (ret, k, p)
  | LInfo path info =>
      let '(ret, k, _) := local_storage_get_file_info k p (Some path) (Some info) in Some (ret, k, p)
  | LStats stats => let '(ret, _) := local_storage_get_stats p (Some stats) in Some (ret, k, p)
  | LResetStats => let '(ret, p) := local_storage_reset_stats p in Some (ret, k, p)
  end.

Fixpoint local_run (k : K) (p : iptr local_storage_private_t) (ops : list local_op)
    : option (list Z * K * iptr local_storage_private_t) :=
  match ops with
  | [] => Some ([], k, p)
  | op :: ops =>
      '(ret, k, p) ← local_step k p op;
      '(rets, k, p) ← local_run k p ops;
      Some (ret :: rets, k, p)
  end.

(** Arguments in range, the buffer of a read large enough, and for the calls that
    make directories a path whose directories can be made. *)
Definition local_op_ok (base : string) (op : local_op) : Prop :=
  match op with
  | LWrite _ path off d =>
      local_path_ok (build_file_path base path) ∧ u64 off ∧ 0 < blen d < 2 ^ 63
  | LRead _ _ off n buf => u64 off ∧ 0 < n <= blen buf ∧ n < 2 ^ 63
  | LCreate _ path size => local_path_ok (build_file_path base path) ∧ 0 <= size < 2 ^ 63
  | _ => True
  end.

Context {HL : PosixLaws K}.

(** An interface object in use, and the backend behind it. *)
Definition local_object (k : K) (p : iptr local_storage_private_t)
    (priv : local_storage_private_t) : Prop :=
  private_of p = Some priv ∧ local_inv (view k) priv.

Lemma local_object_iface k p priv :
  local_object k p priv → ∃ i, p = Some i ∧ if_private i = Some priv ∧ local_inv (view k) priv.
Proof. intros [Hp Hinv]. destruct p as [i|]; [|done]. by exists i. Qed.

(** A call that leaves the object alone. *)
Lemma local_object_kept k k' p priv :
  local_object k p priv → pv_fds (view k') = pv_fds (view k) →
  local_object k' p priv ∧ local_grows (view k) priv (view k') priv.
Proof.
  intros [Hp Hinv] Hf. split; [split; [done|by apply (local_inv_kept (view k))]|].
  by apply local_grows_kept.
Qed.

Lemma local_step_spec k p priv op :
  local_object k p priv → local_op_ok (lp_base_path priv) op →
  ∃ ret k' p' priv', local_step k p op = Some (ret, k', p') ∧ local_object k' p' priv' ∧
    local_grows (view k) priv (view k') priv'.
Proof.
  intros Hob Hok. pose proof (local_object_iface _ _ _ Hob) as (i&->&Hi&Hinv).
  destruct op as [e path off d|e path off n buf|e path|e path size|path| |path info|st| ];
    cbn [local_step] in *.
  - destruct Hok as (Hp&Ho&Hd).
    destruct (local_write_spec e k i priv path off d Hi Hinv Hp Ho Hd) as (ret&k'&priv'&->&?&?&_).
    do 4 eexists. by split_and!.
  - destruct Hok as (Ho&Hn&Hn').
    destruct (local_read_spec e k i priv path off n buf Hi Hinv Ho Hn Hn')
      as (ret&k'&priv'&buf'&->&?&?&_). cbn. do 4 eexists. by split_and!.
  - destruct (local_fsync_spec e k i priv path Hi Hinv) as (ret&k'&priv'&->&[]&_).
    do 4 eexists. by split_and!.
  - destruct Hok as (Hp&Hs).
    destruct (local_create_spec e k i priv path size Hi Hp Hs) as (ret&k'&->&Hf&_). cbn.
    destruct (local_object_kept k k' _ _ Hob Hf). do 4 eexists. by split_and!.
  - destruct (local_delete_spec k i priv path Hi) as (ret&k'&->&Hf&_). cbn.
    destruct (local_object_kept k k' _ _ Hob Hf). do 4 eexists. by split_and!.
  - unfold local_storage_health_check. cbn [private_of mbind option_bind]. rewrite Hi.
    destruct (law_access k (lp_base_path priv)) as (Hf&_). destruct (sys_access _ _) as [ok k'].
    destruct (local_object_kept k k' _ _ Hob Hf). do 4 eexists. by split_and!.
  - unfold local_storage_get_file_info. cbn [private_of mbind option_bind]. rewrite Hi.
    destruct (sys_stat _ _) as [r k'] eqn:Hs. apply law_stat in Hs as [(Hf&_) _].
    destruct (local_object_kept k k' _ _ Hob Hf).
    destruct r as [st|[]]; do 4 eexists; by split_and!.
  - unfold local_storage_get_stats. cbn [private_of mbind option_bind]. rewrite Hi.
    destruct (local_object_kept k k _ _ Hob eq_refl). do 4 eexists. by split_and!.
  - unfold local_storage_reset_stats. cbn [private_of mbind option_bind]. rewrite Hi.
    destruct (local_same_fds (view k) (view k) priv zero_stats Hinv eq_refl) as [??]; [auto with xdev|].
    do 4 eexists. by split_and!.
Qed.

Lemma local_run_spec k p priv ops :
  local_object k p priv → Forall (local_op_ok (lp_base_path priv)) ops →
  ∃ rets k' p' priv', local_run k p ops = Some (rets, k', p') ∧ local_object k' p' priv' ∧
    local_grows (view k) priv (view k') priv'.
Proof.
  revert k p priv. induction ops as [|op ops IH]; intros k p priv Hob Hops.
  { exists [], k, p, priv. split; [done|]. split; [done|]. by apply local_grows_kept. }
  apply Forall_cons in Hops as [Hop Hops]. cbn.
  destruct (local_step_spec k p priv op Hob Hop) as (ret&k1&p1&priv1&->&Hob1&Hg1).
  cbn [mbind option_bind].
  destruct (IH k1 p1 priv1 Hob1) as (rets&k2&p2&priv2&->&Hob2&Hg2).
  { by rewrite (lg_base _ _ _ _ Hg1). }
  do 4 eexists. split; [done|]. split; [done|]. by eapply local_grows_trans.
Qed.

(** A successful initialisation gives an object in use. *)
Lemma local_init_object e k p config k' p' :
  local_storage_init e k p config = Some (error_code XDEVICE_OK, k', p') →
  ∃ priv, local_object k' p' priv ∧ priv = local_initial_private config ∧
    unchanged (view k) (view k').
Proof.
  unfold local_storage_init. destruct p as [i|]; [|done].
  destruct (malloc_ok e 0); cbn [negb]; [|done]. set (priv := local_initial_private config).
  destruct (chars (lp_base_path priv)) as [|c b] eqn:Hb.
  { unfold create_directories. by rewrite Hb. }
  destruct (create_directories_spec k (lp_base_path priv)) as (ret&k1&->&Hu); [by rewrite Hb|].
  cbn [mbind option_bind]. destruct (ret =? XDEVICE_OK); cbn [negb]; [|done].
  destruct (malloc_ok e 1), (mutex_init_ok e 0), (malloc_ok e 2), (mutex_init_ok e 1), (mutex_init_ok e 2);
    cbn [negb]; try done. intros [= <- <-]. exists priv. split; [|done]. split; [done|].
  split; cbn; first [done|by apply NoDup_nil|by intros ? ?%not_elem_of_nil|auto with xdev].
Qed.

End runs.

(** ** Runs on the small kernel, for the witnesses *)

#[export] Instance local_path_ok_dec path : Decision (local_path_ok path).
Proof. unfold local_path_ok, c_string. apply _. Defined.

#[export] Instance local_op_ok_dec base op : Decision (local_op_ok base op).
Proof. unfold local_op_ok, u64. destruct op; apply _. Defined.

Definition w_env : call_env := default_env.

Definition w_priv : local_storage_private_t := local_initial_private None.

Definition w_iface : iface local_storage_private_t :=
  mk_iface STORAGE_BACKEND_LOCAL "LocalFileStorage" (Some w_priv).

(** The state after some calls on a new backend. *)
Definition w_run (ops : list local_op) : kernel * iface local_storage_private_t :=
  match local_run empty_kernel (Some w_iface) ops with
  | Some (_, k, Some i) => (k, i)
  | _ => (empty_kernel, w_iface)
  end.

Definition w_private (ops : list local_op) : local_storage_private_t :=
  default w_priv (if_private (w_run ops).2).

Lemma w_object : local_object empty_kernel (Some w_iface) w_priv.
Proof.
  destruct (local_init_object w_env empty_kernel (Some (w_iface <| if_private := None |>)) None
    empty_kernel (Some w_iface)) as (priv&Hob&->&_); [by vm_compute|done].
Qed.

Lemma w_run_object ops :
  bool_decide (Forall (local_op_ok (lp_base_path w_priv)) ops) = true →
  local_object (w_run ops).1 (Some (w_run ops).2) (w_private ops).
Proof.
  intros Hops%bool_decide_eq_true_1. unfold w_private, w_run.
  destruct (local_run_spec _ _ _ ops w_object Hops) as (rets&k&p&priv&->&Hob&_).
  pose proof (local_object_iface _ _ _ Hob) as (i&->&Hi&_). cbn. by rewrite Hi.
Qed.

Lemma w_path_ok path :
  bool_decide (local_path_ok (build_file_path "/tmp/xdevice" path)) = true →
  local_path_ok (build_file_path "/tmp/xdevice" path).
Proof. apply bool_decide_eq_true_1. Qed.

Section theorems.
Context {K : Type} {HP : Posix K} {HL : PosixLaws K}.

(** ** Cleanup *)

Lemma close_all_fds (k : K) cache x :
  (∀ fd, fd ∈ (fd_keys cache).*2 → 0 <= fd) →
  pv_fds (view (close_all k cache)) !! x =
    if decide (x ∈ (fd_keys cache).*2) then None else pv_fds (view k) !! x.
Proof.
  revert k. induction cache as [|en cache IH]; intros k Hpos; [done|].
  change (close_all k (en :: cache)) with
    (close_all (if 0 <=? fc_fd en then sys_close k (fc_fd en) else k) cache).
  change ((fd_keys (en :: cache)).*2) with (fc_fd en :: (fd_keys cache).*2) in *.
  rewrite IH by (intros; apply Hpos; by right).
  rewrite (proj2 (Z.leb_le 0 (fc_fd en))) by (apply Hpos; by left).
  destruct (law_close k (fc_fd en)) as (->&_). case_decide as Hin.
  - by rewrite decide_True by by right.
  - destruct (decide (x = fc_fd en)) as [->|Hx].
    + rewrite lookup_delete_eq, decide_True; [done|by left].
    + rewrite lookup_delete_ne, decide_False; [done| |done]. by intros [?|?]%elem_of_cons.
Qed.

Lemma local_cleanup_spec (k : K) p priv :
  local_object k p priv →
  ∃ k' p', local_storage_cleanup k p = (error_code XDEVICE_OK, k', p') ∧ private_of p' = None ∧
    ∀ x, pv_fds (view k') !! x =
      if decide (x ∈ (fd_keys (lp_fd_cache priv)).*2) then None else pv_fds (view k) !! x.
Proof.
  intros Hob. destruct (local_object_iface _ _ _ Hob) as (i&->&Hi&Hinv).
  unfold local_storage_cleanup. cbn [private_of mbind option_bind]. rewrite Hi.
  do 2 eexists. split; [done|]. split; [done|]. intros x. apply close_all_fds.
  intros fd Hfd. by apply (li_open _ _ Hinv) in Hfd as [? _].
Qed.

(** ** Safety *)

(** C10: from a successful initialisation on, every sequence of interface calls with
    admissible arguments returns, whatever the operating system answers, with no access
    outside an array. Afterwards the cache has at most 100 descriptors, all distinct,
    open and for one direction only, and none that was open before the backend was
    initialised; these are as they were. Cleanup then closes exactly the cached
    descriptors and detaches the object. *)
Theorem local_calls_safe e (k : K) p config k1 p1 ops :
  local_storage_init e k p config = Some (error_code XDEVICE_OK, k1, p1) →
  Forall (local_op_ok (lp_base_path (local_initial_private config))) ops →
  ∃ rets k2 p2 priv, local_run k1 p1 ops = Some (rets, k2, p2) ∧ private_of p2 = Some priv ∧
    let fds := (fd_keys (lp_fd_cache priv)).*2 in
    NoDup fds ∧ (length fds <= 100)%nat ∧
    (∀ fd, fd ∈ fds → ∃ o, pv_fds (view k2) !! fd = Some o ∧ of_read o = negb (of_write o)) ∧
    (∀ fd o, pv_fds (view k) !! fd = Some o → pv_fds (view k2) !! fd = Some o ∧ fd ∉ fds) ∧
    ∃ k3 p3, local_storage_cleanup k2 p2 = (error_code XDEVICE_OK, k3, p3) ∧ private_of p3 = None ∧
      ∀ fd, pv_fds (view k3) !! fd = if decide (fd ∈ fds) then None else pv_fds (view k2) !! fd.
Proof.
  intros Hinit Hops. destruct (local_init_object _ _ _ _ _ _ Hinit) as (priv&Hob&->&Hu).
  destruct (local_run_spec _ _ _ ops Hob Hops) as (rets&k2&p2&priv&->&Hob2&Hg).
  pose proof Hob2 as [Hp Hinv].
  exists rets, k2, p2, priv. split; [done|]. split; [done|]. cbn zeta. split_and!.
  - apply Hinv.
  - unfold fd_keys. rewrite !length_fmap. pose proof (li_size _ _ Hinv). pose proof (li_max _ _ Hinv).
    rewrite (lg_max _ _ _ _ Hg) in *. cbn in *. lia.
  - intros fd Hfd. by apply (li_open _ _ Hinv).
  - intros fd o Hfd. assert (Hfd1 : pv_fds (view k1) !! fd = Some o) by (destruct Hu as (->&_); done).
    split; [by apply (lg_fds _ _ _ _ Hg)|]. intros Hin. apply (lg_new _ _ _ _ Hg fd o Hfd1) in Hin.
    by apply not_elem_of_nil in Hin.
  - by apply local_cleanup_spec.
Qed.

(** ** One direction per path *)

(** With a descriptor for writing in the cache every read fails, and the other way
    round. *)
Lemma cached_wrong_mode e (k : K) p priv path fd o off :
  local_object k p priv → cached priv (build_file_path (lp_base_path priv) path) = Some fd →
  pv_fds (view k) !! fd = Some o → u64 off →
  (of_read o = false → ∀ n buf, 0 < n <= blen buf → n < 2 ^ 63 →
    ∃ k' p', local_storage_read_sync e k p (Some path) off (Some buf) n =
      Some (error_code XDEVICE_ERROR_IO, k', p', Some buf)) ∧
  (of_write o = false → ∀ d, local_path_ok (build_file_path (lp_base_path priv) path) →
    0 < blen d < 2 ^ 63 →
    ∃ k' p', local_storage_write_sync e k p (Some path) off (Some d) (blen d) =
      Some (error_code XDEVICE_ERROR_IO, k', p') ∧ data_kept (view k) (view k')).
Proof.
  intros Hob Hc Ho Hoff. destruct (local_object_iface _ _ _ Hob) as (i&->&Hi&Hinv).
  assert (Htg : ∀ v' priv' o' start,
    local_target (view k) priv (build_file_path (lp_base_path priv) path) v' priv' o' start → o' = o).
  { intros v' priv' o' start [(fd'&?&?&_)|(?&_)]; congruence. }
  split; intros Hmode.
  - intros n buf Hn Hn'.
    destruct (local_read_spec e k i priv path off n buf Hi Hinv Hoff Hn Hn')
      as (ret&k'&priv'&buf'&->&_&_&_&_&Hout).
    destruct Hout as [|? ? o' start d Ht Hor _ _]; [by eauto|]. apply Htg in Ht. congruence.
  - intros d Hp Hd. destruct (local_write_spec e k i priv path off d Hi Hinv Hp Hoff Hd)
      as (ret&k'&priv'&->&_&_&_&Hout).
    destruct Hout as [|? o' start n Ht How _ _|? o' start Ht How _ _]; [by eauto|..];
      apply Htg in Ht; congruence.
Qed.

(** After a transfer through a cached descriptor, or one that could be cached, the
    descriptor is cached. *)
Lemma target_cached v priv path v' priv' o start :
  local_target v priv path v' priv' o start → local_grows v priv v' priv' →
  (cached priv path ≠ None ∨ lp_fd_cache_size priv < lp_max_open_files priv) →
  (length (chars path) < 511)%nat →
  ∃ fd, cached priv' path = Some fd ∧ pv_fds v' !! fd = Some o.
Proof.
  intros [(fd&Hc&Ho&_)|(Hc&_&_&fd&_&Ho&Hin&_)] Hg Hroom Hlen; exists fd.
  - split; [by apply (lg_cached _ _ _ _ Hg)|by apply (lg_fds _ _ _ _ Hg)].
  - destruct Hroom as [?|Hroom]; [done|]. auto.
Qed.

Lemma cached_mode v priv path fd o :
  local_inv v priv → cached priv path = Some fd → pv_fds v !! fd = Some o →
  of_read o = negb (of_write o).
Proof.
  intros Hinv Hc Ho. apply first_fd_in, (li_open _ _ Hinv) in Hc as (_&o'&Ho'&?). congruence.
Qed.

(** A successful write leaves a descriptor that cannot be read in the cache. *)
Lemma write_caches v priv path off d e v' priv' :
  local_write_outcome v priv path off d e v' (error_code XDEVICE_OK) priv' →
  local_inv v' priv' → local_grows v priv v' priv' →
  (cached priv path ≠ None ∨ lp_fd_cache_size priv < lp_max_open_files priv) →
  (length (chars path) < 511)%nat →
  ∃ fd o, cached priv' path = Some fd ∧ pv_fds v' !! fd = Some o ∧ of_read o = false.
Proof.
  intros Hout Hinv' Hg Hroom Hlen. inversion Hout as [| |? o start Htg How _ _ Heq]; subst.
  destruct (target_cached _ _ _ _ _ _ _ Htg Hg Hroom Hlen) as (fd&Hc&Ho).
  exists fd, o. split_and!; [done|done|]. by rewrite (cached_mode _ _ _ _ _ Hinv' Hc Ho), How.
Qed.

(** A cached descriptor stays in the cache. *)
Lemma cached_after_run (k : K) p priv path fd o ops :
  local_object k p priv → cached priv path = Some fd → pv_fds (view k) !! fd = Some o →
  Forall (local_op_ok (lp_base_path priv)) ops →
  ∃ rets k2 p2 priv2, local_run k p ops = Some (rets, k2, p2) ∧ local_object k2 p2 priv2 ∧
    lp_base_path priv2 = lp_base_path priv ∧ cached priv2 path = Some fd ∧
    pv_fds (view k2) !! fd = Some o.
Proof.
  intros Hob Hc Ho Hops.
  destruct (local_run_spec k p priv ops Hob Hops) as (rets&k2&p2&priv2&->&Hob2&Hg).
  exists rets, k2, p2, priv2. split; [done|]. split; [done|]. split_and!.
  - apply (lg_base _ _ _ _ Hg).
  - by apply (lg_cached _ _ _ _ Hg).
  - by apply (lg_fds _ _ _ _ Hg).
Qed.

(** C19: one direction per path. The cache is searched by path alone, so the descriptor
    that the first transfer opened serves all later ones: after a successful write, and
    any calls that follow, every read of that path fails with an I/O error; after a
    successful read, every write of it fails and changes no file. (The premise is that
    the cache had room for the path.) *)
Theorem local_one_way e (k : K) p priv path off :
  let full_path := build_file_path (lp_base_path priv) path in
  local_object k p priv → local_path_ok full_path → u64 off →
  cached priv full_path ≠ None ∨ lp_fd_cache_size priv < lp_max_open_files priv →
  (∀ d k1 p1 ops, 0 < blen d < 2 ^ 63 →
     local_storage_write_sync e k p (Some path) off (Some d) (blen d) =
       Some (error_code XDEVICE_OK, k1, p1) →
     Forall (local_op_ok (lp_base_path priv)) ops →
     ∃ rets k2 p2, local_run k1 p1 ops = Some (rets, k2, p2) ∧
       ∀ e' off' n buf, u64 off' → 0 < n <= blen buf → n < 2 ^ 63 →
       ∃ k3 p3, local_storage_read_sync e' k2 p2 (Some path) off' (Some buf) n =
         Some (error_code XDEVICE_ERROR_IO, k3, p3, Some buf)) ∧
  (∀ n buf k1 p1 buf1 ops, 0 < n <= blen buf → n < 2 ^ 63 →
     local_storage_read_sync e k p (Some path) off (Some buf) n =
       Some (error_code XDEVICE_OK, k1, p1, buf1) →
     Forall (local_op_ok (lp_base_path priv)) ops →
     ∃ rets k2 p2, local_run k1 p1 ops = Some (rets, k2, p2) ∧
       ∀ e' off' d, u64 off' → 0 < blen d < 2 ^ 63 →
       ∃ k3 p3, local_storage_write_sync e' k2 p2 (Some path) off' (Some d) (blen d) =
         Some (error_code XDEVICE_ERROR_IO, k3, p3) ∧ data_kept (view k2) (view k3)).
Proof.
  intros fp Hob Hp Hoff Hroom. destruct (local_object_iface _ _ _ Hob) as (i&->&Hi&Hinv).
  pose proof Hp as (_&Hlen&_). split.
  - intros d k1 p1 ops Hd Hw Hops.
    destruct (local_write_spec e k i priv path off d Hi Hinv Hp Hoff Hd)
      as (ret&k'&priv'&Hw'&Hinv'&Hg&_&Hout). rewrite Hw in Hw'. injection Hw' as <- <- ->.
    inversion Hout as [| |? o start Htg How _ _ Heq]; subst.
    destruct (target_cached _ _ _ _ _ _ _ Htg Hg Hroom Hlen) as (fd&Hc&Ho).
    destruct (cached_after_run k1 (Some (i <| if_private := Some priv' |>)) priv' fp fd o ops)
      as (rets&k2&p2&priv2&Hrun&Hob2&Hb&Hc2&Ho2); [done|done|done|by rewrite (lg_base _ _ _ _ Hg)|].
    exists rets, k2, p2. split; [done|]. intros e' off' n buf Hoff' Hn Hn'.
    pose proof (lg_base _ _ _ _ Hg) as Hb1. unfold fp in Hc2. rewrite <- Hb1, <- Hb in Hc2.
    apply (cached_wrong_mode e' k2 p2 priv2 path fd o off' Hob2 Hc2 Ho2 Hoff'); [|done|done].
    by rewrite (cached_mode _ _ _ _ _ Hinv' Hc Ho), How.
  - intros n buf k1 p1 buf1 ops Hn Hn' Hr Hops.
    destruct (local_read_spec e k i priv path off n buf Hi Hinv Hoff Hn Hn')
      as (ret&k'&priv'&buf'&Hr'&Hinv'&Hg&_&_&Hout). rewrite Hr in Hr'. injection Hr' as <- <- -> ->.
    inversion Hout as [|? ? o start d Htg Hor _ _]; subst.
    destruct (target_cached _ _ _ _ _ _ _ Htg Hg Hroom Hlen) as (fd&Hc&Ho).
    destruct (cached_after_run k1 (Some (i <| if_private := Some priv' |>)) priv' fp fd o ops)
      as (rets&k2&p2&priv2&Hrun&Hob2&Hb&Hc2&Ho2); [done|done|done|by rewrite (lg_base _ _ _ _ Hg)|].
    exists rets, k2, p2. split; [done|]. intros e' off' d' Hoff' Hd'.
    pose proof (lg_base _ _ _ _ Hg) as Hb1. unfold fp in Hc2, Hp. rewrite <- Hb1, <- Hb in Hc2, Hp.
    apply (cached_wrong_mode e' k2 p2 priv2 path fd o off' Hob2 Hc2 Ho2 Hoff'); [|done|done].
    pose proof (cached_mode _ _ _ _ _ Hinv' Hc Ho) as Hm. rewrite Hor in Hm. by destruct (of_write o).
Qed.

(** ** What a transfer does *)

Lemma local_write_call e (k : K) p priv path off d :
  local_object k p priv → local_path_ok (build_file_path (lp_base_path priv) path) → u64 off →
  0 < blen d < 2 ^ 63 →
  ∃ ret k' p' priv',
    local_storage_write_sync e k p (Some path) off (Some d) (blen d) = Some (ret, k', p') ∧
    local_object k' p' priv' ∧ names_kept (view k) (view k') ∧
    local_write_outcome (view k) priv (build_file_path (lp_base_path priv) path) off d e
      (view k') ret priv'.
Proof.
  intros Hob Hp Hoff Hd. destruct (local_object_iface _ _ _ Hob) as (i&->&Hi&Hinv).
  destruct (local_write_spec e k i priv path off d Hi Hinv Hp Hoff Hd)
    as (ret&k'&priv'&Hw&?&_&?&?). do 4 eexists. by split_and!.
Qed.

(** C32: every outcome of a write. It returns, keeps the backend well formed and keeps
    every path that led to a file. It succeeds having written all the data to its
    target at the position asked for, and is counted; or it reports an I/O error having
    changed nothing; or it reports an I/O error after a proper prefix of the data has
    been written. No other file changes. *)
Theorem local_write_outcomes e (k : K) p priv path off d :
  local_object k p priv → local_path_ok (build_file_path (lp_base_path priv) path) → u64 off →
  0 < blen d < 2 ^ 63 →
  ∃ ret k' p' priv',
    local_storage_write_sync e k p (Some path) off (Some d) (blen d) = Some (ret, k', p') ∧
    local_object k' p' priv' ∧ names_kept (view k) (view k') ∧
    local_write_outcome (view k) priv (build_file_path (lp_base_path priv) path) off d e
      (view k') ret priv'.
Proof. apply local_write_call. Qed.

(** Every outcome of a read. No file changes. The buffer receives bytes of the
    target from the position asked for: all of them with [OK], fewer with [NOT_FOUND];
    or the call reports an I/O error and the buffer is as it was. Only a successful read
    is counted. *)
Theorem local_read_outcomes e (k : K) p priv path off n buf :
  local_object k p priv → u64 off → 0 < n <= blen buf → n < 2 ^ 63 →
  ∃ ret k' p' priv' buf',
    local_storage_read_sync e k p (Some path) off (Some buf) n = Some (ret, k', p', Some buf') ∧
    local_object k' p' priv' ∧ names_kept (view k) (view k') ∧ data_kept (view k) (view k') ∧
    local_read_outcome (view k) priv (build_file_path (lp_base_path priv) path) off n buf e
      (view k') ret priv' buf'.
Proof.
  intros Hob Hoff Hn Hn'. destruct (local_object_iface _ _ _ Hob) as (i&->&Hi&Hinv).
  destruct (local_read_spec e k i priv path off n buf Hi Hinv Hoff Hn Hn')
    as (ret&k'&priv'&buf'&Hr&?&_&?&?&?). do 5 eexists. by split_and!.
Qed.

(** A write through a cached descriptor that succeeds. *)
Lemma cached_write_ok e (k : K) p priv path off d fd o k' p' :
  local_object k p priv → local_path_ok (build_file_path (lp_base_path priv) path) → u64 off →
  0 < blen d < 2 ^ 63 → cached priv (build_file_path (lp_base_path priv) path) = Some fd →
  pv_fds (view k) !! fd = Some o →
  local_storage_write_sync e k p (Some path) off (Some d) (blen d) =
    Some (error_code XDEVICE_OK, k', p') →
  names_kept (view k) (view k') ∧
  data_set (of_ino o) (spec_write (pv_data (view k) (of_ino o)) (transfer_pos off (pv_pos (view k) fd)) d)
    (view k) (view k').
Proof.
  intros Hob Hp Hoff Hd Hc Ho Hw.
  destruct (local_write_call e k p priv path off d Hob Hp Hoff Hd)
    as (ret&k1&p1&priv1&Hw1&_&Hn&Hout). rewrite Hw in Hw1. injection Hw1 as <- <- <-.
  inversion Hout as [| |? o' start Htg _ Hset _ Heq]; subst. split; [done|].
  destruct Htg as [(fd'&Hc'&Ho'&->)|(Hc'&_)]; [|congruence].
  assert (fd' = fd) as -> by congruence. assert (o' = o) as -> by congruence. done.
Qed.

(** The largest offset. As an [off_t] it is -1, which is also what a failed [lseek]
    returns: a write at offset [UINT64_MAX] goes to wherever the cached descriptor stands. *)
Theorem local_largest_offset e (k : K) p priv path d fd o k' p' :
  local_object k p priv → local_path_ok (build_file_path (lp_base_path priv) path) →
  0 < blen d < 2 ^ 63 → cached priv (build_file_path (lp_base_path priv) path) = Some fd →
  pv_fds (view k) !! fd = Some o →
  local_storage_write_sync e k p (Some path) UINT64_MAX (Some d) (blen d) =
    Some (error_code XDEVICE_OK, k', p') →
  pv_data (view k') (of_ino o) = spec_write (pv_data (view k) (of_ino o)) (pv_pos (view k) fd) d.
Proof.
  intros Hob Hp Hd Hc Ho Hw.
  destruct (cached_write_ok e k p priv path UINT64_MAX d fd o k' p') as [_ [Hset _]]; try done.
Qed.

(** Deletion does not reach the cache. After a file with a cached descriptor has been
    deleted and created again, all with success, a successful write to its path leaves
    the new file with its initial zeros and puts the data into the deleted one. *)
Theorem local_delete_keeps_target e e' (k : K) p priv path size off d fd o k1 k2 k3 p3 :
  local_object k p priv → local_path_ok (build_file_path (lp_base_path priv) path) →
  0 <= size < 2 ^ 63 → 0 <= off < UINT64_MAX → 0 < blen d < 2 ^ 63 →
  cached priv (build_file_path (lp_base_path priv) path) = Some fd →
  pv_fds (view k) !! fd = Some o →
  local_storage_delete_file k p (Some path) = (error_code XDEVICE_OK, k1) →
  local_storage_create_file e k1 p (Some path) size = Some (error_code XDEVICE_OK, k2) →
  local_storage_write_sync e' k2 p (Some path) off (Some d) (blen d) =
    Some (error_code XDEVICE_OK, k3, p3) →
  ∃ i, pv_name (view k3) (build_file_path (lp_base_path priv) path) = Some i ∧ i ≠ of_ino o ∧
    pv_data (view k3) i = zeros size ∧
    pv_data (view k3) (of_ino o) = spec_write (pv_data (view k) (of_ino o)) off d.
Proof.
  intros Hob Hp Hs Hoff Hd Hc Ho Hdel Hcr Hw. unfold UINT64_MAX in Hoff.
  destruct (local_object_iface _ _ _ Hob) as (i&Hpi&Hi&Hinv). subst p.
  destruct (local_delete_spec k i priv path Hi) as (ret&k1'&Hdel'&Hf1&Hd1&_).
  rewrite Hdel in Hdel'. injection Hdel' as <- <-.
  destruct (local_create_spec e k1 i priv path size Hi Hp Hs) as (ret&k2'&Hcr'&Hf2&Hd2&Hout).
  rewrite Hcr in Hcr'. injection Hcr' as <- <-. inversion Hout as [| |j Hdead Hj Hz Heq]; subst.
  destruct (local_object_kept k k2 _ _ Hob) as [Hob2 _]; [congruence|].
  assert (Ho1 : pv_fds (view k1) !! fd = Some o) by by rewrite Hf1.
  assert (Ho2 : pv_fds (view k2) !! fd = Some o) by by rewrite Hf2.
  destruct (cached_write_ok e' k2 _ priv path off d fd o k3 p3 Hob2 Hp) as [Hn [Hset Hothers]];
    [unfold u64; lia|done..|].
  assert (Hne : j ≠ of_ino o) by (intros ->; apply Hdead; by apply live_fd with fd).
  exists j. split_and!; [by apply Hn|done|by rewrite Hothers|].
  rewrite Hset, (Hd2 fd o Ho1), (Hd1 fd o Ho). unfold transfer_pos. by rewrite decide_False by lia.
Qed.

(** ** Lost descriptors *)

(** A full cache loses descriptors. A read that opens a file when the cache is full
    leaves a descriptor open that no later call, cleanup included, closes. *)
Theorem local_descriptor_lost e (k : K) p priv path off n buf ret k1 p1 buf1 :
  local_object k p priv → u64 off → 0 < n <= blen buf → n < 2 ^ 63 →
  cached priv (build_file_path (lp_base_path priv) path) = None →
  lp_max_open_files priv <= lp_fd_cache_size priv →
  local_storage_read_sync e k p (Some path) off (Some buf) n = Some (ret, k1, p1, buf1) →
  ret ≠ error_code XDEVICE_ERROR_IO →
  ∃ fd, pv_fds (view k) !! fd = None ∧
    ∀ ops, Forall (local_op_ok (lp_base_path priv)) ops →
    ∃ rets k2 p2 k3 p3 o, local_run k1 p1 ops = Some (rets, k2, p2) ∧
      local_storage_cleanup k2 p2 = (error_code XDEVICE_OK, k3, p3) ∧ private_of p3 = None ∧
      pv_fds (view k3) !! fd = Some o.
Proof.
  intros Hob Hoff Hn Hn' Hc Hfull Hr Hret.
  destruct (local_object_iface _ _ _ Hob) as (i&->&Hi&Hinv).
  destruct (local_read_spec e k i priv path off n buf Hi Hinv Hoff Hn Hn')
    as (ret'&k1'&priv1&buf1'&Hr'&Hinv1&Hg1&_&_&Hout). rewrite Hr in Hr'. injection Hr' as <- <- -> ->.
  destruct Hout as [|? ? o start d Htg _ _ _]; [done|].
  destruct Htg as [(?&?&_)|(_&_&_&fd&Hfree&Ho&_&Hnot)]; [congruence|]. specialize (Hnot Hfull).
  exists fd. split; [done|]. intros ops Hops.
  destruct (local_run_spec k1 (Some (i <| if_private := Some priv' |>)) priv' ops)
    as (rets&k2&p2&priv2&Hrun&Hob2&Hg2); [done|by rewrite (lg_base _ _ _ _ Hg1)|].
  destruct (local_cleanup_spec k2 p2 priv2 Hob2) as (k3&p3&Hcl&Hp3&Hf3).
  exists rets, k2, p2, k3, p3, o. split_and!; [done|done|done|]. rewrite Hf3, decide_False.
  - by apply (lg_fds _ _ _ _ Hg2).
  - intros Hin. by apply (lg_new _ _ _ _ Hg2 fd o) in Hin.
Qed.

End theorems.

(** ** Files in the root directory *)

Lemma last_index_not_in c s : c ∉ s → last_index c s = None.
Proof.
  induction s as [|x s IH]; intros Hc; cbn; [done|].
  apply not_elem_of_cons in Hc as [Hx Hc]. by rewrite IH, decide_False.
Qed.

(** C40: a file in the root directory. Writing or creating ["/name"] strips the name and
    makes the directories of the empty path, whose last character is looked up in front
    of the array: both calls are undefined. *)
Theorem local_root_file_undefined {K : Type} {HP : Posix K} e (k : K) p priv name off d size :
  private_of p = Some priv → c_string name → SLASH ∉ chars name →
  (length (chars name) < 510)%nat → 0 < blen d →
  local_storage_write_sync e k p (Some ("/" +:+ name)) off (Some d) (blen d) = None ∧
  local_storage_create_file e k p (Some ("/" +:+ name)) size = None.
Proof.
  intros Hp Hs Hslash Hlen Hd. unfold local_storage_write_sync, local_storage_create_file. rewrite Hp.
  rewrite (proj2 (Z.eqb_neq (blen d) 0)) by lia.
  assert (Hch : chars ("/" +:+ name) = SLASH :: chars name) by by rewrite chars_append.
  assert (Hfp : build_file_path (lp_base_path priv) ("/" +:+ name) = "/" +:+ name).
  { unfold build_file_path. rewrite Hch. cbn [head]. rewrite decide_True by done.
    apply str_take_short. rewrite Hch. cbn. lia. }
  rewrite Hfp. assert (Hcp : create_parent e k ("/" +:+ name) = None).
  { unfold create_parent. rewrite until_nul_strncpy; [| |rewrite Hch; cbn; lia]; cycle 1.
    { unfold c_string. rewrite Hch. by intros [?|?]%elem_of_cons. }
    cbn [mbind option_bind]. rewrite Hch. cbn [last_index]. by rewrite last_index_not_in. }
  by rewrite Hcp.
Qed.

(** ** Witnesses *)

(** One byte written to the file [a]. *)
Definition w_write : list local_op := [LWrite w_env "a" 0 [Byte.x01]].

Lemma local_calls_safe_witness : ∃ rets k2 p2 priv,
  local_run empty_kernel (Some w_iface) (w_write ++ [LDelete "a"; LRead w_env "a" 0 1 [Byte.x00]]) =
    Some (rets, k2, p2) ∧ private_of p2 = Some priv ∧ NoDup (fd_keys (lp_fd_cache priv)).*2.
Proof.
  destruct (local_calls_safe w_env empty_kernel (Some (w_iface <| if_private := None |>)) None
    empty_kernel (Some w_iface) (w_write ++ [LDelete "a"; LRead w_env "a" 0 1 [Byte.x00]]))
    as (rets&k2&p2&priv&Hr&Hp&Hn&_); [by vm_compute| |by exists rets, k2, p2, priv].
  apply (bool_decide_unpack _). by vm_compute.
Defined.

Lemma local_one_way_witness : ∃ rets k2 p2,
  local_run (w_run w_write).1 (Some (w_run w_write).2) [LDelete "a"] = Some (rets, k2, p2) ∧
  ∃ k3 p3, local_storage_read_sync w_env k2 p2 (Some "a") 0 (Some [Byte.x00]) 1 =
    Some (error_code XDEVICE_ERROR_IO, k3, p3, Some [Byte.x00]).
Proof.
  destruct (local_one_way w_env empty_kernel (Some w_iface) w_priv "a" 0 w_object) as [Hw _];
    [by apply w_path_ok; vm_compute|done|right; by vm_compute|].
  destruct (Hw [Byte.x01] (w_run w_write).1 (Some (w_run w_write).2) [LDelete "a"])
    as (rets&k2&p2&Hr&Hfail); [done|by vm_compute|apply (bool_decide_unpack _); by vm_compute|].
  exists rets, k2, p2. split; [exact Hr|]. by apply Hfail.
Defined.

Lemma local_write_outcomes_witness : ∃ ret k' p' priv',
  local_storage_write_sync w_env empty_kernel (Some w_iface) (Some "a") 0 (Some [Byte.x01]) 1 =
    Some (ret, k', p') ∧ local_object k' p' priv'.
Proof.
  destruct (local_write_outcomes w_env empty_kernel (Some w_iface) w_priv "a" 0 [Byte.x01] w_object)
    as (ret&k'&p'&priv'&Hw&Hob&_); [by apply w_path_ok; vm_compute|done|done|].
  by exists ret, k', p', priv'.
Defined.

Lemma local_read_outcomes_witness : ∃ ret k' p' buf',
  local_storage_read_sync w_env empty_kernel (Some w_iface) (Some "a") 0 (Some [Byte.x01]) 1 =
    Some (ret, k', p', Some buf') ∧ data_kept (view empty_kernel) (view k').
Proof.
  destruct (local_read_outcomes w_env empty_kernel (Some w_iface) w_priv "a" 0 1 [Byte.x01] w_object)
    as (ret&k'&p'&priv'&buf'&Hw&_&_&Hd&_); [done|done|done|].
  by exists ret, k', p', buf'.
Defined.

(** The second byte goes behind the first. *)
Lemma local_largest_offset_witness :
  pv_data (view (w_run (w_write ++ [LWrite w_env "a" UINT64_MAX [Byte.x02]])).1) 3%positive =
  [Byte.x01; Byte.x02].
Proof.
  rewrite (local_largest_offset w_env (w_run w_write).1 (Some (w_run w_write).2) (w_private w_write)
    "a" [Byte.x02] 3 (mk_open_file 3 false true) _
    (Some (w_run (w_write ++ [LWrite w_env "a" UINT64_MAX [Byte.x02]])).2)
    (w_run_object w_write ltac:(by vm_compute)));
    [by vm_compute|by apply w_path_ok; vm_compute|done|by vm_compute|by vm_compute|by vm_compute].
Defined.

(** Deleting, creating again and writing: the new file stays as it was created. *)
Definition w_again : list local_op := w_write ++ [LDelete "a"; LCreate w_env "a" 2].

Lemma local_delete_keeps_target_witness : ∃ i,
  pv_name (view (w_run (w_again ++ w_write)).1) "/tmp/xdevice/a" = Some i ∧ i ≠ 3%positive ∧
  pv_data (view (w_run (w_again ++ w_write)).1) i = zeros 2.
Proof.
  destruct (local_delete_keeps_target w_env w_env (w_run w_write).1 (Some (w_run w_write).2)
    (w_private w_write) "a" 2 0 [Byte.x01] 3 (mk_open_file 3 false true)
    (w_run (w_write ++ [LDelete "a"])).1 (w_run w_again).1 (w_run (w_again ++ w_write)).1
    (Some (w_run (w_again ++ w_write)).2) (w_run_object w_write ltac:(by vm_compute)))
    as (i&Hn&Hi&Hz&_);
    [by apply w_path_ok; vm_compute|done|done|done|by vm_compute|by vm_compute|by vm_compute
    |by vm_compute|by vm_compute|].
  exact (ex_intro _ i (conj Hn (conj Hi Hz))).
Defined.

(** A hundred files with names of 1 to 100 letters, and one more. *)
Fixpoint w_name (n : nat) : string := match n with O => "" | S n => "a" +:+ w_name n end.

Definition w_full : list local_op :=
  ((λ n, LWrite w_env (w_name n) 0 [Byte.x01]) <$> seq 1 100) ++ [LCreate w_env "b" 5].

Definition w_lost : Z * kernel * iptr local_storage_private_t * option block :=
  default (0, empty_kernel, None, None)
    (local_storage_read_sync w_env (w_run w_full).1 (Some (w_run w_full).2) (Some "b") 0
       (Some [Byte.x01]) 1).

Lemma some_default {A} (d : A) (r : option A) :
  match r with Some _ => true | None => false end = true → r = Some (default d r).
Proof. by destruct r. Qed.

Lemma local_descriptor_lost_witness : ∃ fd, pv_fds (view (w_run w_full).1) !! fd = None ∧
  ∃ k3 o, pv_fds (view (K:=kernel) k3) !! fd = Some o.
Proof.
  assert (Hr : local_storage_read_sync w_env (w_run w_full).1 (Some (w_run w_full).2) (Some "b") 0
    (Some [Byte.x01]) 1 = Some (w_lost.1.1.1, w_lost.1.1.2, w_lost.1.2, w_lost.2)).
  { etransitivity; [apply (some_default (0, empty_kernel, None, None)); vm_compute; reflexivity|].
    fold w_lost. generalize w_lost. intros [[[? ?] ?] ?]. reflexivity. }
  assert (Hret : w_lost.1.1.1 ≠ error_code XDEVICE_ERROR_IO) by (vm_compute; discriminate).
  assert (Hob : local_object (w_run w_full).1 (Some (w_run w_full).2) (w_private w_full))
    by (apply w_run_object; vm_compute; reflexivity).
  assert (Hnone : cached (w_private w_full) (build_file_path (lp_base_path (w_private w_full)) "b") = None)
    by (vm_compute; reflexivity).
  assert (Hfull : lp_max_open_files (w_private w_full) <= lp_fd_cache_size (w_private w_full))
    by (vm_compute; discriminate).
  revert Hr Hret Hob Hnone Hfull. generalize (w_run w_full) (w_private w_full) w_lost.
  intros run priv lost Hr Hret Hob Hnone Hfull.
  destruct (local_descriptor_lost w_env run.1 (Some run.2) priv "b" 0 1 [Byte.x01] lost.1.1.1
    lost.1.1.2 lost.1.2 lost.2 Hob) as (fd&Hfree&Hlost); [done|done|done|exact Hnone|exact Hfull|exact Hr|exact Hret|].
  destruct (Hlost []) as (rets&k2&p2&k3&p3&o&_&_&_&Ho); [done|].
  exact (ex_intro _ fd (conj Hfree (ex_intro _ k3 (ex_intro _ o Ho)))).
Defined.

Lemma local_root_file_undefined_witness :
  local_storage_create_file w_env empty_kernel (Some w_iface) (Some "/x") 0 = None.
Proof.
  refine (proj2 (local_root_file_undefined w_env empty_kernel (Some w_iface) w_priv "x" 0 [Byte.x01] 0
    eq_refl _ _ _ _)); [|  |by vm_compute; lia|done]; apply (bool_decide_unpack _); by vm_compute.
Defined.
