(* ===== verification/LocalThreads.v ===== *)
(** * LocalThreads: concurrent transfers of the local file backend ([src/storage/local_storage.c])

    A transfer takes [fd_cache_lock] only to get its descriptor, which is shared with
    every other transfer of the same path, and gives the lock back before it seeks and
    before it reads or writes at the position it has set. Here a transfer is five steps,
    none of which another thread can see half done (the directories a write makes are
    one of them), and the transfers of several threads are interleaved in any way.
    [LocalStorage] has the same transfers as one step. *)

From Stdlib Require Import String.
From stdpp Require Import base numbers list strings gmap.
From S2P Require Import XDevice Prelude Libc StorageInterface StorageSpec Posix LocalStorage LocalInv LocalProps.
Local Open Scope Z_scope.

(** ** A transfer in steps *)

(** The transfers with arguments that are not NULL. *)
Inductive transfer : Set :=
| TRead (path : string) (offset size : Z) (buffer : block)
| TWrite (path : string) (offset size : Z) (data : block).

Definition tr_path (t : transfer) : string := match t with TRead p _ _ _ | TWrite p _ _ _ => p end.
Definition tr_offset (t : transfer) : Z := match t with TRead _ o _ _ | TWrite _ o _ _ => o end.
Definition tr_size (t : transfer) : Z := match t with TRead _ _ n _ | TWrite _ _ n _ => n end.
Definition tr_buffer (t : transfer) : option block := match t with TRead _ _ _ b => Some b | TWrite _ _ _ _ => None end.
Definition tr_flags (t : transfer) : open_flags := match t with TRead _ _ _ _ => O_RDONLY | TWrite _ _ _ _ => O_WRONLY_CREAT end.

(** What a call does next. *)
Inductive stage : Set :=
| ToDirectories
| ToDescriptor
| ToSeek (fd : Z)
| ToTransfer (fd : Z)
| ToCount (buffer : option block)
| Returned (ret : Z) (buffer : option block).

Section local_threads.
Context {K : Type} {HP : Posix K}.

Definition tr_full_path (priv : local_storage_private_t) (t : transfer) : string :=
  build_file_path (lp_base_path priv) (tr_path t).

(** [read] or [write] at the position of the descriptor, and the check of its result. *)
Definition transfer_bytes (k : K) (fd : Z) (t : transfer) : option (K * stage) :=
  match t with
  | TRead _ _ size buf =>
      let '(r, k) := sys_read k fd size in
      buf ← (match r with Some d => mem_write buf 0 d | None => Some buf end);
      let bytes_read := match r with Some d => blen d | None => -1 end in
      Some (k, if bytes_read =? to_signed size then ToCount (Some buf)
               else Returned (error_code (if bytes_read <? 0 then XDEVICE_ERROR_IO else XDEVICE_ERROR_NOT_FOUND)) (Some buf))
  | TWrite _ _ size data =>
      src ← mem_read data 0 size;
      let '(bytes_written, k) := sys_write k fd src in
      Some (k, if bytes_written =? to_signed size then ToCount None
               else Returned (error_code XDEVICE_ERROR_IO) None)
  end.

Definition transfer_step (e : call_env) (t : transfer) (k : K) (priv : local_storage_private_t) (st : stage)
    : option (K * local_storage_private_t * stage) :=
  match st with
  | ToDirectories =>
      k ← match t with TRead _ _ _ _ => Some k | TWrite _ _ _ _ => create_parent e k (tr_full_path priv t) end;
      Some (k, priv, ToDescriptor)
  | ToDescriptor =>
      '(fd, k, priv) ← get_file_descriptor e k priv (tr_full_path priv t) (tr_flags t);
      Some (k, priv, if fd <? 0 then Returned (error_code XDEVICE_ERROR_IO) (tr_buffer t) else ToSeek fd)
  | ToSeek fd =>
      let '(pos, k) := sys_lseek k fd (to_signed (tr_offset t)) in
      Some (k, priv, if pos =? to_signed (tr_offset t) then ToTransfer fd
                     else Returned (error_code XDEVICE_ERROR_IO) (tr_buffer t))
  | ToTransfer fd => '(k, st) ← transfer_bytes k fd t; Some (k, priv, st)
  | ToCount buf =>
      let lat := latency_ns (clock_start e) (clock_end e) in
      let stats := match t with
                   | TRead _ _ size _ => count_read (lp_stats priv) size lat
                   | TWrite _ _ size _ => count_write (lp_stats priv) size lat
                   end in
      Some (k, priv <| lp_stats := stats |>, Returned (error_code XDEVICE_OK) buf)
  | Returned _ _ => Some (k, priv, st)
  end.

(** [n] steps of one call, without another thread in between. *)
Fixpoint transfer_steps (n : nat) (e : call_env) (t : transfer) (k : K) (priv : local_storage_private_t)
    (st : stage) : option (K * local_storage_private_t * stage) :=
  match n with
  | O => Some (k, priv, st)
  | S n => '(k, priv, st) ← transfer_step e t k priv st; transfer_steps n e t k priv st
  end.

(** The call as [LocalStorage] has it. *)
Definition whole_transfer (e : call_env) (k : K) (p : iptr local_storage_private_t) (t : transfer)
    : option (Z * option block * K * iptr local_storage_private_t) :=
  match t with
  | TRead path off size buf =>
      '(ret, k, p, buf) ← local_storage_read_sync e k p (Some path) off (Some buf) size; Some (ret, buf, k, p)
  | TWrite path off size data =>
      '(ret, k, p) ← local_storage_write_sync e k p (Some path) off (Some data) size; Some (ret, None, k, p)
  end.

(** ** Threads *)

Record lt_state := mk_lt_state {
  lt_kernel : K;
  lt_priv : local_storage_private_t;
  lt_threads : list (call_env * transfer * stage)
}.

(** A step of thread [j]. *)
Definition lt_step (s : lt_state) (j : nat) : option lt_state :=
  match lt_threads s !! j with
  | None => Some s
  | Some (e, t, st) =>
      '(k, priv, st) ← transfer_step e t (lt_kernel s) (lt_priv s) st;
      Some (mk_lt_state k priv (<[j := (e, t, st)]> (lt_threads s)))
  end.

Fixpoint lt_run (s : lt_state) (sched : list nat) : option lt_state :=
  match sched with
  | [] => Some s
  | j :: sched => s ← lt_step s j; lt_run s sched
  end.

Definition lt_start (k : K) (priv : local_storage_private_t) (calls : list (call_env * transfer)) : lt_state :=
  mk_lt_state k priv ((λ c, (c, ToDirectories)) <$> calls).

(** ** The steps make the call *)

Lemma transfer_alone e k i priv t :
  if_private i = Some priv → tr_size t ≠ 0 →
  whole_transfer e k (Some i) t =
    ('(k, priv, st) ← transfer_steps 5 e t k priv ToDirectories;
     match st with Returned ret buf => Some (ret, buf, k, Some (i <| if_private := Some priv |>)) | _ => None end).
Proof.
  intros Hi Hn. destruct t as [path off size buf|path off size data]; cbn in Hn;
    apply Z.eqb_neq in Hn; cbn [whole_transfer transfer_steps transfer_step mbind option_bind tr_flags tr_offset tr_buffer].
  - unfold local_storage_read_sync. cbn [private_of mbind option_bind]. rewrite Hi, Hn.
    change (tr_full_path priv (TRead path off size buf)) with (build_file_path (lp_base_path priv) path).
    destruct (get_file_descriptor e k priv _ _) as [[[fd k1] p1]|]; [|done]. cbn [mbind option_bind].
    destruct (fd <? 0); [done|]. cbn. destruct (sys_lseek k1 fd _) as [pos k2].
    destruct (pos =? _); [|done]. cbn. destruct (sys_read k2 fd size) as [r k3].
    destruct r as [d|]; [destruct (mem_write buf 0 d) as [b|]; [|done]|]; cbn [mbind option_bind].
    + destruct (blen d =? to_signed size); [done|]. cbn. by destruct (blen d <? 0).
    + by destruct (-1 =? to_signed size).
  - unfold local_storage_write_sync. cbn [private_of mbind option_bind]. rewrite Hi, Hn.
    change (tr_full_path priv (TWrite path off size data)) with (build_file_path (lp_base_path priv) path).
    destruct (create_parent e k _) as [k0|]; [|done].
    cbn [mbind option_bind transfer_step tr_full_path tr_path tr_flags].
    destruct (get_file_descriptor e k0 priv _ _) as [[[fd k1] p1]|]; [|done]. cbn [mbind option_bind].
    destruct (fd <? 0); [done|]. cbn. destruct (sys_lseek k1 fd _) as [pos k2].
    destruct (pos =? _); [|done]. cbn. destruct (mem_read data 0 size) as [src|]; [|done]. cbn.
    destruct (sys_write k2 fd src) as [w k3]. by destruct (w =? _).
Qed.

End local_threads.

(** ** Descriptors and positions *)

(** The descriptor a call is about to use. *)
Definition descriptor (st : stage) : option Z :=
  match st with ToSeek fd | ToTransfer fd => Some fd | _ => None end.

Definition transfer_ok (base : string) (t : transfer) : Prop :=
  local_path_ok (build_file_path base (tr_path t)) ∧ 0 <= tr_offset t < 2 ^ 63 ∧ 0 < tr_size t < 2 ^ 63 ∧
  match t with TRead _ _ n buf => n <= blen buf | TWrite _ _ n d => n = blen d end.

(** What a successful [read] or [write] of a transfer has to have done: the bytes at the
    transfer's own offset of its file. *)
Definition transferred (v v' : posix_view) (fd : Z) (t : transfer) (buffer : option block) : Prop :=
  ∃ o, pv_fds v !! fd = Some o ∧
  match t with
  | TRead _ off n buf =>
      let d := take (Z.to_nat n) (drop (Z.to_nat off) (pv_data v (of_ino o))) in
      blen d = n ∧ buffer = Some (d ++ drop (length d) buf) ∧ data_kept v v'
  | TWrite _ off n d => data_set (of_ino o) (spec_write (pv_data v (of_ino o)) off d) v v'
  end.

(** The descriptor of a call is open, in the cache under the call's path or not at all,
    and positioned once the call has set the position. *)
Definition holds (v : posix_view) (priv : local_storage_private_t) (t : transfer) (st : stage) (fd : Z) : Prop :=
  (∃ o, pv_fds v !! fd = Some o) ∧
  (fd ∈ (fd_keys (lp_fd_cache priv)).*2 → cached priv (tr_full_path priv t) = Some fd) ∧
  (st = ToTransfer fd → pv_pos v fd = tr_offset t).

(** What a step of one call does to the others. *)
Record step_effect (t : transfer) (v : posix_view) (priv : local_storage_private_t) (st : stage)
    (v' : posix_view) (priv' : local_storage_private_t) (st' : stage) : Prop := {
  se_inv : local_inv v' priv';
  se_grows : local_grows v priv v' priv';
  se_pos : ∀ x o, pv_fds v !! x = Some o → descriptor st ≠ Some x → pv_pos v' x = pv_pos v x;
  se_holds : ∀ fd, descriptor st' = Some fd → holds v' priv' t st' fd;
  se_own : ∀ fd, descriptor st' = Some fd →
    descriptor st = Some fd ∨ pv_fds v !! fd = None ∨ cached priv (tr_full_path priv t) = Some fd
}.

(** Two paths that fit a slot are the same if they are found in the same slot. *)
Lemma strcmp_eq_inj a p q : c_string p → c_string q → strcmp_eq a p = true → strcmp_eq a q = true → p = q.
Proof.
  intros Hp Hq Ha%bool_decide_eq_true_1 Hb%bool_decide_eq_true_1.
  assert (Hlt : ∀ x y, c_string y → (length (chars x) < length (chars y))%nat →
    take (S (length (chars x))) a = chars x ++ [Byte.x00] → take (S (length (chars y))) a = chars y ++ [Byte.x00] → False).
  { intros x y Hy Hl Hx Hya. apply Hy.
    assert (H0 : a !! length (chars x) = Some Byte.x00).
    { rewrite <- (lookup_take_lt a (S (length (chars x)))) by lia. rewrite Hx. by apply list_lookup_middle. }
    rewrite <- (lookup_take_lt a (S (length (chars y)))) in H0 by lia. rewrite Hya, lookup_app_l in H0 by done.
    by eapply list_elem_of_lookup_2. }
  destruct (lt_eq_lt_dec (length (chars p)) (length (chars q))) as [[Hl|Hl]|Hl].
  - exfalso. by apply (Hlt p q).
  - rewrite Hl, Hb in Ha. apply app_inj_tail in Ha as [Ha _]. rewrite <- (string_of_chars p), <- (string_of_chars q).
    by rewrite Ha.
  - exfalso. by apply (Hlt q p).
Qed.

Lemma first_fd_slot keys path fd :
  first_fd keys path = Some fd → ∃ a, (a, fd) ∈ keys ∧ strcmp_eq a path = true.
Proof.
  induction keys as [|[a x] keys IH]; cbn; [done|]. destruct (strcmp_eq a path) eqn:Ha.
  - intros [= ->]. exists a. split; [left|done].
  - intros (b&Hb&?)%IH. exists b. split; [by right|done].
Qed.

(** A cached descriptor belongs to one path. *)
Lemma cached_inj v priv p q fd :
  local_inv v priv → c_string p → c_string q → cached priv p = Some fd → cached priv q = Some fd → p = q.
Proof.
  intros Hinv Hp Hq (a&Ha&Hpa)%first_fd_slot (b&Hb&Hqb)%first_fd_slot.
  assert (a = b) as ->; [|by apply (strcmp_eq_inj b)].
  apply list_elem_of_lookup in Ha as [i Hi], Hb as [j Hj].
  assert (i = j) as ->; [|congruence].
  apply (NoDup_lookup (fd_keys (lp_fd_cache priv)).*2 i j fd); [apply Hinv|..];
    by rewrite list_lookup_fmap, ?Hi, ?Hj.
Qed.

Section positions.
Context {K : Type} {HP : Posix K} {HL : PosixLaws K}.

(** Opening a descriptor moves no other. *)
Lemma descriptor_pos e (k : K) priv path flags fd k' priv' x o :
  get_file_descriptor e k priv path flags = Some (fd, k', priv') →
  pv_fds (view k) !! x = Some o → pv_pos (view k') x = pv_pos (view k) x.
Proof.
  unfold get_file_descriptor. intros H Hx. destruct (find_fd _ _) as [i|].
  { destruct (lp_fd_cache priv !! i); [|done]. cbn in H. by simplify_eq. }
  destruct (sys_open k path _) as [r k1] eqn:Ho. apply law_open in Ho.
  assert (Hk : k' = k1) by (destruct r; [destruct (_ <? _)|]; cbn in H; by simplify_eq). subst k1.
  destruct r as [y|].
  - destruct Ho as (_&Hfree&_&_&_&Hpos&_). apply Hpos. intros ->. congruence.
  - destruct Ho as (_&->&_). done.
Qed.

(** A step that leaves the cache alone. *)
Lemma effect_same t v priv st v' st' :
  local_inv v priv → pv_fds v' = pv_fds v →
  (∀ x, descriptor st ≠ Some x → pv_pos v' x = pv_pos v x) →
  (∀ fd, descriptor st = Some fd → holds v priv t st fd) →
  (∀ fd, descriptor st' = Some fd → descriptor st = Some fd ∧ pv_pos v' fd = tr_offset t) →
  step_effect t v priv st v' priv st'.
Proof.
  intros Hinv Hf Hpos Hh Hst. split.
  - by apply (local_inv_kept v).
  - by apply local_grows_kept.
  - intros x o _. apply Hpos.
  - intros fd Hfd. destruct (Hst fd Hfd) as [H0 Hp]. destruct (Hh fd H0) as (Ho&Hc&_).
    split_and!; [by rewrite Hf|done|done].
  - intros fd Hfd. left. by apply Hst.
Qed.

Lemma descriptor_step e (k : K) priv t :
  local_inv (view k) priv → transfer_ok (lp_base_path priv) t →
  ∃ k' priv' st', transfer_step e t k priv ToDescriptor = Some (k', priv', st') ∧
    step_effect t (view k) priv ToDescriptor (view k') priv' st'.
Proof.
  intros Hinv (Hp&_). cbn [transfer_step]. assert (Hmode : fl_read (tr_flags t) = negb (fl_write (tr_flags t))) by by destruct t.
  destruct (get_file_descriptor_spec e k priv (tr_full_path priv t) (tr_flags t) Hinv Hmode) as (fd&k'&priv'&Hg&Hr&_).
  rewrite Hg. cbn [mbind option_bind]. do 3 eexists. split; [reflexivity|].
  destruct Hr as (Hinv'&Hgr&_&_&_&Hcase). split; [done|done| | |].
  - intros x o Hx _. by eapply descriptor_pos.
  - intros x Hx. destruct (fd <? 0) eqn:Hneg; [done|]. cbn in Hx. injection Hx as <-. to_prop.
    destruct Hcase as [(->&_)|(Hpos&o&Ho&_&Hsrc&Hin&Hout)]; [lia|]. split_and!; [by exists o| |done].
    unfold tr_full_path. rewrite (lg_base _ _ _ _ Hgr). fold (tr_full_path priv t). intros Hfd.
    destruct Hsrc as [(Hc&_)|(Hc&_)]; [by apply (lg_cached _ _ _ _ Hgr)|].
    destruct (decide (lp_fd_cache_size priv < lp_max_open_files priv)); [|exfalso; apply Hout; [done|lia|done]].
    apply Hin; [done|]. apply Hp.
  - intros x Hx. destruct (fd <? 0) eqn:Hneg; [done|]. cbn in Hx. injection Hx as <-. to_prop.
    destruct Hcase as [(->&_)|(_&o&_&_&Hsrc&_)]; [lia|]. right.
    destruct Hsrc as [(Hc&_)|(_&(flags'&_&_&_&_&_&Hfree&_)&_)]; [by right|by left].
Qed.

Lemma seek_step e (k : K) priv t fd :
  local_inv (view k) priv → transfer_ok (lp_base_path priv) t → holds (view k) priv t (ToSeek fd) fd →
  ∃ k' priv' st', transfer_step e t k priv (ToSeek fd) = Some (k', priv', st') ∧
    step_effect t (view k) priv (ToSeek fd) (view k') priv' st'.
Proof.
  intros Hinv (_&Hoff&_) Hh. cbn [transfer_step].
  destruct (sys_lseek k fd (to_signed (tr_offset t))) as [r k'] eqn:Hs. rewrite to_signed_small in Hs |- * by lia.
  apply law_lseek in Hs as [(Hf&_&_&Hpos) Hr]. do 3 eexists. split; [reflexivity|].
  apply effect_same; [done|done| | |].
  - intros x Hx. apply Hpos. intros ->. by apply Hx.
  - intros x [= <-]. done.
  - intros x. destruct (r =? tr_offset t) eqn:Heq; [|done]. intros [= <-]. to_prop. split; [done|].
    destruct Hr as [(_&_&?)|[-> _]]; [done|lia].
Qed.

(** The [read] or [write] of a transfer is done at its offset, or reported as failed. *)
Lemma bytes_step e (k : K) priv t fd :
  local_inv (view k) priv → transfer_ok (lp_base_path priv) t → holds (view k) priv t (ToTransfer fd) fd →
  ∃ k' st', transfer_step e t k priv (ToTransfer fd) = Some (k', priv, st') ∧
    pv_fds (view k') = pv_fds (view k) ∧ (∀ x, x ≠ fd → pv_pos (view k') x = pv_pos (view k) x) ∧
    ((∃ buf, st' = ToCount buf ∧ transferred (view k) (view k') fd t buf) ∨
     ∃ ret buf, st' = Returned ret buf ∧ ret ≠ error_code XDEVICE_OK).
Proof.
  intros Hinv (_&Hoff&Hn&Hb) (_&_&Hpos). specialize (Hpos eq_refl). cbn [transfer_step].
  destruct t as [path off n buf|path off n d]; cbn [tr_size tr_offset] in *; unfold transfer_bytes.
  - destruct (sys_read k fd n) as [r k'] eqn:Hr. apply law_read in Hr as [(Hf&_&Hd&Hp) Hr].
    rewrite to_signed_small by lia. destruct r as [d|]; cycle 1.
    { cbn [mbind option_bind]. rewrite (proj2 (Z.eqb_neq (-1) n)) by lia. do 2 eexists. split; [reflexivity|].
      split_and!; [done|done|]. right. by do 2 eexists. }
    destruct Hr as (o&Ho&_&Hle&Heq). pose proof (blen_nonneg d). rewrite mem_write_in by lia.
    cbn [mbind option_bind]. do 2 eexists. split; [reflexivity|]. split_and!; [done|done|].
    destruct (blen d =? n) eqn:Hdn; to_prop; cycle 1.
    { right. do 2 eexists. split; [done|]. by rewrite (proj2 (Z.ltb_ge _ _)) by lia. }
    left. eexists. split; [reflexivity|]. exists o. split; [done|]. cbn zeta.
    rewrite Hpos in Heq. assert (Hl : Z.to_nat n = length d) by (unfold blen in Hdn; lia).
    rewrite Hl, <- Heq. split_and!; [done| |done]. rewrite take_0. done.
  - subst n. rewrite mem_read_all. cbn [mbind option_bind].
    destruct (sys_write k fd d) as [w k'] eqn:Hw. rewrite to_signed_small by lia.
    apply law_write in Hw as [Hle [[Hw0 (Hf&_&_&Hp)]|(Hw0&o&Ho&_&(Hf&_&Hset&Hoth)&Hp)]];
      cbn [mbind option_bind]; do 2 eexists; (split; [reflexivity|]); split_and!; try done.
    + right. rewrite (proj2 (Z.eqb_neq _ _)) by lia. by do 2 eexists.
    + destruct (w =? blen d) eqn:Heq; to_prop; [left|right; by do 2 eexists].
      eexists. split; [reflexivity|]. exists o. split; [done|]. rewrite Hpos in Hset.
      split; [|done]. rewrite Hset, Heq. f_equal. apply take_ge. unfold blen. lia.
Qed.

Lemma transfer_step_spec e (k : K) priv t st :
  local_inv (view k) priv → transfer_ok (lp_base_path priv) t →
  (∀ fd, descriptor st = Some fd → holds (view k) priv t st fd) →
  ∃ k' priv' st', transfer_step e t k priv st = Some (k', priv', st') ∧
    step_effect t (view k) priv st (view k') priv' st'.
Proof.
  intros Hinv Hok Hh. destruct st as [| |fd|fd|buf|ret buf].
  - assert (∃ k1, match t with TRead _ _ _ _ => Some k | TWrite _ _ _ _ => create_parent e k (tr_full_path priv t) end = Some k1 ∧
      unchanged (view k) (view k1)) as (k1&H1&Hf&Hp&_).
    { destruct t; [by exists k|]. apply create_parent_spec, Hok. }
    cbn [transfer_step]. rewrite H1. do 3 eexists. split; [reflexivity|]. apply effect_same; try done. intros. by rewrite Hp.
  - by apply descriptor_step.
  - by apply seek_step; [..|apply Hh].
  - destruct (bytes_step e k priv t fd Hinv Hok (Hh fd eq_refl)) as (k'&st'&->&Hf&Hp&Hst).
    do 3 eexists. split; [reflexivity|]. apply effect_same; [done|done| |done|].
    + intros x Hx. apply Hp. intros ->. by apply Hx.
    + intros x Hx. by destruct Hst as [(?&->&_)|(?&?&->&_)].
  - cbn [transfer_step]. do 3 eexists. split; [reflexivity|].
    destruct (local_same_fds (view k) (view k) priv (match t with
      | TRead _ _ size _ => count_read (lp_stats priv) size (latency_ns (clock_start e) (clock_end e))
      | TWrite _ _ size _ => count_write (lp_stats priv) size (latency_ns (clock_start e) (clock_end e)) end) Hinv eq_refl).
    { pose proof (li_stats _ _ Hinv). destruct t; auto with xdev. }
    split; [done|done|done|done|done].
  - do 3 eexists. split; [reflexivity|]. by apply effect_same.
Qed.

(** ** Several threads *)

Definition thread_path (base : string) (x : call_env * transfer * stage) : string :=
  build_file_path base (tr_path x.1.2).

(** No two threads are about to use the same descriptor, and each of them has its own at
    its own offset. *)
Record positioned (base : string) (s : lt_state) : Prop := {
  po_inv : local_inv (view (lt_kernel s)) (lt_priv s);
  po_base : lp_base_path (lt_priv s) = base;
  po_ok : ∀ j x, lt_threads s !! j = Some x → transfer_ok base x.1.2;
  po_paths : NoDup (thread_path base <$> lt_threads s);
  po_holds : ∀ j x fd, lt_threads s !! j = Some x → descriptor x.2 = Some fd →
    holds (view (lt_kernel s)) (lt_priv s) x.1.2 x.2 fd;
  po_own : ∀ i j x y fd, i ≠ j → lt_threads s !! i = Some x → lt_threads s !! j = Some y →
    descriptor x.2 = Some fd → descriptor y.2 ≠ Some fd
}.

Lemma holds_path v priv base t st fd :
  lp_base_path priv = base → holds v priv t st fd →
  fd ∈ (fd_keys (lp_fd_cache priv)).*2 → cached priv (build_file_path base (tr_path t)) = Some fd.
Proof. intros <- (_&Hc&_). exact Hc. Qed.

Lemma positioned_paths base s i j x y :
  positioned base s → i ≠ j → lt_threads s !! i = Some x → lt_threads s !! j = Some y →
  thread_path base x ≠ thread_path base y.
Proof.
  intros Hs Hij Hi Hj Heq. apply Hij. eapply (NoDup_lookup _ i j _ (po_paths _ _ Hs)).
  - by rewrite list_lookup_fmap, Hi.
  - rewrite list_lookup_fmap, Hj. cbn. by f_equal.
Qed.

(** What another thread holds is not what a step has just taken. *)
Lemma step_apart base s i j e t st y fd v' priv' st' :
  positioned base s → i ≠ j → lt_threads s !! i = Some (e, t, st) → lt_threads s !! j = Some y →
  step_effect t (view (lt_kernel s)) (lt_priv s) st v' priv' st' →
  descriptor st' = Some fd → descriptor y.2 ≠ Some fd.
Proof.
  intros Hs Hij Hi Hj Heff Hfd Hy. pose proof (po_holds _ _ Hs j y fd Hj Hy) as Hh.
  destruct (se_own _ _ _ _ _ _ _ Heff fd Hfd) as [H0|[H0|H0]].
  - by apply (po_own _ _ Hs i j _ y fd Hij Hi Hj).
  - destruct Hh as ((o&Ho)&_). congruence.
  - apply (positioned_paths _ _ _ _ _ _ Hs Hij Hi Hj). unfold thread_path. cbn.
    apply (cached_inj _ _ _ _ fd (po_inv _ _ Hs)).
    + exact (proj1 (proj1 (po_ok _ _ Hs i _ Hi))).
    + exact (proj1 (proj1 (po_ok _ _ Hs j _ Hj))).
    + rewrite <- (po_base _ _ Hs). exact H0.
    + apply (holds_path _ _ _ _ _ _ (po_base _ _ Hs) Hh). by eapply first_fd_in.
Qed.

(** A step of one thread leaves what the others hold. *)
Lemma holds_other t v priv st v' priv' st' t2 st2 fd :
  step_effect t v priv st v' priv' st' → descriptor st ≠ Some fd → descriptor st2 = Some fd →
  holds v priv t2 st2 fd → holds v' priv' t2 st2 fd.
Proof.
  intros [Hinv [Hgf Hgc Hgn Hgb _] Hp _ _] Hne Hst2 ((o&Ho)&Hc&Hpos). split_and!.
  - exists o. auto.
  - intros Hin. unfold tr_full_path. rewrite Hgb. apply Hgc, Hc. by apply (Hgn fd o).
  - intros Heq. rewrite <- Hpos by done. by apply (Hp fd o).
Qed.

Lemma lt_step_positioned base s j :
  positioned base s → ∃ s', lt_step s j = Some s' ∧ positioned base s'.
Proof.
  intros Hs. unfold lt_step. destruct (lt_threads s !! j) as [[[e t] st]|] eqn:Hj; [|by exists s].
  destruct (transfer_step_spec e (lt_kernel s) (lt_priv s) t st) as (k'&priv'&st'&->&Heff).
  - apply Hs.
  - rewrite (po_base _ _ Hs). exact (po_ok _ _ Hs j _ Hj).
  - intros fd. exact (po_holds _ _ Hs j _ fd Hj).
  - cbn [mbind option_bind]. eexists. split; [reflexivity|]. pose proof (lookup_lt_Some _ _ _ Hj) as Hlt.
    split; cbn [lt_kernel lt_priv lt_threads].
    + apply Heff.
    + rewrite (lg_base _ _ _ _ (se_grows _ _ _ _ _ _ _ Heff)). apply Hs.
    + intros i x [(<-&<-&_)|(_&Hi)]%list_lookup_insert_Some; [exact (po_ok _ _ Hs j _ Hj)|exact (po_ok _ _ Hs i _ Hi)].
    + rewrite list_fmap_insert, list_insert_id; [apply Hs|]. by rewrite list_lookup_fmap, Hj.
    + intros i x fd [(<-&<-&_)|(Hij&Hi)]%list_lookup_insert_Some Hfd; [by apply Heff|].
      eapply holds_other; [exact Heff| |done|exact (po_holds _ _ Hs i x fd Hi Hfd)].
      cbn. intros H0. exact (po_own _ _ Hs j i _ x fd Hij Hj Hi H0 Hfd).
    + intros i1 i2 x y fd Hne [(<-&<-&_)|(H1&Hi1)]%list_lookup_insert_Some [(<-&<-&_)|(H2&Hi2)]%list_lookup_insert_Some Hx.
      * done.
      * exact (step_apart _ _ _ _ _ _ _ _ _ _ _ _ Hs H2 Hj Hi2 Heff Hx).
      * intros Hy. exact (step_apart _ _ _ _ _ _ _ _ _ _ _ _ Hs H1 Hj Hi1 Heff Hy Hx).
      * exact (po_own _ _ Hs i1 i2 x y fd Hne Hi1 Hi2 Hx).
Qed.

Lemma lt_run_positioned base s sched :
  positioned base s → ∃ s', lt_run s sched = Some s' ∧ positioned base s'.
Proof.
  revert s. induction sched as [|j sched IH]; intros s Hs; [by exists s|].
  destruct (lt_step_positioned base s j Hs) as (s1&Hs1&H1). cbn [lt_run]. rewrite Hs1. by apply IH.
Qed.

Lemma lt_start_positioned (k : K) priv calls :
  local_inv (view k) priv → Forall (λ c, transfer_ok (lp_base_path priv) c.2) calls →
  NoDup ((λ c, tr_full_path priv c.2) <$> calls) →
  positioned (lp_base_path priv) (lt_start k priv calls).
Proof.
  intros Hinv Hok Hnd. split; [done|done| | | |]; cbn [lt_start lt_kernel lt_priv lt_threads].
  - intros j x ([e t]&->&Hj)%list_lookup_fmap_Some. exact (Forall_lookup_1 _ _ _ _ Hok Hj).
  - rewrite <- list_fmap_compose. exact Hnd.
  - intros j x fd (c&->&_)%list_lookup_fmap_Some. done.
  - intros i j x y fd _ (c&->&_)%list_lookup_fmap_Some. done.
Qed.

(** C18: transfers of different paths do not disturb each other. Whatever the interleaving
    of any number of them, no step accesses memory outside its blocks, the invariant of
    the backend is kept, and when a thread comes to its [read] or [write], it reads or
    writes at its own offset, or reports a failure: no other thread has moved the
    position since it set it. *)
Theorem local_transfers_in_place (k : K) (priv : local_storage_private_t)
    (calls : list (call_env * transfer)) (sched : list nat) :
  local_inv (view k) priv → Forall (λ c, transfer_ok (lp_base_path priv) c.2) calls →
  NoDup ((λ c, tr_full_path priv c.2) <$> calls) →
  ∃ s, lt_run (lt_start k priv calls) sched = Some s ∧
    local_inv (view (lt_kernel s)) (lt_priv s) ∧
    ∀ j e t fd, lt_threads s !! j = Some (e, t, ToTransfer fd) →
      ∃ s' st', lt_step s j = Some s' ∧ lt_threads s' !! j = Some (e, t, st') ∧
        ((∃ buf, st' = ToCount buf ∧ transferred (view (lt_kernel s)) (view (lt_kernel s')) fd t buf) ∨
         ∃ ret buf, st' = Returned ret buf ∧ ret ≠ error_code XDEVICE_OK).
Proof.
  intros Hinv Hok Hnd.
  destruct (lt_run_positioned _ _ sched (lt_start_positioned k priv calls Hinv Hok Hnd)) as (s&->&Hs).
  exists s. split; [done|]. split; [apply Hs|]. intros j e t fd Hj. unfold lt_step. rewrite Hj.
  destruct (bytes_step e (lt_kernel s) (lt_priv s) t fd) as (k'&st'&->&_&_&Hst).
  - apply Hs.
  - rewrite (po_base _ _ Hs). exact (po_ok _ _ Hs j _ Hj).
  - exact (po_holds _ _ Hs j _ fd Hj eq_refl).
  - cbn [mbind option_bind]. do 2 eexists. split; [reflexivity|]. split; [|exact Hst].
    cbn. apply list_lookup_insert_eq. by eapply lookup_lt_Some.
Qed.

(** C25: two transfers of one path share its descriptor, and its position. If one of them
    seeks while the other is between its seek and its write, and the write then goes
    through, the data are written at the offset of the one that sought last, and the
    write is counted and reported as a success. *)
Theorem local_seek_race (s s1 s2 : lt_state) i j e path off n d e2 t2 fd o :
  transfer_ok (lp_base_path (lt_priv s)) (TWrite path off n d) → transfer_ok (lp_base_path (lt_priv s)) t2 →
  i ≠ j → pv_fds (view (lt_kernel s)) !! fd = Some o →
  lt_threads s !! i = Some (e, TWrite path off n d, ToTransfer fd) →
  lt_threads s !! j = Some (e2, t2, ToSeek fd) →
  lt_step s j = Some s1 → lt_threads s1 !! j = Some (e2, t2, ToTransfer fd) →
  lt_step s1 i = Some s2 → lt_threads s2 !! i = Some (e, TWrite path off n d, ToCount None) →
  data_set (of_ino o) (spec_write (pv_data (view (lt_kernel s)) (of_ino o)) (tr_offset t2) d)
    (view (lt_kernel s)) (view (lt_kernel s2)) ∧
  ∃ s3, lt_step s2 i = Some s3 ∧
    lt_threads s3 !! i = Some (e, TWrite path off n d, Returned (error_code XDEVICE_OK) None).
Proof.
  intros (_&_&Hn&Hb) (_&Hoff2&_) Hij Ho Hi Hj Hs1 Hj1 Hs2 Hi2. cbn in Hb, Hn. subst n. split.
  - unfold lt_step in Hs1. rewrite Hj in Hs1. cbn [transfer_step] in Hs1.
    destruct (sys_lseek (lt_kernel s) fd _) as [pos k1] eqn:Hseek. rewrite to_signed_small in Hseek, Hs1 by lia.
    cbn [mbind option_bind] in Hs1. injection Hs1 as <-. cbn [lt_threads] in Hj1.
    rewrite list_lookup_insert_eq in Hj1 by (by eapply lookup_lt_Some).
    destruct (pos =? tr_offset t2) eqn:Hpos; [|done]. to_prop.
    apply law_lseek in Hseek as [(Hf&_&Hd&_) [(_&_&Hp)|[-> _]]]; [|lia].
    unfold lt_step in Hs2. cbn [lt_threads lt_kernel lt_priv] in Hs2.
    rewrite list_lookup_insert_ne, Hi in Hs2 by done. cbn [transfer_step transfer_bytes] in Hs2.
    rewrite mem_read_all in Hs2. cbn [mbind option_bind] in Hs2.
    destruct (sys_write k1 fd d) as [w k2] eqn:Hw. rewrite to_signed_small in Hs2 by lia.
    cbn [mbind option_bind] in Hs2. injection Hs2 as <-. cbn [lt_threads] in Hi2.
    rewrite list_lookup_insert_eq in Hi2 by (rewrite length_insert; by eapply lookup_lt_Some).
    destruct (w =? blen d) eqn:Hwd; [|done]. to_prop.
    apply law_write in Hw as [_ [[Hw0 _]|(_&o'&Ho'&_&(_&_&Hset&Hoth)&_)]]; [lia|].
    assert (o' = o) as -> by (rewrite Hf in Ho'; congruence). cbn [lt_kernel].
    rewrite Hp, Hd, Hwd, take_ge in Hset by (unfold blen; lia). split; [done|].
    intros x Hx. by rewrite Hoth, Hd.
  - unfold lt_step. rewrite Hi2. cbn [transfer_step mbind option_bind]. eexists. split; [reflexivity|].
    cbn. apply list_lookup_insert_eq. by eapply lookup_lt_Some.
Qed.

End positions.

(** ** Witnesses *)

Definition w_transfers : list (call_env * transfer) :=
  [(w_env, TWrite "a" 0 1 [Byte.x01]); (w_env, TRead "b" 3 1 [Byte.x00])].

Lemma w_transfer_ok path off n d :
  bool_decide (local_path_ok (build_file_path "/tmp/xdevice" path)) = true → 0 <= off < 2 ^ 63 →
  0 < n < 2 ^ 63 → n = blen d → transfer_ok "/tmp/xdevice" (TWrite path off n d).
Proof. intros Hp%bool_decide_eq_true_1 Ho Hn Hd. exact (conj Hp (conj Ho (conj Hn Hd))). Qed.

Lemma local_transfers_in_place_witness :
  ∃ s, lt_run (lt_start empty_kernel w_priv w_transfers) [0; 1; 0; 1; 0; 1]%nat = Some s ∧
    local_inv (view (lt_kernel s)) (lt_priv s) ∧
    lt_threads s !! 0%nat = Some (w_env, TWrite "a" 0 1 [Byte.x01], ToTransfer 3) ∧
    ∃ s', lt_step s 0 = Some s'.
Proof.
  destruct (local_transfers_in_place empty_kernel w_priv w_transfers [0; 1; 0; 1; 0; 1]%nat) as (s&Hs&Hi&Hall).
  - apply w_object.
  - constructor; [apply w_transfer_ok; [by vm_compute|lia|lia|done]|]. constructor; [|done].
    split_and!; [apply (bool_decide_unpack _); by vm_compute|done..].
  - apply (bool_decide_unpack _). by vm_compute.
  - exists s. split; [exact Hs|]. split; [exact Hi|].
    assert (Hj : lt_threads s !! 0%nat = Some (w_env, TWrite "a" 0 1 [Byte.x01], ToTransfer 3)).
    { assert (Hc : (lt_threads <$> lt_run (lt_start empty_kernel w_priv w_transfers) [0; 1; 0; 1; 0; 1]%nat)
        ≫= (λ l, l !! 0%nat) = Some (w_env, TWrite "a" 0 1 [Byte.x01], ToTransfer 3)) by by vm_compute.
      by rewrite Hs in Hc. }
    split; [exact Hj|]. destruct (Hall _ _ _ _ Hj) as (s'&_&H&_). by exists s'.
Defined.

(** Two threads write one byte of ["a"] each, at 0 and at 5. *)
Definition w_race_calls : list (call_env * transfer) :=
  [(w_env, TWrite "a" 0 1 [Byte.x01]); (w_env, TWrite "a" 5 1 [Byte.x02])].

(** The state of a schedule. *)
Definition w_race (sched : list nat) : lt_state :=
  default (lt_start empty_kernel w_priv []) (lt_run (lt_start empty_kernel w_priv w_race_calls) sched).

Lemma local_seek_race_witness :
  ∃ o, pv_fds (view (lt_kernel (w_race [0; 0; 0; 1; 1]%nat))) !! 3 = Some o ∧
    pv_data (view (lt_kernel (w_race [0; 0; 0; 1; 1; 1; 0]%nat))) (of_ino o) = zeros 5 ++ [Byte.x01].
Proof.
  destruct (local_seek_race (w_race [0; 0; 0; 1; 1]%nat) (w_race [0; 0; 0; 1; 1; 1]%nat)
    (w_race [0; 0; 0; 1; 1; 1; 0]%nat) 0 1 w_env "a" 0 1 [Byte.x01] w_env (TWrite "a" 5 1 [Byte.x02]) 3
    (mk_open_file 3 false true)) as [[Hd _] _];
    [apply w_transfer_ok; [by vm_compute|lia|lia|done]|apply w_transfer_ok; [by vm_compute|lia|lia|done]
    |done|vm_compute; reflexivity..|].
  exists (mk_open_file 3 false true). split; [by vm_compute|]. rewrite Hd. by vm_compute.
Defined.
