(* ===== verification/StorageManager.v ===== *)
(** * StorageManager: backend registry, routing and failover
    ([src/storage/storage_manager.c], first part)

    The manager keeps pointers to interface objects that its clients allocate
    and keep using, and the same pointer may be registered more than once. So
    the objects live in a store ([mem_heap]), the registry holds locations, and
    a call through a function pointer updates the object in the store. Calling
    a NULL function pointer, following a NULL or dangling object pointer and
    indexing outside the eight slots are [None]. *)

From stdpp Require Import base numbers list strings gmap.
From S2P Require Import XDevice Prelude Libc StorageInterface StorageSpec.
Local Open Scope Z_scope.

(** ** Data *)

Inductive load_balance_algorithm : Set :=
| LOAD_BALANCE_ROUND_ROBIN
| LOAD_BALANCE_LATENCY
| LOAD_BALANCE_BANDWIDTH.

Abbreviation loc := positive.

Record storage_manager_t := mk_manager {
  sm_backends : list (option loc);          (* backends[MAX_STORAGE_BACKENDS] *)
  sm_backend_count : Z;
  sm_primary_backend : storage_backend_type_t;
  sm_fallback_backend : storage_backend_type_t;
  sm_auto_failover : bool;
  sm_failover_timeout_ms : Z;
  sm_lb_enabled : bool;
  sm_lb_algorithm : load_balance_algorithm;
  sm_lb_current_backend : Z;
  sm_read_cache_enabled : bool;
  sm_write_cache_enabled : bool;
  sm_cache_size : Z;
  sm_cache_ttl_seconds : Z;
  sm_global_stats : storage_stats_t
}.

(** The fields after [memset] and the assignments of [storage_manager_init]. *)
Definition manager_initial : storage_manager_t :=
  {| sm_backends := replicate 8 None; sm_backend_count := 0;
     sm_primary_backend := STORAGE_BACKEND_LOCAL; sm_fallback_backend := STORAGE_BACKEND_MOCK;
     sm_auto_failover := true; sm_failover_timeout_ms := 5000;
     sm_lb_enabled := false; sm_lb_algorithm := LOAD_BALANCE_ROUND_ROBIN;
     sm_lb_current_backend := 0;
     sm_read_cache_enabled := false; sm_write_cache_enabled := false;
     sm_cache_size := 0; sm_cache_ttl_seconds := 300; sm_global_stats := zero_stats |}.

(** [manager] is the structure behind the caller's pointer. *)
Definition storage_manager_init (e : call_env) (manager : option storage_manager_t)
    : Z * option storage_manager_t :=
  match manager with
  | None => (error_code XDEVICE_ERROR_INVALID_PARAM, None)
  | Some _ =>
      if negb (mutex_init_ok e 0) then (error_code XDEVICE_ERROR, Some manager_initial)
      else (error_code XDEVICE_OK, Some manager_initial)
  end.

Section manager.
Context {E W P : Type}.

(** The memory a manager operation runs in: the interface objects and what the
    backends share. *)
Record mem := mk_mem {
  mem_heap : gmap loc (storage_interface_t E W P);
  mem_world : W
}.

(** The object at [l] and the world, after a call that returned [w] and [p]. *)
Definition mem_update (s : mem) (l : loc) (b : storage_interface_t E W P) (w : W) (p : iptr P)
    : option mem :=
  i ← p;
  Some (mk_mem (<[l := mk_storage_interface i (si_vtable b)]> (mem_heap s)) w).

(** [if (b->cleanup) b->cleanup(b)]. *)
Definition call_cleanup (e : E) (s : mem) (l : loc) : option mem :=
  b ← mem_heap s !! l;
  match vt_cleanup (si_vtable b) with
  | None => Some s
  | Some f =>
      '(_, w, p) ← f e (mem_world s) (Some (si_iface b));
      mem_update s l b w p
  end.

(** [b->health_check && b->health_check(b) == XDEVICE_OK]. *)
Definition call_health (e : E) (s : mem) (l : loc) : option (bool * mem) :=
  b ← mem_heap s !! l;
  match vt_health_check (si_vtable b) with
  | None => Some (false, s)
  | Some f =>
      '(ret, w, p) ← f e (mem_world s) (Some (si_iface b));
      s ← mem_update s l b w p;
      Some (ret =? XDEVICE_OK, s)
  end.

(** [manager->backends[i]], dereferenced. *)
Definition backend_at (s : mem) (m : storage_manager_t) (i : nat)
    : option (loc * storage_interface_t E W P) :=
  slot ← sm_backends m !! i; l ← slot; b ← mem_heap s !! l; Some (l, b).

(** ** Registration *)

(** The loop over [i < backend_count] that looks for a backend type. *)
Fixpoint find_type (s : mem) (m : storage_manager_t) (type : storage_backend_type_t)
    (n i : nat) : option (option nat) :=
  match n with
  | O => Some None
  | S n =>
      '(_, b) ← backend_at s m i;
      if decide (if_type (si_iface b) = type) then Some (Some i) else find_type s m type n (S i)
  end.

Definition storage_manager_register_backend (e : E) (s : mem)
    (manager : option storage_manager_t) (backend : option loc)
    : option (Z * option storage_manager_t * mem) :=
  match manager, backend with
  | Some m, Some l =>
      if MAX_STORAGE_BACKENDS <=? sm_backend_count m then
        Some (error_code XDEVICE_ERROR, manager, s)
      else
        b ← mem_heap s !! l;
        found ← find_type s m (if_type (si_iface b)) (Z.to_nat (sm_backend_count m)) 0;
        match found with
        | Some i =>
            '(old, _) ← backend_at s m i;
            s ← call_cleanup e s old;
            Some (error_code XDEVICE_OK,
                  Some (m <| sm_backends := <[i := Some l]> (sm_backends m) |>), s)
        | None =>
            let m := m <| sm_backends := <[Z.to_nat (sm_backend_count m) := Some l]> (sm_backends m) |>
                       <| sm_backend_count := sm_backend_count m ⊞₃₂ 1 |> in
            Some (error_code XDEVICE_OK, Some m, s)
        end
  | _, _ => Some (error_code XDEVICE_ERROR_INVALID_PARAM, manager, s)
  end.

(** [for (j = i; j < count - 1; j++) backends[j] = backends[j + 1]]: [n] rounds. *)
Fixpoint shift_down (slots : list (option loc)) (n j : nat) : option (list (option loc)) :=
  match n with
  | O => Some slots
  | S n => next ← slots !! S j; shift_down (<[j := next]> slots) n (S j)
  end.

Definition storage_manager_unregister_backend (e : E) (s : mem)
    (manager : option storage_manager_t) (type : storage_backend_type_t)
    : option (Z * option storage_manager_t * mem) :=
  match manager with
  | Some m =>
      let count := Z.to_nat (sm_backend_count m) in
      found ← find_type s m type count 0;
      match found with
      | Some i =>
          '(l, _) ← backend_at s m i;
          s ← call_cleanup e s l;
          slots ← shift_down (sm_backends m) (Z.to_nat (sm_backend_count m ⊟₃₂ 1) - i) i;
          let count := sm_backend_count m ⊟₃₂ 1 in
          Some (error_code XDEVICE_OK,
                Some (m <| sm_backends := <[Z.to_nat count := None]> slots |>
                        <| sm_backend_count := count |>), s)
      | None => Some (error_code XDEVICE_ERROR_NOT_FOUND, manager, s)
      end
  | None => Some (error_code XDEVICE_ERROR_INVALID_PARAM, manager, s)
  end.

(** The loop of [storage_manager_cleanup]; round [i] uses environment [e i]. *)
Fixpoint cleanup_loop (e : nat → E) (s : mem) (slots : list (option loc)) (n i : nat)
    : option (list (option loc) * mem) :=
  match n with
  | O => Some (slots, s)
  | S n =>
      slot ← slots !! i;
      s ← (match slot with Some l => call_cleanup (e i) s l | None => Some s end);
      cleanup_loop e s (<[i := None]> slots) n (S i)
  end.

Definition storage_manager_cleanup (e : nat → E) (s : mem) (manager : option storage_manager_t)
    : option (Z * option storage_manager_t * mem) :=
  match manager with
  | None => Some (error_code XDEVICE_ERROR_INVALID_PARAM, None, s)
  | Some m =>
      '(slots, s) ← cleanup_loop e s (sm_backends m) (Z.to_nat (sm_backend_count m)) 0;
      Some (error_code XDEVICE_OK,
            Some (m <| sm_backends := slots |> <| sm_backend_count := 0 |>), s)
  end.

(** ** Routing *)

(** One pass of [select_backend]: the first backend, from slot [i], whose type is
    wanted and whose health check succeeds. *)
Fixpoint select_pass (e : nat → E) (s : mem) (m : storage_manager_t)
    (wanted : storage_backend_type_t → bool) (n i : nat) : option (option loc * mem) :=
  match n with
  | O => Some (None, s)
  | S n =>
      '(l, b) ← backend_at s m i;
      if wanted (if_type (si_iface b)) then
        '(healthy, s) ← call_health (e i) s l;
        if healthy : bool then Some (Some l, s) else select_pass e s m wanted n (S i)
      else select_pass e s m wanted n (S i)
  end.

(** The health check of slot [i] in pass [k] uses environment [e (8 * k + i)]. *)
Definition select_backend (e : nat → E) (s : mem) (m : storage_manager_t)
    : option (option loc * mem) :=
  let n := Z.to_nat (sm_backend_count m) in
  if sm_backend_count m =? 0 then Some (None, s)
  else
    '(found, s) ← select_pass e s m (λ t, bool_decide (t = sm_primary_backend m)) n 0;
    match found with
    | Some l => Some (Some l, s)
    | None =>
        '(found, s) ← (if sm_auto_failover m
                       then select_pass (λ i, e (8 + i)%nat) s m
                              (λ t, bool_decide (t = sm_fallback_backend m)) n 0
                       else Some (None, s));
        match found with
        | Some l => Some (Some l, s)
        | None => select_pass (λ i, e (16 + i)%nat) s m (λ _, true) n 0
        end
    end.

Definition update_stats (m : storage_manager_t) (is_read : bool) (bytes latency : Z)
    : storage_manager_t :=
  if is_read then m <| sm_global_stats := count_read (sm_global_stats m) bytes latency |>
  else m <| sm_global_stats := count_write (sm_global_stats m) bytes latency |>.

(** The statistics after a backend call that returned [ret]. *)
Definition account (m : storage_manager_t) (is_read : bool) (ret size : Z) (me : call_env)
    : storage_manager_t :=
  if ret =? XDEVICE_OK then update_stats m is_read size (latency_ns (clock_start me) (clock_end me))
  else m <| sm_global_stats := count_error (sm_global_stats m) |>.

(** ** I/O through the manager

    [me] is the environment of the manager's own calls, [e k] that of its k-th
    backend call; the transfer itself uses [e 24]. *)

Definition storage_manager_read (me : call_env) (e : nat → E) (s : mem)
    (manager : option storage_manager_t) (path : option string) (offset : Z)
    (buffer : option block) (size : Z)
    : option (Z * option storage_manager_t * mem * option block) :=
  match manager, path, buffer with
  | Some m, Some _, Some _ =>
      if size =? 0 then Some (error_code XDEVICE_ERROR_INVALID_PARAM, manager, s, buffer)
      else
        '(backend, s) ← select_backend e s m;
        match backend with
        | None => Some (error_code XDEVICE_ERROR, manager, s, buffer)
        | Some l =>
            b ← mem_heap s !! l;
            f ← vt_read_sync (si_vtable b);
            '(ret, w, p, buffer) ← f (e 24%nat) (mem_world s) (Some (si_iface b)) path offset buffer size;
            s ← mem_update s l b w p;
            Some (ret, Some (account m true ret size me), s, buffer)
        end
  | _, _, _ => Some (error_code XDEVICE_ERROR_INVALID_PARAM, manager, s, buffer)
  end.

Definition storage_manager_write (me : call_env) (e : nat → E) (s : mem)
    (manager : option storage_manager_t) (path : option string) (offset : Z)
    (data : option block) (size : Z)
    : option (Z * option storage_manager_t * mem) :=
  match manager, path, data with
  | Some m, Some _, Some _ =>
      if size =? 0 then Some (error_code XDEVICE_ERROR_INVALID_PARAM, manager, s)
      else
        '(backend, s) ← select_backend e s m;
        match backend with
        | None => Some (error_code XDEVICE_ERROR, manager, s)
        | Some l =>
            b ← mem_heap s !! l;
            f ← vt_write_sync (si_vtable b);
            '(ret, w, p) ← f (e 24%nat) (mem_world s) (Some (si_iface b)) path offset data size;
            s ← mem_update s l b w p;
            Some (ret, Some (account m false ret size me), s)
        end
  | _, _, _ => Some (error_code XDEVICE_ERROR_INVALID_PARAM, manager, s)
  end.

Definition storage_manager_sync (e : nat → E) (s : mem) (manager : option storage_manager_t)
    (path : option string) : option (Z * mem) :=
  match manager, path with
  | Some m, Some _ =>
      '(backend, s) ← select_backend e s m;
      match backend with
      | None => Some (error_code XDEVICE_ERROR, s)
      | Some l =>
          b ← mem_heap s !! l;
          match vt_fsync (si_vtable b) with
          | None => Some (error_code XDEVICE_OK, s)
          | Some f =>
              '(ret, w, p) ← f (e 24%nat) (mem_world s) (Some (si_iface b)) path;
              s ← mem_update s l b w p;
              Some (ret, s)
          end
      end
  | _, _ => Some (error_code XDEVICE_ERROR_INVALID_PARAM, s)
  end.

(** ** The registry as a list *)

(** The occupied slots are the first [backend_count] ones, the others NULL. *)
Definition registry (m : storage_manager_t) (ls : list loc) : Prop :=
  sm_backends m = (Some <$> ls) ++ replicate (8 - length ls) None ∧
  sm_backend_count m = Z.of_nat (length ls) ∧ (length ls <= 8)%nat.

Definition type_of (s : mem) (l : loc) : option storage_backend_type_t :=
  (λ b, if_type (si_iface b)) <$> mem_heap s !! l.

(** The manager's invariant: the registered pointers lead to objects, and no two
    of these have the same type. *)
Definition manager_wf (s : mem) (m : storage_manager_t) (ls : list loc)
    (types : list storage_backend_type_t) : Prop :=
  registry m ls ∧ Forall2 (λ l t, type_of s l = Some t) ls types ∧ NoDup types.

(** A cleanup function that always returns and leaves the type alone. *)
Definition cleanup_total (vt : storage_vtable E W P) : Prop :=
  ∀ f, vt_cleanup vt = Some f → ∀ e w i,
    ∃ ret w' i', f e w (Some i) = Some (ret, w', Some i') ∧ if_type i' = if_type i.

Definition heap_cleanup_total (s : mem) : Prop :=
  ∀ l b, mem_heap s !! l = Some b → cleanup_total (si_vtable b).

(** ** Lemmas on the registry *)

Lemma registry_lookup m ls (i : nat) l :
  registry m ls → ls !! i = Some l → sm_backends m !! i = Some (Some l).
Proof.
  intros (->&_&_) Hi. rewrite lookup_app_l by (rewrite length_fmap; by eapply lookup_lt_Some).
  by rewrite list_lookup_fmap, Hi.
Qed.

Lemma backend_at_spec s m ls types (i : nat) t :
  registry m ls → Forall2 (λ l t, type_of s l = Some t) ls types → types !! i = Some t →
  ∃ l b, backend_at s m i = Some (l, b) ∧ ls !! i = Some l ∧ mem_heap s !! l = Some b ∧
         if_type (si_iface b) = t.
Proof.
  intros Hreg Hty Hi. destruct (Forall2_lookup_r _ _ _ _ _ Hty Hi) as (l&Hl&Hlt).
  unfold type_of in Hlt. destruct (mem_heap s !! l) as [b|] eqn:Hb; [|done]. injection Hlt as Ht.
  exists l, b. unfold backend_at. rewrite (registry_lookup _ _ _ _ Hreg Hl). cbn.
  rewrite Hb. by split_and!.
Qed.

Lemma find_type_spec s m ls types ty n i :
  registry m ls → Forall2 (λ l t, type_of s l = Some t) ls types →
  (i + n = length types)%nat →
  ∃ r, find_type s m ty n i = Some r ∧
       match r with Some j => types !! j = Some ty | None => ty ∉ drop i types end.
Proof.
  intros Hreg Hty. revert i. induction n as [|n IH]; intros i Hn; cbn.
  { exists None. rewrite drop_ge by lia. split; [done|set_solver]. }
  destruct (lookup_lt_is_Some_2 types i ltac:(lia)) as [t Ht].
  destruct (backend_at_spec _ _ _ _ _ _ Hreg Hty Ht) as (l&b&->&_&_&Hb). cbn. rewrite Hb.
  case_decide as Heq; [exists (Some i); split; congruence|].
  destruct (IH (S i) ltac:(lia)) as (r&->&Hr). exists r. split; [done|].
  destruct r; [done|]. rewrite (drop_S _ _ _ Ht). set_solver.
Qed.

(** With four backend types, at most four slots are ever in use. *)
Lemma types_length (types : list storage_backend_type_t) :
  NoDup types → (length types <= 4)%nat.
Proof.
  intros Hnd.
  apply (submseteq_length _ [STORAGE_BACKEND_NVMEOF; STORAGE_BACKEND_NFS;
                             STORAGE_BACKEND_LOCAL; STORAGE_BACKEND_MOCK]).
  apply NoDup_submseteq; [done|]. intros []; set_solver.
Qed.

Lemma type_of_update s l b w i l' :
  mem_heap s !! l = Some b → if_type i = if_type (si_iface b) →
  type_of (mk_mem (<[l := mk_storage_interface i (si_vtable b)]> (mem_heap s)) w) l' = type_of s l'.
Proof.
  intros Hb Ht. unfold type_of. cbn. destruct (decide (l = l')) as [->|].
  - by rewrite lookup_insert_eq, Hb; cbn; rewrite Ht.
  - by rewrite lookup_insert_ne.
Qed.

Lemma call_cleanup_spec e s l b :
  heap_cleanup_total s → mem_heap s !! l = Some b →
  ∃ s', call_cleanup e s l = Some s' ∧ heap_cleanup_total s' ∧ ∀ l', type_of s' l' = type_of s l'.
Proof.
  intros Htot Hb. unfold call_cleanup. rewrite Hb. cbn.
  destruct (vt_cleanup (si_vtable b)) as [f|] eqn:Hf; [|by exists s].
  destruct (Htot _ _ Hb f Hf e (mem_world s) (si_iface b)) as (ret&w&i&->&Ht). cbn.
  eexists. split; [done|]. split; [|intros; by apply type_of_update].
  intros l' b'. cbn. destruct (decide (l = l')) as [->|].
  - rewrite lookup_insert_eq. intros [= <-]. cbn. by apply (Htot l').
  - rewrite lookup_insert_ne by done. apply Htot.
Qed.

Lemma types_update s s' ls types :
  (∀ l, type_of s' l = type_of s l) →
  Forall2 (λ l t, type_of s l = Some t) ls types →
  Forall2 (λ l t, type_of s' l = Some t) ls types.
Proof. intros Heq Hty. eapply Forall2_impl; [done|]. intros l t. by rewrite Heq. Qed.

(** The list a registration makes of the registered pointers: the object of the
    same type is replaced, a new type goes last. *)
Definition register_list (ls : list loc) (types : list storage_backend_type_t) (l : loc)
    (t : storage_backend_type_t) : list loc :=
  match list_find (t =.) types with
  | Some (i, _) => <[i := l]> ls
  | None => ls ++ [l]
  end.

Definition register_types (types : list storage_backend_type_t) (t : storage_backend_type_t)
    : list storage_backend_type_t :=
  if decide (t ∈ types) then types else types ++ [t].

Lemma registry_insert m ls (i : nat) l :
  registry m ls → (i < length ls)%nat →
  registry (m <| sm_backends := <[i := Some l]> (sm_backends m) |>) (<[i := l]> ls).
Proof.
  intros (Hb&Hc&Hl) Hi. unfold registry. cbn. rewrite length_insert, Hb.
  split_and!; [|done|done].
  rewrite insert_app_l by (by rewrite length_fmap). f_equal. by rewrite list_fmap_insert.
Qed.

Lemma registry_snoc m ls l :
  registry m ls → (length ls < 8)%nat →
  registry (m <| sm_backends := <[Z.to_nat (sm_backend_count m) := Some l]> (sm_backends m) |>
              <| sm_backend_count := sm_backend_count m ⊞₃₂ 1 |>) (ls ++ [l]).
Proof.
  intros (Hb&Hc&_) Hl. unfold registry. cbn. rewrite Hc, Hb, Nat2Z.id, length_app. cbn.
  rewrite wrap32_small by (unfold u32; lia). split_and!; [|lia|lia].
  rewrite insert_app_r_alt by (rewrite length_fmap; lia). rewrite length_fmap, Nat.sub_diag.
  replace (8 - length ls)%nat with (S (8 - (length ls + 1))) by lia. cbn.
  by rewrite fmap_app, <- app_assoc.
Qed.

Lemma list_find_type (types : list storage_backend_type_t) t (i : nat) :
  NoDup types → types !! i = Some t → list_find (t =.) types = Some (i, t).
Proof.
  intros Hnd Hi. apply list_find_Some. split_and!; [done|done|].
  intros j y Hj Hlt ->. pose proof (NoDup_lookup _ _ _ _ Hnd Hi Hj). lia.
Qed.

(** Registration refines [register_list] and keeps the invariant; the table can
    never be full, so the error for a full table is not reachable. *)
Lemma register_spec e s m ls types l b :
  manager_wf s m ls types → heap_cleanup_total s → mem_heap s !! l = Some b →
  ∃ m' s', storage_manager_register_backend e s (Some m) (Some l) =
      Some (error_code XDEVICE_OK, Some m', s') ∧
    manager_wf s' m' (register_list ls types l (if_type (si_iface b)))
                     (register_types types (if_type (si_iface b))) ∧
    heap_cleanup_total s' ∧ (∀ l', type_of s' l' = type_of s l').
Proof.
  intros (Hreg&Hty&Hnd) Htot Hb. pose proof Hreg as (Hbk&Hct&Hle).
  pose proof (types_length _ Hnd). pose proof (Forall2_length _ _ _ Hty).
  set (t := if_type (si_iface b)).
  assert (Hlt : type_of s l = Some t) by (unfold type_of; by rewrite Hb).
  unfold storage_manager_register_backend, MAX_STORAGE_BACKENDS.
  rewrite (proj2 (Z.leb_gt _ _)) by lia. rewrite Hb. cbn. fold t.
  rewrite Hct, Nat2Z.id.
  destruct (find_type_spec s m ls types t (length ls) 0 Hreg Hty) as (r&->&Hr); [lia|]. cbn.
  destruct r as [i|].
  - destruct (backend_at_spec _ _ _ _ _ _ Hreg Hty Hr) as (old&ob&->&Hold&Hob&_). cbn.
    destruct (call_cleanup_spec e s old ob Htot Hob) as (s'&->&Htot'&Heq). cbn.
    do 2 eexists. split; [done|]. split_and!; [|done|done].
    unfold register_list, register_types. rewrite (list_find_type _ _ i Hnd Hr).
    rewrite decide_True by (by eapply list_elem_of_lookup_2).
    split_and!; [apply registry_insert; [done|by eapply lookup_lt_Some]| |done].
    rewrite <- (list_insert_id types i t Hr).
    apply Forall2_insert; [by eapply types_update|]. by rewrite Heq.
  - do 2 eexists. split; [done|]. split_and!; [|done|done].
    cbn in Hr. unfold register_list, register_types. rewrite decide_False by done.
    destruct (list_find (t =.) types) as [[j t']|] eqn:Hf.
    { apply list_find_Some in Hf as (Hj&<-&_). exfalso. apply Hr. by eapply list_elem_of_lookup_2. }
    split_and!.
    + rewrite <- Hct at 1. rewrite <- (Nat2Z.id (length ls)), <- Hct. apply registry_snoc; [done|lia].
    + apply Forall2_app; [done|]. by constructor.
    + apply NoDup_app. split_and!; [done|set_solver|apply NoDup_singleton].
Qed.

Lemma shift_down_spec (slots : list (option loc)) (n j : nat) :
  (j + n < length slots)%nat →
  ∃ slots', shift_down slots n j = Some slots' ∧ length slots' = length slots ∧
    ∀ k : nat, slots' !! k = if decide (j <= k < j + n)%nat then slots !! S k else slots !! k.
Proof.
  revert slots j. induction n as [|n IH]; intros slots j Hj; cbn.
  { exists slots. split_and!; [done|done|]. intros k. by rewrite decide_False by lia. }
  destruct (lookup_lt_is_Some_2 slots (S j) ltac:(lia)) as [x Hx]. rewrite Hx. cbn.
  destruct (IH (<[j:=x]> slots) (S j)) as (slots'&->&Hlen&Hk); [rewrite length_insert; lia|].
  exists slots'. rewrite length_insert in Hlen. split_and!; [done|done|].
  intros k. rewrite Hk. destruct (decide (k = j)) as [->|Hkj].
  - rewrite (decide_False (P := (S j <= j < S j + n)%nat)), (decide_True (P := (j <= j < j + S n)%nat)) by lia.
    rewrite list_lookup_insert_eq by lia. by rewrite Hx.
  - repeat case_decide; try lia; by rewrite list_lookup_insert_ne by lia.
Qed.

Lemma registry_delete m ls (i : nat) slots :
  registry m ls → (i < length ls)%nat →
  shift_down (sm_backends m) (length ls - 1 - i) i = Some slots →
  registry (m <| sm_backends := <[Z.to_nat (sm_backend_count m ⊟₃₂ 1) := None]> slots |>
              <| sm_backend_count := sm_backend_count m ⊟₃₂ 1 |>) (delete i ls).
Proof.
  intros (Hb&Hc&Hl) Hi Hs.
  assert (Hlen8 : length (sm_backends m) = 8%nat).
  { rewrite Hb, length_app, length_fmap, length_replicate. lia. }
  destruct (shift_down_spec (sm_backends m) (length ls - 1 - i) i) as (slots'&Hs'&Hlen&Hk); [lia|].
  rewrite Hs in Hs'. injection Hs' as <-.
  unfold registry. cbn. rewrite Hc, wrap32_small by (unfold u32; lia).
  rewrite length_delete by (by apply lookup_lt_is_Some_2).
  replace (Z.to_nat (Z.of_nat (length ls) - 1)) with (length ls - 1)%nat by lia.
  split_and!; [|lia|lia].
  apply list_eq. intros k. destruct (decide (k = length ls - 1)%nat) as [->|Hne].
  - rewrite list_lookup_insert_eq by lia.
    rewrite lookup_app_r by (rewrite length_fmap, length_delete by (by apply lookup_lt_is_Some_2); lia).
    rewrite length_fmap, length_delete, Nat.sub_diag by (by apply lookup_lt_is_Some_2).
    by replace (8 - (length ls - 1))%nat with (S (8 - length ls)) by lia.
  - rewrite list_lookup_insert_ne by done. rewrite Hk, Hb.
    destruct (decide (k < length ls - 1)%nat) as [Hlt|Hge].
    + rewrite (lookup_app_l (_ <$> delete i ls))
        by (rewrite length_fmap, length_delete by (by apply lookup_lt_is_Some_2); lia).
      rewrite list_lookup_fmap. case_decide as Hd.
      * rewrite lookup_app_l, list_lookup_fmap by (rewrite length_fmap; lia).
        by rewrite list_lookup_delete_ge by lia.
      * rewrite lookup_app_l, list_lookup_fmap by (rewrite length_fmap; lia).
        by rewrite list_lookup_delete_lt by lia.
    + rewrite decide_False by lia.
      rewrite (lookup_app_r (Some <$> ls)) by (rewrite length_fmap; lia).
      rewrite (lookup_app_r (Some <$> delete i ls))
        by (rewrite length_fmap, length_delete by (by apply lookup_lt_is_Some_2); lia).
      rewrite !length_fmap, length_delete by (by apply lookup_lt_is_Some_2).
      destruct (decide (k < 8)%nat).
      * by rewrite !lookup_replicate_2 by lia.
      * rewrite !lookup_ge_None_2 by (rewrite length_replicate; lia). done.
Qed.

(** Unregistration refines deletion from the list. *)
Lemma unregister_spec e s m ls types t :
  manager_wf s m ls types → heap_cleanup_total s →
  (∀ i, types !! i = Some t →
   ∃ m' s', storage_manager_unregister_backend e s (Some m) t =
       Some (error_code XDEVICE_OK, Some m', s') ∧
     manager_wf s' m' (delete i ls) (delete i types) ∧ heap_cleanup_total s' ∧
     (∀ l', type_of s' l' = type_of s l')) ∧
  (t ∉ types →
   storage_manager_unregister_backend e s (Some m) t =
     Some (error_code XDEVICE_ERROR_NOT_FOUND, Some m, s)).
Proof.
  intros (Hreg&Hty&Hnd) Htot. pose proof Hreg as (Hbk&Hct&Hle).
  pose proof (Forall2_length _ _ _ Hty) as Hlen.
  unfold storage_manager_unregister_backend. rewrite Hct, Nat2Z.id.
  destruct (find_type_spec s m ls types t (length ls) 0 Hreg Hty) as (r&->&Hr); [lia|]. cbn.
  split.
  - intros i Hi. destruct r as [j|]; [|exfalso; apply Hr; by eapply list_elem_of_lookup_2].
    assert (j = i) as -> by (by eapply NoDup_lookup).
    assert (Hil : (i < length ls)%nat) by (rewrite Hlen; by eapply lookup_lt_Some).
    destruct (backend_at_spec _ _ _ _ _ _ Hreg Hty Hr) as (l&b&->&Hl&Hb&_). cbn.
    destruct (call_cleanup_spec e s l b Htot Hb) as (s'&->&Htot'&Heq). cbn.
    rewrite wrap32_small by (unfold u32; lia).
    replace (Z.to_nat (Z.of_nat (length ls) - 1) - i)%nat with (length ls - 1 - i)%nat by lia.
    destruct (shift_down_spec (sm_backends m) (length ls - 1 - i) i) as (slots&Hs&_).
    { rewrite Hbk, length_app, length_fmap, length_replicate. lia. }
    rewrite Hs. cbn. do 2 eexists. split; [done|]. split_and!; [|done|done].
    split_and!.
    + pose proof (registry_delete m ls i slots Hreg Hil Hs) as Hd.
      rewrite Hct, wrap32_small in Hd by (unfold u32; lia). exact Hd.
    + apply Forall2_delete. by eapply types_update.
    + eapply sublist_NoDup; [done|]. apply sublist_delete.
  - intros Hin. destruct r as [j|]; [exfalso; apply Hin; by eapply list_elem_of_lookup_2|done].
Qed.

(** Cleanup calls every registered object's cleanup and empties the table. *)
Lemma cleanup_loop_spec e s m ls types n i slots :
  Forall2 (λ l t, type_of s l = Some t) ls types → heap_cleanup_total s →
  (i + n = length ls)%nat → (length ls <= length slots)%nat →
  (∀ k : nat, (i <= k < length ls)%nat → slots !! k = sm_backends m !! k) → registry m ls →
  ∃ slots' s', cleanup_loop e s slots n i = Some (slots', s') ∧ heap_cleanup_total s' ∧
    (∀ l', type_of s' l' = type_of s l') ∧ length slots' = length slots ∧
    ∀ k : nat, slots' !! k = if decide (i <= k < length ls)%nat then Some None else slots !! k.
Proof.
  intros Hty Htot. revert s i slots Hty Htot.
  induction n as [|n IH]; intros s i slots Hty Htot Hin Hle Hsl Hreg; cbn.
  { exists slots, s. split_and!; try done. intros k. by rewrite decide_False by lia. }
  destruct (lookup_lt_is_Some_2 ls i ltac:(lia)) as [l Hl].
  rewrite Hsl, (registry_lookup _ _ _ _ Hreg Hl) by lia. cbn.
  destruct (Forall2_lookup_l _ _ _ _ _ Hty Hl) as (t&_&Hlt). unfold type_of in Hlt.
  destruct (mem_heap s !! l) as [b|] eqn:Hb; [|done].
  destruct (call_cleanup_spec (e i) s l b Htot Hb) as (s1&->&Htot1&Heq1). cbn.
  destruct (IH s1 (S i) (<[i:=None]> slots)) as (slots'&s'&->&Htot'&Heq'&Hlen'&Hk);
    [by eapply types_update|done|lia|by rewrite length_insert| |done|].
  { intros k Hk. rewrite list_lookup_insert_ne by lia. apply Hsl. lia. }
  rewrite length_insert in Hlen'.
  exists slots', s'. split_and!; [done|done| |done|].
  - intros l'. by rewrite Heq'.
  - intros k. rewrite Hk. destruct (decide (k = i)) as [->|].
    + rewrite decide_False, decide_True, list_lookup_insert_eq by lia. done.
    + rewrite list_lookup_insert_ne by done. repeat case_decide; done || lia.
Qed.

(** ** Lemmas on routing *)

(** A registered backend as the selection sees it: where it is, its type and
    the answer of its health check. *)
Abbreviation candidate := (loc * storage_backend_type_t * bool)%type.

Definition is_candidate (s : mem) (l : loc) (c : candidate) : Prop :=
  c.1.1 = l ∧ type_of s l = Some c.1.2 ∧ ∀ e, call_health e s l = Some (c.2, s).

(** The first healthy candidate of a wanted type. *)
Fixpoint first_healthy (wanted : storage_backend_type_t → bool) (cs : list candidate)
    : option loc :=
  match cs with
  | [] => None
  | (l, t, h) :: cs => if wanted t && h then Some l else first_healthy wanted cs
  end.

(** The routing policy: the primary type, the fallback type when failover is on,
    any type. *)
Definition spec_select (m : storage_manager_t) (cs : list candidate) : option loc :=
  match first_healthy (λ t, bool_decide (t = sm_primary_backend m)) cs with
  | Some l => Some l
  | None =>
      match (if sm_auto_failover m
             then first_healthy (λ t, bool_decide (t = sm_fallback_backend m)) cs else None) with
      | Some l => Some l
      | None => first_healthy (λ _, true) cs
      end
  end.

Lemma backend_at_loc s m ls (i : nat) l t :
  registry m ls → ls !! i = Some l → type_of s l = Some t →
  ∃ b, backend_at s m i = Some (l, b) ∧ mem_heap s !! l = Some b ∧ if_type (si_iface b) = t.
Proof.
  intros Hreg Hl Ht. unfold type_of in Ht. destruct (mem_heap s !! l) as [b|] eqn:Hb; [|done].
  injection Ht as Ht. exists b. unfold backend_at. rewrite (registry_lookup _ _ _ _ Hreg Hl). cbn.
  rewrite Hb. by split_and!.
Qed.

Lemma select_pass_spec e s m ls cs wanted n i :
  registry m ls → Forall2 (is_candidate s) ls cs → (i + n = length ls)%nat →
  select_pass e s m wanted n i = Some (first_healthy wanted (drop i cs), s).
Proof.
  intros Hreg Hcs. revert i. induction n as [|n IH]; intros i Hn; cbn.
  { rewrite drop_ge; [done|]. rewrite <- (Forall2_length _ _ _ Hcs). lia. }
  destruct (lookup_lt_is_Some_2 ls i ltac:(lia)) as [l Hl].
  destruct (Forall2_lookup_l _ _ _ _ _ Hcs Hl) as ([[l' t] h]&Hc&(Hll&Ht&Hh)). cbn in *. subst l'.
  destruct (backend_at_loc _ _ _ _ _ _ Hreg Hl Ht) as (b&->&_&Hbt). cbn. rewrite Hbt.
  rewrite (drop_S _ _ _ Hc). cbn. rewrite Hh. cbn.
  destruct (wanted t), h; cbn; try done; apply IH; lia.
Qed.

Lemma select_backend_spec e s m ls cs :
  registry m ls → Forall2 (is_candidate s) ls cs →
  select_backend e s m = Some (spec_select m cs, s).
Proof.
  intros Hreg Hcs. pose proof Hreg as (_&Hct&_). unfold select_backend.
  rewrite Hct, Nat2Z.id. destruct (Z.of_nat (length ls) =? 0) eqn:H0; to_prop.
  - destruct ls; [|done]. inversion Hcs. unfold spec_select. cbn. by destruct (sm_auto_failover m).
  - assert (Hpass : ∀ e wanted, select_pass e s m wanted (length ls) 0 =
                                Some (first_healthy wanted cs, s)).
    { intros. by rewrite (select_pass_spec _ _ _ _ _ _ _ _ Hreg Hcs), drop_0. }
    unfold spec_select. rewrite Hpass. cbn [mbind option_bind]. case_match; [done|].
    destruct (sm_auto_failover m); rewrite ?Hpass; cbn [mbind option_bind]; [|by rewrite Hpass].
    case_match; [done|]. by rewrite Hpass.
Qed.

(** What [first_healthy] finds is healthy, and it finds something if it can. *)
Lemma first_healthy_Some wanted cs l :
  first_healthy wanted cs = Some l → ∃ t, (l, t, true) ∈ cs ∧ wanted t = true.
Proof.
  induction cs as [|[[l' t] h] cs IH]; cbn; [done|].
  destruct (wanted t) eqn:Hw, h; cbn; intros Hf;
    try (destruct (IH Hf) as (t'&?&?); exists t'; split; [by right|done]).
  injection Hf as ->. exists t. split; [left|done].
Qed.

Lemma first_healthy_None wanted cs :
  first_healthy wanted cs = None ↔ ∀ l t, (l, t, true) ∈ cs → wanted t = false.
Proof.
  induction cs as [|[[l t] h] cs IH]; cbn.
  { split; [|done]. intros _ l t Hin. set_solver. }
  destruct (wanted t) eqn:Hw, h; cbn; (split; [intros Hf|intros Hall]); try done.
  - exfalso. rewrite (Hall l t) in Hw; [done|left].
  - intros l' t' [?|Hin]%elem_of_cons; [done|]. by eapply (proj1 IH).
  - apply IH. intros l' t' Hin. apply (Hall l'). by right.
  - intros l' t' [?|Hin]%elem_of_cons; [congruence|]. by eapply (proj1 IH).
  - apply IH. intros l' t' Hin. apply (Hall l'). by right.
  - intros l' t' [?|Hin]%elem_of_cons; [congruence|]. by eapply (proj1 IH).
  - apply IH. intros l' t' Hin. apply (Hall l'). by right.
Qed.

(** With a healthy primary backend only its own health check matters. *)
Lemma select_primary_pass e s m ls types (i : nat) l n j :
  manager_wf s m ls types → ls !! i = Some l → types !! i = Some (sm_primary_backend m) →
  call_health (e i) s l = Some (true, s) → (j <= i)%nat → (j + n = length ls)%nat →
  select_pass e s m (λ t, bool_decide (t = sm_primary_backend m)) n j = Some (Some l, s).
Proof.
  intros (Hreg&Hty&Hnd) Hl Ht Hh. revert j.
  induction n as [|n IH]; intros j Hj Hn; cbn.
  { apply lookup_lt_Some in Hl. lia. }
  destruct (lookup_lt_is_Some_2 types j) as [t Htj].
  { rewrite <- (Forall2_length _ _ _ Hty). lia. }
  destruct (backend_at_spec _ _ _ _ _ _ Hreg Hty Htj) as (l'&b&->&Hl'&_&Hb). cbn. rewrite Hb.
  case_bool_decide as Heq.
  - assert (j = i) as -> by (apply (NoDup_lookup types j i t Hnd Htj); congruence). assert (l' = l) as -> by congruence.
    by rewrite Hh.
  - apply IH; [|lia]. destruct (decide (j = i)) as [->|]; [congruence|lia].
Qed.

Lemma select_primary e s m ls types (i : nat) l :
  manager_wf s m ls types → ls !! i = Some l → types !! i = Some (sm_primary_backend m) →
  call_health (e i) s l = Some (true, s) → select_backend e s m = Some (Some l, s).
Proof.
  intros Hwf Hl Ht Hh. pose proof Hwf as ((_&Hct&_)&_). unfold select_backend.
  rewrite Hct, Nat2Z.id. rewrite (proj2 (Z.eqb_neq _ _)) by (apply lookup_lt_Some in Hl; lia).
  rewrite (select_primary_pass e s m ls types i l) by (done || lia). done.
Qed.


End manager.
Arguments mem : clear implicits.
#[global] Arguments storage_manager_register_backend : simpl never.
#[global] Arguments storage_manager_unregister_backend : simpl never.
#[global] Arguments storage_manager_cleanup : simpl never.
#[global] Arguments select_backend : simpl never.
#[global] Arguments storage_manager_read : simpl never.
#[global] Arguments storage_manager_write : simpl never.
#[global] Arguments storage_manager_sync : simpl never.
