(* ===== verification/ManagerClient.v ===== *)
(** * ManagerClient: the manager over a backend that keeps the contract

    What a client of [storage_manager.c] gets when the primary backend satisfies
    [StorageBackend]: reads and writes through the manager refine the abstract
    file system of that backend, and the manager's own state changes only in its
    statistics. Nothing is assumed of the other registered backends. *)

From stdpp Require Import base numbers list strings gmap.
From S2P Require Import XDevice Prelude Libc StorageInterface StorageSpec StorageManager.
Local Open Scope Z_scope.

Section client.
Context {E W P : Type} {vt : storage_vtable E W P} {B : StorageBackend vt}.
Implicit Types (s : mem E W P) (m : storage_manager_t) (i : iface P).

(** The registered object of the primary type is [i], it uses the function table
    [vt] and it is initialised. *)
Definition serves s m i : Prop :=
  ∃ ls types k l,
    manager_wf s m ls types ∧ ls !! k = Some l ∧ types !! k = Some (sm_primary_backend m) ∧
    mem_heap s !! l = Some (mk_storage_interface i vt) ∧ st_inv (mem_world s) i.

Definition served_files s i : gmap string block := st_files (mem_world s) i.

Lemma call_health_inv e s l i :
  mem_heap s !! l = Some (mk_storage_interface i vt) → st_inv (mem_world s) i →
  call_health e s l = Some (true, s).
Proof.
  intros Hl Hinv. unfold call_health. rewrite Hl. cbn.
  destruct (st_health e (mem_world s) i Hinv) as (f&->&->). cbn.
  rewrite insert_id by done. by destruct s.
Qed.

(** The account of a call touches the statistics only. *)
Lemma manager_wf_account s m ls types is_read ret size me :
  manager_wf s m ls types → manager_wf s (account m is_read ret size me) ls types.
Proof. unfold account, update_stats. intros. by split_ifs. Qed.

Lemma account_primary m is_read ret size me :
  sm_primary_backend (account m is_read ret size me) = sm_primary_backend m.
Proof. unfold account, update_stats. by split_ifs. Qed.

(** The primary object after a call that keeps its invariant. *)
Lemma serves_update s m l i i' w' ls types (k : nat) is_read ret size me :
  manager_wf s m ls types → ls !! k = Some l → types !! k = Some (sm_primary_backend m) →
  mem_heap s !! l = Some (mk_storage_interface i vt) →
  st_inv w' i' → if_type i' = if_type i →
  serves (mk_mem (<[l := mk_storage_interface i' vt]> (mem_heap s)) w')
         (account m is_read ret size me) i'.
Proof.
  intros (Hreg&Hty&Hnd) Hk Ht Hl Hinv Hti.
  exists ls, types, k, l. rewrite account_primary. split_and!; try done.
  - apply manager_wf_account. split_and!; [done| |done].
    eapply types_update; [|done]. intros l'.
    by apply (type_of_update s l (mk_storage_interface i vt) w' i').
  - cbn. by rewrite lookup_insert_eq.
Qed.

Lemma select_serves e s m i :
  serves s m i →
  ∃ ls types k l, select_backend e s m = Some (Some l, s) ∧
    manager_wf s m ls types ∧ ls !! k = Some l ∧ types !! k = Some (sm_primary_backend m) ∧
    mem_heap s !! l = Some (mk_storage_interface i vt) ∧ st_inv (mem_world s) i.
Proof.
  intros (ls&types&k&l&Hwf&Hk&Ht&Hl&Hinv). exists ls, types, k, l. split_and!; try done.
  eapply select_primary; try done. by eapply call_health_inv.
Qed.

(** A write within the limits either succeeds with the specified effect on the
    primary's files, or fails and changes none of them. *)
Lemma manager_write_spec me (e : nat → E) s m i path off d :
  serves s m i → st_path_ok path → 0 <= off → 0 < blen d → off + blen d <= st_limit →
  ∃ ret s' i',
    storage_manager_write me e s (Some m) (Some path) off (Some d) (blen d) =
      Some (ret, Some (account m false ret (blen d) me), s') ∧
    serves s' (account m false ret (blen d) me) i' ∧
    (ret = error_code XDEVICE_OK ∧
       served_files s' i' = spec_write_file (served_files s i) path off d
     ∨ ret ≠ error_code XDEVICE_OK ∧ served_files s' i' = served_files s i) ∧
    (st_ready (e 24%nat) (mem_world s) i path → ret = error_code XDEVICE_OK).
Proof.
  intros Hs Hp Hoff Hd Hlim.
  destruct (select_serves e s m i Hs) as (ls&types&k&l&Hsel&Hwf&Hk&Ht&Hl&Hinv).
  destruct (st_write (e 24%nat) (mem_world s) i path off d Hinv Hp Hoff Hd Hlim)
    as (f&ret&w'&i'&Hf&Hcall&Hinv'&Hti&Hout&Hready).
  unfold storage_manager_write. rewrite (proj2 (Z.eqb_neq _ _)) by lia.
  rewrite Hsel. cbn. rewrite Hl. cbn. rewrite Hf. cbn. rewrite Hcall. cbn.
  do 3 eexists. split; [done|]. split_and!; [|done|done].
  by eapply serves_update.
Qed.

(** A read within the limits returns and changes no file; of bytes the primary's
    file has it returns them. *)
Lemma manager_read_spec me (e : nat → E) s m i path off n buf :
  serves s m i → st_path_ok path → 0 <= off → 0 < n → off + n <= st_limit → blen buf = n →
  ∃ ret s' i' buf',
    storage_manager_read me e s (Some m) (Some path) off (Some buf) n =
      Some (ret, Some (account m true ret n me), s', Some buf') ∧
    serves s' (account m true ret n me) i' ∧ served_files s' i' = served_files s i ∧
    blen buf' = n ∧
    (∀ c, served_files s i !! path = Some c → off + n <= blen c →
       ret = error_code XDEVICE_OK ∧ buf' = spec_read c off n) ∧
    (blen (default [] (served_files s i !! path)) <= off → ret ≠ error_code XDEVICE_OK).
Proof.
  intros Hs Hp Hoff Hn Hin Hbuf.
  destruct (select_serves e s m i Hs) as (ls&types&k&l&Hsel&Hwf&Hk&Ht&Hl&Hinv).
  destruct (st_read (e 24%nat) (mem_world s) i path off n buf)
    as (f&ret&w'&i'&buf'&Hf&Hcall&Hinv'&Hti&Hfs&Hlen&Hfull&Hpast); try done.
  unfold storage_manager_read. rewrite (proj2 (Z.eqb_neq _ _)) by lia.
  rewrite Hsel. cbn. rewrite Hl. cbn. rewrite Hf. cbn. rewrite Hcall. cbn.
  do 4 eexists. split; [done|]. split; [by eapply serves_update|]. by split_and!.
Qed.

(** ** Sequences of operations *)

(** One read or write through the manager. The buffer of a read starts out with
    unspecified bytes [junk]. *)
Definition manager_fs_op me (e : nat → E) s m (op : fs_op)
    : option (fs_result * option storage_manager_t * mem E W P) :=
  match op with
  | FsWrite path off d =>
      '(ret, m, s) ← storage_manager_write me e s (Some m) (Some path) off (Some d) (blen d);
      Some ((ret, None), m, s)
  | FsRead path off n =>
      let buf := junk me <$> seq 0 (Z.to_nat n) in
      '(ret, m, s, buf) ← storage_manager_read me e s (Some m) (Some path) off (Some buf) n;
      Some ((ret, buf), m, s)
  end.

(** The k-th operation uses the environments [me k] and [e k]. *)
Fixpoint manager_fs_run (me : nat → call_env) (e : nat → nat → E) s m (ops : list fs_op) (k : nat)
    : option (list fs_result * storage_manager_t * mem E W P) :=
  match ops with
  | [] => Some ([], m, s)
  | op :: ops =>
      '(r, mo, s) ← manager_fs_op (me k) (e k) s m op;
      m ← mo;
      '(rs, m, s) ← manager_fs_run me e s m ops (S k);
      Some (r :: rs, m, s)
  end.

(** The range an operation accesses is within the limits. *)
Definition fs_op_ok (op : fs_op) : Prop :=
  match op with
  | FsWrite path off d => st_path_ok path ∧ 0 <= off ∧ 0 < blen d ∧ off + blen d <= st_limit
  | FsRead path off n => st_path_ok path ∧ 0 <= off ∧ 0 < n ∧ off + n <= st_limit
  end.

Lemma manager_fs_op_spec me (e : nat → E) s m i op :
  serves s m i → fs_op_ok op →
  ∃ r m' s' i', manager_fs_op me e s m op = Some (r, Some m', s') ∧
    fs_step (served_files s i) op r (served_files s' i') ∧ serves s' m' i'.
Proof.
  intros Hs. destruct op as [path off d|path off n]; intros (Hp&Hoff&Hn&Hlim); cbn.
  - destruct (manager_write_spec me e s m i path off d) as (ret&s'&i'&->&Hs'&Hout&_); try done.
    cbn. eexists _, _, s', i'. split; [done|]. split; [|done].
    destruct Hout as [[-> ->]|[Hr ->]]; by constructor.
  - destruct (manager_read_spec me e s m i path off n (junk me <$> seq 0 (Z.to_nat n)))
      as (ret&s'&i'&buf'&->&Hs'&Hfs&Hlen&Hfull&Hpast); try done.
    { unfold blen. rewrite length_fmap, length_seq. lia. }
    cbn. eexists _, _, s', i'. split; [done|]. split; [|done]. rewrite Hfs.
    by apply read_outcome_step.
Qed.

Lemma manager_fs_run_spec me (e : nat → nat → E) s m i ops k :
  serves s m i → Forall fs_op_ok ops →
  ∃ rs m' s' i', manager_fs_run me e s m ops k = Some (rs, m', s') ∧
    fs_trace (served_files s i) ops rs (served_files s' i') ∧ serves s' m' i'.
Proof.
  intros Hs Hok. revert s m i k Hs.
  induction Hok as [|op ops Hop _ IH]; intros s m i k Hs; cbn.
  { exists [], m, s, i. split; [done|]. split; [constructor|done]. }
  destruct (manager_fs_op_spec (me k) (e k) s m i op Hs Hop) as (r&m1&s1&i1&->&Hstep&Hs1). cbn.
  destruct (IH s1 m1 i1 (S k) Hs1) as (rs&m'&s'&i'&->&Htr&Hs'). cbn.
  exists (r :: rs), m', s', i'. split; [done|]. split; [by econstructor|done].
Qed.

End client.
