(* ===== verification/ManagerProps.v ===== *)
(** * ManagerProps: properties of the storage manager

    Registration as operations on a list, the routing policy, reads and writes
    through the primary backend, the statistics, and cleanup. *)

From Stdlib Require Import String.
From stdpp Require Import base numbers list strings gmap.
From S2P Require Import XDevice Prelude Libc StorageInterface StorageSpec MockStorage MockBackend.
From S2P Require Import StorageManager ManagerClient.
Local Open Scope Z_scope.

(** ** Sequences of registrations *)

Section registry_ops.
Context {E W P : Type}.
Implicit Types (s : mem E W P) (m : storage_manager_t).

Inductive registry_op : Type :=
| Register (l : loc)
| Unregister (t : storage_backend_type_t).

Definition registry_step (e : E) s m (op : registry_op) : option (Z * option storage_manager_t * mem E W P) :=
  match op with
  | Register l => storage_manager_register_backend e s (Some m) (Some l)
  | Unregister t => storage_manager_unregister_backend e s (Some m) t
  end.

(** The results of a sequence of calls, and the last state. *)
Fixpoint registry_run (e : nat → E) s m (ops : list registry_op) (k : nat)
    : option (list Z * storage_manager_t * mem E W P) :=
  match ops with
  | [] => Some ([], m, s)
  | op :: ops =>
      '(ret, mo, s) ← registry_step (e k) s m op;
      m ← mo;
      '(rets, m, s) ← registry_run e s m ops (S k);
      Some (ret :: rets, m, s)
  end.

(** The abstract registry: the registered pointers in order, each with its type.
    Registering a type that is present replaces its pointer, a new type goes
    last; unregistering removes the entry. *)
Definition spec_registry_step (type : loc → option storage_backend_type_t)
    (r : list loc * list storage_backend_type_t) (op : registry_op)
    : Z * (list loc * list storage_backend_type_t) :=
  match op with
  | Register l =>
      match type l with
      | Some t => (error_code XDEVICE_OK, (register_list r.1 r.2 l t, register_types r.2 t))
      | None => (error_code XDEVICE_ERROR, r)
      end
  | Unregister t =>
      match list_find (t =.) r.2 with
      | Some (i, _) => (error_code XDEVICE_OK, (delete i r.1, delete i r.2))
      | None => (error_code XDEVICE_ERROR_NOT_FOUND, r)
      end
  end.

Fixpoint spec_registry_run (type : loc → option storage_backend_type_t)
    (r : list loc * list storage_backend_type_t) (ops : list registry_op)
    : list Z * (list loc * list storage_backend_type_t) :=
  match ops with
  | [] => ([], r)
  | op :: ops =>
      let '(ret, r) := spec_registry_step type r op in
      let '(rets, r) := spec_registry_run type r ops in (ret :: rets, r)
  end.

(** The registered pointer leads to an object. *)
Definition registry_op_ok s (op : registry_op) : Prop :=
  match op with Register l => is_Some (mem_heap s !! l) | Unregister _ => True end.

Lemma registry_step_spec e s m ls types op :
  manager_wf s m ls types → heap_cleanup_total s → registry_op_ok s op →
  ∃ ret m' s' ls' types', registry_step e s m op = Some (ret, Some m', s') ∧
    spec_registry_step (type_of s) (ls, types) op = (ret, (ls', types')) ∧
    manager_wf s' m' ls' types' ∧ heap_cleanup_total s' ∧
    (∀ l, type_of s' l = type_of s l).
Proof.
  intros Hwf Htot Hok. destruct op as [l|t].
  - destruct Hok as [b Hb].
    destruct (register_spec e s m ls types l b Hwf Htot Hb) as (m'&s'&Hr&Hwf'&?&?).
    do 5 eexists. split; [exact Hr|].
    cbn [spec_registry_step fst snd]. unfold type_of at 1. rewrite Hb. cbn. by split_and!.
  - destruct (unregister_spec e s m ls types t Hwf Htot) as [Hin Hout]. cbn [registry_step spec_registry_step fst snd].
    destruct (list_find (t =.) types) as [[i t']|] eqn:Hf.
    + apply list_find_Some in Hf as (Hi&<-&_).
      destruct (Hin i Hi) as (m'&s'&Hr&?&?&?). do 5 eexists. by split; [exact Hr|].
    + rewrite Hout; [do 5 eexists; by split|].
      intros Hin'. apply list_find_None in Hf. rewrite Forall_forall in Hf. by apply (Hf t).
Qed.

Lemma type_of_is_Some s s' l :
  (∀ l, type_of s' l = type_of s l) → is_Some (mem_heap s !! l) → is_Some (mem_heap s' !! l).
Proof.
  intros Heq [b Hb]. specialize (Heq l). unfold type_of in Heq. rewrite Hb in Heq.
  destruct (mem_heap s' !! l); [eauto|done].
Qed.

Lemma spec_registry_run_ext type type' ops r :
  (∀ l, type' l = type l) → spec_registry_run type' r ops = spec_registry_run type r ops.
Proof.
  intros Heq. revert r. induction ops as [|op ops IH]; intros r; cbn; [done|].
  assert (spec_registry_step type' r op = spec_registry_step type r op) as ->.
  { destruct op; cbn; [by rewrite Heq|done]. }
  destruct (spec_registry_step type r op). by rewrite IH.
Qed.

Lemma registry_run_spec (e : nat → E) s m ls types ops k :
  manager_wf s m ls types → heap_cleanup_total s → Forall (registry_op_ok s) ops →
  ∃ rets m' s' ls' types', registry_run e s m ops k = Some (rets, m', s') ∧
    spec_registry_run (type_of s) (ls, types) ops = (rets, (ls', types')) ∧
    manager_wf s' m' ls' types'.
Proof.
  revert s m ls types k. induction ops as [|op ops IH]; intros s m ls types k Hwf Htot Hok.
  { by exists [], m, s, ls, types. }
  apply Forall_cons in Hok as [Hop Hok].
  destruct (registry_step_spec (e k) s m ls types op Hwf Htot Hop)
    as (ret&m1&s1&ls1&types1&Hst&Hsp&Hwf1&Htot1&Heq).
  destruct (IH s1 m1 ls1 types1 (S k) Hwf1 Htot1) as (rets&m'&s'&ls'&types'&Hr&Hs&Hwf').
  { eapply Forall_impl; [done|]. intros []; cbn; [by apply type_of_is_Some|done]. }
  rewrite (spec_registry_run_ext (type_of s)) in Hs by done.
  exists (ret :: rets), m', s', ls', types'. cbn [registry_run spec_registry_run].
  rewrite Hst, Hsp. cbn. rewrite Hr, Hs. by split_and!.
Qed.

End registry_ops.

(** C14: every sequence of registrations and unregistrations refines the abstract
    registry: same results, same pointers in the same order. The slots past the
    count stay NULL, types stay distinct, and at most four slots are ever in
    use, so the "table full" error cannot occur and no slot outside the array is
    touched. *)
Theorem registry_refines {E W P} (e : nat → E) (s : mem E W P) m ls types ops :
  manager_wf s m ls types → heap_cleanup_total s → Forall (registry_op_ok s) ops →
  ∃ rets m' s' ls' types', registry_run e s m ops 0 = Some (rets, m', s') ∧
    spec_registry_run (type_of s) (ls, types) ops = (rets, (ls', types')) ∧
    manager_wf s' m' ls' types' ∧ (length ls' <= 4)%nat.
Proof.
  intros Hwf Htot Hok.
  destruct (registry_run_spec e s m ls types ops 0 Hwf Htot Hok)
    as (rets&m'&s'&ls'&types'&?&?&Hwf').
  exists rets, m', s', ls', types'. split_and!; try done.
  destruct Hwf' as (_&Hty&Hnd). rewrite (Forall2_length _ _ _ Hty). by apply types_length.
Qed.

(** ** A manager with in-memory backends, for the witnesses *)

Definition w_vt : storage_vtable call_env unit mock_storage_private_t := mock_vtable (-99) unit.

(** An object of the mock implementation, registered under a type of choice. *)
Definition w_object (t : storage_backend_type_t) (priv : option mock_storage_private_t)
    : storage_interface_t call_env unit mock_storage_private_t :=
  mk_storage_interface (mk_iface t "MockStorage" priv) w_vt.

(** Location 1: an initialised LOCAL object; location 2: a MOCK one that is not
    initialised; location 3: an initialised MOCK one. *)
Definition w_mem : mem call_env unit mock_storage_private_t :=
  mk_mem (<[1%positive := w_object STORAGE_BACKEND_LOCAL (Some mock_initial_private)]>
         (<[2%positive := w_object STORAGE_BACKEND_MOCK None]>
          {[3%positive := w_object STORAGE_BACKEND_MOCK (Some mock_initial_private)]})) tt.

Lemma w_cleanup_total : heap_cleanup_total w_mem.
Proof.
  intros l b Hl.
  assert (si_vtable b = w_vt) as ->.
  { unfold w_mem in Hl. cbn [mem_heap] in Hl. rewrite !lookup_insert_Some, lookup_singleton_Some in Hl.
    by destruct Hl as [[_ <-]|[_ [[_ <-]|[_ [_ <-]]]]]. }
  intros f [= <-] e w i. cbn. unfold mock_storage_cleanup. destruct (private_of (Some i)); eauto 8.
Qed.

Lemma w_initial_wf {E W P} (s : mem E W P) : manager_wf s manager_initial [] [].
Proof. split; [split_and!; [done|done|cbn; lia]|split; constructor]. Qed.

Lemma registry_refines_witness :
  ∃ rets m' s' ls' types',
    registry_run (λ _, default_env) w_mem manager_initial
      [Register 1; Register 2; Register 3; Unregister STORAGE_BACKEND_NFS;
       Unregister STORAGE_BACKEND_LOCAL] 0 = Some (rets, m', s') ∧
    rets = [0; 0; 0; -7; 0] ∧ ls' = [3%positive] ∧ manager_wf s' m' ls' types'.
Proof.
  destruct (registry_refines (λ _, default_env) w_mem manager_initial [] []
    [Register 1; Register 2; Register 3; Unregister STORAGE_BACKEND_NFS;
     Unregister STORAGE_BACKEND_LOCAL]) as (rets&m'&s'&ls'&types'&Hr&Hs&Hwf&_);
    [apply w_initial_wf|apply w_cleanup_total|repeat constructor; eexists; reflexivity|].
  exists rets, m', s', ls', types'. split; [exact Hr|].
  vm_compute in Hs. injection Hs as <- <- <-. split; [reflexivity|]. split; [reflexivity|exact Hwf].
Defined.

(** ** Routing *)

(** C31: the backend an operation goes to. Whatever the registered backends are, if
    their health checks only report, the choice is the one of the routing policy
    and nothing is modified. The chosen backend is registered and healthy; none is
    chosen exactly when no registered backend is healthy, also when automatic
    failover is switched off; a healthy backend of the primary type is never
    passed over. *)
Theorem select_backend_policy {E W P} (e : nat → E) (s : mem E W P) m ls cs :
  registry m ls → Forall2 (is_candidate s) ls cs →
  ∃ r, select_backend e s m = Some (r, s) ∧ r = spec_select m cs ∧
    (∀ l, r = Some l → l ∈ ls ∧ ∃ t, (l, t, true) ∈ cs) ∧
    (r = None ↔ ∀ l t, (l, t, true) ∉ cs) ∧
    (∀ l, (l, sm_primary_backend m, true) ∈ cs →
       ∃ l', r = Some l' ∧ (l', sm_primary_backend m, true) ∈ cs).
Proof.
  intros Hreg Hcs. exists (spec_select m cs). split; [by apply (select_backend_spec _ _ _ ls)|].
  assert (Hin : ∀ l, spec_select m cs = Some l → ∃ t, (l, t, true) ∈ cs).
  { assert (Hf : ∀ wanted l, first_healthy wanted cs = Some l → ∃ t, (l, t, true) ∈ cs).
    { intros wanted l (t&?&_)%first_healthy_Some. by exists t. }
    intros l. unfold spec_select. destruct (first_healthy _ cs) eqn:H1.
    { intros [= <-]. by eapply Hf. }
    destruct (sm_auto_failover m); [|apply Hf].
    destruct (first_healthy (λ t, bool_decide (t = sm_fallback_backend m)) cs) eqn:H2; [|apply Hf].
    intros [= <-]. by eapply Hf. }
  split_and!; [done| | |].
  - intros l Hl. destruct (Hin l Hl) as [t Ht]. split; [|eauto].
    apply list_elem_of_lookup in Ht as [k Hk].
    destruct (Forall2_lookup_r _ _ _ _ _ Hcs Hk) as (l'&Hl'&(<-&_)). cbn in Hl'.
    by eapply list_elem_of_lookup_2.
  - split.
    + intros Hn l t Hlt. unfold spec_select in Hn.
      assert (Hf : first_healthy (λ _, true) cs = None) by by repeat case_match.
      by apply (proj1 (first_healthy_None _ _) Hf l t) in Hlt.
    + intros Hall. destruct (spec_select m cs) as [l|] eqn:Hs; [|done].
      destruct (Hin l eq_refl) as [t Ht]. by destruct (Hall l t).
  - intros l Hl. unfold spec_select.
    destruct (first_healthy (λ t, bool_decide (t = sm_primary_backend m)) cs) as [l'|] eqn:Hf.
    + exists l'. split; [done|]. apply first_healthy_Some in Hf as (t&Ht&Htt).
      by apply bool_decide_eq_true_1 in Htt as ->.
    + eapply (proj1 (first_healthy_None _ _)) in Hf; [|done].
      by apply bool_decide_eq_false_1 in Hf.
Qed.

(** Primary LOCAL unhealthy (location 2 is not initialised), MOCK healthy. *)
Definition w_degraded : mem call_env unit mock_storage_private_t :=
  mk_mem (<[1%positive := w_object STORAGE_BACKEND_LOCAL None]>
          {[3%positive := w_object STORAGE_BACKEND_MOCK (Some mock_initial_private)]}) tt.

Definition w_two : storage_manager_t :=
  manager_initial <| sm_backends := [Some 1%positive; Some 3%positive] ++ replicate 6 None |>
                  <| sm_backend_count := 2 |> <| sm_auto_failover := false |>.

Lemma select_backend_policy_witness :
  sm_auto_failover w_two = false ∧
  ∃ r, select_backend (λ _, default_env) w_degraded w_two = Some (r, w_degraded) ∧
       r = Some 3%positive.
Proof.
  split; [reflexivity|].
  destruct (select_backend_policy (λ _, default_env) w_degraded w_two [1%positive; 3%positive]
    [(1%positive, STORAGE_BACKEND_LOCAL, false); (3%positive, STORAGE_BACKEND_MOCK, true)])
    as (r&Hr&->&_).
  - split; [reflexivity|]. split; [reflexivity|cbn; lia].
  - constructor; [|constructor; [|constructor]]; (split; [reflexivity|split; [reflexivity|intros e; reflexivity]]).
  - eexists. split; [exact Hr|reflexivity].
Defined.

(** ** Reads and writes through the primary backend *)

(** C5: the manager refines its primary backend's abstract file system. Any
    sequence of reads and writes within the limits, under any answers of the C
    library, returns, and its results are those of a run of the abstract
    system from the files the backend held. *)
Theorem manager_refines_files {E W P} {vt : storage_vtable E W P} {B : StorageBackend vt}
    me (e : nat → nat → E) s m i ops :
  serves s m i → Forall fs_op_ok ops →
  ∃ rs m' s' i', manager_fs_run me e s m ops 0 = Some (rs, m', s') ∧
    fs_trace (served_files s i) ops rs (served_files s' i') ∧ serves s' m' i'.
Proof. apply manager_fs_run_spec. Qed.

(** The contract of the in-memory backend, at a concrete error code. *)
Definition w_backend : StorageBackend w_vt := mock_storage_backend (-99) unit ltac:(discriminate).

(** Location 1 is the LOCAL object, the primary one. *)
Definition w_one : storage_manager_t :=
  manager_initial <| sm_backends := Some 1%positive :: replicate 7 None |>
                  <| sm_backend_count := 1 |>.

Lemma w_one_wf : manager_wf w_mem w_one [1%positive] [STORAGE_BACKEND_LOCAL].
Proof.
  split; [split_and!; [done|done|cbn; lia]|].
  split; [repeat constructor|apply NoDup_singleton].
Qed.

Lemma w_backend_inv t : mock_backend_inv (mk_iface t "MockStorage" (Some mock_initial_private)).
Proof. eexists. split_and!; [done|apply mock_wf_initial|done|done|apply map_Forall_empty]. Qed.

Lemma w_serves :
  serves (B := w_backend) w_mem w_one
    (mk_iface STORAGE_BACKEND_LOCAL "MockStorage" (Some mock_initial_private)).
Proof.
  exists [1%positive], [STORAGE_BACKEND_LOCAL], 0%nat, 1%positive.
  split_and!; [apply w_one_wf|done|done|done|apply w_backend_inv].
Qed.

Definition w_ops : list fs_op :=
  [FsWrite "a" 2 [Byte.x01; Byte.x02]; FsRead "a" 1 3; FsRead "b" 0 1].

Lemma manager_refines_files_witness :
  ∃ rs m' s' i',
    manager_fs_run (λ _, default_env) (λ _ _, default_env) w_mem w_one w_ops 0 = Some (rs, m', s') ∧
    rs = [(0, None); (0, Some [Byte.x00; Byte.x01; Byte.x02]); (-7, Some [Byte.xaa])] ∧
    serves (B := w_backend) s' m' i'.
Proof.
  destruct (manager_refines_files (B := w_backend) (λ _, default_env) (λ _ _, default_env) w_mem
    w_one _ w_ops w_serves) as (rs&m'&s'&i'&Hr&_&Hs').
  { repeat constructor; (by apply (bool_decide_unpack _)) || (vm_compute; discriminate). }
  exists rs, m', s', i'. split; [exact Hr|]. split; [|exact Hs'].
  assert (Hrs : (λ x, x.1.1) <$> manager_fs_run (λ _, default_env) (λ _ _, default_env) w_mem
                  w_one w_ops 0 =
                Some [(0, None); (0, Some [Byte.x00; Byte.x01; Byte.x02]); (-7, Some [Byte.xaa])])
    by (vm_compute; reflexivity).
  rewrite Hr in Hrs. injection Hrs as ->. reflexivity.
Defined.

(** ** Accounting *)

(** What a write through the manager does to its statistics. A NULL argument, a
    zero size or the absence of a healthy backend is reported without counting
    anything; otherwise the one call to the backend is counted exactly once,
    with its bytes when it succeeded and as an error when it did not, and the
    rest of the manager is untouched. *)
Theorem manager_write_accounts {E W P} me (e : nat → E) (s : mem E W P) m path off data size ret mo s' :
  storage_manager_write me e s (Some m) path off data size = Some (ret, mo, s') →
  ∃ m', mo = Some m' ∧
    sm_backends m' = sm_backends m ∧ sm_backend_count m' = sm_backend_count m ∧
    let st := sm_global_stats m in
    let st' := sm_global_stats m' in
    read_ops st' = read_ops st ∧ read_bytes st' = read_bytes st ∧
    ((st' = st ∧ (ret = error_code XDEVICE_ERROR_INVALID_PARAM ∧ (path = None ∨ data = None ∨ size = 0)
                  ∨ ret = error_code XDEVICE_ERROR ∧ select_backend e s m = Some (None, s')))
     ∨ (ret = error_code XDEVICE_OK ∧ write_ops st' = write_ops st ⊞ 1 ∧
        write_bytes st' = write_bytes st ⊞ size ∧ error_count st' = error_count st)
     ∨ (ret ≠ error_code XDEVICE_OK ∧ write_ops st' = write_ops st ∧
        write_bytes st' = write_bytes st ∧ error_count st' = error_count st ⊞ 1)).
Proof.
  intros Hw. unfold storage_manager_write in Hw.
  destruct path as [path|]; [|injection Hw as <- <- <-; exists m; cbv zeta; split_and!; auto 7].
  destruct data as [d|]; [|injection Hw as <- <- <-; exists m; cbv zeta; split_and!; auto 8].
  destruct (size =? 0) eqn:H0; to_prop.
  { injection Hw as <- <- <-; exists m; cbv zeta; split_and!; auto 8. }
  destruct (select_backend e s m) as [[[l|] s1]|] eqn:Hsel; [| |done].
  - cbn in Hw. destruct (mem_heap s1 !! l) as [b|]; [|done]. cbn in Hw.
    destruct (vt_write_sync (si_vtable b)) as [f|]; [|done]. cbn in Hw.
    destruct (f _ _ _ _ _ _ _) as [[[ret' w'] p']|]; [|done]. cbn in Hw.
    destruct (mem_update s1 l b w' p') as [s2|]; [|done]. injection Hw as <- <- <-.
    exists (account m false ret' size me). split; [done|]. unfold account, update_stats.
    destruct (ret' =? XDEVICE_OK) eqn:Hr; to_prop; cbv zeta; cbn; split_and!; auto 8.
  - cbn in Hw. injection Hw as <- <- <-. exists m. cbv zeta. split_and!; auto 9.
Qed.


Lemma manager_write_accounts_witness :
  ∃ m' s', storage_manager_write default_env (λ _, default_env) w_mem (Some w_one)
      (Some "a"%string) 0 (Some [Byte.x01; Byte.x02]) 2 = Some (0, Some m', s') ∧
    sm_backend_count m' = 1.
Proof.
  destruct (manager_write_spec (B := w_backend) default_env (λ _, default_env) w_mem w_one _ "a" 0
    [Byte.x01; Byte.x02] w_serves) as (ret&s'&i'&Hw&_);
    [by apply (bool_decide_unpack _)|lia|done|vm_compute; discriminate|].
  destruct (manager_write_accounts _ _ _ _ _ _ _ _ _ _ _ Hw) as (m'&[= <-]&_&Hc&_).
  assert (Hrs : (λ x, x.1.1) <$> storage_manager_write default_env (λ _, default_env) w_mem
                  (Some w_one) (Some "a"%string) 0 (Some [Byte.x01; Byte.x02]) 2 = Some 0)
    by (vm_compute; reflexivity).
  change 2 with (blen [Byte.x01; Byte.x02]) in *. rewrite Hw in Hrs. injection Hrs as ->.
  do 2 eexists. split; [exact Hw|exact Hc].
Defined.

(** ** Cleanup *)

(** Cleanup returns whatever the registered objects are, leaves no pointer in
    the table, and afterwards nothing can be selected, so reads and writes are
    refused. *)
Theorem manager_cleanup_empties {E W P} (e e' : nat → E) (s : mem E W P) m ls types me path off d :
  manager_wf s m ls types → heap_cleanup_total s → d ≠ [] →
  ∃ m' s', storage_manager_cleanup e s (Some m) = Some (error_code XDEVICE_OK, Some m', s') ∧
    sm_backends m' = replicate 8 None ∧ sm_backend_count m' = 0 ∧ registry m' [] ∧
    storage_manager_write me e' s' (Some m') (Some path) off (Some d) (blen d) =
      Some (error_code XDEVICE_ERROR, Some m', s').
Proof.
  intros (Hreg&Hty&Hnd) Htot Hd. pose proof Hreg as (Hb&Hct&Hle).
  assert (Hlen : length (sm_backends m) = 8%nat).
  { rewrite Hb, length_app, length_fmap, length_replicate. lia. }
  destruct (cleanup_loop_spec e s m ls types (length ls) 0 (sm_backends m))
    as (slots&s'&Hl&_&_&Hlen'&Hslots); [done..|lia|done|done|].
  assert (slots = replicate 8 None) as ->.
  { apply list_eq. intros k. rewrite Hslots. case_decide as Hk.
    - by rewrite lookup_replicate_2 by lia.
    - rewrite Hb, lookup_app_r, length_fmap by (rewrite length_fmap; lia).
      destruct (decide (k < 8)%nat).
      + by rewrite !lookup_replicate_2 by lia.
      + by rewrite !lookup_ge_None_2 by (rewrite length_replicate; lia). }
  unfold storage_manager_cleanup. rewrite Hct, Nat2Z.id, Hl. cbn.
  do 2 eexists. split; [done|]. split_and!; [done|done|split_and!; [done|done|cbn; lia]|].
  unfold storage_manager_write. rewrite (proj2 (Z.eqb_neq _ _)); [done|].
  unfold blen. destruct d; [done|cbn; lia].
Qed.

Lemma manager_cleanup_empties_witness :
  ∃ m' s', storage_manager_cleanup (λ _, default_env) w_mem (Some w_one) = Some (0, Some m', s') ∧
    sm_backend_count m' = 0.
Proof.
  destruct (manager_cleanup_empties (λ _, default_env) (λ _, default_env) w_mem w_one [1%positive]
    [STORAGE_BACKEND_LOCAL] default_env "a" 0 [Byte.x01]) as (m'&s'&H1&_&H2&_);
    [apply w_one_wf|apply w_cleanup_total|discriminate|].
  exists m', s'. split; [exact H1|exact H2].
Defined.

(** ** Departures *)

(** Registering the backend that is already registered reports success but
    destroys it: the replacement runs the cleanup of the object it is about to
    keep. With that backend alone, its files are gone and every later write is
    refused. *)
Theorem reregister_destroys nospace {W} (e : call_env) (s : mem call_env W mock_storage_private_t)
    m l i priv me e' path off d :
  manager_wf s m [l] [if_type i] → if_private i = Some priv → d ≠ [] →
  mem_heap s !! l = Some (mk_storage_interface i (mock_vtable nospace W)) →
  ∃ m' s', storage_manager_register_backend e s (Some m) (Some l) =
      Some (error_code XDEVICE_OK, Some m', s') ∧
    sm_backends m' = sm_backends m ∧ sm_backend_count m' = 1 ∧
    mem_heap s' !! l =
      Some (mk_storage_interface (i <| if_private := None |>) (mock_vtable nospace W)) ∧
    storage_manager_write me e' s' (Some m') (Some path) off (Some d) (blen d) =
      Some (error_code XDEVICE_ERROR, Some m', s').
Proof.
  intros ((Hb&Hc&_)&_&_) Hi Hd Hl. cbn in Hb, Hc.
  set (b := mk_storage_interface i (mock_vtable nospace W)) in *.
  assert (Hat : backend_at s m 0 = Some (l, b)) by (unfold backend_at; rewrite Hb; cbn; by rewrite Hl).
  assert (Hfind : find_type s m (if_type i) 1 0 = Some (Some 0%nat)).
  { cbn. rewrite Hat. cbn. by rewrite decide_True. }
  unfold storage_manager_register_backend, MAX_STORAGE_BACKENDS. rewrite Hc, Hl.
  change (Z.to_nat (Z.of_nat 1)) with 1%nat. cbn [mbind option_bind]. cbn [si_iface b].
  rewrite Hfind. cbn [Z.leb Z.compare mbind option_bind]. rewrite Hat. cbn [mbind option_bind].
  unfold call_cleanup. rewrite Hl. cbn.
  unfold mock_storage_cleanup. cbn. rewrite Hi. cbn.
  set (s' := mk_mem _ _). set (m' := m <| sm_backends := _ |>). exists m', s'.
  assert (Hl' : mem_heap s' !! l =
    Some (mk_storage_interface (i <| if_private := None |>) (mock_vtable nospace W))).
  { cbn. by rewrite lookup_insert_eq. }
  assert (Hbk : sm_backends m' = sm_backends m) by (unfold m'; cbn; by rewrite Hb).
  change (8 <=? Z.of_nat 1) with false. split_and!; [done|done|done|done|].
  unfold storage_manager_write. rewrite (proj2 (Z.eqb_neq _ _)) by (unfold blen; destruct d; [done|cbn; lia]).
  assert (Hreg : registry m' [l]) by (split_and!; [by rewrite Hbk|done|cbn; lia]).
  rewrite (select_backend_spec e' s' m' [l] [(l, if_type i, false)]); [| done |].
  - unfold spec_select. cbn. rewrite !andb_false_r. by destruct (sm_auto_failover m).
  - constructor; [|constructor]. split; [done|]. split; [unfold type_of; by rewrite Hl'|].
    intros e2. unfold call_health. rewrite Hl'. cbn. by rewrite insert_id by done.
Qed.

Lemma reregister_destroys_witness :
  ∃ m' s', storage_manager_register_backend default_env w_mem (Some w_one) (Some 1%positive) =
      Some (error_code XDEVICE_OK, Some m', s') ∧
    storage_manager_write default_env (λ _, default_env) s' (Some m') (Some "a"%string) 0
      (Some [Byte.x01]) 1 = Some (error_code XDEVICE_ERROR, Some m', s').
Proof.
  destruct (reregister_destroys (-99) default_env w_mem w_one 1%positive
    (mk_iface STORAGE_BACKEND_LOCAL "MockStorage" (Some mock_initial_private)) mock_initial_private
    default_env (λ _, default_env) "a" 0 [Byte.x01]) as (m'&s'&H1&_&_&_&H2);
    [apply w_one_wf|reflexivity|discriminate|reflexivity|].
  exists m', s'. split; [exact H1|exact H2].
Defined.
