(* ===== verification/ManagerTypes.v ===== *)
(** * ManagerTypes: the fields of the storage manager keep their C types

    The invariant of the manager's own structure under all of its operations, with no
    assumption on the backends: whatever their function tables hold and whatever a call
    through them returns. *)

From Stdlib Require Import String.
From stdpp Require Import base numbers list strings gmap.
From S2P Require Import XDevice Prelude Libc StorageInterface MockStorage StorageManager ManagerProps.
Local Open Scope Z_scope.

(** Eight slots, a count of them, and counters of 64 bits. *)
Record manager_typed (m : storage_manager_t) : Prop := {
  mt_slots : length (sm_backends m) = 8%nat;
  mt_count : 0 <= sm_backend_count m <= 8;
  mt_stats : stats_u64 (sm_global_stats m)
}.

Lemma manager_initial_typed : manager_typed manager_initial.
Proof. split; [done|done|apply stats_u64_zero]. Qed.

Lemma account_typed m is_read ret size me : manager_typed m → manager_typed (account m is_read ret size me).
Proof. intros []. unfold account, update_stats. split_ifs; split; cbn; auto with xdev. Qed.

#[local] Hint Resolve manager_initial_typed account_typed : core.

Section operations.
Context {E W P : Type}.
Implicit Types (s : mem E W P) (m : storage_manager_t).

(** A call of the manager, other than its initialisation. *)
Inductive manager_op : Type :=
| MRegister (backend : option loc)
| MUnregister (type : storage_backend_type_t)
| MRead (path : option string) (offset : Z) (buffer : option block) (size : Z)
| MWrite (path : option string) (offset : Z) (data : option block) (size : Z)
| MSync (path : option string)
| MCleanup.

(** The result, the structure behind the manager pointer and the memory. *)
Definition manager_step (me : call_env) (e : nat → E) s m (op : manager_op)
    : option (Z * option storage_manager_t * mem E W P) :=
  match op with
  | MRegister backend => storage_manager_register_backend (e 0%nat) s (Some m) backend
  | MUnregister type => storage_manager_unregister_backend (e 0%nat) s (Some m) type
  | MRead path offset buffer size =>
      '(ret, mo, s, _) ← storage_manager_read me e s (Some m) path offset buffer size; Some (ret, mo, s)
  | MWrite path offset data size => storage_manager_write me e s (Some m) path offset data size
  | MSync path => '(ret, s) ← storage_manager_sync e s (Some m) path; Some (ret, Some m, s)
  | MCleanup => storage_manager_cleanup e s (Some m)
  end.

Fixpoint manager_run (me : nat → call_env) (e : nat → nat → E) s m (ops : list manager_op) (k : nat)
    : option (list Z * storage_manager_t * mem E W P) :=
  match ops with
  | [] => Some ([], m, s)
  | op :: ops =>
      '(ret, mo, s) ← manager_step (me k) (e k) s m op;
      m ← mo;
      '(rets, m, s) ← manager_run me e s m ops (S k);
      Some (ret :: rets, m, s)
  end.

(** The search stops behind the last occupied slot. *)
Lemma find_type_bound s m type n i j :
  find_type s m type n i = Some (Some j) → (i <= j < i + n)%nat.
Proof.
  revert i. induction n as [|n IH]; intros i; cbn; [done|].
  destruct (backend_at s m i) as [[l b]|]; [cbn|done]. case_decide; [intros [= <-]; lia|].
  intros Hf%IH. lia.
Qed.

Lemma shift_down_length slots n j slots' :
  shift_down slots n j = Some slots' → length slots' = length slots.
Proof.
  revert slots j. induction n as [|n IH]; intros slots j; cbn; [by intros [= <-]|].
  destruct (slots !! S j) as [next|]; [cbn|done]. intros ->%IH. apply length_insert.
Qed.

Lemma cleanup_loop_length e s slots n i slots' s' :
  cleanup_loop e s slots n i = Some (slots', s') → length slots' = length slots.
Proof.
  revert s slots i. induction n as [|n IH]; intros s slots i; cbn; [by intros [= <- _]|].
  destruct (slots !! i) as [[l|]|]; cbn; [destruct (call_cleanup _ _ _); [cbn|done]| |done];
    intros ->%IH; apply length_insert.
Qed.

Lemma register_typed e s m backend ret mo s' :
  manager_typed m → storage_manager_register_backend e s (Some m) backend = Some (ret, mo, s') →
  ∃ m', mo = Some m' ∧ manager_typed m'.
Proof.
  intros Hm. pose proof Hm as [Hs Hc Hst]. unfold storage_manager_register_backend, MAX_STORAGE_BACKENDS.
  destruct backend as [l|]; [|intros [= _ <- _]; eauto].
  destruct (8 <=? sm_backend_count m) eqn:Hfull; to_prop; [intros [= _ <- _]; eauto|].
  destruct (mem_heap s !! l) as [b|]; cbn; [|done].
  destruct (find_type _ _ _ _ _) as [[i|]|]; cbn; [| |done].
  - destruct (backend_at s m i) as [[old ?]|]; cbn; [|done].
    destruct (call_cleanup e s old); cbn; [|done]. intros [= _ <- _]. eexists. split; [done|].
    split; cbn; [by rewrite length_insert|done|done].
  - intros [= _ <- _]. eexists. split; [done|].
    split; cbn; [by rewrite length_insert|rewrite wrap32_small; unfold u32; lia|done].
Qed.

Lemma unregister_typed e s m type ret mo s' :
  manager_typed m → storage_manager_unregister_backend e s (Some m) type = Some (ret, mo, s') →
  ∃ m', mo = Some m' ∧ manager_typed m'.
Proof.
  intros Hm. pose proof Hm as [Hs Hc Hst]. unfold storage_manager_unregister_backend.
  destruct (find_type _ _ _ _ _) as [[i|]|] eqn:Hf; cbn; [|intros [= _ <- _]; eauto|done].
  apply find_type_bound in Hf.
  destruct (backend_at s m i) as [[l ?]|]; cbn; [|done].
  destruct (call_cleanup e s l) as [s1|]; cbn; [|done].
  destruct (shift_down _ _ _) as [slots|] eqn:Hsh; cbn; [|done]. apply shift_down_length in Hsh.
  intros [= _ <- _]. eexists. split; [done|].
  split; cbn; [by rewrite length_insert, Hsh|rewrite wrap32_small; unfold u32; lia|done].
Qed.

Lemma transfer_typed me e s m op ret mo s' :
  manager_typed m → manager_step me e s m op = Some (ret, mo, s') →
  match op with MRead _ _ _ _ | MWrite _ _ _ _ => True | _ => False end →
  ∃ m', mo = Some m' ∧ manager_typed m'.
Proof.
  intros Hm Hst Hop. destruct op as [| |path offset buf size|path offset buf size| |]; try done;
    cbn in Hst; unfold storage_manager_read, storage_manager_write in Hst;
    destruct path as [path|], buf as [buf|]; cbn in Hst; try (injection Hst as _ <- _; by eauto);
    (destruct (size =? 0); cbn in Hst; [injection Hst as _ <- _; by eauto|]);
    (destruct (select_backend e s m) as [[[l|] s1]|]; cbn in Hst; [|injection Hst as _ <- _; by eauto|done]);
    (destruct (mem_heap s1 !! l) as [b|]; cbn in Hst; [|done]).
  - destruct (vt_read_sync _) as [f|]; cbn in Hst; [|done].
    destruct (f _ _ _ _ _ _ _) as [[[[r w] p] bf]|]; cbn in Hst; [|done].
    destruct (mem_update _ _ _ _ _); cbn in Hst; [|done]. injection Hst as _ <- _. eauto.
  - destruct (vt_write_sync _) as [f|]; cbn in Hst; [|done].
    destruct (f _ _ _ _ _ _ _) as [[[r w] p]|]; cbn in Hst; [|done].
    destruct (mem_update _ _ _ _ _); cbn in Hst; [|done]. injection Hst as _ <- _. eauto.
Qed.

Lemma manager_step_typed me e s m op ret mo s' :
  manager_typed m → manager_step me e s m op = Some (ret, mo, s') →
  ∃ m', mo = Some m' ∧ manager_typed m'.
Proof.
  intros Hm Hst. destruct op; try (by eapply (transfer_typed me e s m)).
  - by eapply register_typed.
  - by eapply unregister_typed.
  - cbn in Hst. destruct (storage_manager_sync _ _ _ _) as [[r s1]|]; cbn in Hst; [|done].
    injection Hst as _ <- _. eauto.
  - cbn in Hst. unfold storage_manager_cleanup in Hst.
    destruct (cleanup_loop _ _ _ _ _) as [[slots s1]|] eqn:Hl; cbn in Hst; [|done].
    apply cleanup_loop_length in Hl. injection Hst as _ <- _. eexists. split; [done|].
    destruct Hm. split; cbn; [by rewrite Hl|lia|done].
Qed.

(** C36: the manager's structure keeps its types. Initialised by [storage_manager_init],
    and after any sequence of calls with any arguments over any backends, it has eight
    slots, its count is between 0 and 8, and its counters are 64-bit numbers. *)
Theorem manager_fields_typed e0 m0 ret0 m (me : nat → call_env) (e : nat → nat → E) s ops rets m' s' :
  storage_manager_init e0 (Some m0) = (ret0, Some m) →
  manager_run me e s m ops 0 = Some (rets, m', s') →
  manager_typed m'.
Proof.
  intros Hi. assert (Hm : manager_typed m).
  { cbn in Hi. destruct (mutex_init_ok e0 0); injection Hi as _ <-; auto. }
  clear Hi. generalize 0%nat as k. revert s m Hm rets m' s'.
  induction ops as [|op ops IH]; intros s m Hm rets m' s' k; cbn; [by intros [= _ <- _]|].
  destruct (manager_step (me k) (e k) s m op) as [[[ret mo] s1]|] eqn:Hst; cbn; [|done].
  destruct (manager_step_typed _ _ _ _ _ _ _ _ Hm Hst) as (m1&->&Hm1). cbn.
  destruct (manager_run me e s1 m1 ops (S k)) as [[[rets' m2] s2]|] eqn:Hr; cbn; [|done].
  intros [= _ <- _]. by eapply IH.
Qed.

End operations.

(** Two registrations, a write that succeeds, a read of nothing, and a removal. *)
Definition w_calls : list manager_op :=
  [MRegister (Some 1%positive); MRegister (Some 2%positive);
   MWrite (Some "a"%string) 0 (Some [Byte.x01]) 1; MRead None 0 None 5;
   MUnregister STORAGE_BACKEND_MOCK].

(** The types after those calls, when they all return. *)
Lemma manager_fields_typed_witness : ∃ rets m' s',
  manager_run (λ _, default_env) (λ _ _, default_env) w_mem manager_initial w_calls 0 =
    Some (rets, m', s') ∧
  rets = [0; 0; 0; -2; 0] ∧ manager_typed m'.
Proof.
  assert (Hr : (λ r, r.1.1) <$> manager_run (λ _, default_env) (λ _ _, default_env) w_mem manager_initial
    w_calls 0 = Some [0; 0; 0; -2; 0]) by (vm_compute; reflexivity).
  destruct (manager_run _ _ _ _ _ _) as [[[rets m'] s']|] eqn:Hrun; [|discriminate Hr].
  injection Hr as ->. exists [0; 0; 0; -2; 0], m', s'. split; [reflexivity|]. split; [reflexivity|].
  exact (manager_fields_typed default_env manager_initial 0 manager_initial (λ _, default_env)
    (λ _ _, default_env) w_mem w_calls _ m' s' ltac:(reflexivity) Hrun).
Defined.
