(* ===== verification/ManagerThreads.v ===== *)
(** * ManagerThreads: concurrent calls of the storage manager ([src/storage/storage_manager.c])

    A transfer through the manager chooses a backend without a lock, calls it, and takes
    [stats_lock] only to count the result. Here a transfer is these three steps, and
    the transfers of several threads are interleaved in any way; a backend's call is one
    step ([MockThreads] is about the inside of it). [StorageManager] has a transfer as
    one step. The last part is about the registry, which no lock protects: what the removal
    of a backend by another thread does to a choice that is under way. *)

From stdpp Require Import base numbers list strings gmap.
From S2P Require Import XDevice Prelude Workers Libc StorageInterface Counters StorageSpec.
From S2P Require Import MockStorage MockBackend MockProps StorageManager ManagerClient ManagerProps.
Local Open Scope Z_scope.

(** ** A transfer in steps *)

Section calls.
Context {E W P : Type}.

(** A transfer, with the environments of the manager and of its backend calls. *)
Record manager_call := mk_manager_call {
  mc_own : call_env;
  mc_backend : nat → E;
  mc_op : fs_op
}.

Definition mc_size (c : manager_call) : Z :=
  match mc_op c with FsWrite _ _ d => blen d | FsRead _ _ n => n end.

Definition mc_is_read (c : manager_call) : bool :=
  match mc_op c with FsWrite _ _ _ => false | FsRead _ _ _ => true end.

(** The buffer of a read, with unspecified content. *)
Definition mc_buffer (c : manager_call) : option block :=
  match mc_op c with
  | FsWrite _ _ _ => None
  | FsRead _ _ n => Some (junk (mc_own c) <$> seq 0 (Z.to_nat n))
  end.

(** What the call has still to do. *)
Inductive manager_stage : Type :=
| AtTransfer (l : loc)
| AtCount (r : fs_result)
| AtReturn (r : fs_result).

Record manager_state := mk_manager_state { ms_mem : mem E W P; ms_manager : storage_manager_t }.

(** The update of the statistics after a backend call that returned [ret]. *)
Definition count_of (c : manager_call) (ret : Z) : stat_update :=
  let lat := latency_ns (clock_start (mc_own c)) (clock_end (mc_own c)) in
  if ret =? XDEVICE_OK then
    if mc_is_read c then CountRead (mc_size c) lat else CountWrite (mc_size c) lat
  else CountError.

(** The checks of the arguments and [select_backend]. *)
Definition manager_begin (c : manager_call) (s : manager_state) : option (manager_state * manager_stage) :=
  if mc_size c =? 0 then Some (s, AtReturn (error_code XDEVICE_ERROR_INVALID_PARAM, mc_buffer c))
  else
    '(backend, mem) ← select_backend (mc_backend c) (ms_mem s) (ms_manager s);
    Some (mk_manager_state mem (ms_manager s),
          match backend with
          | None => AtReturn (error_code XDEVICE_ERROR, mc_buffer c)
          | Some l => AtTransfer l
          end).

(** The call of the backend, and the statistics. *)
Definition manager_go_on (c : manager_call) (g : manager_stage) (s : manager_state)
    : option (manager_state * (manager_stage + fs_result)) :=
  match g with
  | AtTransfer l =>
      b ← mem_heap (ms_mem s) !! l;
      '(ret, w, p, buffer) ←
        match mc_op c with
        | FsWrite path off d =>
            f ← vt_write_sync (si_vtable b);
            '(ret, w, p) ← f (mc_backend c 24%nat) (mem_world (ms_mem s)) (Some (si_iface b)) (Some path) off
                             (Some d) (blen d);
            Some (ret, w, p, None)
        | FsRead path off n =>
            f ← vt_read_sync (si_vtable b);
            f (mc_backend c 24%nat) (mem_world (ms_mem s)) (Some (si_iface b)) (Some path) off (mc_buffer c) n
        end;
      mem ← mem_update (ms_mem s) l b w p;
      Some (mk_manager_state mem (ms_manager s), inl (AtCount (ret, buffer)))
  | AtCount r =>
      let m := ms_manager s in
      Some (mk_manager_state (ms_mem s)
              (m <| sm_global_stats := count_update (count_of c r.1) (sm_global_stats m) |>), inr r)
  | AtReturn r => Some (s, inr r)
  end.

(** Once the backend has been called the call has taken effect, but for the statistics. *)
Definition manager_effect (g : manager_stage) : option fs_result :=
  match g with AtTransfer _ => None | AtCount r | AtReturn r => Some r end.

Definition manager_left (g : manager_stage) : nat := match g with AtTransfer _ => 2 | _ => 1 end.

Lemma manager_bounded : bounded manager_begin manager_go_on 3 manager_left.
Proof.
  split.
  - intros c s s' g _. by destruct g; cbn; lia.
  - intros c g s s' g'. destruct g as [l|r|r]; cbn; [|done..].
    destruct (mem_heap (ms_mem s) !! l) as [b|]; [|done]. cbn. destruct (match mc_op c with FsWrite _ _ _ => _ | FsRead _ _ _ => _ end)
      as [[[[ret w] p] buf]|]; [|done]. cbn. destruct (mem_update _ _ _ _ _); [|done]. cbn. intros [= _ <-]. cbn. lia.
  - intros []; cbn; lia.
Qed.

(** ** The steps make the call *)

Lemma account_count c m ret :
  account m (mc_is_read c) ret (mc_size c) (mc_own c) =
    m <| sm_global_stats := count_update (count_of c ret) (sm_global_stats m) |>.
Proof. unfold account, count_of, update_stats. by destruct (ret =? _), (mc_is_read c). Qed.

(** The steps of a call without another thread in between. *)
Definition manager_alone (c : manager_call) (s : manager_state) : option (fs_result * manager_state) :=
  '(s, g) ← manager_begin c s;
  '(s, o) ← manager_go_on c g s;
  match o with
  | inr r => Some (r, s)
  | inl g => '(s, o) ← manager_go_on c g s; match o with inr r => Some (r, s) | inl _ => None end
  end.

Lemma manager_transfer_alone c s :
  manager_fs_op (mc_own c) (mc_backend c) (ms_mem s) (ms_manager s) (mc_op c) =
    ('(r, s) ← manager_alone c s; Some (r, Some (ms_manager s), ms_mem s)).
Proof.
  destruct c as [me e [path off d|path off n]], s as [s m]; unfold manager_alone, manager_begin;
    cbn [manager_fs_op mc_op mc_size mc_own mc_backend ms_mem ms_manager].
  - unfold storage_manager_write. destruct (blen d =? 0); [done|].
    destruct (select_backend e s m) as [[[l|] s1]|]; [|done..]. cbn.
    destruct (mem_heap s1 !! l) as [b|]; [|done]. cbn. destruct (vt_write_sync _) as [f|]; [|done]. cbn.
    destruct (f _ _ _ _ _ _ _) as [[[ret w] p]|]; [|done]. cbn. destruct (mem_update _ _ _ _ _) as [s2|]; [|done].
    cbn. do 4 f_equal. exact (account_count (mk_manager_call me e (FsWrite path off d)) m ret).
  - unfold storage_manager_read. destruct (n =? 0); [done|].
    destruct (select_backend e s m) as [[[l|] s1]|]; [|done..]. cbn.
    destruct (mem_heap s1 !! l) as [b|]; [|done]. cbn. destruct (vt_read_sync _) as [f|]; [|done]. cbn.
    destruct (f _ _ _ _ _ _ _) as [[[[ret w] p] buf]|]; [|done]. cbn. destruct (mem_update _ _ _ _ _) as [s2|]; [|done].
    cbn. do 4 f_equal. exact (account_count (mk_manager_call me e (FsRead path off n)) m ret).
Qed.

End calls.
Arguments manager_call : clear implicits.
Arguments manager_state : clear implicits.

(** ** Transfers over a backend that keeps the contract *)

Section contract.
Context {E W P : Type} {vt : storage_vtable E W P} {B : StorageBackend vt}.

(** The abstract files and the statistics: a call makes a step of the abstract file
    system and is counted. *)
Definition manager_spec (q : gmap string block * storage_stats_t) (c : manager_call E) (r : fs_result)
    (q' : gmap string block * storage_stats_t) : Prop :=
  fs_step q.1 (mc_op c) r q'.1 ∧ q'.2 = count_update (count_of c r.1) q.2.

(** The registered primary object [i], at [l]. *)
Definition primary (ls : list loc) (types : list storage_backend_type_t) (l : loc) (s : manager_state E W P)
    (i : iface P) : Prop :=
  manager_wf (ms_mem s) (ms_manager s) ls types ∧
  (∃ k : nat, ls !! k = Some l ∧ types !! k = Some (sm_primary_backend (ms_manager s))) ∧
  mem_heap (ms_mem s) !! l = Some (mk_storage_interface i vt) ∧ st_inv (mem_world (ms_mem s)) i.

Lemma serves_primary s m i :
  serves s m i ↔ ∃ ls types l, primary ls types l (mk_manager_state s m) i.
Proof.
  split.
  - intros (ls&types&k&l&?&?&?&?&?). exists ls, types, l. split_and!; eauto.
  - intros (ls&types&l&?&(k&?&?)&?&?). by exists ls, types, k, l.
Qed.

Definition manager_pending (x : manager_call E * manager_stage) : option stat_update :=
  match x.2 with AtCount r => Some (count_of x.1 r.1) | _ => None end.

Definition manager_worker_ok (l : loc) (wk : worker (manager_call E) manager_stage fs_result) : Prop :=
  Forall (λ c, fs_op_ok (mc_op c)) (wk_todo wk) ∧
  match wk_now wk with
  | Some (c, g) => fs_op_ok (mc_op c) ∧ match g with AtTransfer l' => l' = l | AtCount _ => True | AtReturn _ => False end
  | None => True
  end.

Record manager_rel (ls : list loc) (types : list storage_backend_type_t) (l : loc)
    (s : conc (manager_state E W P) (manager_call E) manager_stage fs_result)
    (q : gmap string block * storage_stats_t) : Prop := {
  mr_workers : Forall (manager_worker_ok l) (cc_workers s);
  mr_primary : ∃ i, primary ls types l (cc_state s) i ∧ q.1 = st_files (mem_world (ms_mem (cc_state s))) i;
  mr_stats : same_counters q.2 (update_all (all_pending manager_pending (cc_workers s))
                                  (sm_global_stats (ms_manager (cc_state s))))
}.

(** The choice is the primary backend, and changes nothing. *)
Lemma select_step ls types l c s i :
  primary ls types l s i → fs_op_ok (mc_op c) → manager_begin c s = Some (s, AtTransfer l).
Proof.
  intros (Hwf&(k&Hk&Ht)&Hl&Hinv) Hok. unfold manager_begin.
  rewrite (proj2 (Z.eqb_neq _ _)) by (unfold mc_size; destruct (mc_op c); destruct Hok as (_&_&?&_); lia).
  rewrite (select_primary _ _ _ ls types k l) by (done || by eapply call_health_inv). by destruct s.
Qed.

(** The call of the backend is a step of the abstract file system. *)
Lemma backend_step ls types l c s i :
  primary ls types l s i → fs_op_ok (mc_op c) →
  ∃ r s' i', manager_go_on c (AtTransfer l) s = Some (s', inl (AtCount r)) ∧
    primary ls types l s' i' ∧ ms_manager s' = ms_manager s ∧
    fs_step (st_files (mem_world (ms_mem s)) i) (mc_op c) r (st_files (mem_world (ms_mem s')) i').
Proof.
  intros ((Hreg&Hty&Hnd)&Hk&Hl&Hinv) Hok.
  assert (Hnext : ∀ w i', st_inv w i' → if_type i' = if_type i →
    primary ls types l (mk_manager_state (mk_mem (<[l := mk_storage_interface i' vt]> (mem_heap (ms_mem s))) w)
                          (ms_manager s)) i').
  { intros w i' Hinv' Hti. split_and!; [|done|cbn; by rewrite lookup_insert_eq|done]. split_and!; [done| |done].
    eapply types_update; [|done]. intros l'. by apply (type_of_update _ l (mk_storage_interface i vt) w i'). }
  unfold manager_go_on. rewrite Hl. cbn [mbind option_bind si_vtable si_iface]. unfold mc_buffer, mc_op in *.
  destruct c as [me e [path off d|path off n]]; cbn [mc_own mc_backend] in *; destruct Hok as (Hp&Hoff&Hn&Hlim).
  - destruct (st_write (e 24%nat) (mem_world (ms_mem s)) i path off d Hinv Hp Hoff Hn Hlim)
      as (f&ret&w'&i'&Hf&Hcall&Hinv'&Hti&Hout&_).
    rewrite Hf. cbn [mbind option_bind]. rewrite Hcall. cbn.
    do 2 eexists. exists i'. split; [reflexivity|]. split_and!; [by apply Hnext|done|].
    cbn. destruct Hout as [[-> ->]|[Hr ->]]; by constructor.
  - assert (Hbuf : blen (junk me <$> seq 0 (Z.to_nat n)) = n) by (unfold blen; rewrite length_fmap, length_seq; lia).
    destruct (st_read (e 24%nat) (mem_world (ms_mem s)) i path off n _ Hinv Hp Hoff Hn Hlim Hbuf)
      as (f&ret&w'&i'&buf'&Hf&Hcall&Hinv'&Hti&Hfs&Hlen&Hfull&Hpast).
    rewrite Hf. cbn [mbind option_bind]. rewrite Hcall. cbn.
    do 2 eexists. exists i'. split; [reflexivity|]. split_and!; [by apply Hnext|done|].
    cbn. rewrite Hfs. by apply read_outcome_step.
Qed.

(** Counting touches the statistics only. *)
Lemma count_primary ls types l s i st :
  primary ls types l s i →
  primary ls types l (mk_manager_state (ms_mem s) ((ms_manager s) <| sm_global_stats := st |>)) i.
Proof. intros (?&?&?&?). by split_and!. Qed.

(** A step of a worker that has nothing new to count. *)
Lemma rel_step ls types l s q k wk wk' st' i :
  manager_rel ls types l s q → cc_workers s !! k = Some wk → manager_worker_ok l wk' →
  primary ls types l st' i → q.1 = st_files (mem_world (ms_mem st')) i →
  sm_global_stats (ms_manager st') = sm_global_stats (ms_manager (cc_state s)) →
  pending_of manager_pending wk' = pending_of manager_pending wk →
  manager_rel ls types l (mk_conc st' (<[k := wk']> (cc_workers s))) q.
Proof.
  intros [Hw _ Hst] Hk Hok Hpr Hq Hsame Hpend. split; [by apply Forall_insert|by exists i|]. cbn [cc_state cc_workers].
  destruct (all_pending_insert manager_pending (cc_workers s) k wk wk' Hk) as [H1 H2].
  rewrite Hpend, <- H1 in H2. by rewrite Hsame, (update_all_permutation _ _ _ H2).
Qed.

Lemma manager_simulates ls types l :
  simulates manager_begin manager_go_on manager_effect manager_spec (manager_rel ls types l).
Proof.
  intros s q k Hr. pose proof Hr as [Hw (i&Hpr&Hq) Hst]. unfold conc_step.
  destruct (cc_workers s !! k) as [wk|] eqn:Hk; cbn [mbind option_bind].
  2: { exists s, [], q. split_and!; [done|constructor|done|apply follows_refl]. }
  destruct (Forall_lookup_1 _ _ _ _ Hw Hk) as [Htodo Hnow]. unfold worker_step.
  destruct wk as [todo [[c g]|] d]; cbn [wk_now wk_todo wk_done] in *.
  - destruct Hnow as [Hok Hg]. destruct g as [l'|r|r]; [subst l'| |done].
    + destruct (backend_step ls types l c (cc_state s) i Hpr Hok) as (r&s'&i'&->&Hpr'&Hm&Hfs).
      cbn [mbind option_bind]. eexists _, [(k, (c, r))], (st_files (mem_world (ms_mem s')) i', count_update (count_of c r.1) q.2).
      split_and!; [reflexivity|apply spec_run_one; split; [by rewrite Hq|done]| |apply (follows_step _ s k _ _ _ [(c, r)] Hk); solve_follows].
      set (wk' := mk_worker _ _ _). set (wk0 := mk_worker _ _ _) in Hk.
      destruct (all_pending_insert manager_pending (cc_workers s) k wk0 wk' Hk) as [H1 H2]. cbn in H1, H2.
      split; [by apply Forall_insert|by exists i'|]. cbn [cc_state cc_workers snd].
      rewrite Hm, (update_all_permutation _ _ _ H2), Hst, (update_all_permutation _ _ _ H1). done.
    + cbn [manager_go_on mbind option_bind]. set (u := count_of c r.1). eexists _, [], q.
      split_and!; [reflexivity|constructor| |apply (follows_step _ s k _ _ _ [] Hk); solve_follows].
      set (wk' := mk_worker _ _ _). set (wk0 := mk_worker _ _ _) in Hk.
      destruct (all_pending_insert manager_pending (cc_workers s) k wk0 wk' Hk) as [H1 H2]. cbn in H1, H2.
      split; [by apply Forall_insert|exists i; split; [by apply count_primary|done]|]. cbn [cc_state cc_workers ms_manager sm_global_stats].
      rewrite (update_all_permutation _ _ _ H2), Hst, (update_all_permutation _ _ _ H1). apply update_all_snoc.
  - destruct todo as [|c todo].
    { cbn [mbind option_bind]. rewrite list_insert_id by done. exists s, [], q.
      split_and!; [by destruct s|constructor|done|apply follows_refl]. }
    apply Forall_cons in Htodo as [Hok Htodo].
    rewrite (select_step ls types l c (cc_state s) i Hpr Hok). cbn [mbind option_bind]. eexists _, [], q.
    split_and!; [reflexivity|constructor|by eapply rel_step|apply (follows_step _ s k _ _ _ [] Hk); solve_follows].
Qed.

(** A run of the calls is a run of the abstract file system, and counts each of them. *)
Lemma manager_spec_run q evs q' :
  spec_run manager_spec q evs q' →
  fs_trace q.1 (mc_op <$> evs.*1) evs.*2 q'.1 ∧
  q'.2 = foldl (λ st ev, count_update (count_of ev.1 ev.2.1) st) q.2 evs.
Proof.
  induction 1 as [q|q c r q1 evs q' [Hfs Hst] _ [IHfs IHst]]; [by split; [constructor|]|].
  split; [by econstructor|]. cbn. by rewrite IHst, Hst.
Qed.

(** C9: transfers of any number of threads through one manager, over a primary backend
    that keeps the contract and while no backend is registered or removed. In any
    interleaving that gives every thread its three steps per call (the choice of the
    backend, its call, the count) all calls return; their results are those of a run of
    the abstract file system, in an order that keeps the order of each thread, and the
    manager's counters are those of counting each result once. (The average latencies
    can differ.) *)
Theorem manager_concurrent_transfers (s : mem E W P) m i (todos : list (list (manager_call E))) sched :
  serves s m i → Forall (Forall (λ c, fs_op_ok (mc_op c))) todos → fair 3 todos sched →
  ∃ c evs i',
    conc_run manager_begin manager_go_on (conc_start (mk_manager_state s m) todos) sched = Some c ∧
    all_returned todos c evs ∧
    let s' := ms_mem (cc_state c) in let m' := ms_manager (cc_state c) in
    let calls := evs.*2 in
    serves s' m' i' ∧
    fs_trace (served_files s i) (mc_op <$> calls.*1) calls.*2 (served_files s' i') ∧
    same_counters (sm_global_stats m')
      (foldl (λ st x, count_update (count_of x.1 x.2.1) st) (sm_global_stats m) calls).
Proof.
  intros Hs Hok Hfair. apply serves_primary in Hs as (ls&types&l&Hpr).
  assert (Hrel : manager_rel ls types l (conc_start (mk_manager_state s m) todos) (served_files s i, sm_global_stats m)).
  { split; [|by exists i|cbn [cc_state ms_manager]; by rewrite fresh_pending].
    apply Forall_fmap. eapply Forall_impl; [exact Hok|]. by intros todo Htodo. }
  destruct (conc_run_sim _ _ _ _ _ _ _ sched (manager_simulates ls types l) Hrel)
    as (c&evs&[fs st]&Hrun&Hspec&[_ (i'&Hpr'&Hfs) Hst]&Hfol). cbn in Hfs, Hst.
  assert (Hret : all_returned todos c evs) by (eapply run_returns; [apply manager_bounded|done|lia|done|done]).
  apply manager_spec_run in Hspec as [Htr Hcount]. cbn in Htr, Hcount.
  exists c, evs, i'. split; [done|]. split; [exact Hret|]. cbn zeta. split_and!.
  - apply serves_primary. exists ls, types, l. by destruct (cc_state c).
  - unfold served_files. rewrite <- Hfs. exact Htr.
  - rewrite <- Hcount, Hst, (nothing_pending _ _ _ _ Hret). done.
Qed.

End contract.

(** ** The registry *)

Section races.
Context {E W P : Type}.

(** A pass over [a + b] slots is one over [a] slots and, when that found nothing, one
    over the others. *)
Lemma select_pass_app (e : nat → E) (s : mem E W P) m wanted a b i :
  select_pass e s m wanted (a + b) i =
    '(found, s) ← select_pass e s m wanted a i;
    match found with
    | Some l => Some (Some l, s)
    | None => select_pass e s m wanted b (i + a)
    end.
Proof.
  revert s i. induction a as [|a IH]; intros s i; [by rewrite Nat.add_0_r|]. cbn [Nat.add select_pass].
  destruct (backend_at s m i) as [[l b']|]; [|done]. cbn. rewrite <- Nat.add_succ_comm.
  destruct (wanted _); [|apply IH]. destruct (call_health _ _ _) as [[[] s1]|]; [done|apply IH|done].
Qed.

(** C26: the loops of [select_backend] compare an index with [backend_count] and then
    follow the pointer in that slot, without a lock. When a pass has found nothing in the
    slots before the last, it goes on with that one, which is there; but if another
    thread unregisters any backend just then, the pass follows the NULL that the removal
    has left behind. (The unlocked accesses are a data race, undefined in C in every
    order; this is one order of them in which they end at NULL.) *)
Theorem manager_unregister_race (e : E) (eh : nat → E) (s : mem E W P) m ls types t wanted :
  manager_wf s m ls types → heap_cleanup_total s → t ∈ types →
  let last := (length ls - 1)%nat in
  select_pass eh s m wanted last 0 = Some (None, s) →
  select_pass eh s m wanted (Z.to_nat (sm_backend_count m)) 0 = select_pass eh s m wanted 1 last ∧
  backend_at s m last ≠ None ∧
  ∃ m' s', storage_manager_unregister_backend e s (Some m) t =
      Some (error_code XDEVICE_OK, Some m', s') ∧
    select_pass eh s' m' wanted 1 last = None.
Proof.
  intros Hwf Htot [i Hi]%list_elem_of_lookup last Hpass. pose proof Hwf as ((Hb&Hct&Hle)&Hty&Hnd).
  pose proof (Forall2_length _ _ _ Hty) as Hlen. pose proof (lookup_lt_Some _ _ _ Hi) as Hlt.
  split; [|split].
  - replace (Z.to_nat (sm_backend_count m)) with (last + 1)%nat by lia. by rewrite select_pass_app, Hpass.
  - destruct (lookup_lt_is_Some_2 types last) as [t' Ht']; [lia|].
    destruct (backend_at_spec s m ls types last t') as (l&b&->&_); [|done..]. by split_and!.
  - destruct (unregister_spec e s m ls types t Hwf Htot) as [Hun _].
    destruct (Hun i Hi) as (m'&s'&Hcall&((Hb'&_&_)&_&_)&_). exists m', s'. split; [exact Hcall|].
    assert (Hnull : sm_backends m' !! last = Some None).
    { rewrite Hb', lookup_app_r by (rewrite length_fmap, length_delete by (apply lookup_lt_is_Some; lia); lia).
      rewrite length_fmap, length_delete by (apply lookup_lt_is_Some; lia). apply lookup_replicate_2. lia. }
    cbn [select_pass]. unfold backend_at. by rewrite Hnull.
Qed.

End races.

(** ** Witnesses *)

Definition w_call (op : fs_op) : manager_call call_env := mk_manager_call default_env (λ _, default_env) op.

Definition w_manager_calls : list (list (manager_call call_env)) :=
  [[w_call (FsWrite "a" 0 [Byte.x01; Byte.x02]); w_call (FsRead "a" 0 2)]; [w_call (FsWrite "a" 1 [Byte.x03])]].

Definition w_manager_schedule : list nat := [0; 1; 0; 1; 0; 0; 1; 0; 0]%nat.

Lemma manager_concurrent_transfers_witness :
  ∃ c evs i', conc_run manager_begin manager_go_on (conc_start (mk_manager_state w_mem w_one) w_manager_calls) w_manager_schedule =
      Some c ∧ all_returned w_manager_calls c evs ∧
    serves (B := w_backend) (ms_mem (cc_state c)) (ms_manager (cc_state c)) i' ∧
    wk_done <$> cc_workers c = [[(0, None); (0, Some [Byte.x01; Byte.x03])]; [(0, None)]].
Proof.
  destruct (manager_concurrent_transfers (B := w_backend) w_mem w_one _ w_manager_calls w_manager_schedule w_serves)
    as (c&evs&i'&Hr&Hret&Hs&_).
  - repeat constructor; (by apply (bool_decide_unpack _)) || (vm_compute; discriminate).
  - intros [|[|k]] todo Hk; cbn in Hk; simplify_eq/=; lia.
  - exists c, evs, i'. split; [exact Hr|]. split; [exact Hret|]. split; [exact Hs|].
    assert (Hc : (λ c, wk_done <$> cc_workers c) <$> conc_run manager_begin manager_go_on
        (conc_start (mk_manager_state w_mem w_one) w_manager_calls) w_manager_schedule =
      Some [[(0, None); (0, Some [Byte.x01; Byte.x03])]; [(0, None)]]) by (vm_compute; reflexivity).
    rewrite Hr in Hc. by injection Hc.
Defined.

Lemma manager_unregister_race_witness :
  ∃ m' s', storage_manager_unregister_backend default_env w_mem (Some w_one) STORAGE_BACKEND_LOCAL =
      Some (error_code XDEVICE_OK, Some m', s') ∧
    select_pass (λ _, default_env) s' m' (λ _, true) 1 0 = None.
Proof.
  destruct (manager_unregister_race default_env (λ _, default_env) w_mem w_one [1%positive]
    [STORAGE_BACKEND_LOCAL] STORAGE_BACKEND_LOCAL (λ _, true) w_one_wf w_cleanup_total) as (_&_&m'&s'&H1&H2);
    [by left|reflexivity|].
  exists m', s'. split; [exact H1|exact H2].
Defined.
