(* ===== verification/RaftAdapter.v ===== *)
(** * RaftAdapter: Raft's persistent state on the storage manager
    ([src/storage/storage_manager.c], second part)

    The adapter names each log entry, state item and snapshot with a path and
    stores it through the storage manager. It keeps a pointer to the manager,
    which its client shares: managers live in a store of their own. *)

From Stdlib Require Import String.
From stdpp Require Import base numbers list strings gmap pretty.
From S2P Require Import XDevice Prelude Libc StorageInterface StorageSpec.
From S2P Require Import StorageManager ManagerClient.
Local Open Scope Z_scope.

(** ** Data *)

(** The character arrays are zeroed before the [strncpy] or [strcpy] that fills
    them, so each is given by the string it holds. *)
Record raft_storage_adapter_t := mk_adapter {
  ra_storage_manager : option loc;
  ra_device_prefix : string;               (* char[64] *)
  ra_log_prefix : string;
  ra_state_prefix : string;
  ra_snapshot_prefix : string;
  ra_metadata_prefix : string;
  ra_log_backend : storage_backend_type_t;
  ra_state_backend : storage_backend_type_t;
  ra_snapshot_backend : storage_backend_type_t;
  ra_metadata_backend : storage_backend_type_t;
  ra_batch_writes_enabled : bool;
  ra_batch_size : Z;
  ra_batch_timeout_ms : Z;
  ra_async_writes_enabled : bool
}.

(** The decimal digits [snprintf] prints for ["%lu"]. *)
Definition fmt_lu (n : Z) : string := pretty (Z.to_N n).

Definition build_full_path (adapter : raft_storage_adapter_t) (prefix key : string)
    (path_size : Z) : string :=
  snprintf path_size (ra_device_prefix adapter +:+ prefix +:+ key).

Section adapter.
Context {E W P : Type}.

(** The memory: the manager objects, and what the managers use. *)
Record adapter_mem := mk_adapter_mem {
  am_managers : gmap loc storage_manager_t;
  am_mem : mem E W P
}.

(** [adapter] is the structure behind the caller's pointer. *)
Definition raft_storage_adapter_init (s : adapter_mem) (adapter : option raft_storage_adapter_t)
    (manager : option loc) (device_prefix : option string)
    : option (Z * option raft_storage_adapter_t) :=
  match adapter, manager, device_prefix with
  | Some _, Some l, Some prefix =>
      m ← am_managers s !! l;
      Some (error_code XDEVICE_OK,
        Some {| ra_storage_manager := Some l; ra_device_prefix := str_take 63 prefix;
                ra_log_prefix := "log_"; ra_state_prefix := "state_";
                ra_snapshot_prefix := "snap_"; ra_metadata_prefix := "meta_";
                ra_log_backend := sm_primary_backend m; ra_state_backend := sm_primary_backend m;
                ra_snapshot_backend := sm_primary_backend m;
                ra_metadata_backend := sm_primary_backend m;
                ra_batch_writes_enabled := true; ra_batch_size := 64; ra_batch_timeout_ms := 10;
                ra_async_writes_enabled := false |})
  | _, _, _ => Some (error_code XDEVICE_ERROR_INVALID_PARAM, adapter)
  end.

Definition raft_storage_adapter_cleanup (adapter : option raft_storage_adapter_t)
    : Z * option raft_storage_adapter_t :=
  match adapter with
  | None => (error_code XDEVICE_ERROR_INVALID_PARAM, None)
  | Some a => (error_code XDEVICE_OK, Some (a <| ra_storage_manager := None |>))
  end.

(** ** The calls into the manager *)

(** [storage_manager_write(adapter->storage_manager, path, 0, data, size)]. *)
Definition adapter_write (me : call_env) (e : nat → E) (s : adapter_mem)
    (adapter : raft_storage_adapter_t) (path : string) (data : option block) (size : Z)
    : option (Z * adapter_mem) :=
  match ra_storage_manager adapter with
  | None =>
      '(ret, _, sm) ← storage_manager_write me e (am_mem s) None (Some path) 0 data size;
      Some (ret, mk_adapter_mem (am_managers s) sm)
  | Some l =>
      m ← am_managers s !! l;
      '(ret, mo, sm) ← storage_manager_write me e (am_mem s) (Some m) (Some path) 0 data size;
      m ← mo;
      Some (ret, mk_adapter_mem (<[l := m]> (am_managers s)) sm)
  end.

(** [storage_manager_read(adapter->storage_manager, path, 0, buffer, size)]. *)
Definition adapter_read (me : call_env) (e : nat → E) (s : adapter_mem)
    (adapter : raft_storage_adapter_t) (path : string) (buffer : option block) (size : Z)
    : option (Z * adapter_mem * option block) :=
  match ra_storage_manager adapter with
  | None =>
      '(ret, _, sm, buffer) ← storage_manager_read me e (am_mem s) None (Some path) 0 buffer size;
      Some (ret, mk_adapter_mem (am_managers s) sm, buffer)
  | Some l =>
      m ← am_managers s !! l;
      '(ret, mo, sm, buffer) ←
        storage_manager_read me e (am_mem s) (Some m) (Some path) 0 buffer size;
      m ← mo;
      Some (ret, mk_adapter_mem (<[l := m]> (am_managers s)) sm, buffer)
  end.

(** ** Operations

    The read operations take a pointer to the size, [*size] bytes are read and
    nothing is ever stored back through it; their result is the return value, the
    memory and the buffer. *)

Definition raft_storage_append_log (me : call_env) (e : nat → E) (s : adapter_mem)
    (adapter : option raft_storage_adapter_t) (log_index : Z) (entry_data : option block)
    (entry_size : Z) : option (Z * adapter_mem) :=
  match adapter, entry_data with
  | Some a, Some _ =>
      if entry_size =? 0 then Some (error_code XDEVICE_ERROR_INVALID_PARAM, s)
      else
        let log_key := snprintf 64 (fmt_lu log_index) in
        let full_path := build_full_path a (ra_log_prefix a) log_key MAX_PATH_LEN in
        adapter_write me e s a full_path entry_data entry_size
  | _, _ => Some (error_code XDEVICE_ERROR_INVALID_PARAM, s)
  end.

Definition raft_storage_read_log (me : call_env) (e : nat → E) (s : adapter_mem)
    (adapter : option raft_storage_adapter_t) (log_index : Z) (buffer : option block)
    (size : option Z) : option (Z * adapter_mem * option block) :=
  match adapter, buffer, size with
  | Some a, Some _, Some size =>
      let log_key := snprintf 64 (fmt_lu log_index) in
      let full_path := build_full_path a (ra_log_prefix a) log_key MAX_PATH_LEN in
      adapter_read me e s a full_path buffer size
  | _, _, _ => Some (error_code XDEVICE_ERROR_INVALID_PARAM, s, buffer)
  end.

Definition raft_storage_save_state (me : call_env) (e : nat → E) (s : adapter_mem)
    (adapter : option raft_storage_adapter_t) (state_key : option string)
    (state_data : option block) (size : Z) : option (Z * adapter_mem) :=
  match adapter, state_key, state_data with
  | Some a, Some key, Some _ =>
      if size =? 0 then Some (error_code XDEVICE_ERROR_INVALID_PARAM, s)
      else
        let full_path := build_full_path a (ra_state_prefix a) key MAX_PATH_LEN in
        adapter_write me e s a full_path state_data size
  | _, _, _ => Some (error_code XDEVICE_ERROR_INVALID_PARAM, s)
  end.

Definition raft_storage_load_state (me : call_env) (e : nat → E) (s : adapter_mem)
    (adapter : option raft_storage_adapter_t) (state_key : option string)
    (buffer : option block) (size : option Z) : option (Z * adapter_mem * option block) :=
  match adapter, state_key, buffer, size with
  | Some a, Some key, Some _, Some size =>
      let full_path := build_full_path a (ra_state_prefix a) key MAX_PATH_LEN in
      adapter_read me e s a full_path buffer size
  | _, _, _, _ => Some (error_code XDEVICE_ERROR_INVALID_PARAM, s, buffer)
  end.

Definition raft_storage_save_snapshot (me : call_env) (e : nat → E) (s : adapter_mem)
    (adapter : option raft_storage_adapter_t) (snapshot_index : Z) (snapshot_data : option block)
    (size : Z) : option (Z * adapter_mem) :=
  match adapter, snapshot_data with
  | Some a, Some _ =>
      if size =? 0 then Some (error_code XDEVICE_ERROR_INVALID_PARAM, s)
      else
        let snapshot_key := snprintf 64 (fmt_lu snapshot_index) in
        let full_path := build_full_path a (ra_snapshot_prefix a) snapshot_key MAX_PATH_LEN in
        adapter_write me e s a full_path snapshot_data size
  | _, _ => Some (error_code XDEVICE_ERROR_INVALID_PARAM, s)
  end.

Definition raft_storage_load_snapshot (me : call_env) (e : nat → E) (s : adapter_mem)
    (adapter : option raft_storage_adapter_t) (snapshot_index : Z) (buffer : option block)
    (size : option Z) : option (Z * adapter_mem * option block) :=
  match adapter, buffer, size with
  | Some a, Some _, Some size =>
      let snapshot_key := snprintf 64 (fmt_lu snapshot_index) in
      let full_path := build_full_path a (ra_snapshot_prefix a) snapshot_key MAX_PATH_LEN in
      adapter_read me e s a full_path buffer size
  | _, _, _ => Some (error_code XDEVICE_ERROR_INVALID_PARAM, s, buffer)
  end.

End adapter.
Arguments adapter_mem : clear implicits.

(** ** Keys and paths *)

(** What the adapter stores. *)
Inductive raft_key : Set :=
| LogKey (index : Z)
| StateKey (key : string)
| SnapKey (index : Z).

#[export] Instance raft_key_eq_dec : EqDecision raft_key.
Proof. solve_decision. Defined.

#[export] Instance raft_key_countable : Countable raft_key.
Proof.
  refine (inj_countable'
    (λ k, match k with LogKey i => inl (inl i) | StateKey s => inl (inr s) | SnapKey i => inr i end)
    (λ x, match x with inl (inl i) => LogKey i | inl (inr s) => StateKey s | inr i => SnapKey i end) _).
  by intros [].
Defined.

(** The path under which an item is stored. *)
Definition raft_path (a : raft_storage_adapter_t) (k : raft_key) : string :=
  match k with
  | LogKey i => build_full_path a (ra_log_prefix a) (snprintf 64 (fmt_lu i)) MAX_PATH_LEN
  | StateKey key => build_full_path a (ra_state_prefix a) key MAX_PATH_LEN
  | SnapKey i => build_full_path a (ra_snapshot_prefix a) (snprintf 64 (fmt_lu i)) MAX_PATH_LEN
  end.

(** What [raft_storage_adapter_init] establishes of the prefixes. *)
Definition adapter_wf (a : raft_storage_adapter_t) : Prop :=
  ra_log_prefix a = "log_" ∧ ra_state_prefix a = "state_" ∧ ra_snapshot_prefix a = "snap_" ∧
  (length (chars (ra_device_prefix a)) <= 63)%nat ∧ c_string (ra_device_prefix a).

(** The items the adapter can name without truncation. *)
Definition key_ok (a : raft_storage_adapter_t) (k : raft_key) : Prop :=
  match k with
  | LogKey i | SnapKey i => u64 i
  | StateKey key =>
      c_string key ∧ (length (chars (ra_device_prefix a)) + 6 + length (chars key) <= 511)%nat
  end.

(** ** Lemmas on decimal printing *)

(** A [uint64_t] has at most twenty digits, so [log_key] is never truncated. *)
Lemma fmt_lu_chars n :
  u64 n → (length (chars (fmt_lu n)) <= 20)%nat ∧ c_string (fmt_lu n).
Proof.
  intros Hn. apply pretty_chars; [lia|]. unfold u64 in Hn. apply N.lt_trans with (2 ^ 64)%N; [lia|].
  by vm_compute.
Qed.

Lemma fmt_lu_inj i j : u64 i → u64 j → fmt_lu i = fmt_lu j → i = j.
Proof. unfold u64, fmt_lu. intros ?? ?%(inj pretty). lia. Qed.

(** ** Lemmas on paths *)

Lemma snprintf_short n s : (length (chars s) < Z.to_nat n)%nat → snprintf n s = s.
Proof. intros. unfold snprintf. apply str_take_short. lia. Qed.

Lemma path_chars (a : raft_storage_adapter_t) prefix key :
  chars (ra_device_prefix a +:+ prefix +:+ key) = chars (ra_device_prefix a) ++ chars prefix ++ chars key.
Proof. by rewrite !chars_append. Qed.

(** The path of a nameable item is not truncated. *)
Lemma raft_path_eq a k :
  adapter_wf a → key_ok a k →
  raft_path a k = ra_device_prefix a +:+
    match k with
    | LogKey i => "log_" +:+ fmt_lu i
    | StateKey key => "state_" +:+ key
    | SnapKey i => "snap_" +:+ fmt_lu i
    end.
Proof.
  intros (Hl&Hst&Hsn&Hlen&_) Hk. unfold raft_path, build_full_path.
  destruct k as [i|key|i]; cbn in Hk;
    try (destruct (fmt_lu_chars i Hk) as [? _]; rewrite (snprintf_short 64) by lia);
    rewrite snprintf_short; rewrite ?Hl, ?Hst, ?Hsn; try done;
    rewrite path_chars, !length_app; unfold MAX_PATH_LEN; cbn [chars length] in *; cbn; lia.
Qed.

Lemma str_app_inj_l s s1 s2 : s +:+ s1 = s +:+ s2 → s1 = s2.
Proof.
  intros H. apply (inj chars). apply (f_equal chars) in H. rewrite !chars_append in H.
  by apply (inj (app (chars s))) in H.
Qed.

(** Distinct items have distinct paths. *)
Lemma raft_path_inj a k1 k2 :
  adapter_wf a → key_ok a k1 → key_ok a k2 → raft_path a k1 = raft_path a k2 → k1 = k2.
Proof.
  intros Ha H1 H2. rewrite !raft_path_eq by done. intros Heq%str_app_inj_l.
  destruct k1 as [i1|s1|i1], k2 as [i2|s2|i2]; try done;
    apply str_app_inj_l in Heq; f_equal; [|done|]; by apply fmt_lu_inj.
Qed.

Lemma raft_path_short a k :
  adapter_wf a → key_ok a k → c_string (raft_path a k) ∧ (length (chars (raft_path a k)) <= 511)%nat.
Proof.
  intros Ha Hk. split.
  - rewrite raft_path_eq by done. destruct Ha as (_&_&_&_&Hc). unfold c_string in *.
    rewrite chars_append. intros [?|Hin]%elem_of_app; [done|].
    destruct k as [i|key|i]; cbn in Hk; rewrite chars_append in Hin;
      (apply elem_of_app in Hin as [Hin|Hin]; [revert Hin; by apply (bool_decide_unpack _)|]).
    + by apply (fmt_lu_chars i Hk).
    + by apply Hk.
    + by apply (fmt_lu_chars i Hk).
  - unfold raft_path. destruct k; unfold build_full_path, snprintf; rewrite chars_str_take, length_take; unfold MAX_PATH_LEN; lia.
Qed.

(** ** The adapter over a backend that keeps the contract *)

Section raft_client.
Context {E W P : Type} {vt : storage_vtable E W P} {B : StorageBackend vt}.
Context (a : raft_storage_adapter_t).
Implicit Types (s : adapter_mem E W P) (i : iface P) (store : gmap raft_key block).

(** The adapter's manager is served by the object [i]. *)
Definition adapter_serves s i : Prop :=
  ∃ l m, ra_storage_manager a = Some l ∧ am_managers s !! l = Some m ∧ serves (am_mem s) m i.

(** The items the backend's files hold. *)
Definition represents s i store : Prop :=
  ∀ k, key_ok a k → store !! k = served_files (am_mem s) i !! raft_path a k.

Inductive raft_op : Type :=
| Save (k : raft_key) (d : block)
| Load (k : raft_key) (n : Z).

(** The API call for an operation. The buffer of a load starts out with
    unspecified bytes. *)
Definition raft_exec (me : call_env) (e : nat → E) s (op : raft_op)
    : option (fs_result * adapter_mem E W P) :=
  match op with
  | Save k d =>
      '(ret, s) ← match k with
        | LogKey i => raft_storage_append_log me e s (Some a) i (Some d) (blen d)
        | StateKey key => raft_storage_save_state me e s (Some a) (Some key) (Some d) (blen d)
        | SnapKey i => raft_storage_save_snapshot me e s (Some a) i (Some d) (blen d)
        end;
      Some ((ret, None), s)
  | Load k n =>
      let buf := junk me <$> seq 0 (Z.to_nat n) in
      '(ret, s, buf) ← match k with
        | LogKey i => raft_storage_read_log me e s (Some a) i (Some buf) (Some n)
        | StateKey key => raft_storage_load_state me e s (Some a) (Some key) (Some buf) (Some n)
        | SnapKey i => raft_storage_load_snapshot me e s (Some a) i (Some buf) (Some n)
        end;
      Some ((ret, buf), s)
  end.

Fixpoint raft_run (me : nat → call_env) (e : nat → nat → E) s (ops : list raft_op) (k : nat)
    : option (list fs_result * adapter_mem E W P) :=
  match ops with
  | [] => Some ([], s)
  | op :: ops =>
      '(r, s) ← raft_exec (me k) (e k) s op;
      '(rs, s) ← raft_run me e s ops (S k);
      Some (r :: rs, s)
  end.

(** The abstract item store. A save overlays the old item: what lies behind the
    new data stays. A load needs to know the size; of an item that is there it
    returns the first bytes. *)
Inductive raft_step store : raft_op → fs_result → gmap raft_key block → Prop :=
| item_saved k d :
    raft_step store (Save k d) (error_code XDEVICE_OK, None)
      (<[k := d ++ drop (length d) (default [] (store !! k))]> store)
| item_save_failed k d ret :
    ret ≠ error_code XDEVICE_OK → raft_step store (Save k d) (ret, None) store
| item_loaded k n c :
    store !! k = Some c → n <= blen c →
    raft_step store (Load k n) (error_code XDEVICE_OK, Some (take (Z.to_nat n) c)) store
| item_loaded_short k n c ret buf :
    store !! k = Some c → 0 < blen c < n → blen buf = n →
    raft_step store (Load k n) (ret, Some buf) store
| item_load_failed k n ret buf :
    default [] (store !! k) = [] → ret ≠ error_code XDEVICE_OK →
    raft_step store (Load k n) (ret, Some buf) store.

Inductive raft_trace : gmap raft_key block → list raft_op → list fs_result →
    gmap raft_key block → Prop :=
| raft_trace_nil store : raft_trace store [] [] store
| raft_trace_cons store op r store' ops rs store'' :
    raft_step store op r store' → raft_trace store' ops rs store'' →
    raft_trace store (op :: ops) (r :: rs) store''.

(** Data of at least one byte and within the backend's limit. *)
Definition raft_op_ok (op : raft_op) : Prop :=
  match op with
  | Save k d => key_ok a k ∧ 0 < blen d <= st_limit
  | Load k n => key_ok a k ∧ 0 < n <= st_limit
  end.

Context (Ha : adapter_wf a).
(** The backend takes every path the adapter builds. *)
Context (Hpaths : ∀ k, key_ok a k → st_path_ok (raft_path a k)).

Lemma represents_write s i s' i' store k d :
  represents s i store → key_ok a k →
  served_files (am_mem s') i' = spec_write_file (served_files (am_mem s) i) (raft_path a k) 0 d →
  represents s' i' (<[k := d ++ drop (length d) (default [] (store !! k))]> store).
Proof.
  intros Hrep Hk Hfs k' Hk'. rewrite Hfs. unfold spec_write_file. rewrite spec_write_0.
  rewrite <- (Hrep k Hk). destruct (decide (k = k')) as [->|Hne].
  - by rewrite !lookup_insert_eq.
  - rewrite !lookup_insert_ne; [by apply Hrep|intros ?%raft_path_inj; done|done].
Qed.

Lemma adapter_write_spec me (e : nat → E) s i store k d :
  adapter_serves s i → represents s i store → key_ok a k → 0 < blen d <= st_limit →
  ∃ ret s' i' store', adapter_write me e s a (raft_path a k) (Some d) (blen d) = Some (ret, s') ∧
    adapter_serves s' i' ∧ represents s' i' store' ∧ raft_step store (Save k d) (ret, None) store'.
Proof.
  intros (l&m&Hl&Hm&Hs) Hrep Hk Hd.
  destruct (manager_write_spec me e (am_mem s) m i (raft_path a k) 0 d)
    as (ret&sm&i'&Hw&Hs'&Hout&_); [done|by apply Hpaths|lia..|].
  unfold adapter_write. rewrite Hl, Hm. cbn. rewrite Hw. cbn.
  set (s' := mk_adapter_mem _ _).
  assert (Hserves : adapter_serves s' i').
  { eexists l, _. split_and!; [done|by apply lookup_insert_eq|done]. }
  destruct Hout as [[-> Hfs]|[Hr Hfs]].
  - do 4 eexists. split; [done|]. split; [done|].
    split; [by eapply (represents_write s i s' i')|constructor].
  - exists ret, s', i', store. split; [done|]. split; [done|]. split; [|by constructor].
    intros k' Hk'. cbn. rewrite Hfs. by apply Hrep.
Qed.

Lemma adapter_read_spec me (e : nat → E) s i store k n buf :
  adapter_serves s i → represents s i store → key_ok a k → 0 < n <= st_limit → blen buf = n →
  ∃ ret s' i' buf', adapter_read me e s a (raft_path a k) (Some buf) n = Some (ret, s', Some buf') ∧
    adapter_serves s' i' ∧ represents s' i' store ∧ raft_step store (Load k n) (ret, Some buf') store.
Proof.
  intros (l&m&Hl&Hm&Hs) Hrep Hk Hn Hbuf.
  destruct (manager_read_spec me e (am_mem s) m i (raft_path a k) 0 n buf)
    as (ret&sm&i'&buf'&Hr&Hs'&Hfs&Hlen&Hfull&Hpast); [done|by apply Hpaths|lia..|done|].
  unfold adapter_read. rewrite Hl, Hm. cbn. rewrite Hr. cbn.
  exists ret, (mk_adapter_mem (<[l := account m true ret n me]> (am_managers s)) sm), i', buf'.
  split_and!; [done| | |].
  - eexists l, _. split_and!; [done|by apply lookup_insert_eq|done].
  - intros k' Hk'. cbn. rewrite Hfs. by apply Hrep.
  - rewrite <- (Hrep k Hk) in Hfull, Hpast.
    destruct (store !! k) as [c|] eqn:Hc; cbn in Hpast.
    + destruct (decide (n <= blen c)) as [Hle|Hgt].
      { destruct (Hfull c) as [-> ->]; [done|lia|].
        rewrite spec_read_within by lia. cbn. by eapply item_loaded. }
      destruct c as [|b c]; [eapply item_load_failed; [by rewrite Hc|by apply Hpast]|].
      eapply item_loaded_short; [done|unfold blen in *; cbn in *; lia|done].
    + eapply item_load_failed; [by rewrite Hc|by apply Hpast].
Qed.

Lemma raft_exec_spec me (e : nat → E) s i store op :
  adapter_serves s i → represents s i store → raft_op_ok op →
  ∃ r s' i' store', raft_exec me e s op = Some (r, s') ∧ adapter_serves s' i' ∧
    represents s' i' store' ∧ raft_step store op r store'.
Proof.
  intros Hs Hrep. destruct op as [k d|k n]; intros [Hk Hn].
  - destruct (adapter_write_spec me e s i store k d) as (ret&s'&i'&store'&Hw&?&?&?); [done..|].
    exists (ret, None), s', i', store'. split; [|done]. unfold raft_exec.
    destruct k; unfold raft_storage_append_log, raft_storage_save_state, raft_storage_save_snapshot;
      rewrite (proj2 (Z.eqb_neq _ _)) by lia; cbv zeta; cbn [raft_path] in Hw; by rewrite Hw.
  - destruct (adapter_read_spec me e s i store k n (junk me <$> seq 0 (Z.to_nat n)))
      as (ret&s'&i'&buf'&Hw&?&?&?); [done..| |].
    { unfold blen. rewrite length_fmap, length_seq. lia. }
    exists (ret, Some buf'), s', i', store. split; [|done]. unfold raft_exec.
    destruct k; unfold raft_storage_read_log, raft_storage_load_state, raft_storage_load_snapshot;
      cbv zeta; cbn [raft_path] in Hw; by rewrite Hw.
Qed.

Lemma raft_run_spec me (e : nat → nat → E) s i store ops k :
  adapter_serves s i → represents s i store → Forall raft_op_ok ops →
  ∃ rs s' i' store', raft_run me e s ops k = Some (rs, s') ∧ adapter_serves s' i' ∧
    represents s' i' store' ∧ raft_trace store ops rs store'.
Proof.
  intros Hs Hrep Hok. revert s i store k Hs Hrep.
  induction Hok as [|op ops Hop _ IH]; intros s i store k Hs Hrep; cbn.
  { exists [], s, i, store. split_and!; [done..|constructor]. }
  destruct (raft_exec_spec (me k) (e k) s i store op) as (r&s1&i1&store1&->&Hs1&Hrep1&Hst); [done..|].
  cbn. destruct (IH s1 i1 store1 (S k) Hs1 Hrep1) as (rs&s'&i'&store'&->&?&?&?). cbn.
  exists (r :: rs), s', i', store'. split_and!; [done..|by econstructor].
Qed.

End raft_client.

(** Operations on other items leave an item alone. *)
Lemma raft_trace_other store ops rs store' k :
  raft_trace store ops rs store' → (∀ d, Save k d ∉ ops) → store' !! k = store !! k.
Proof.
  induction 1 as [|store op r store1 ops rs store2 Hst _ IH]; intros Hk; [done|].
  rewrite IH by set_solver.
  destruct Hst as [k' d|k' d ret ?|k' n c ? ?|k' n c ret buf ? ? ?|k' n ret buf ? ?]; try done.
  apply lookup_insert_ne. intros ->. apply (Hk d). left.
Qed.

Lemma raft_trace_snoc store ops op rs store' :
  raft_trace store (ops ++ [op]) rs store' →
  ∃ rs1 r store1, rs = rs1 ++ [r] ∧ length rs1 = length ops ∧
    raft_trace store ops rs1 store1 ∧ raft_step store1 op r store'.
Proof.
  revert store rs. induction ops as [|op' ops IH]; intros store rs; cbn; intros Htr.
  - inversion Htr as [|? ? r ? ? ? ? Hst Hnil]; subst. inversion Hnil; subst.
    exists [], r, store. split_and!; [done..|constructor|done].
  - inversion Htr as [|? ? r store1 ? rs' ? Hst Htr']; subst.
    destruct (IH _ _ Htr') as (rs1&r1&store2&->&Hlen&?&?).
    exists (r :: rs1), r1, store2. split_and!; [done|cbn; lia|by econstructor|done].
Qed.
