(* ===== verification/AdapterProps.v ===== *)
(** * AdapterProps: properties of the Raft storage adapter

    The adapter as an item store (log entries, state items, snapshots) over any
    backend that keeps the storage contract, and where it falls short of one. *)

From Stdlib Require Import String.
From stdpp Require Import base numbers list strings gmap.
From S2P Require Import XDevice Prelude Libc StorageInterface StorageSpec MockStorage MockBackend.
From S2P Require Import StorageManager ManagerClient RaftAdapter ManagerProps.
Local Open Scope Z_scope.

(** ** An adapter on the in-memory backend, for the witnesses *)

Definition w_adapter : raft_storage_adapter_t :=
  mk_adapter (Some 9%positive) "dev0/" "log_" "state_" "snap_" "meta_" STORAGE_BACKEND_LOCAL
    STORAGE_BACKEND_LOCAL STORAGE_BACKEND_LOCAL STORAGE_BACKEND_LOCAL true 64 10 false.

Definition w_amem : adapter_mem call_env unit mock_storage_private_t :=
  mk_adapter_mem {[9%positive := w_one]} w_mem.

Definition w_local : iface mock_storage_private_t :=
  mk_iface STORAGE_BACKEND_LOCAL "MockStorage" (Some mock_initial_private).

Lemma w_adapter_wf : adapter_wf w_adapter.
Proof. split_and!; [done..|cbn; lia|]. unfold c_string. by apply (bool_decide_unpack _). Qed.

Lemma w_adapter_serves : adapter_serves (B := w_backend) w_adapter w_amem w_local.
Proof. exists 9%positive, w_one. split_and!; [done|done|apply w_serves]. Qed.

Lemma w_represents : represents (B := w_backend) w_adapter w_amem w_local ∅.
Proof. done. Qed.

Lemma w_paths k :
  key_ok w_adapter k → st_path_ok (StorageBackend := w_backend) (raft_path w_adapter k).
Proof.
  intros Hk. destruct (raft_path_short w_adapter k w_adapter_wf Hk). cbn. unfold mock_path_ok. lia.
Qed.

Lemma w_state_ok key :
  bool_decide (c_string key) = true → (length (chars key) <= 400)%nat →
  key_ok w_adapter (StateKey key).
Proof. intros ?%bool_decide_eq_true_1 ?. split; [done|]. cbn [chars length]. cbn. lia. Qed.

(** ** The adapter as an item store *)

(** C4: over any backend that keeps the storage contract and accepts its paths,
    the adapter implements an item store: every sequence of saves and loads of
    log entries, state items and snapshots returns, with the results of a run of
    the abstract store, and the backend goes on holding that store's items. *)
Theorem raft_storage_refines {E W P} {vt : storage_vtable E W P} {B : StorageBackend vt} a
    me (e : nat → nat → E) s i store ops :
  adapter_wf a → (∀ k, key_ok a k → st_path_ok (raft_path a k)) →
  adapter_serves a s i → represents a s i store → Forall (raft_op_ok a) ops →
  ∃ rs s' i' store', raft_run a me e s ops 0 = Some (rs, s') ∧ adapter_serves a s' i' ∧
    represents a s' i' store' ∧ raft_trace store ops rs store'.
Proof. intros. by eapply raft_run_spec. Qed.

Definition w_raft_ops : list raft_op :=
  [Save (LogKey 7) [Byte.x01; Byte.x02]; Save (SnapKey 7) [Byte.x03]; Load (LogKey 7) 2;
   Load (StateKey "term") 1].

Lemma w_raft_ops_ok : Forall (raft_op_ok (B := w_backend) w_adapter) w_raft_ops.
Proof.
  assert (u64 7) by (unfold u64; lia).
  repeat apply Forall_cons_2; [split; [done|vm_compute; split; congruence]..| |constructor].
  split; [apply w_state_ok; [reflexivity|cbn; lia]|vm_compute; split; congruence].
Qed.

Lemma raft_storage_refines_witness :
  ∃ rs s' i' store',
    raft_run w_adapter (λ _, default_env) (λ _ _, default_env) w_amem w_raft_ops 0 = Some (rs, s') ∧
    represents (B := w_backend) w_adapter s' i' store' ∧ raft_trace ∅ w_raft_ops rs store' ∧
    rs = [(0, None); (0, None); (0, Some [Byte.x01; Byte.x02]); (-7, Some [Byte.xaa])].
Proof.
  destruct (raft_storage_refines (B := w_backend) w_adapter (λ _, default_env) (λ _ _, default_env)
    w_amem w_local ∅ w_raft_ops w_adapter_wf w_paths w_adapter_serves w_represents w_raft_ops_ok)
    as (rs&s'&i'&store'&Hr&_&Hrep&Htr).
  exists rs, s', i', store'. split; [exact Hr|]. split; [exact Hrep|]. split; [exact Htr|].
  assert (Hrs : (λ x, x.1) <$> raft_run w_adapter (λ _, default_env) (λ _ _, default_env) w_amem
    w_raft_ops 0 = Some [(0, None); (0, None); (0, Some [Byte.x01; Byte.x02]); (-7, Some [Byte.xaa])])
    by (vm_compute; reflexivity).
  rewrite Hr in Hrs. injection Hrs as ->. reflexivity.
Defined.

(** C34: an item that was saved is loaded unchanged, whatever operations on other
    items come between: entries, state items and snapshots do not interfere. *)
Theorem raft_save_load {E W P} {vt : storage_vtable E W P} {B : StorageBackend vt} a
    me (e : nat → nat → E) s i store k d ops :
  adapter_wf a → (∀ k, key_ok a k → st_path_ok (raft_path a k)) →
  adapter_serves a s i → represents a s i store → raft_op_ok a (Save k d) →
  Forall (raft_op_ok a) ops → (∀ d', Save k d' ∉ ops) →
  ∃ r rs rl s', raft_run a me e s (Save k d :: ops ++ [Load k (blen d)]) 0 =
      Some (r :: rs ++ [rl], s') ∧ length rs = length ops ∧
    (r.1 = error_code XDEVICE_OK → rl = (error_code XDEVICE_OK, Some d)).
Proof.
  intros Ha Hp Hs Hrep [Hk Hd] Hops Hother.
  destruct (raft_run_spec a Ha Hp me e s i store (Save k d :: ops ++ [Load k (blen d)]) 0)
    as (rs0&s'&i'&store'&Hr&_&_&Htr); [done..| |].
  { apply Forall_cons_2; [done|]. apply Forall_app_2; [done|]. by apply Forall_singleton. }
  inversion Htr as [|? ? r store1 ? rs1 ? Hst Htr1]; subst.
  apply raft_trace_snoc in Htr1 as (rs&rl&store2&->&Hlen&Htr2&Hl).
  exists r, rs, rl, s'. split_and!; [done..|]. intros Hok.
  inversion Hst; subst; [|done].
  apply (raft_trace_other _ _ _ _ k) in Htr2; [|done]. rewrite lookup_insert_eq in Htr2.
  set (c := d ++ _) in Htr2.
  assert (Hc : blen d <= blen c) by (unfold c; rewrite blen_app; pose proof (blen_nonneg (drop (length d) (default [] (store !! k)))); lia).
  inversion Hl as [| |? ? c' Hc' ?|? ? c' ? ? Hc'|? ? ? ? Hc' ?]; subst.
  - rewrite Htr2 in Hc'. injection Hc' as <-. unfold c, blen. by rewrite Nat2Z.id, take_app_length.
  - rewrite Htr2 in Hc'. injection Hc' as <-. lia.
  - rewrite Htr2 in Hc'. cbn in Hc'. rewrite Hc' in Hc. change (blen []) with 0 in Hc. lia.
Qed.

Lemma raft_save_load_witness :
  ∃ r rs rl s',
    raft_run w_adapter (λ _, default_env) (λ _ _, default_env) w_amem
      [Save (LogKey 7) [Byte.x01; Byte.x02]; Save (SnapKey 7) [Byte.x09]; Load (LogKey 7) 2] 0 =
      Some (r :: rs ++ [rl], s') ∧
    (r.1 = error_code XDEVICE_OK → rl = (error_code XDEVICE_OK, Some [Byte.x01; Byte.x02])).
Proof.
  assert (Hu : u64 7) by (unfold u64; lia).
  destruct (raft_save_load (B := w_backend) w_adapter (λ _, default_env) (λ _ _, default_env)
    w_amem w_local ∅ (LogKey 7) [Byte.x01; Byte.x02] [Save (SnapKey 7) [Byte.x09]]
    w_adapter_wf w_paths w_adapter_serves w_represents) as (r&rs&rl&s'&H1&_&H2).
  - split; [exact Hu|vm_compute; split; congruence].
  - apply Forall_singleton. split; [exact Hu|vm_compute; split; congruence].
  - intros d' Hin. apply list_elem_of_singleton in Hin. discriminate.
  - exists r, rs, rl, s'. split; [exact H1|exact H2].
Defined.

(** Distinct items never share a path: the prefixes keep log entries, state
    items and snapshots apart whatever their indexes and keys are, the twenty
    digits of an index always fit, and no path exceeds its array. *)
Theorem raft_paths_distinct a k1 k2 :
  adapter_wf a → key_ok a k1 → key_ok a k2 →
  (raft_path a k1 = raft_path a k2 ↔ k1 = k2) ∧
  c_string (raft_path a k1) ∧ (length (chars (raft_path a k1)) < Z.to_nat MAX_PATH_LEN)%nat.
Proof.
  intros Ha H1 H2. split.
  - split; [by apply raft_path_inj|by intros ->].
  - destruct (raft_path_short a k1 Ha H1). split; [done|]. unfold MAX_PATH_LEN. lia.
Qed.

Lemma raft_paths_distinct_witness :
  raft_path w_adapter (LogKey 12) = "dev0/log_12"%string ∧
  (raft_path w_adapter (LogKey 12) = raft_path w_adapter (SnapKey 12) ↔ LogKey 12 = SnapKey 12).
Proof.
  split; [reflexivity|].
  apply (raft_paths_distinct w_adapter (LogKey 12) (SnapKey 12)); [apply w_adapter_wf|..];
    cbn; unfold u64; lia.
Defined.

(** ** Departures *)

(** Saving an item again with shorter data leaves the tail of the old data
    behind it, and the reader cannot tell: a load with the old size succeeds and
    returns a mixture of both. Neither the save truncates the file nor does the
    load store the item's size through its [size] pointer. *)
Theorem raft_overwrite_stale_tail {E W P} {vt : storage_vtable E W P} {B : StorageBackend vt} a
    me (e : nat → nat → E) s i store k d1 d2 :
  adapter_wf a → (∀ k, key_ok a k → st_path_ok (raft_path a k)) →
  adapter_serves a s i → represents a s i store → store !! k = None →
  raft_op_ok a (Save k d1) → raft_op_ok a (Save k d2) → blen d2 < blen d1 →
  ∃ r1 r2 r3 s', raft_run a me e s [Save k d1; Save k d2; Load k (blen d1)] 0 =
      Some ([r1; r2; r3], s') ∧
    (r1.1 = error_code XDEVICE_OK → r2.1 = error_code XDEVICE_OK →
     r3 = (error_code XDEVICE_OK, Some (d2 ++ drop (length d2) d1))).
Proof.
  intros Ha Hp Hs Hrep Hnone [Hk Hd1] [_ Hd2] Hlt.
  destruct (raft_run_spec a Ha Hp me e s i store [Save k d1; Save k d2; Load k (blen d1)] 0)
    as (rs&s'&i'&store'&Hr&_&_&Htr); [done..|by repeat constructor; try lia|].
  inversion Htr as [|? ? r1 store1 ? rs1 ? Hst1 Htr1]; subst.
  inversion Htr1 as [|? ? r2 store2 ? rs2 ? Hst2 Htr2]; subst.
  inversion Htr2 as [|? ? r3 store3 ? rs3 ? Hst3 Htr3]; subst.
  inversion Htr3; subst. exists r1, r2, r3, s'. split; [done|]. intros Hok1 Hok2.
  inversion Hst1; subst; [|done]. inversion Hst2; subst; [|done].
  rewrite Hnone, lookup_insert_eq in Hst3. cbn in Hst3.
  rewrite drop_nil, app_nil_r in Hst3.
  set (c := d2 ++ drop (length d2) d1) in *.
  assert (Hc : blen c = blen d1).
  { unfold c, blen in *. rewrite length_app, length_drop. lia. }
  inversion Hst3 as [| |? ? c' Hc' ?|? ? c' ? ? Hc'|? ? ? ? Hc' ?]; subst;
    rewrite lookup_insert_eq in Hc'.
  - injection Hc' as <-. rewrite <- Hc. unfold blen. rewrite Nat2Z.id. by rewrite take_ge.
  - injection Hc' as <-. lia.
  - cbn in Hc'. rewrite Hc' in Hc. change (blen []) with 0 in Hc. lia.
Qed.

Lemma raft_overwrite_stale_tail_witness :
  ∃ r1 r2 r3 s',
    raft_run w_adapter (λ _, default_env) (λ _ _, default_env) w_amem
      [Save (StateKey "vote") [Byte.x01; Byte.x02; Byte.x03]; Save (StateKey "vote") [Byte.x09];
       Load (StateKey "vote") 3] 0 = Some ([r1; r2; r3], s') ∧
    (r1.1 = error_code XDEVICE_OK → r2.1 = error_code XDEVICE_OK →
     r3 = (error_code XDEVICE_OK, Some [Byte.x09; Byte.x02; Byte.x03])).
Proof.
  assert (Hk : key_ok w_adapter (StateKey "vote")) by (apply w_state_ok; [reflexivity|cbn; lia]).
  apply (raft_overwrite_stale_tail (B := w_backend) w_adapter (λ _, default_env)
    (λ _ _, default_env) w_amem w_local ∅ (StateKey "vote") [Byte.x01; Byte.x02; Byte.x03] [Byte.x09]
    w_adapter_wf w_paths w_adapter_serves w_represents); [reflexivity|..|vm_compute; reflexivity];
    (split; [exact Hk|vm_compute; split; congruence]).
Defined.

(** State keys are cut where the path array ends: two keys that agree in their
    first [505 - |device_prefix|] characters name the same file, so saving one
    overwrites the other. *)
Theorem raft_state_keys_collide a key1 key2 :
  adapter_wf a →
  let n := (505 - length (chars (ra_device_prefix a)))%nat in
  raft_path a (StateKey key1) = raft_path a (StateKey key2) ↔
  take n (chars key1) = take n (chars key2).
Proof.
  intros (_&Hst&_&Hlen&_) n. cbn [raft_path]. unfold build_full_path, snprintf, MAX_PATH_LEN. rewrite Hst.
  change (Z.to_nat (512 - 1)) with 511%nat.
  assert (Htake : ∀ key, chars (str_take 511 (ra_device_prefix a +:+ "state_" +:+ key)) =
    chars (ra_device_prefix a) ++ chars "state_" ++ take n (chars key)).
  { intros key. rewrite chars_str_take, path_chars.
    rewrite take_app_ge by lia. f_equal. rewrite take_app_ge by (cbn; lia). do 2 f_equal.
    unfold n. cbn. lia. }
  split.
  - intros Heq%(f_equal chars). rewrite !Htake in Heq.
    by apply app_inv_head, app_inv_head in Heq.
  - intros Heq. apply (inj chars). by rewrite !Htake, Heq.
Qed.

(** A key of 600 characters. *)
Definition w_long_key : string := String.string_of_list_byte (replicate 600 Byte.x61).

Lemma raft_state_keys_collide_witness :
  (raft_path w_adapter (StateKey (w_long_key +:+ "1")) =
   raft_path w_adapter (StateKey (w_long_key +:+ "2"))) ∧
  w_long_key +:+ "1" ≠ w_long_key +:+ "2".
Proof.
  split; [|vm_compute; discriminate].
  apply (raft_state_keys_collide w_adapter (w_long_key +:+ "1") (w_long_key +:+ "2") w_adapter_wf).
  vm_compute; reflexivity.
Defined.

(** Initialisation accepts any device prefix, keeps its first 63 characters and
    gives an adapter whose paths satisfy [adapter_wf]; after cleanup the adapter
    is detached, and every save and load reports [INVALID_PARAM] and changes
    nothing. *)
Theorem raft_adapter_lifecycle {E W P} (s : adapter_mem E W P) a0 l m prefix me (e : nat → E) k d n buf :
  am_managers s !! l = Some m → c_string prefix → 0 < blen d →
  ∃ a a', raft_storage_adapter_init s (Some a0) (Some l) (Some prefix) =
      Some (error_code XDEVICE_OK, Some a) ∧
    adapter_wf a ∧ ra_storage_manager a = Some l ∧ ra_device_prefix a = str_take 63 prefix ∧
    raft_storage_adapter_cleanup (Some a) = (error_code XDEVICE_OK, Some a') ∧
    raft_exec a' me e s (Save k d) = Some ((error_code XDEVICE_ERROR_INVALID_PARAM, None), s) ∧
    raft_storage_read_log me e s (Some a') n (Some buf) (Some (blen buf)) =
      Some (error_code XDEVICE_ERROR_INVALID_PARAM, s, Some buf).
Proof.
  intros Hm Hp Hd. do 2 eexists. unfold raft_storage_adapter_init. rewrite Hm.
  cbn [mbind option_bind]. split; [done|]. split_and!; [| done | done | done | |].
  - split_and!; [done..| |]; cbn [ra_device_prefix].
    + rewrite chars_str_take, length_take. lia.
    + unfold c_string. rewrite chars_str_take. intros (?&?&_)%elem_of_take.
      apply Hp. by eapply list_elem_of_lookup_2.
  - destruct s. destruct k; cbn; unfold raft_storage_append_log, raft_storage_save_state, raft_storage_save_snapshot;
      rewrite (proj2 (Z.eqb_neq _ _)) by lia; done.
  - by destruct s.
Qed.

Lemma raft_adapter_lifecycle_witness :
  ∃ a a', raft_storage_adapter_init w_amem (Some w_adapter) (Some 9%positive) (Some "disk1/"%string) =
      Some (error_code XDEVICE_OK, Some a) ∧ adapter_wf a ∧
    raft_exec a' default_env (λ _, default_env) w_amem (Save (LogKey 1) [Byte.x01]) =
      Some ((error_code XDEVICE_ERROR_INVALID_PARAM, None), w_amem).
Proof.
  destruct (raft_adapter_lifecycle w_amem w_adapter 9 w_one "disk1/" default_env (λ _, default_env)
    (LogKey 1) [Byte.x01] 1 [Byte.x01]) as (a&a'&H1&H2&_&_&_&H3&_);
    [reflexivity|unfold c_string; by apply (bool_decide_unpack _)|reflexivity|].
  exists a, a'. split; [exact H1|]. split; [exact H2|exact H3].
Defined.
