(* ===== verification/LocalAdapter.v ===== *)
(** * LocalAdapter: manager and adapter over the local file backend

    [ManagerProps] and [AdapterProps] are proved against the storage contract, which
    the in-memory backend keeps. The local backend does not: here the same manager and
    the same adapter run over its function table. *)

From Stdlib Require Import String.
From stdpp Require Import base numbers list strings gmap.
From S2P Require Import XDevice Prelude Libc StorageInterface StorageSpec Posix LocalStorage.
From S2P Require Import LocalInv LocalProps StorageManager ManagerClient RaftAdapter.
Local Open Scope Z_scope.

Section local_client.
Context {K : Type} {HP : Posix K} {HL : PosixLaws K}.
Implicit Types (s : mem call_env K local_storage_private_t) (m : storage_manager_t).
Implicit Types (priv : local_storage_private_t) (i : iface local_storage_private_t).

(** A manager whose one backend is the local object [i]. *)
Record local_managed s m (l : loc) i priv : Prop := {
  lm_slot : sm_backends m !! 0%nat = Some (Some l);
  lm_count : sm_backend_count m = 1;
  lm_heap : mem_heap s !! l = Some (mk_storage_interface i local_vtable);
  lm_object : local_object (mem_world s) (Some i) priv
}.

(** What happens to the descriptors and the cache of the backend. *)
Definition managed_grows s priv s' priv' : Prop :=
  local_grows (view (mem_world s)) priv (view (mem_world s')) priv'.

Lemma managed_backend s m l i priv :
  local_managed s m l i priv → backend_at s m 0 = Some (l, mk_storage_interface i local_vtable).
Proof. intros []. unfold backend_at. rewrite lm_slot0. cbn. by rewrite lm_heap0. Qed.

(** A health check leaves the object alone. *)
Lemma health_local e s m l i priv :
  local_managed s m l i priv →
  ∃ healthy s', call_health e s l = Some (healthy, s') ∧ local_managed s' m l i priv ∧
    managed_grows s priv s' priv.
Proof.
  intros [Hslot Hcount Hheap Hob]. unfold call_health. rewrite Hheap.
  cbn [mbind option_bind si_vtable si_iface vt_health_check local_vtable].
  destruct (local_storage_health_check (mem_world s) (Some i)) as [ret k'] eqn:Hh.
  cbn [mbind option_bind mem_update]. eexists _, _. split; [reflexivity|].
  assert (Hf : pv_fds (view k') = pv_fds (view (mem_world s))).
  { unfold local_storage_health_check in Hh. rewrite (proj1 Hob) in Hh.
    destruct (law_access (mem_world s) (lp_base_path priv)) as [Hf _].
    destruct (sys_access _ _). by injection Hh as <- <-. }
  destruct (local_object_kept _ k' _ _ Hob Hf) as [Hob' Hg]. split; [|done].
  split; cbn; [done|done|by rewrite insert_id|done].
Qed.

Lemma pass_local e s m l i priv wanted :
  local_managed s m l i priv →
  ∃ r s', select_pass e s m wanted 1 0 = Some (r, s') ∧ (r = None ∨ r = Some l) ∧
    local_managed s' m l i priv ∧ managed_grows s priv s' priv.
Proof.
  intros Hm. cbn. rewrite (managed_backend _ _ _ _ _ Hm). cbn [mbind option_bind].
  destruct (wanted _).
  - destruct (health_local (e 0%nat) s m l i priv Hm) as (healthy&s'&->&?&?). cbn.
    destruct healthy; eauto 10.
  - exists None, s. split_and!; [done|by left|done|by apply local_grows_kept].
Qed.

Lemma select_local e s m l i priv :
  local_managed s m l i priv →
  ∃ r s', select_backend e s m = Some (r, s') ∧ (r = None ∨ r = Some l) ∧
    local_managed s' m l i priv ∧ managed_grows s priv s' priv.
Proof.
  intros Hm. unfold select_backend. rewrite (lm_count _ _ _ _ _ Hm). cbn [Z.eqb].
  change (Z.to_nat 1) with 1%nat.
  destruct (pass_local e s m l i priv (λ t, bool_decide (t = sm_primary_backend m)) Hm)
    as (r1&s1&->&[->| ->]&Hm1&Hg1); cbn [mbind option_bind]; [|by eauto 10].
  assert (Hsecond : ∃ r s', (if sm_auto_failover m then select_pass (λ x, e (8 + x)%nat) s1 m
      (λ t, bool_decide (t = sm_fallback_backend m)) 1 0 else Some (None, s1)) = Some (r, s') ∧
      (r = None ∨ r = Some l) ∧ local_managed s' m l i priv ∧ managed_grows s1 priv s' priv).
  { destruct (sm_auto_failover m); [by apply pass_local|].
    exists None, s1. split_and!; [done|by left|done|by apply local_grows_kept]. }
  destruct Hsecond as (r2&s2&->&Hr2&Hm2&Hg2). cbn [mbind option_bind].
  assert (Hg : managed_grows s priv s2 priv) by by eapply local_grows_trans.
  destruct Hr2 as [->| ->]; [|by eauto 10].
  destruct (pass_local (λ x, e (16 + x)%nat) s2 m l i priv (λ _, true) Hm2)
    as (r3&s3&->&Hr3&Hm3&Hg3).
  exists r3, s3. split_and!; [done|done|done|by eapply local_grows_trans].
Qed.

(** The object after a call through the manager. *)
Lemma managed_update s m l i priv i' k' priv' is_read ret size me :
  local_managed s m l i priv → local_object k' (Some i') priv' →
  local_managed (mk_mem (<[l := mk_storage_interface i' local_vtable]> (mem_heap s)) k')
    (account m is_read ret size me) l i' priv'.
Proof.
  intros [] Hob. unfold account, update_stats.
  split; [by split_ifs|by split_ifs|cbn; by rewrite lookup_insert_eq|done].
Qed.

(** A descriptor for writing only is cached for the path. *)
Definition write_cached s priv (full_path : string) : Prop :=
  ∃ fd o, cached priv full_path = Some fd ∧ pv_fds (view (mem_world s)) !! fd = Some o ∧
    of_read o = false.

Lemma write_cached_grows s priv s' priv' full_path :
  write_cached s priv full_path → managed_grows s priv s' priv' → write_cached s' priv' full_path.
Proof.
  intros (fd&o&Hc&Ho&Hr) Hg. exists fd, o.
  split_and!; [by apply (lg_cached _ _ _ _ Hg)|by apply (lg_fds _ _ _ _ Hg)|done].
Qed.

(** The path is in the cache or there is room for it. *)
Definition cache_room priv (full_path : string) : Prop :=
  cached priv full_path ≠ None ∨ lp_fd_cache_size priv < lp_max_open_files priv.

Lemma manager_write_local me e s m l i priv path off d :
  local_managed s m l i priv → local_path_ok (build_file_path (lp_base_path priv) path) → u64 off →
  0 < blen d < 2 ^ 63 →
  ∃ ret s' m' i' priv',
    storage_manager_write me e s (Some m) (Some path) off (Some d) (blen d) = Some (ret, Some m', s') ∧
    local_managed s' m' l i' priv' ∧ managed_grows s priv s' priv' ∧
    (ret = error_code XDEVICE_OK → cache_room priv (build_file_path (lp_base_path priv) path) →
     write_cached s' priv' (build_file_path (lp_base_path priv) path)).
Proof.
  intros Hm Hp Hoff Hd. unfold storage_manager_write. rewrite (proj2 (Z.eqb_neq _ _)) by lia.
  destruct (select_local e s m l i priv Hm) as (r&s1&->&[->| ->]&Hm1&Hg1); cbn [mbind option_bind].
  { exists (error_code XDEVICE_ERROR), s1, m, i, priv. by split_and!. }
  destruct (local_object_iface _ _ _ (lm_object _ _ _ _ _ Hm1)) as (?&[= <-]&Hi&Hinv).
  destruct (local_write_spec (e 24%nat) (mem_world s1) i priv path off d Hi Hinv Hp Hoff Hd)
    as (ret&k'&priv'&Hw&Hinv'&Hg&_&Hout).
  rewrite (lm_heap _ _ _ _ _ Hm1). cbn [mbind option_bind si_vtable si_iface vt_write_sync local_vtable].
  rewrite Hw. cbn [mbind option_bind mem_update si_vtable].
  do 5 eexists. split; [reflexivity|]. split; [by apply (managed_update s1 m l i priv)|].
  split; [by eapply local_grows_trans|]. intros -> Hroom.
  eapply write_caches; try done. apply Hp.
Qed.

Lemma manager_read_local me e s m l i priv path off n buf :
  local_managed s m l i priv → u64 off → 0 < n <= blen buf → n < 2 ^ 63 →
  ∃ ret s' m' i' priv' buf',
    storage_manager_read me e s (Some m) (Some path) off (Some buf) n =
      Some (ret, Some m', s', Some buf') ∧
    local_managed s' m' l i' priv' ∧ managed_grows s priv s' priv' ∧
    (write_cached s priv (build_file_path (lp_base_path priv) path) →
     ret ≠ error_code XDEVICE_OK ∧ buf' = buf).
Proof.
  intros Hm Hoff Hn Hn'. unfold storage_manager_read. rewrite (proj2 (Z.eqb_neq _ _)) by lia.
  destruct (select_local e s m l i priv Hm) as (r&s1&->&[->| ->]&Hm1&Hg1); cbn [mbind option_bind].
  { exists (error_code XDEVICE_ERROR), s1, m, i, priv, buf. by split_and!. }
  destruct (local_object_iface _ _ _ (lm_object _ _ _ _ _ Hm1)) as (?&[= <-]&Hi&Hinv).
  destruct (local_read_spec (e 24%nat) (mem_world s1) i priv path off n buf Hi Hinv Hoff Hn Hn')
    as (ret&k'&priv'&buf'&Hr&Hinv'&Hg&_).
  rewrite (lm_heap _ _ _ _ _ Hm1). cbn [mbind option_bind si_vtable si_iface vt_read_sync local_vtable].
  rewrite Hr. cbn [mbind option_bind mem_update si_vtable].
  do 6 eexists. split; [reflexivity|]. split; [by apply (managed_update s1 m l i priv)|].
  split; [by eapply local_grows_trans|]. intros Hwc.
  apply (write_cached_grows _ _ _ _ _ Hwc) in Hg1 as (fd&o&Hc&Ho&Hro).
  destruct (cached_wrong_mode (e 24%nat) _ _ priv path fd o off (lm_object _ _ _ _ _ Hm1) Hc Ho Hoff)
    as [Hfail _]. destruct (Hfail Hro n buf Hn Hn') as (k2&p2&Hr2).
  rewrite Hr in Hr2. by injection Hr2 as -> _ _ ->.
Qed.

End local_client.

(** ** The Raft adapter *)

Section local_adapter.
Context {K : Type} {HP : Posix K} {HL : PosixLaws K}.
Implicit Types (s : adapter_mem call_env K local_storage_private_t) (priv : local_storage_private_t).

(** The adapter's manager has the local backend [priv]. *)
Definition local_adapter (a : raft_storage_adapter_t) s priv : Prop :=
  ∃ la m l i, ra_storage_manager a = Some la ∧ am_managers s !! la = Some m ∧
    local_managed (am_mem s) m l i priv.

(** The file of an item. *)
Definition item_file (a : raft_storage_adapter_t) priv (k : raft_key) : string :=
  build_file_path (lp_base_path priv) (raft_path a k).

Definition local_raft_op_ok (a : raft_storage_adapter_t) (base : string) (op : raft_op) : Prop :=
  match op with
  | Save k d => local_path_ok (build_file_path base (raft_path a k)) ∧ 0 < blen d < 2 ^ 63
  | Load _ n => 0 < n < 2 ^ 63
  end.

Lemma save_local a me e s priv k d :
  local_adapter a s priv → local_path_ok (item_file a priv k) → 0 < blen d < 2 ^ 63 →
  ∃ ret s' priv', raft_exec a me e s (Save k d) = Some ((ret, None), s') ∧
    local_adapter a s' priv' ∧ managed_grows (am_mem s) priv (am_mem s') priv' ∧
    (ret = error_code XDEVICE_OK → cache_room priv (item_file a priv k) →
     write_cached (am_mem s') priv' (item_file a priv k)).
Proof.
  intros (la&m&l&i&Hla&Hm&Hlm) Hp Hd.
  destruct (manager_write_local me e (am_mem s) m l i priv (raft_path a k) 0 d Hlm Hp)
    as (ret&sm&m'&i'&priv'&Hw&Hlm'&Hg&Hwc); [split; [lia|by vm_compute]|done|].
  exists ret, (mk_adapter_mem (<[la := m']> (am_managers s)) sm), priv'. split_and!; [| |done|done].
  - assert (Haw : adapter_write me e s a (raft_path a k) (Some d) (blen d) =
      Some (ret, mk_adapter_mem (<[la := m']> (am_managers s)) sm)).
    { unfold adapter_write. rewrite Hla, Hm. cbn [mbind option_bind]. by rewrite Hw. }
    unfold raft_exec. destruct k;
      unfold raft_storage_append_log, raft_storage_save_state, raft_storage_save_snapshot;
      rewrite (proj2 (Z.eqb_neq _ _)) by lia; cbv zeta; cbn [raft_path] in Haw; by rewrite Haw.
  - exists la, m', l, i'. split_and!; [done|by apply lookup_insert_eq|done].
Qed.

Lemma load_local a me e s priv k n :
  local_adapter a s priv → 0 < n < 2 ^ 63 →
  ∃ ret s' priv' buf, raft_exec a me e s (Load k n) = Some ((ret, Some buf), s') ∧
    local_adapter a s' priv' ∧ managed_grows (am_mem s) priv (am_mem s') priv' ∧
    (write_cached (am_mem s) priv (item_file a priv k) → ret ≠ error_code XDEVICE_OK).
Proof.
  intros (la&m&l&i&Hla&Hm&Hlm) Hn. set (buf := junk me <$> seq 0 (Z.to_nat n)).
  assert (Hlen : blen buf = n) by (unfold buf, blen; rewrite length_fmap, length_seq; lia).
  destruct (manager_read_local me e (am_mem s) m l i priv (raft_path a k) 0 n buf Hlm)
    as (ret&sm&m'&i'&priv'&buf'&Hr&Hlm'&Hg&Hwc); [split; [lia|by vm_compute]|lia|lia|].
  exists ret, (mk_adapter_mem (<[la := m']> (am_managers s)) sm), priv', buf'. split_and!; [| |done|].
  - assert (Har : adapter_read me e s a (raft_path a k) (Some buf) n =
      Some (ret, mk_adapter_mem (<[la := m']> (am_managers s)) sm, Some buf')).
    { unfold adapter_read. rewrite Hla, Hm. cbn [mbind option_bind]. by rewrite Hr. }
    unfold raft_exec. destruct k;
      unfold raft_storage_read_log, raft_storage_load_state, raft_storage_load_snapshot;
      cbv zeta; cbn [raft_path] in Har; fold buf; by rewrite Har.
  - exists la, m', l, i'. split_and!; [done|by apply lookup_insert_eq|done].
  - intros H. by apply Hwc.
Qed.

Lemma raft_run_local a me e s priv ops n :
  local_adapter a s priv → Forall (local_raft_op_ok a (lp_base_path priv)) ops →
  ∃ rs s' priv', raft_run a me e s ops n = Some (rs, s') ∧ local_adapter a s' priv' ∧
    managed_grows (am_mem s) priv (am_mem s') priv'.
Proof.
  intros Ha Hops. revert s priv n Ha Hops. induction ops as [|op ops IH]; intros s priv n Ha Hops.
  { exists [], s, priv. split_and!; [done|done|by apply local_grows_kept]. }
  apply Forall_cons in Hops as [Hop Hops].
  assert (Hstep : ∃ r s1 priv1, raft_exec a (me n) (e n) s op = Some (r, s1) ∧
    local_adapter a s1 priv1 ∧ managed_grows (am_mem s) priv (am_mem s1) priv1).
  { destruct op as [k d|k sz].
    - destruct Hop as [Hp Hd].
      destruct (save_local a (me n) (e n) s priv k d Ha Hp Hd) as (?&?&?&->&?&?&_). eauto 10.
    - destruct (load_local a (me n) (e n) s priv k sz Ha Hop) as (?&?&?&?&->&?&?&_). eauto 10. }
  destruct Hstep as (r&s1&priv1&Hst&Ha1&Hg1). cbn. rewrite Hst. cbn [mbind option_bind].
  destruct (IH s1 priv1 (S n) Ha1) as (rs&s2&priv2&->&Ha2&Hg2).
  { by rewrite (lg_base _ _ _ _ Hg1). }
  exists (r :: rs), s2, priv2. split_and!; [done|done|by eapply local_grows_trans].
Qed.

(** C20: over the local backend, which the manager prefers by default, an item that has
    been saved successfully cannot be loaded again: whatever is saved and loaded in
    between, every load of it fails, as long as the backend is not cleaned up. (The
    premise on the cache is that it has not run full.) *)
Theorem raft_local_saved_unreadable a me e s priv k d s1 me1 e1 ops :
  local_adapter a s priv → Forall (local_raft_op_ok a (lp_base_path priv)) (Save k d :: ops) →
  cache_room priv (item_file a priv k) →
  raft_exec a me e s (Save k d) = Some ((error_code XDEVICE_OK, None), s1) →
  ∃ rs s2, raft_run a me1 e1 s1 ops 0 = Some (rs, s2) ∧
    ∀ me2 e2 n, 0 < n < 2 ^ 63 →
    ∃ ret buf s3, raft_exec a me2 e2 s2 (Load k n) = Some ((ret, Some buf), s3) ∧
      ret ≠ error_code XDEVICE_OK.
Proof.
  intros Ha [[Hp Hd] Hops]%Forall_cons Hroom Hsave.
  destruct (save_local a me e s priv k d Ha Hp Hd) as (ret&s1'&priv1&Hsave'&Ha1&Hg1&Hwc).
  rewrite Hsave in Hsave'. injection Hsave' as <- <-. specialize (Hwc eq_refl Hroom).
  pose proof (lg_base _ _ _ _ Hg1) as Hb1.
  destruct (raft_run_local a me1 e1 s1 priv1 ops 0 Ha1) as (rs&s2&priv2&Hrun&Ha2&Hg2).
  { by rewrite Hb1. }
  exists rs, s2. split; [done|]. intros me2 e2 n Hn.
  destruct (load_local a me2 e2 s2 priv2 k n Ha2 Hn) as (ret2&s3&_&buf&Hl&_&_&Hfail).
  exists ret2, buf, s3. split; [done|]. apply Hfail.
  unfold item_file in *. rewrite (lg_base _ _ _ _ Hg2), Hb1. by eapply write_cached_grows.
Qed.

End local_adapter.

(** ** A node's storage, as the defaults set it up *)

Definition w_local_adapter : raft_storage_adapter_t :=
  mk_adapter (Some 9%positive) "dev0/" "log_" "state_" "snap_" "meta_" STORAGE_BACKEND_LOCAL
    STORAGE_BACKEND_LOCAL STORAGE_BACKEND_LOCAL STORAGE_BACKEND_LOCAL true 64 10 false.

Definition w_local_manager : storage_manager_t :=
  manager_initial <| sm_backends := Some 1%positive :: replicate 7 None |> <| sm_backend_count := 1 |>.

Definition w_local_mem : adapter_mem call_env kernel local_storage_private_t :=
  mk_adapter_mem {[9%positive := w_local_manager]}
    (mk_mem {[1%positive := mk_storage_interface w_iface local_vtable]} empty_kernel).

Lemma w_local_serves : local_adapter w_local_adapter w_local_mem w_priv.
Proof.
  exists 9%positive, w_local_manager, 1%positive, w_iface. split_and!; [done|done|].
  split; [done|done|done|apply w_object].
Qed.

Definition w_saved : adapter_mem call_env kernel local_storage_private_t :=
  match raft_exec w_local_adapter w_env (λ _, w_env) w_local_mem (Save (LogKey 1) [Byte.x01]) with
  | Some (_, s) => s
  | None => w_local_mem
  end.

Lemma w_saved_ok :
  raft_exec w_local_adapter w_env (λ _, w_env) w_local_mem (Save (LogKey 1) [Byte.x01]) =
    Some ((error_code XDEVICE_OK, None), w_saved).
Proof.
  assert (Hr : fst <$> raft_exec w_local_adapter w_env (λ _, w_env) w_local_mem
    (Save (LogKey 1) [Byte.x01]) = Some (error_code XDEVICE_OK, None)) by (vm_compute; reflexivity).
  unfold w_saved. destruct (raft_exec _ _ _ _ _) as [[r s]|]; [|done]. by injection Hr as ->.
Qed.

Lemma raft_local_saved_unreadable_witness : ∃ ret buf s3,
  raft_exec w_local_adapter w_env (λ _, w_env) w_saved (Load (LogKey 1) 1) = Some ((ret, Some buf), s3) ∧
  ret ≠ error_code XDEVICE_OK.
Proof.
  destruct (raft_local_saved_unreadable w_local_adapter w_env (λ _, w_env) w_local_mem w_priv (LogKey 1)
    [Byte.x01] w_saved (λ _, w_env) (λ _ _, w_env) [] w_local_serves) as (rs&s2&Hrun&Hload).
  - constructor; [|constructor]. split; [apply w_path_ok; vm_compute; reflexivity|by vm_compute].
  - right. by vm_compute.
  - exact w_saved_ok.
  - injection Hrun as _ <-. apply (Hload w_env (λ _, w_env) 1). lia.
Defined.
