(* ===== verification/CrcSpec.v ===== *)
(** * CrcSpec: the cyclic redundancy check CRC-32 of IEEE 802.3

    What [Crc32] is compared with: the remainder of the message, taken as a polynomial
    over the field of two elements, in a long division by the generator of the standard.
    Nothing here comes from the code. A polynomial is a number, bit [k] the coefficient of
    [x^k]; a list of bits has the highest coefficient first. *)

From Stdlib Require Import String.
From stdpp Require Import base numbers list strings.
From S2P Require Import Prelude.
Local Open Scope Z_scope.

(** ** Polynomials *)

(** [x^32 + x^26 + x^23 + x^22 + x^16 + x^12 + x^11 + x^10 + x^8 + x^7 + x^5 + x^4 + x^2 + x + 1]. *)
Definition generator : Z :=
  foldr (λ e acc, Z.lxor (2 ^ e) acc) 0 [32; 26; 23; 22; 16; 12; 11; 10; 8; 7; 5; 4; 2; 1; 0].

(** [x p + b]. *)
Definition poly_push (p : Z) (b : bool) : Z := Z.lxor (Z.shiftl p 1) (Z.b2z b).

Definition poly_of (bits : list bool) : Z := fold_left poly_push bits 0.

(** One step of the long division: the next coefficient of the dividend comes down, and
    the generator is subtracted when the degree has reached 32. *)
Definition div_step (r : Z) (b : bool) : Z :=
  let r := poly_push r b in if Z.testbit r 32 then Z.lxor r generator else r.

(** The remainder of the division by the generator. *)
Definition poly_mod (bits : list bool) : Z := fold_left div_step bits 0.

(** ** The check value *)

(** The bits of a byte in the order of transmission: the lowest first. *)
Definition byte_bits (b : Init.Byte.byte) : list bool :=
  (λ i : nat, N.testbit (Byte.to_N b) (N.of_nat i)) <$> seq 0 8.

Definition message_bits (data : block) : list bool := data ≫= byte_bits.

Definition complement_first (n : nat) (bits : list bool) : list bool := (negb <$> take n bits) ++ drop n bits.

(** The 32 low coefficients in the opposite order. *)
Definition reflect32 (p : Z) : Z := poly_of ((λ i : nat, Z.testbit p (Z.of_nat i)) <$> seq 0 32).

(** The message times [x^32], with its first 32 bits complemented, modulo the generator;
    the remainder is reflected and complemented. *)
Definition crc32_ref (data : block) : Z :=
  Z.lxor (reflect32 (poly_mod (complement_first 32 (message_bits data ++ replicate 32 false)))) 0xFFFFFFFF.

(** The check value of the CRC-32 catalogue. *)
Example crc32_ref_check : crc32_ref (chars "123456789") = 0xCBF43926.
Proof. vm_compute. reflexivity. Qed.

(** ** The division *)

(** Equations between sums of polynomials, coefficient by coefficient. *)
Ltac xor_solve :=
  apply Z.bits_inj'; intros ? _; rewrite ?Z.lxor_spec, ?Z.bits_0; repeat (destruct (Z.testbit _ _)); reflexivity.

Lemma testbit_push_0 p b : Z.testbit (poly_push p b) 0 = b.
Proof. unfold poly_push. rewrite Z.lxor_spec, Z.shiftl_spec_low by lia. by destruct b. Qed.

Lemma testbit_push_S p b k : 0 <= k → Z.testbit (poly_push p b) (k + 1) = Z.testbit p k.
Proof.
  intros Hk. unfold poly_push. rewrite Z.lxor_spec, Z.shiftl_spec by lia.
  replace (k + 1 - 1) with k by lia.
  assert (Hb : Z.testbit (Z.b2z b) (k + 1) = false).
  { destruct b; [|apply Z.bits_0]. change (Z.b2z true) with (2 ^ 0). apply Z.pow2_bits_false. lia. }
  by rewrite Hb, xorb_false_r.
Qed.

(** The degree of [p] is below [n]. *)
Definition degree_below (n p : Z) : Prop := ∀ k, n <= k → Z.testbit p k = false.

Lemma generator_degree : degree_below 33 generator ∧ Z.testbit generator 32 = true.
Proof.
  split; [|done]. intros k Hk. change generator with 0x104C11DB7.
  apply Z.bits_above_log2; [lia|]. change (Z.log2 0x104C11DB7) with 32. lia.
Qed.

Lemma div_step_degree r b : degree_below 32 r → degree_below 32 (div_step r b).
Proof.
  intros Hr k Hk. unfold div_step. destruct generator_degree as [Hg Hg32].
  assert (Hp : ∀ k, 33 <= k → Z.testbit (poly_push r b) k = false).
  { intros j Hj. replace j with (j - 1 + 1) by lia. rewrite testbit_push_S by lia. apply Hr. lia. }
  destruct (Z.testbit (poly_push r b) 32) eqn:H32; rewrite ?Z.lxor_spec.
  - destruct (decide (k = 32)) as [->|]; [by rewrite H32, Hg32|]. by rewrite Hp, Hg by lia.
  - destruct (decide (k = 32)) as [->|]; [done|]. apply Hp. lia.
Qed.

(** A multiple of the generator, from the coefficients of the quotient. *)
Definition multiple (q : list bool) : Z :=
  fold_left (λ m (c : bool), Z.lxor (Z.shiftl m 1) (if c then generator else 0)) q 0.

(** [poly_mod] is the remainder: the dividend is a multiple of the generator plus a
    polynomial of a lower degree. *)
Lemma poly_mod_spec bits :
  ∃ q, poly_of bits = Z.lxor (multiple q) (poly_mod bits) ∧ degree_below 32 (poly_mod bits).
Proof.
  induction bits as [|b bits (q&Hq&Hr)] using rev_ind; [exists []; by split; [|intros k _; apply Z.bits_0]|].
  unfold poly_of, poly_mod in *. rewrite !fold_left_app. cbn [fold_left]. rewrite Hq. clear Hq.
  set (r := fold_left div_step bits 0) in *.
  exists (q ++ [Z.testbit (poly_push r b) 32]). split; [|by apply div_step_degree].
  unfold multiple. rewrite fold_left_app. cbn [fold_left]. fold (multiple q). unfold div_step.
  assert (Hpush : poly_push (Z.lxor (multiple q) r) b = Z.lxor (Z.shiftl (multiple q) 1) (poly_push r b)).
  { unfold poly_push. by rewrite Z.shiftl_lxor, Z.lxor_assoc. }
  rewrite Hpush. destruct (Z.testbit (poly_push r b) 32); xor_solve.
Qed.

(** ** Linearity *)

Lemma div_step_lxor r1 r2 b1 b2 :
  div_step (Z.lxor r1 r2) (xorb b1 b2) = Z.lxor (div_step r1 b1) (div_step r2 b2).
Proof.
  unfold div_step.
  assert (Hp : poly_push (Z.lxor r1 r2) (xorb b1 b2) = Z.lxor (poly_push r1 b1) (poly_push r2 b2)).
  { unfold poly_push. rewrite Z.shiftl_lxor.
    assert (Hb : Z.b2z (xorb b1 b2) = Z.lxor (Z.b2z b1) (Z.b2z b2)) by by destruct b1, b2. rewrite Hb. xor_solve. }
  rewrite Hp, Z.lxor_spec.
  destruct (Z.testbit (poly_push r1 b1) 32), (Z.testbit (poly_push r2 b2) 32); cbn [xorb]; xor_solve.
Qed.

Lemma div_lxor bits1 bits2 r1 r2 :
  length bits1 = length bits2 →
  fold_left div_step (zip_with xorb bits1 bits2) (Z.lxor r1 r2) =
    Z.lxor (fold_left div_step bits1 r1) (fold_left div_step bits2 r2).
Proof.
  revert bits2 r1 r2. induction bits1 as [|b1 bits1 IH]; intros [|b2 bits2] r1 r2 Hlen; try done.
  cbn. rewrite div_step_lxor. apply IH. by injection Hlen.
Qed.

(** Multiplication by [x], modulo the generator. *)
Definition times_x (r : Z) : Z := div_step r false.

Lemma times_x_lxor n r1 r2 :
  Nat.iter n times_x (Z.lxor r1 r2) = Z.lxor (Nat.iter n times_x r1) (Nat.iter n times_x r2).
Proof.
  induction n as [|n IH]; [done|]. rewrite !Nat.iter_succ, IH. apply (div_step_lxor _ _ false false).
Qed.

Lemma div_zeros n r : fold_left div_step (replicate n false) r = Nat.iter n times_x r.
Proof. revert r. induction n as [|n IH]; intros r; [done|]. by rewrite Nat.iter_succ_r, <- IH. Qed.

Lemma div_step_bit r b : div_step r b = Z.lxor (times_x r) (Z.b2z b).
Proof.
  rewrite <- (Z.lxor_0_r r) at 1. change b with (xorb false b) at 1. rewrite div_step_lxor.
  by destruct b.
Qed.

(** ** Without the 32 zero bits

    A register that takes each bit at its top does the same division, 32 steps ahead. *)
Definition direct_step (s : Z) (b : bool) : Z := times_x (Z.lxor s (Z.shiftl (Z.b2z b) 31)).

Lemma direct_bit b : times_x (Z.shiftl (Z.b2z b) 31) = Nat.iter 32 times_x (Z.b2z b).
Proof. by destruct b; vm_compute. Qed.

Lemma direct_div (m : nat) bits s r init :
  (∀ b, times_x (Z.shiftl (Z.b2z b) 31) = Nat.iter m times_x (Z.b2z b)) →
  s = Z.lxor (Nat.iter m times_x r) init →
  fold_left direct_step bits s =
    Z.lxor (Nat.iter m times_x (fold_left div_step bits r)) (Nat.iter (length bits) times_x init).
Proof.
  intros Hbit. revert s r init. induction bits as [|b bits IH]; intros s r init Hs; [done|].
  cbn [fold_left length]. rewrite (Nat.iter_succ_r (length bits)). apply IH.
  rewrite Hs, div_step_bit, times_x_lxor, <- Hbit, <- Nat.iter_succ_r, Nat.iter_succ. unfold direct_step.
  assert (Hx : ∀ p q, times_x (Z.lxor p q) = Z.lxor (times_x p) (times_x q)) by exact (times_x_lxor 1).
  rewrite !Hx. xor_solve.
Qed.

Lemma complement_xor n bits :
  (n <= length bits)%nat →
  complement_first n bits = zip_with xorb bits (replicate n true ++ replicate (length bits - n) false).
Proof.
  revert n. induction bits as [|b bits IH]; intros [|n] Hn; [done|cbn in Hn; lia| |].
  - unfold complement_first. cbn [take fmap list_fmap app drop replicate]. rewrite Nat.sub_0_r. clear.
    induction (b :: bits) as [|c cs IH]; [done|]. cbn. by rewrite xorb_false_r, <- IH.
  - change (negb b :: complement_first n bits =
      xorb b true :: zip_with xorb bits (replicate n true ++ replicate (length bits - n) false)).
    rewrite IH by (cbn in Hn; lia). by destruct b.
Qed.

(** The remainder, from a register that begins with 32 ones. *)
Lemma crc_direct bits :
  poly_mod (complement_first 32 (bits ++ replicate 32 false)) = fold_left direct_step bits 0xFFFFFFFF.
Proof.
  rewrite (direct_div 32 bits 0xFFFFFFFF 0 0xFFFFFFFF direct_bit) by by vm_compute.
  rewrite complement_xor by (rewrite length_app, length_replicate; lia).
  rewrite length_app, length_replicate, Nat.add_sub. unfold poly_mod.
  change 0 with (Z.lxor 0 0) at 1. rewrite div_lxor by (rewrite !length_app, !length_replicate; lia).
  rewrite !fold_left_app, !div_zeros. by f_equal.
Qed.

(** ** Reflection *)

Lemma testbit_poly_of bits (k : nat) :
  Z.testbit (poly_of bits) (Z.of_nat k) = default false (reverse bits !! k).
Proof.
  unfold poly_of. revert k. induction bits as [|b bits IH] using rev_ind; intros k; [by rewrite Z.bits_0|].
  rewrite fold_left_app, reverse_snoc. cbn [fold_left]. destruct k as [|k]; [apply testbit_push_0|].
  replace (Z.of_nat (S k)) with (Z.of_nat k + 1) by lia. rewrite testbit_push_S by lia. apply IH.
Qed.

Lemma testbit_reflect p k : 0 <= k → Z.testbit (reflect32 p) k = (k <? 32) && Z.testbit p (31 - k).
Proof.
  intros Hk. rewrite <- (Z2Nat.id k) by done. generalize (Z.to_nat k). clear k Hk. intros k. unfold reflect32.
  rewrite testbit_poly_of. destruct (Z.ltb_spec (Z.of_nat k) 32) as [Hlt|Hge]; cbn [andb].
  - rewrite reverse_lookup by (rewrite length_fmap, length_seq; lia).
    rewrite length_fmap, length_seq, list_lookup_fmap, lookup_seq_lt by lia. cbn. f_equal. lia.
  - rewrite lookup_ge_None_2; [done|]. rewrite length_reverse, length_fmap, length_seq. lia.
Qed.

Lemma reflect_lxor p q : reflect32 (Z.lxor p q) = Z.lxor (reflect32 p) (reflect32 q).
Proof.
  apply Z.bits_inj'. intros k Hk. rewrite Z.lxor_spec, !testbit_reflect, Z.lxor_spec by done. by destruct (k <? 32).
Qed.

(** Multiplication by [x] is a shift to the right of the reflected register. *)
Lemma reflect_times_x s :
  reflect32 (times_x s) =
    Z.lxor (Z.shiftr (reflect32 s) 1) (if Z.testbit s 31 then reflect32 generator else 0).
Proof.
  assert (Hx : times_x s = Z.lxor (Z.shiftl s 1) (if Z.testbit s 31 then generator else 0)).
  { unfold times_x, div_step, poly_push. rewrite !Z.lxor_0_r, Z.shiftl_spec by lia. change (32 - 1) with 31.
    destruct (Z.testbit s 31); [done|by rewrite Z.lxor_0_r]. }
  rewrite Hx, reflect_lxor. f_equal; [|by destruct (Z.testbit s 31)].
  apply Z.bits_inj'. intros k Hk. rewrite Z.shiftr_spec, !testbit_reflect by lia.
  destruct (Z.ltb_spec k 32), (Z.ltb_spec (k + 1) 32); cbn [andb]; try lia;
    rewrite ?Z.shiftl_spec by lia; [f_equal; lia|].
  rewrite Z.testbit_neg_r by lia. done.
Qed.

(** A step of the reflected register: the bit comes in at the bottom. *)
Definition reflected_step (c : Z) (b : bool) : Z :=
  let c := Z.lxor c (Z.b2z b) in
  Z.lxor (Z.shiftr c 1) (if Z.testbit c 0 then reflect32 generator else 0).

Lemma reflect_direct s b : reflect32 (direct_step s b) = reflected_step (reflect32 s) b.
Proof.
  unfold direct_step, reflected_step. rewrite reflect_times_x, reflect_lxor.
  assert (Hb : reflect32 (Z.shiftl (Z.b2z b) 31) = Z.b2z b) by by destruct b; vm_compute.
  rewrite Hb. cbn zeta. f_equal.
  assert (H0 : Z.testbit (Z.lxor (reflect32 s) (Z.b2z b)) 0 = Z.testbit (Z.lxor s (Z.shiftl (Z.b2z b) 31)) 31).
  { rewrite !Z.lxor_spec, testbit_reflect by lia. by destruct b. }
  by rewrite H0.
Qed.

Lemma fold_left_map {A B C} (h : A → B) (f : A → C → A) (g : B → C → B) l a :
  (∀ a c, h (f a c) = g (h a) c) → h (fold_left f l a) = fold_left g l (h a).
Proof. intros Hfg. revert a. induction l as [|c l IH]; intros a; cbn; [done|]. by rewrite IH, Hfg. Qed.

(** The reference, from a reflected register that begins with 32 ones. *)
Lemma crc32_ref_reflected data :
  crc32_ref data = Z.lxor (fold_left reflected_step (message_bits data) 0xFFFFFFFF) 0xFFFFFFFF.
Proof.
  assert (Hones : reflect32 0xFFFFFFFF = 0xFFFFFFFF) by by vm_compute.
  unfold crc32_ref. apply (f_equal (λ z, Z.lxor z 0xFFFFFFFF)).
  etrans; [exact (f_equal reflect32 (crc_direct (message_bits data)))|].
  etrans; [exact (fold_left_map _ _ _ _ _ reflect_direct)|]. by apply (f_equal (fold_left reflected_step (message_bits data))).
Qed.

#[global] Arguments crc32_ref : simpl never.
