(* ===== verification/Crc32.v ===== *)
(** * Crc32: the checksum of the write-ahead log ([crc32] of [src/storage/wal_engine.c])

    The table-driven function with its lazily initialised static table, its equivalence
    with the polynomial division of [CrcSpec], and injectivity: changing up to four
    consecutive bytes of a message always changes its checksum. *)

From stdpp Require Import base numbers list.
From S2P Require Import Prelude CrcSpec.
Local Open Scope Z_scope.

(** ** The C function *)

Definition byte_val (b : Init.Byte.byte) : Z := Z.of_N (Byte.to_N b).

(** One round of the inner loop: [crc & 1], [crc >> 1], [^ 0xEDB88320]. *)
Definition crc_bit (crc : Z) : Z :=
  if Z.land crc 1 =? 1 then Z.lxor (Z.shiftr crc 1) 0xEDB88320 else Z.shiftr crc 1.

(** The eight rounds that compute [crc_table[i]]. *)
Definition crc_entry (i : Z) : Z := Nat.iter 8 crc_bit i.

(** The static variables of [crc32]: [table_initialized] with the table it says
    is there. *)
Record crc_static := mk_crc_static { crc_table : list Z; table_initialized : bool }.

(** Static variables start out zeroed. *)
Definition crc_static_zero : crc_static := mk_crc_static (replicate 256 0) false.

Definition init_table (st : crc_static) : crc_static :=
  if table_initialized st then st
  else mk_crc_static (crc_entry ∘ Z.of_nat <$> seq 0 256) true.

(** The loop over the message. The index is below 256, so [nth] reads inside. *)
Definition crc_update (table : list Z) (crc : Z) (b : Init.Byte.byte) : Z :=
  Z.lxor (nth (Z.to_nat (Z.land (Z.lxor crc (byte_val b)) 0xFF)) table 0) (Z.shiftr crc 8).

(** The value and the static variables after the call. *)
Definition crc32_call (st : crc_static) (data : block) : Z * crc_static :=
  let st := init_table st in
  let crc := fold_left (crc_update (crc_table st)) data 0xFFFFFFFF in
  (Z.lxor crc 0xFFFFFFFF, st).

(** The value; [crc32_call_spec] shows that the static variables do not show. *)
Definition crc32 (data : block) : Z := (crc32_call crc_static_zero data).1.

(** A byte without the table: eight rounds. *)
Definition crc_byte (crc : Z) (b : Init.Byte.byte) : Z :=
  Nat.iter 8 crc_bit (Z.lxor crc (byte_val b)).

(** ** Lemmas *)

Definition the_table : list Z := Eval vm_compute in crc_table (init_table crc_static_zero).

Lemma the_table_eq : crc_table (init_table crc_static_zero) = the_table.
Proof. by vm_compute. Qed.

Definition table_at (i : Z) : Z := nth (Z.to_nat i) the_table 0.

Lemma byte_val_range b : 0 <= byte_val b < 256.
Proof. unfold byte_val. by destruct b; vm_compute. Qed.

#[export] Instance byte_val_inj : Inj (=) (=) byte_val.
Proof.
  intros b c H. unfold byte_val in H. apply N2Z.inj in H.
  apply (f_equal Byte.of_N) in H. rewrite !Byte.of_to_N in H. congruence.
Qed.

(** Every table entry is the byte's eight rounds. *)
Lemma table_at_entry i : 0 <= i < 256 → table_at i = crc_entry i.
Proof.
  intros Hi. assert (H : forallb (λ n, table_at (Z.of_nat n) =? crc_entry (Z.of_nat n)) (seq 0 256) = true)
    by by vm_compute.
  rewrite forallb_forall in H. specialize (H (Z.to_nat i)). rewrite Z2Nat.id in H by lia.
  apply Z.eqb_eq, H, in_seq. lia.
Qed.

(** Bits above the low one pass through a round, one place lower. *)
Lemma crc_bit_high x y k :
  0 <= k → crc_bit (Z.lxor x (Z.shiftl y (k + 1))) = Z.lxor (crc_bit x) (Z.shiftl y k).
Proof.
  intros Hk. unfold crc_bit.
  assert (Hl : Z.land (Z.lxor x (Z.shiftl y (k + 1))) 1 = Z.land x 1).
  { apply Z.bits_inj'. intros n Hn. rewrite !Z.land_spec, Z.lxor_spec.
    destruct (decide (n = 0)) as [->|].
    - rewrite Z.shiftl_spec_low, xorb_false_r by lia. done.
    - change 1 with (Z.ones 1). rewrite !(Z.ones_spec_high 1), !andb_false_r by lia. done. }
  assert (Hs : Z.shiftr (Z.lxor x (Z.shiftl y (k + 1))) 1 = Z.lxor (Z.shiftr x 1) (Z.shiftl y k)).
  { rewrite Z.shiftr_lxor, Z.shiftr_shiftl_l by lia. do 2 f_equal. lia. }
  rewrite Hl, Hs. case_match; [|done].
  rewrite !Z.lxor_assoc. f_equal. apply Z.lxor_comm.
Qed.

Lemma crc_rounds_high (n : nat) x y :
  Nat.iter n crc_bit (Z.lxor x (Z.shiftl y (Z.of_nat n))) = Z.lxor (Nat.iter n crc_bit x) y.
Proof.
  revert x y. induction n as [|n IH]; intros x y; [by rewrite Z.shiftl_0_r|].
  rewrite !Nat.iter_succ_r, <- IH. f_equal.
  rewrite Nat2Z.inj_succ. unfold Z.succ. apply crc_bit_high. lia.
Qed.

(** A number is its low byte and the rest. *)
Lemma split_low_byte z : z = Z.lxor (Z.land z 0xFF) (Z.shiftl (Z.shiftr z 8) 8).
Proof.
  apply Z.bits_inj'. intros n Hn. rewrite Z.lxor_spec, Z.land_spec.
  change 0xFF with (Z.ones 8). destruct (decide (n < 8)).
  - rewrite Z.ones_spec_low, Z.shiftl_spec_low, andb_true_r, xorb_false_r by lia. done.
  - rewrite Z.ones_spec_high, andb_false_r, Z.shiftl_spec, Z.shiftr_spec by lia.
    cbn. f_equal. lia.
Qed.

Lemma shiftr_xor_byte z b : Z.shiftr (Z.lxor z (byte_val b)) 8 = Z.shiftr z 8.
Proof.
  rewrite Z.shiftr_lxor. pose proof (byte_val_range b).
  rewrite (Z.shiftr_div_pow2 (byte_val b)), Z.div_small by lia. apply Z.lxor_0_r.
Qed.

Lemma land_255_range z : 0 <= Z.land z 0xFF < 256.
Proof.
  change 0xFF with (Z.ones 8). rewrite Z.land_ones by lia. apply Z.mod_pos_bound. lia.
Qed.

(** One table step is eight bit steps. *)
Lemma crc_update_ref crc b : crc_update the_table crc b = crc_byte crc b.
Proof.
  unfold crc_update, crc_byte.
  change (nth _ the_table 0) with (table_at (Z.land (Z.lxor crc (byte_val b)) 0xFF)).
  rewrite table_at_entry by apply land_255_range. unfold crc_entry.
  rewrite (split_low_byte (Z.lxor crc (byte_val b))) at 2. rewrite shiftr_xor_byte.
  symmetry. apply (crc_rounds_high 8).
Qed.

(** A round is a step of the reflected register of the reference. *)
Lemma crc_bit_ref c b : crc_bit (Z.lxor c (Z.b2z b)) = reflected_step c b.
Proof.
  unfold reflected_step. generalize (Z.lxor c (Z.b2z b)). clear c b. intros c. cbn zeta. unfold crc_bit. change 1 with (Z.ones 1) at 1. rewrite Z.land_ones by lia. change (2 ^ 1) with 2.
  rewrite <- Z.bit0_mod. change (reflect32 generator) with 0xEDB88320.
  destruct (Z.testbit c 0); [done|]. by rewrite Z.lxor_0_r.
Qed.

Lemma split_low_bit y : y = Z.lxor (Z.b2z (Z.testbit y 0)) (Z.shiftl (Z.shiftr y 1) (0 + 1)).
Proof.
  change (0 + 1) with 1. apply Z.bits_inj'. intros n Hn. rewrite Z.lxor_spec. destruct (decide (n = 0)) as [->|].
  - rewrite Z.shiftl_spec_low, xorb_false_r by lia. by destruct (Z.testbit y 0).
  - rewrite Z.shiftl_spec, Z.shiftr_spec by lia. replace (n - 1 + 1) with n by lia.
    assert (Hb : Z.testbit (Z.b2z (Z.testbit y 0)) n = false).
    { destruct (Z.testbit y 0); [|apply Z.bits_0]. change (Z.b2z true) with (2 ^ 0). apply Z.pow2_bits_false. lia. }
    by rewrite Hb.
Qed.

(** Eight rounds take in the eight bits of the byte, the lowest first. *)
Lemma crc_rounds_bits (n : nat) c y :
  Nat.iter n crc_bit (Z.lxor c y) =
    Z.lxor (fold_left (λ c b, crc_bit (Z.lxor c (Z.b2z b)))
              ((λ i : nat, Z.testbit y (Z.of_nat i)) <$> seq 0 n) c) (Z.shiftr y (Z.of_nat n)).
Proof.
  revert c y. induction n as [|n IH]; intros c y; [by rewrite Z.shiftr_0_r|].
  rewrite Nat.iter_succ_r. cbn [seq fmap list_fmap fold_left]. rewrite <- fmap_S_seq, <- list_fmap_compose.
  rewrite (split_low_bit y) at 1. rewrite <- Z.lxor_assoc, crc_bit_high, Z.shiftl_0_r, IH by lia.
  rewrite Z.shiftr_shiftr by lia. replace (1 + Z.of_nat n) with (Z.of_nat (S n)) by lia. f_equal. f_equal.
  apply list_fmap_ext. intros _ i _. cbn [compose]. rewrite Z.shiftr_spec by lia. f_equal. lia.
Qed.

Lemma crc_byte_bits c b : crc_byte c b = fold_left (λ c b, crc_bit (Z.lxor c (Z.b2z b))) (byte_bits b) c.
Proof.
  unfold crc_byte. rewrite (crc_rounds_bits 8). pose proof (byte_val_range b).
  rewrite (Z.shiftr_div_pow2 (byte_val b)), Z.div_small, Z.lxor_0_r by lia. f_equal.
  apply list_fmap_ext. intros _ i _. unfold byte_val.
  rewrite <- (nat_N_Z i). apply Z.testbit_of_N.
Qed.

(** The rounds of all bytes make the reference. *)
Lemma crc_bytes_ref data : Z.lxor (fold_left crc_byte data 0xFFFFFFFF) 0xFFFFFFFF = crc32_ref data.
Proof.
  rewrite crc32_ref_reflected. f_equal. generalize 0xFFFFFFFF.
  induction data as [|b data IH]; intros c; [done|]. unfold message_bits. cbn [fold_left mbind list_bind].
  rewrite fold_left_app, IH, crc_byte_bits. unfold message_bits. f_equal.
  generalize (byte_bits b). intros bits. revert c. induction bits as [|x bits IHb]; intros c; [done|].
  cbn [fold_left]. rewrite <- IHb. by rewrite crc_bit_ref.
Qed.

(** The states the static variables go through. *)
Definition crc_static_ok (st : crc_static) : Prop :=
  table_initialized st = true → crc_table st = the_table.

Lemma init_table_ok st : crc_static_ok st → crc_table (init_table st) = the_table.
Proof.
  unfold init_table, crc_static_ok. destruct (table_initialized st); [auto|].
  intros _. apply the_table_eq.
Qed.

(** Every call returns the reference value, whatever calls were made before it. *)
Lemma crc32_call_spec st data :
  crc_static_ok st → (crc32_call st data).1 = crc32_ref data ∧ crc_static_ok (crc32_call st data).2.
Proof.
  intros Hst. unfold crc32_call. cbn [fst snd]. split.
  - rewrite init_table_ok, <- crc_bytes_ref by done. f_equal.
    generalize 0xFFFFFFFF. induction data as [|b data IH]; intros crc; cbn; [done|].
    by rewrite crc_update_ref, IH.
  - intros _. by apply init_table_ok.
Qed.

Lemma crc32_fold data :
  crc32 data = Z.lxor (fold_left (crc_update the_table) data 0xFFFFFFFF) 0xFFFFFFFF.
Proof. unfold crc32, crc32_call. by rewrite the_table_eq. Qed.

(** ** Range and injectivity *)

Lemma u32_lxor a b : u32 a → u32 b → u32 (Z.lxor a b).
Proof.
  unfold u32. intros Ha Hb.
  assert (0 <= Z.lxor a b) by (apply Z.lxor_nonneg; lia).
  destruct (decide (a = 0)) as [->|]; [by rewrite Z.lxor_0_l|].
  destruct (decide (b = 0)) as [->|]; [by rewrite Z.lxor_0_r|].
  destruct (decide (Z.lxor a b = 0)) as [->|Hne]; [lia|]. split; [lia|].
  apply Z.log2_lt_pow2; [lia|].
  eapply Z.le_lt_trans; [apply Z.log2_lxor; lia|].
  apply Z.max_lub_lt; apply Z.log2_lt_pow2; lia.
Qed.

Lemma u32_shiftr8 a : u32 a → 0 <= Z.shiftr a 8 < 2 ^ 24.
Proof.
  unfold u32. intros. rewrite Z.shiftr_div_pow2 by lia. split; [apply Z.div_pos; lia|].
  apply Z.div_lt_upper_bound; lia.
Qed.

Lemma table_at_range i : 0 <= i < 256 → u32 (table_at i).
Proof.
  intros Hi. assert (H : forallb (λ z, (0 <=? z) && (z <? 2 ^ 32)) the_table = true) by by vm_compute.
  rewrite forallb_forall in H. unfold table_at, u32.
  assert (Hlen : (Z.to_nat i < length the_table)%nat) by (change (length the_table) with 256%nat; lia).
  specialize (H _ (nth_In the_table 0 Hlen)). to_prop. lia.
Qed.

Lemma crc_update_range crc b : u32 crc → u32 (crc_update the_table crc b).
Proof.
  intros Hc. unfold crc_update. apply u32_lxor.
  - apply (table_at_range (Z.land _ _)), land_255_range.
  - pose proof (u32_shiftr8 crc Hc). unfold u32. lia.
Qed.

Lemma crc_fold_range data crc : u32 crc → u32 (fold_left (crc_update the_table) data crc).
Proof.
  revert crc. induction data as [|b data IH]; intros crc Hc; cbn; [done|].
  by apply IH, crc_update_range.
Qed.

Lemma crc32_range data : u32 (crc32 data).
Proof.
  rewrite crc32_fold. apply u32_lxor; [apply crc_fold_range|]; unfold u32; lia.
Qed.

(** The top bytes of the table's entries are pairwise distinct. *)
Lemma table_top_inj i j :
  0 <= i < 256 → 0 <= j < 256 → Z.shiftr (table_at i) 24 = Z.shiftr (table_at j) 24 → i = j.
Proof.
  intros Hi Hj Heq.
  assert (H : bool_decide (NoDup ((λ z, Z.shiftr z 24) <$> the_table)) = true) by by vm_compute.
  apply bool_decide_eq_true_1 in H.
  assert (Hl : ∀ k, 0 <= k < 256 → ((λ z, Z.shiftr z 24) <$> the_table) !! Z.to_nat k =
                                    Some (Z.shiftr (table_at k) 24)).
  { intros k Hk. rewrite list_lookup_fmap. unfold table_at.
    destruct (lookup_lt_is_Some_2 the_table (Z.to_nat k)) as [x Hx].
    { change (length the_table) with 256%nat. lia. }
    rewrite Hx. by rewrite (nth_lookup_Some _ _ _ _ Hx). }
  pose proof (NoDup_lookup _ _ _ _ H (Hl i Hi) ltac:(rewrite Hl by done; congruence)). lia.
Qed.

Lemma byte_xor_inj r b c :
  Z.land (Z.lxor r (byte_val b)) 0xFF = Z.land (Z.lxor r (byte_val c)) 0xFF → b = c.
Proof.
  intros H. apply (inj byte_val). pose proof (byte_val_range b). pose proof (byte_val_range c).
  change 0xFF with (Z.ones 8) in H.
  rewrite <- (Z.mod_small (byte_val b) (2 ^ 8)), <- (Z.mod_small (byte_val c) (2 ^ 8)) by lia.
  rewrite <- !Z.land_ones by lia. apply Z.bits_inj'. intros n Hn.
  apply (f_equal (λ z, Z.testbit z n)) in H. rewrite !Z.land_spec, !Z.lxor_spec in H.
  rewrite !Z.land_spec. destruct (Z.testbit (Z.ones 8) n); rewrite ?andb_true_r, ?andb_false_r in *; [|done].
  by destruct (Z.testbit r n), (Z.testbit (byte_val b) n), (Z.testbit (byte_val c) n).
Qed.

(** When two updated registers agree above bit [8k], the table index was the same
    and the registers before agree above bit [8(k+1)]. *)
Lemma crc_update_agree (k : Z) r r' b c :
  u32 r → u32 r' → 0 <= k <= 3 →
  Z.shiftr (crc_update the_table r b) (8 * k) = Z.shiftr (crc_update the_table r' c) (8 * k) →
  Z.land (Z.lxor r (byte_val b)) 0xFF = Z.land (Z.lxor r' (byte_val c)) 0xFF ∧
  Z.shiftr r (8 * (k + 1)) = Z.shiftr r' (8 * (k + 1)).
Proof.
  intros Hr Hr' Hk H. unfold crc_update in H.
  set (i := Z.land (Z.lxor r (byte_val b)) 0xFF) in *.
  set (j := Z.land (Z.lxor r' (byte_val c)) 0xFF) in *.
  change (nth (Z.to_nat i) the_table 0) with (table_at i) in H.
  change (nth (Z.to_nat j) the_table 0) with (table_at j) in H.
  rewrite !Z.shiftr_lxor, !Z.shiftr_shiftr in H by lia.
  assert (Htop : Z.shiftr (table_at i) 24 = Z.shiftr (table_at j) 24).
  { apply (f_equal (λ z, Z.shiftr z (24 - 8 * k))) in H.
    rewrite !Z.shiftr_lxor, !Z.shiftr_shiftr in H by lia.
    replace (8 * k + (24 - 8 * k)) with 24 in H by lia.
    replace (8 + 8 * k + (24 - 8 * k)) with 32 in H by lia.
    rewrite (Z.shiftr_div_pow2 r), (Z.shiftr_div_pow2 r'), !(Z.div_small _ (2 ^ 32)) in H
      by (unfold u32 in *; lia).
    by rewrite !Z.lxor_0_r in H. }
  assert (Hij : i = j) by (apply table_top_inj; [apply land_255_range..|done]).
  split; [done|]. rewrite Hij in H.
  apply (f_equal (Z.lxor (Z.shiftr (table_at j) (8 * k)))) in H.
  rewrite <- !Z.lxor_assoc, !Z.lxor_nilpotent, !Z.lxor_0_l in H.
  by replace (8 * (k + 1)) with (8 + 8 * k) by lia.
Qed.

(** Different registers stay different under the same bytes. *)
Lemma crc_fold_inj data r r' :
  u32 r → u32 r' →
  fold_left (crc_update the_table) data r = fold_left (crc_update the_table) data r' → r = r'.
Proof.
  revert r r'. induction data as [|b data IH]; intros r r' Hr Hr' H; cbn in H; [done|].
  apply IH in H; [|by apply crc_update_range..].
  destruct (crc_update_agree 0 r r' b b Hr Hr') as [Hi Hs]; [lia|by rewrite H|].
  assert (Heq : Z.lxor r (byte_val b) = Z.lxor r' (byte_val b)).
  { rewrite (split_low_byte (Z.lxor r (byte_val b))), (split_low_byte (Z.lxor r' (byte_val b))).
    rewrite !shiftr_xor_byte. change (8 * (0 + 1)) with 8 in Hs. congruence. }
  apply (f_equal (λ z, Z.lxor z (byte_val b))) in Heq.
  by rewrite !Z.lxor_assoc, Z.lxor_nilpotent, !Z.lxor_0_r in Heq.
Qed.

(** Four bytes are determined by the register they lead to. *)
Lemma crc_four_inj r b0 b1 b2 b3 c0 c1 c2 c3 :
  u32 r →
  fold_left (crc_update the_table) [b0; b1; b2; b3] r =
    fold_left (crc_update the_table) [c0; c1; c2; c3] r →
  [b0; b1; b2; b3] = [c0; c1; c2; c3].
Proof.
  intros Hr. cbn [fold_left].
  set (u := crc_update the_table). intros H.
  destruct (crc_update_agree 0 (u (u (u r b0) b1) b2) (u (u (u r c0) c1) c2) b3 c3) as [H3 A3];
    [by repeat apply crc_update_range|by repeat apply crc_update_range|lia|by fold u; rewrite H|].
  destruct (crc_update_agree 1 (u (u r b0) b1) (u (u r c0) c1) b2 c2) as [H2 A2];
    [by repeat apply crc_update_range|by repeat apply crc_update_range|lia|done|].
  destruct (crc_update_agree 2 (u r b0) (u r c0) b1 c1) as [H1 A1];
    [by apply crc_update_range|by apply crc_update_range|lia|done|].
  destruct (crc_update_agree 3 r r b0 c0) as [H0 _]; [done..|lia|done|].
  apply byte_xor_inj in H0 as ->. apply byte_xor_inj in H1 as ->.
  apply byte_xor_inj in H2 as ->. by apply byte_xor_inj in H3 as ->.
Qed.

(** So are up to four bytes, and the bytes around them do not matter. *)
Lemma crc_short_inj r x y :
  u32 r → length x = length y → (length x <= 4)%nat →
  fold_left (crc_update the_table) x r = fold_left (crc_update the_table) y r → x = y.
Proof.
  intros Hr Hlen H4 H. set (z := replicate (4 - length x) Byte.x00).
  assert (Hz : fold_left (crc_update the_table) (x ++ z) r = fold_left (crc_update the_table) (y ++ z) r)
    by by rewrite !fold_left_app, H.
  assert (Hx : length (x ++ z) = 4%nat) by (unfold z; rewrite length_app, length_replicate; lia).
  assert (Hy : length (y ++ z) = 4%nat) by (unfold z; rewrite length_app, length_replicate; lia).
  apply (app_inv_tail z).
  destruct (x ++ z) as [|b0 [|b1 [|b2 [|b3 [|]]]]]; try done.
  destruct (y ++ z) as [|c0 [|c1 [|c2 [|c3 [|]]]]]; try done.
  by eapply crc_four_inj.
Qed.

Lemma crc32_window_inj p x y q :
  length x = length y → (length x <= 4)%nat → crc32 (p ++ x ++ q) = crc32 (p ++ y ++ q) → x = y.
Proof.
  intros Hlen H4 H. rewrite !crc32_fold in H.
  apply (f_equal (λ z, Z.lxor z 0xFFFFFFFF)) in H.
  rewrite !Z.lxor_assoc, !Z.lxor_nilpotent, !Z.lxor_0_r, !fold_left_app in H.
  assert (Hp : u32 (fold_left (crc_update the_table) p 0xFFFFFFFF)).
  { apply crc_fold_range. unfold u32. lia. }
  apply crc_fold_inj in H; [|by apply crc_fold_range..].
  by apply crc_short_inj in H.
Qed.

#[global] Arguments crc32 : simpl never.
#[global] Arguments crc32_call : simpl never.
#[global] Arguments crc_update : simpl never.
