(* ===== verification/WalEngine.v ===== *)
(** * WalEngine: the write-ahead log ([src/storage/wal_engine.c])

    The log is a memory-mapped file: a 40-byte header, then records of a 160-byte
    header and their data, back to back. Structures are laid out as on a 64-bit
    little-endian machine, padding included; bytes the code never initialises
    come from the environment of the call.

    The mapping is shared with the file, so stores through it go to the file's
    content directly; a store past the end of the file is [None]. Every access is
    made with [write_mutex] held, so an operation is one step. *)

From Stdlib Require Import String.
From stdpp Require Import base numbers list strings gmap.
From coqutil Require Import Byte Word.LittleEndianList.
From S2P Require Import XDevice Prelude Libc StorageSpec Crc32.
Local Open Scope Z_scope.

(** ** Data *)

Record xdevice_wal := mk_wal {
  wal_fd : string;                  (* the file the descriptor refers to *)
  wal_file_size : Z;
  wal_current_offset : Z;
  wal_next_lsn : Z;
  wal_file_path : string;           (* char[256] *)
  wal_is_syncing : bool;
  wal_last_sync_lsn : Z;
  wal_buffer_size : Z;
  wal_buffer_used : Z;
  wal_total_writes : Z;
  wal_total_syncs : Z;
  wal_total_bytes_written : Z
}.

Record xdevice_wal_stats_t := mk_wal_stats {
  ws_total_writes : Z;
  ws_total_syncs : Z;
  ws_total_bytes_written : Z;
  ws_current_lsn : Z;
  ws_last_sync_lsn : Z;
  ws_file_size : Z;
  ws_current_offset : Z;
  ws_is_syncing : bool
}.

Definition WAL_MAGIC : block := chars "XDEV_WAL".
Definition WAL_VERSION : Z := 1.

Record wal_header_t := mk_wal_header {
  wh_magic : block;                 (* 8 bytes *)
  wh_version : Z;
  wh_pad0 : block;                  (* 4 bytes of padding *)
  wh_created_time : Z;
  wh_file_size : Z;
  wh_checksum : Z;
  wh_pad1 : block                   (* 4 bytes of padding *)
}.

Record wal_record_header_t := mk_wal_record {
  wr_lsn : Z;
  wr_length : Z;
  wr_checksum : Z;
  wr_timestamp : Z;
  wr_op_type : Z;
  wr_device_name : block;           (* char[128] *)
  wr_pad : block                    (* 4 bytes of padding *)
}.

Definition sizeof_wal_header : Z := 40.
Definition sizeof_wal_record_header : Z := 160.

(** The object representations. *)
Definition header_bytes (h : wal_header_t) : block :=
  wh_magic h ++ le_split 4 (wh_version h) ++ wh_pad0 h ++ le_split 8 (wh_created_time h) ++
  le_split 8 (wh_file_size h) ++ le_split 4 (wh_checksum h) ++ wh_pad1 h.

Definition record_bytes (r : wal_record_header_t) : block :=
  le_split 8 (wr_lsn r) ++ le_split 4 (wr_length r) ++ le_split 4 (wr_checksum r) ++
  le_split 8 (wr_timestamp r) ++ le_split 4 (wr_op_type r) ++ wr_device_name r ++ wr_pad r.

Definition slice (off n : nat) (b : block) : block := take n (drop off b).

Definition header_of_bytes (b : block) : wal_header_t :=
  {| wh_magic := slice 0 8 b; wh_version := le_combine (slice 8 4 b); wh_pad0 := slice 12 4 b;
     wh_created_time := le_combine (slice 16 8 b); wh_file_size := le_combine (slice 24 8 b);
     wh_checksum := le_combine (slice 32 4 b); wh_pad1 := slice 36 4 b |}.

Definition record_of_bytes (b : block) : wal_record_header_t :=
  {| wr_lsn := le_combine (slice 0 8 b); wr_length := le_combine (slice 8 4 b);
     wr_checksum := le_combine (slice 12 4 b); wr_timestamp := le_combine (slice 16 8 b);
     wr_op_type := le_combine (slice 24 4 b); wr_device_name := slice 28 128 b;
     wr_pad := slice 156 4 b |}.

(** A local structure before anything is stored in it. *)
Definition uninit (e : call_env) (n : nat) : block := junk e <$> seq 0 n.

(** What the operating system answers to one call. *)
Record wal_env := mk_wal_env {
  we_libc : call_env;
  we_open_ok : bool;
  we_fstat_ok : bool;
  we_ftruncate_ok : bool;
  we_write : Z;                     (* the result of write: -1, or a count *)
  we_read_ok : bool;
  we_mmap_ok : bool;
  we_msync_ok : bool;
  we_fsync_ok : bool
}.

Definition default_wal_env : wal_env :=
  mk_wal_env default_env true true true 40 true true true true.

(** ** Header *)

(** [crc32(header, sizeof - 4)] covers the first 36 bytes, which is up to and
    including the checksum field itself: four bytes of padding follow it. *)
Definition create_wal_header (e : call_env) (header : wal_header_t) (file_size : Z) : wal_header_t :=
  let header := header <| wh_magic := WAL_MAGIC |> <| wh_version := WAL_VERSION |>
                       <| wh_created_time := wrap64 (time_now e 0) |> <| wh_file_size := file_size |> in
  header <| wh_checksum := crc32 (take 36 (header_bytes header)) |>.

Definition validate_wal_header (header : wal_header_t) : bool :=
  if negb (bool_decide (wh_magic header = WAL_MAGIC)) then false
  else if negb (wh_version header =? WAL_VERSION) then false
  else crc32 (take 36 (header_bytes header)) =? wh_checksum header.

(** ** Creation and destruction *)

(** The resources of a log, and what a call does with them. *)
Inductive wal_resource : Set :=
| RES_WAL | RES_WRITE_MUTEX | RES_SYNC_COND | RES_WRITE_BUFFER | RES_FD | RES_MMAP.

Inductive wal_event : Set :=
| Acquire (r : wal_resource)
| Release (r : wal_resource).

#[export] Instance wal_resource_eq_dec : EqDecision wal_resource.
Proof. solve_decision. Defined.

Abbreviation files := (gmap string block).

(** [close; free(write_buffer); cond_destroy; mutex_destroy; free(wal)]. *)
Definition release_from_fd : list wal_event :=
  [Release RES_FD; Release RES_WRITE_BUFFER; Release RES_SYNC_COND; Release RES_WRITE_MUTEX;
   Release RES_WAL].

(** A new file is extended and gets its header. [None] is a failure. *)
Definition wal_init_file (we : wal_env) (fs : files) (wal : xdevice_wal) (initial_size : Z)
    : option xdevice_wal * files :=
  let path := wal_fd wal in
  if negb (we_ftruncate_ok we && (initial_size <? 2 ^ 63)) then (None, fs)
  else
    let content := zeros initial_size in
    let header :=
      create_wal_header (we_libc we) (header_of_bytes (uninit (we_libc we) 40)) initial_size in
    let written := Z.min (we_write we) sizeof_wal_header in
    let content := spec_write content 0 (take (Z.to_nat written) (header_bytes header)) in
    let fs := <[path := content]> fs in
    if negb (written =? sizeof_wal_header) then (None, fs)
    else (Some (wal <| wal_current_offset := sizeof_wal_header |>), fs).

(** An existing file is validated; its records are not scanned. *)
Definition wal_load_file (we : wal_env) (fs : files) (wal : xdevice_wal) (content : block)
    : option xdevice_wal * files :=
  let n := if we_read_ok we then Z.min sizeof_wal_header (blen content) else -1 in
  let header := header_of_bytes (take 40 content) in
  if negb (n =? sizeof_wal_header) || negb (validate_wal_header header) then (None, fs)
  else (Some (wal <| wal_file_size := wh_file_size header |>
                  <| wal_current_offset := sizeof_wal_header |>), fs).

(** The result, the files, and what happened to resources, in order. *)
Definition xdevice_wal_create (we : wal_env) (fs : files) (wal_file : option string)
    (initial_size : Z) : option xdevice_wal * files * list wal_event :=
  let e := we_libc we in
  match wal_file with
  | None => (None, fs, [])
  | Some path =>
      if initial_size =? 0 then (None, fs, [])
      else if negb (malloc_ok e 0) then (None, fs, [])
      else
        let ev := [Acquire RES_WAL] in
        if negb (mutex_init_ok e 0) then (None, fs, ev ++ [Release RES_WAL])
        else
          let ev := ev ++ [Acquire RES_WRITE_MUTEX] in
          if negb (mutex_init_ok e 1) then
            (None, fs, ev ++ [Release RES_WRITE_MUTEX; Release RES_WAL])
          else
            let ev := ev ++ [Acquire RES_SYNC_COND] in
            let wal :=
              {| wal_fd := path; wal_file_size := initial_size; wal_current_offset := 0;
                 wal_next_lsn := 1; wal_file_path := str_take 255 path; wal_is_syncing := false;
                 wal_last_sync_lsn := 0; wal_buffer_size := XDEVICE_WAL_BUFFER_SIZE;
                 wal_buffer_used := 0; wal_total_writes := 0; wal_total_syncs := 0;
                 wal_total_bytes_written := 0 |} in
            if negb (malloc_ok e 1) then
              (None, fs, ev ++ [Release RES_SYNC_COND; Release RES_WRITE_MUTEX; Release RES_WAL])
            else
              let ev := ev ++ [Acquire RES_WRITE_BUFFER] in
              if negb (we_open_ok we) then
                (None, fs, ev ++ [Release RES_WRITE_BUFFER; Release RES_SYNC_COND;
                                  Release RES_WRITE_MUTEX; Release RES_WAL])
              else
                let ev := ev ++ [Acquire RES_FD] in
                let content := default [] (fs !! path) in
                let fs := <[path := content]> fs in
                let '(opened, fs) :=
                  if we_fstat_ok we && (blen content =? 0) then wal_init_file we fs wal initial_size
                  else wal_load_file we fs wal content in
                match opened with
                | None => (None, fs, ev ++ release_from_fd)
                | Some wal =>
                    if negb (we_mmap_ok we) then (None, fs, ev ++ release_from_fd)
                    else (Some wal, fs, ev ++ [Acquire RES_MMAP])
                end
  end.

(** ** Sync and statistics *)

(** The calls that ask the operating system to write: [msync] of the first bytes of the
    mapping and [fsync] of the descriptor, with their success. *)
Inductive disk_call : Set :=
| Msync (length : Z) (ok : bool)
| Fsync (ok : bool).

(** The result, the log, and the calls in order. *)
Definition xdevice_wal_sync (we : wal_env) (wal : option xdevice_wal)
    : xdevice_error_t * option xdevice_wal * list disk_call :=
  match wal with
  | None => (XDEVICE_ERROR_INVALID_PARAM, None, [])
  | Some w =>
      let w := w <| wal_is_syncing := true |> in
      let calls := [Msync (wal_current_offset w) (we_msync_ok we)] in
      if negb (we_msync_ok we) then
        (XDEVICE_ERROR_IO, Some (w <| wal_is_syncing := false |>), calls)
      else
        let calls := calls ++ [Fsync (we_fsync_ok we)] in
        if negb (we_fsync_ok we) then
          (XDEVICE_ERROR_IO, Some (w <| wal_is_syncing := false |>), calls)
        else
          (XDEVICE_OK, Some (w <| wal_last_sync_lsn := wal_next_lsn w ⊟ 1 |>
                               <| wal_total_syncs := wal_total_syncs w ⊞ 1 |>
                               <| wal_is_syncing := false |>), calls)
  end.

(** What destruction releases, in order; the result of the sync is ignored. *)
Definition xdevice_wal_destroy (we : wal_env) (wal : option xdevice_wal) : list wal_event :=
  match wal with
  | None => []
  | Some _ => let '(_, _, _) := xdevice_wal_sync we wal in Release RES_MMAP :: release_from_fd
  end.

(** [stats] tells whether the output pointer is not NULL. *)
Definition xdevice_wal_get_stats (wal : option xdevice_wal) (stats : bool)
    : xdevice_error_t * option xdevice_wal_stats_t :=
  match wal with
  | Some w =>
      if negb stats then (XDEVICE_ERROR_INVALID_PARAM, None)
      else (XDEVICE_OK, Some
        {| ws_total_writes := wal_total_writes w; ws_total_syncs := wal_total_syncs w;
           ws_total_bytes_written := wal_total_bytes_written w;
           ws_current_lsn := wal_next_lsn w ⊟ 1; ws_last_sync_lsn := wal_last_sync_lsn w;
           ws_file_size := wal_file_size w; ws_current_offset := wal_current_offset w;
           ws_is_syncing := wal_is_syncing w |})
  | None => (XDEVICE_ERROR_INVALID_PARAM, None)
  end.

(** ** Append *)

(** The checksum of a record: the first 156 bytes of its header, whatever its
    checksum field holds at that point, and the data. *)
Definition record_crc (r : wal_record_header_t) (data : block) (length : Z) : Z :=
  let checksum := crc32 (take 156 (record_bytes r)) in
  if 0 <? length then Z.lxor checksum (crc32 data) else checksum.

(** The record header built on the stack, from its uninitialised bytes [r].
    [strncpy] fills the first 127 bytes of the name. *)
Definition fill_record (e : call_env) (r : wal_record_header_t) (lsn : Z) (device_name : string)
    (op_type : xdevice_wal_op_type_t) (data : block) (length : Z) : wal_record_header_t :=
  let r := r <| wr_lsn := lsn |> <| wr_length := wrap32 length |>
             <| wr_timestamp := wrap64 (time_now e 0) |> <| wr_op_type := wal_op_code op_type |>
             <| wr_device_name := strncpy (wr_device_name r) device_name 127 |> in
  r <| wr_checksum := record_crc r data length |>.

(** [memcpy(wal->mmap_region + off, bytes, ...)]. *)
Definition map_write (fs : files) (wal : xdevice_wal) (off : Z) (bytes : block) : option files :=
  c ← fs !! wal_fd wal; c ← mem_write c off bytes; Some (<[wal_fd wal := c]> fs).

Definition xdevice_wal_append (we : wal_env) (fs : files) (wal : option xdevice_wal)
    (device_name : option string) (op_type : xdevice_wal_op_type_t) (data : option block)
    (length : Z) : option (xdevice_error_t * files * option xdevice_wal) :=
  match wal, device_name with
  | Some w, Some name =>
      if bool_decide (data = None) && (0 <? length) then Some (XDEVICE_ERROR_INVALID_PARAM, fs, wal)
      else
        data ← (if 0 <? length then mem_read (default [] data) 0 length else Some []);
        let record_header :=
          fill_record (we_libc we) (record_of_bytes (uninit (we_libc we) 160)) (wal_next_lsn w)
            name op_type data length in
        let w := w <| wal_next_lsn := wal_next_lsn w ⊞ 1 |> in
        let total_record_size := sizeof_wal_record_header ⊞ length in
        if wal_file_size w <? wal_current_offset w ⊞ total_record_size then
          Some (XDEVICE_ERROR_IO, fs, Some w)
        else
          fs ← map_write fs w (wal_current_offset w) (record_bytes record_header);
          let w := w <| wal_current_offset := wal_current_offset w ⊞ sizeof_wal_record_header |> in
          fs ← (if 0 <? length then map_write fs w (wal_current_offset w) data else Some fs);
          let w := if 0 <? length
                   then w <| wal_current_offset := wal_current_offset w ⊞ length |> else w in
          Some (XDEVICE_OK, fs,
            Some (w <| wal_total_writes := wal_total_writes w ⊞ 1 |>
                    <| wal_total_bytes_written := wal_total_bytes_written w ⊞ total_record_size |>))
  | _, _ => Some (XDEVICE_ERROR_INVALID_PARAM, fs, wal)
  end.

(** ** Lemmas on layout *)

Lemma slice_skip m off n (a b : block) :
  length a = m → (m <= off)%nat → slice off n (a ++ b) = slice (off - m) n b.
Proof. intros <- ?. unfold slice. by rewrite drop_app_ge. Qed.

Lemma slice_here n (a b : block) : length a = n → slice 0 n (a ++ b) = a.
Proof. intros <-. unfold slice. by rewrite drop_0, take_app_length. Qed.

Lemma length_slice off n (b : block) : (off + n <= length b)%nat → length (slice off n b) = n.
Proof. apply take_drop_middle_len. Qed.

Lemma combine_split_32 z : u32 z → le_combine (le_split 4 z) = z.
Proof. intros Hz. rewrite le_combine_split. by apply Z.mod_small. Qed.

Lemma combine_split_64 z : u64 z → le_combine (le_split 8 z) = z.
Proof. intros Hz. rewrite le_combine_split. by apply Z.mod_small. Qed.

Lemma le_combine_range n (b : block) : length b = n → 0 <= le_combine b < 2 ^ (8 * Z.of_nat n).
Proof. intros <-. apply le_combine_bound. Qed.

(** Read fields of known lengths out of a concatenation. *)
Ltac field_len := first [apply length_le_split | eassumption].
Ltac read_fields :=
  rewrite <- ?app_assoc;
  repeat first [rewrite slice_here by field_len
               |erewrite slice_skip by first [field_len|lia]; cbn [Nat.sub]].

Definition header_wf (h : wal_header_t) : Prop :=
  length (wh_magic h) = 8%nat ∧ u32 (wh_version h) ∧ length (wh_pad0 h) = 4%nat ∧
  u64 (wh_created_time h) ∧ u64 (wh_file_size h) ∧ u32 (wh_checksum h) ∧ length (wh_pad1 h) = 4%nat.

Definition record_wf (r : wal_record_header_t) : Prop :=
  u64 (wr_lsn r) ∧ u32 (wr_length r) ∧ u32 (wr_checksum r) ∧ u64 (wr_timestamp r) ∧
  u32 (wr_op_type r) ∧ length (wr_device_name r) = 128%nat ∧ length (wr_pad r) = 4%nat.

Lemma length_header_bytes h : header_wf h → length (header_bytes h) = 40%nat.
Proof.
  intros (?&_&?&_&_&_&?). unfold header_bytes. rewrite !length_app, !length_le_split. lia.
Qed.

Lemma length_record_bytes r : record_wf r → length (record_bytes r) = 160%nat.
Proof.
  intros (_&_&_&_&_&?&?). unfold record_bytes. rewrite !length_app, !length_le_split. lia.
Qed.

(** Decoding inverts encoding, whatever follows the structure. *)
Lemma header_of_header_bytes h rest : header_wf h → header_of_bytes (header_bytes h ++ rest) = h.
Proof.
  intros (?&?&?&?&?&?&?). unfold header_of_bytes, header_bytes. read_fields.
  rewrite !combine_split_32, !combine_split_64 by done. by destruct h.
Qed.

Lemma record_of_record_bytes r rest : record_wf r → record_of_bytes (record_bytes r ++ rest) = r.
Proof.
  intros (?&?&?&?&?&?&?). unfold record_of_bytes, record_bytes. read_fields.
  rewrite !combine_split_32, !combine_split_64 by done. by destruct r.
Qed.

(** ** Lemmas on checksums *)

Lemma length_uninit e n : length (uninit e n) = n.
Proof. unfold uninit. by rewrite length_fmap, length_seq. Qed.

Lemma slice_u32 off b : (off + 4 <= length b)%nat → u32 (le_combine (slice off 4 b)).
Proof. intros. by apply (le_combine_range 4), length_slice. Qed.

Lemma slice_u64 off b : (off + 8 <= length b)%nat → u64 (le_combine (slice off 8 b)).
Proof. intros. by apply (le_combine_range 8), length_slice. Qed.

Lemma header_of_bytes_wf b : length b = 40%nat → header_wf (header_of_bytes b).
Proof.
  intros Hb. split_and!; cbn [header_of_bytes wh_magic wh_version wh_pad0 wh_created_time wh_file_size wh_checksum wh_pad1];
    first [apply slice_u32|apply slice_u64|apply length_slice]; lia.
Qed.

Lemma record_of_bytes_wf b : length b = 160%nat → record_wf (record_of_bytes b).
Proof.
  intros Hb. split_and!; cbn [record_of_bytes wr_lsn wr_length wr_checksum wr_timestamp wr_op_type wr_device_name wr_pad];
    first [apply slice_u32|apply slice_u64|apply length_slice]; lia.
Qed.

Lemma create_wal_header_wf e h size : header_wf h → u64 size → header_wf (create_wal_header e h size).
Proof.
  intros (?&?&?&?&?&?&?) Hs. split_and!; try done; cbn.
  - apply wrap64_range.
  - apply crc32_range.
Qed.

Lemma wal_op_code_range op : u32 (wal_op_code op).
Proof. destruct op; vm_compute; split; congruence. Qed.

Lemma record_crc_range r data length : u32 (record_crc r data length).
Proof. unfold record_crc. case_match; [apply u32_lxor|]; apply crc32_range. Qed.

Lemma fill_record_wf e r lsn name op data length :
  record_wf r → u64 lsn → record_wf (fill_record e r lsn name op data length).
Proof.
  intros (?&?&?&?&?&?&?) Hl. split_and!; try done; cbn.
  - apply wrap32_range.
  - apply record_crc_range.
  - apply wrap64_range.
  - apply wal_op_code_range.
  - rewrite length_strncpy; lia.
Qed.

(** The checksummed bytes: a prefix that does not depend on the checksum, the
    checksum field, and for a record what follows it. *)
Definition header_prefix (h : wal_header_t) : block :=
  wh_magic h ++ le_split 4 (wh_version h) ++ wh_pad0 h ++ le_split 8 (wh_created_time h) ++
  le_split 8 (wh_file_size h).

Definition record_prefix (r : wal_record_header_t) : block :=
  le_split 8 (wr_lsn r) ++ le_split 4 (wr_length r).

Definition record_suffix (r : wal_record_header_t) : block :=
  le_split 8 (wr_timestamp r) ++ le_split 4 (wr_op_type r) ++ wr_device_name r.

Lemma take_header_bytes h :
  header_wf h → take 36 (header_bytes h) = header_prefix h ++ le_split 4 (wh_checksum h) ++ [].
Proof.
  intros (?&_&?&_&_&_&_). unfold header_bytes, header_prefix. rewrite app_nil_r.
  rewrite !app_assoc. rewrite <- (app_assoc _ (le_split 4 (wh_checksum h))).
  rewrite app_assoc. apply take_app_length'. rewrite !length_app, !length_le_split. lia.
Qed.

Lemma take_record_bytes r :
  record_wf r →
  take 156 (record_bytes r) = record_prefix r ++ le_split 4 (wr_checksum r) ++ record_suffix r.
Proof.
  intros (_&_&_&_&_&?&_). unfold record_bytes, record_prefix, record_suffix.
  rewrite !app_assoc. apply take_app_length'. rewrite !length_app, !length_le_split. lia.
Qed.

Lemma le_split_4_inj a b : u32 a → u32 b → le_split 4 a = le_split 4 b → a = b.
Proof.
  intros Ha Hb H. by rewrite <- (combine_split_32 a), H, combine_split_32.
Qed.

(** A checksum that covers its own field can be verified exactly when the field
    held the checksum already. *)
Lemma crc32_self_covering p q old :
  let c := crc32 (p ++ le_split 4 old ++ q) in
  u32 old → crc32 (p ++ le_split 4 c ++ q) = c ↔ c = old.
Proof.
  intros c Hold. split; [|intros Hc; unfold c at 2; by rewrite Hc].
  intros Heq. apply le_split_4_inj; [apply crc32_range|done|].
  by apply (crc32_window_inj p _ _ q); rewrite ?length_le_split.
Qed.

Lemma take_header_prefix h : header_wf h → take 32 (header_bytes h) = header_prefix h.
Proof.
  intros (?&_&?&_&_&_&_). unfold header_bytes.
  assert (header_prefix h ++ le_split 4 (wh_checksum h) ++ wh_pad1 h =
          wh_magic h ++ le_split 4 (wh_version h) ++ wh_pad0 h ++ le_split 8 (wh_created_time h) ++
          le_split 8 (wh_file_size h) ++ le_split 4 (wh_checksum h) ++ wh_pad1 h) as <-.
  { unfold header_prefix. by rewrite <- !app_assoc. }
  apply take_app_length'. unfold header_prefix. rewrite !length_app, !length_le_split. lia.
Qed.

(** The checksum covers the old content [h] of its field. *)
Lemma created_checksum e h size :
  header_wf h → u64 size →
  wh_checksum (create_wal_header e h size) =
    crc32 (take 32 (header_bytes (create_wal_header e h size)) ++ le_split 4 (wh_checksum h)).
Proof.
  intros Hwf Hs. rewrite take_header_prefix by by apply create_wal_header_wf.
  unfold create_wal_header at 1. cbn [wh_checksum]. rewrite take_header_bytes.
  - by rewrite app_nil_r.
  - destruct Hwf as (?&?&?&?&?&?&?). split_and!; try done. apply wrap64_range.
Qed.

Lemma validate_created e h size :
  header_wf h → u64 size →
  validate_wal_header (create_wal_header e h size) = true ↔
  wh_checksum (create_wal_header e h size) = wh_checksum h.
Proof.
  intros Hwf Hs. pose proof (create_wal_header_wf e h size Hwf Hs) as Hwf'.
  unfold validate_wal_header. rewrite take_header_bytes by done. unfold create_wal_header in *.
  set (h0 := h <| wh_magic := _ |> <| wh_version := _ |> <| wh_created_time := _ |> <| wh_file_size := _ |>) in *.
  rewrite bool_decide_eq_true_2 by done. cbn [negb]. cbn [wh_version wh_checksum].
  assert (Hwf0 : header_wf h0).
  { destruct Hwf as (?&?&?&?&?&?&?). split_and!; try done. apply wrap64_range. }
  rewrite (take_header_bytes h0) in * by done.
  rewrite Z.eqb_refl. cbn [negb]. rewrite Z.eqb_eq.
  apply (crc32_self_covering (header_prefix h0) [] (wh_checksum h)). apply Hwf.
Qed.

(** The same for a record: recomputing its checksum from what was stored gives the
    stored one exactly when the uninitialised field held it already. *)
Lemma record_check e r lsn name op data n :
  record_wf r → u64 lsn →
  let r' := fill_record e r lsn name op data n in
  record_crc r' data n = wr_checksum r' ↔ wr_checksum r = wr_checksum r'.
Proof.
  intros Hwf Hl r'. assert (Hwf' : record_wf r') by by apply fill_record_wf.
  set (r0 := r <| wr_lsn := lsn |> <| wr_length := wrap32 n |>
    <| wr_timestamp := wrap64 (time_now e 0) |> <| wr_op_type := wal_op_code op |>
    <| wr_device_name := strncpy (wr_device_name r) name 127 |>).
  assert (Hwf0 : record_wf r0).
  { destruct Hwf as (?&?&?&?&?&?&?). split_and!; try done; cbn.
    - apply wrap32_range.
    - apply wrap64_range.
    - apply wal_op_code_range.
    - rewrite length_strncpy; lia. }
  assert (Hc : wr_checksum r' = record_crc r0 data n) by done.
  assert (Hold : u32 (wr_checksum r)) by apply Hwf.
  assert (Hnew : u32 (wr_checksum r')) by apply Hwf'.
  pose proof (take_record_bytes r' Hwf') as Ht'. pose proof (take_record_bytes r0 Hwf0) as Ht0.
  change (record_prefix r') with (record_prefix r0) in Ht'.
  change (record_suffix r') with (record_suffix r0) in Ht'.
  change (wr_checksum r0) with (wr_checksum r) in Ht0.
  split.
  - intros Heq. rewrite Hc in Heq. unfold record_crc in Heq. rewrite Ht', Ht0 in Heq.
    assert (Hcrc : crc32 (record_prefix r0 ++ le_split 4 (wr_checksum r') ++ record_suffix r0) =
                   crc32 (record_prefix r0 ++ le_split 4 (wr_checksum r) ++ record_suffix r0)).
    { destruct (0 <? n); [|done]. apply (f_equal (λ z, Z.lxor z (crc32 data))) in Heq.
      by rewrite !Z.lxor_assoc, Z.lxor_nilpotent, !Z.lxor_0_r in Heq. }
    apply crc32_window_inj in Hcrc; rewrite ?length_le_split; [|done|lia].
    symmetry. by apply le_split_4_inj.
  - intros Heq. rewrite Hc. unfold record_crc. rewrite Ht', Ht0. by rewrite Heq.
Qed.
