(* ===== verification/WalLog.v ===== *)
(** * WalLog: the write-ahead log as a list of entries

    An abstraction of the mapped file: the entries behind the header, each a
    record header with its data. The decoder of this file reads them back from the
    bytes; the engine itself has no reader ([xdevice_wal_read] is declared but not
    defined), so the decoder follows the layout of the two structures. *)

From Stdlib Require Import String.
From stdpp Require Import base numbers list strings gmap.
From S2P Require Import XDevice Prelude Libc StorageSpec Crc32 WalEngine.
Local Open Scope Z_scope.

(** ** Entries and their encoding *)

Abbreviation entry := (wal_record_header_t * block)%type.

Definition entry_wf (en : entry) : Prop := record_wf en.1 ∧ wr_length en.1 = blen en.2.

Definition encode (en : entry) : block := record_bytes en.1 ++ en.2.

Definition encode_log (l : list entry) : block := concat (encode <$> l).

(** [fuel] bounds the number of entries; the length of the bytes is enough. *)
Fixpoint decode_log (fuel : nat) (b : block) : list entry :=
  match fuel with
  | O => []
  | S fuel =>
      if (length b <? 160)%nat then []
      else
        let r := record_of_bytes (take 160 b) in
        let n := Z.to_nat (wr_length r) in
        if (length b <? 160 + n)%nat then []
        else (r, slice 160 n b) :: decode_log fuel (drop (160 + n) b)
  end.

Lemma length_encode en : entry_wf en → length (encode en) = (160 + length en.2)%nat.
Proof. intros [Hr _]. unfold encode. by rewrite length_app, length_record_bytes. Qed.

Lemma encode_log_app l1 l2 : encode_log (l1 ++ l2) = encode_log l1 ++ encode_log l2.
Proof. unfold encode_log. by rewrite fmap_app, concat_app. Qed.

Lemma encode_log_one en : encode_log [en] = encode en.
Proof. unfold encode_log. cbn. apply app_nil_r. Qed.

Lemma length_encode_log l :
  Forall entry_wf l → (length l <= length (encode_log l))%nat.
Proof.
  induction 1 as [|en l Hen _ IH]; [done|]. unfold encode_log in *. cbn.
  rewrite length_app, length_encode by done. lia.
Qed.

(** The decoder reads the encoded entries back, whatever follows them. *)
Lemma decode_encode_prefix fuel l rest :
  Forall entry_wf l → (length l <= fuel)%nat →
  decode_log fuel (encode_log l ++ rest) = l ++ decode_log (fuel - length l) rest.
Proof.
  intros Hl. revert fuel. induction Hl as [|[r d] l [Hr Hlen] _ IH]; intros fuel Hf.
  { by rewrite Nat.sub_0_r. }
  destruct fuel as [|fuel]; [cbn in Hf; lia|]. cbn in Hr, Hlen, Hf.
  change (encode_log ((r, d) :: l)) with ((record_bytes r ++ d) ++ encode_log l).
  rewrite <- !app_assoc. cbn [decode_log].
  pose proof (length_record_bytes r Hr) as H160.
  assert (Htake : take 160 (record_bytes r ++ d ++ encode_log l ++ rest) = record_bytes r ++ []).
  { rewrite app_nil_r. by apply take_app_length'. }
  rewrite Htake, record_of_record_bytes by done.
  assert (Hn : Z.to_nat (wr_length r) = length d) by (rewrite Hlen; unfold blen; lia).
  rewrite Hn, !length_app, H160.
  rewrite (proj2 (Nat.ltb_ge _ _)) by lia. rewrite (proj2 (Nat.ltb_ge _ _)) by lia.
  cbn [app length Nat.sub]. f_equal.
  - f_equal. unfold slice. rewrite drop_app_length' by done. by rewrite take_app_length.
  - rewrite <- drop_drop, drop_app_length' by done. rewrite drop_app_length. apply IH. lia.
Qed.

(** The decoder inverts the encoder. *)
Lemma decode_encode_log fuel l :
  Forall entry_wf l → (length l <= fuel)%nat → decode_log fuel (encode_log l) = l.
Proof.
  intros Hl Hf. rewrite <- (app_nil_r (encode_log l)), decode_encode_prefix by done.
  destruct (fuel - length l)%nat; cbn; by rewrite app_nil_r.
Qed.

(** ** The state of an open log *)

(** The file holds the header, the entries up to the current offset, and the
    rest of the space. *)
Record wal_log (fs : gmap string block) (w : xdevice_wal) (l : list entry) : Prop := {
  wl_content : ∃ header rest,
    fs !! wal_fd w = Some (header ++ encode_log l ++ rest) ∧ blen header = 40 ∧
    wal_file_size w <= blen (header ++ encode_log l ++ rest) < 2 ^ 63;
  wl_offset : wal_current_offset w = 40 + blen (encode_log l);
  wl_size : 0 <= wal_file_size w;
  wl_entries : Forall entry_wf l;
  wl_lsn : u64 (wal_next_lsn w)
}.

(** The bytes between the header and the current offset. *)
Definition log_region (fs : gmap string block) (w : xdevice_wal) : block :=
  mjoin (match fs !! wal_fd w with
         | Some c => [slice 40 (Z.to_nat (wal_current_offset w - 40)) c]
         | None => []
         end).

Lemma log_region_eq fs w l : wal_log fs w l → log_region fs w = encode_log l.
Proof.
  intros [(h&rest&Hfs&Hh&_) Hoff _ _ _]. unfold log_region. rewrite Hfs. cbn. rewrite app_nil_r.
  unfold slice. rewrite drop_app_length' by (unfold blen in Hh; lia).
  apply take_app_length'. rewrite Hoff. unfold blen. lia.
Qed.

Lemma decode_region fs w l fuel :
  wal_log fs w l → (length (log_region fs w) <= fuel)%nat →
  decode_log fuel (log_region fs w) = l.
Proof.
  intros Hl Hf. rewrite (log_region_eq _ _ _ Hl) in *.
  pose proof (length_encode_log l (wl_entries _ _ _ Hl)).
  apply decode_encode_log; [apply Hl|lia].
Qed.

(** ** Append *)

(** Writing at the front of the free space extends the log. *)
Lemma append_bytes (h e rest d : block) off :
  off = blen (h ++ e) → blen (h ++ e) + blen d <= blen (h ++ e ++ rest) →
  mem_write (h ++ e ++ rest) off d =
    Some (h ++ (e ++ d) ++ drop (length d) rest) ∧ (length d <= length rest)%nat.
Proof.
  intros -> Hlen. pose proof (blen_nonneg (h ++ e)).
  assert (Hd : (length d <= length rest)%nat).
  { unfold blen in *. rewrite !length_app in *. lia. }
  split; [|done]. rewrite mem_write_in by lia. f_equal.
  assert (Z.to_nat (blen (h ++ e)) = length (h ++ e)) as -> by (unfold blen; lia).
  rewrite (app_assoc h e rest), take_app_length, <- drop_drop, drop_app_length.
  by rewrite <- !app_assoc.
Qed.

(** The record an append writes. *)
Definition appended_record (we : wal_env) (w : xdevice_wal) (name : string)
    (op : xdevice_wal_op_type_t) (d : block) : wal_record_header_t :=
  fill_record (we_libc we) (record_of_bytes (uninit (we_libc we) 160)) (wal_next_lsn w) name op d
    (blen d).

Lemma appended_record_wf we w name op d :
  u64 (wal_next_lsn w) → record_wf (appended_record we w name op d).
Proof.
  intros. apply fill_record_wf; [|done]. apply record_of_bytes_wf, length_uninit.
Qed.

(** The log after a successful append. *)
Definition appended (w : xdevice_wal) (d : block) : xdevice_wal :=
  w <| wal_next_lsn := wal_next_lsn w ⊞ 1 |>
    <| wal_current_offset := wal_current_offset w + 160 + blen d |>
    <| wal_total_writes := wal_total_writes w ⊞ 1 |>
    <| wal_total_bytes_written := wal_total_bytes_written w ⊞ (160 + blen d) |>.

Lemma wal_append_full we fs w l name op d :
  wal_log fs w l → blen d < 2 ^ 32 → wal_file_size w < wal_current_offset w + 160 + blen d →
  xdevice_wal_append we fs (Some w) (Some name) op (Some d) (blen d) =
    Some (XDEVICE_ERROR_IO, fs, Some (w <| wal_next_lsn := wal_next_lsn w ⊞ 1 |>)).
Proof.
  intros Hl Hd Hfull. pose proof (blen_nonneg d).
  destruct Hl as [(h&rest&Hfs&Hh&Hsz) Hoff _ _ _]. rewrite !blen_app in Hsz.
  pose proof (blen_nonneg rest). pose proof (blen_nonneg (encode_log l)).
  unfold xdevice_wal_append. rewrite bool_decide_eq_false_2 by done. cbn [andb].
  cbn [default]. rewrite mem_read_data. cbn. unfold sizeof_wal_record_header.
  rewrite (wrap64_small (160 + blen d)) by (unfold u64; lia).
  rewrite (wrap64_small (wal_current_offset w + _)) by (unfold u64; lia).
  by rewrite (proj2 (Z.ltb_lt _ _)) by lia.
Qed.

(** A store through the mapping at the end of the entries. *)
Lemma map_write_end fs w h x rest d off :
  fs !! wal_fd w = Some (h ++ x ++ rest) → off = blen (h ++ x) →
  blen (h ++ x) + blen d <= blen (h ++ x ++ rest) →
  map_write fs w off d = Some (<[wal_fd w := h ++ (x ++ d) ++ drop (length d) rest]> fs) ∧
  blen (h ++ (x ++ d) ++ drop (length d) rest) = blen (h ++ x ++ rest).
Proof.
  intros Hfs Hoff Hlen. destruct (append_bytes h x rest d off Hoff Hlen) as [Hw Hd].
  unfold map_write. rewrite Hfs. cbn. rewrite Hw. split; [done|].
  unfold blen. rewrite !length_app, length_drop. lia.
Qed.

(** The two stores of an append with room for its record, on the content. *)
Lemma append_stores fs w h e rest rb d :
  fs !! wal_fd w = Some (h ++ e ++ rest) → wal_current_offset w = blen (h ++ e) →
  blen rb = 160 → blen (h ++ e) + 160 + blen d <= blen (h ++ e ++ rest) →
  ∃ fs1 rest',
    map_write fs w (wal_current_offset w) rb = Some fs1 ∧
    map_write fs1 w (wal_current_offset w + 160) d =
      Some (<[wal_fd w := h ++ (e ++ rb ++ d) ++ rest']> fs) ∧
    (d = [] → fs1 = <[wal_fd w := h ++ (e ++ rb ++ d) ++ rest']> fs) ∧
    blen (h ++ (e ++ rb ++ d) ++ rest') = blen (h ++ e ++ rest).
Proof.
  intros Hfs Hoff Hrb Hroom. pose proof (blen_nonneg d).
  destruct (map_write_end fs w h e rest rb (wal_current_offset w)) as [Hw1 Hlen1]; [done|lia|lia|].
  set (rest1 := drop (length rb) rest) in *.
  set (fs1 := <[wal_fd w := _]> fs) in Hw1.
  destruct (map_write_end fs1 w h (e ++ rb) rest1 d (wal_current_offset w + 160)) as [Hw2 Hlen2];
    [by apply lookup_insert_eq|rewrite !blen_app in *; lia
    |rewrite Hlen1; rewrite !blen_app in *; lia|].
  exists fs1, (drop (length d) rest1). rewrite (app_assoc e rb d).
  split_and!; [done| | |by rewrite Hlen2].
  - rewrite Hw2. unfold fs1. by rewrite insert_insert_eq.
  - intros ->. unfold fs1. by rewrite app_nil_r.
Qed.

(** What an append whose stores succeed returns. *)
Lemma append_run we fs fs1 fs2 w name op d :
  u64 (wal_current_offset w + 160 + blen d) → 0 <= wal_current_offset w →
  wal_current_offset w + 160 + blen d <= wal_file_size w →
  map_write fs w (wal_current_offset w) (record_bytes (appended_record we w name op d)) = Some fs1 →
  map_write fs1 w (wal_current_offset w + 160) d = Some fs2 → (d = [] → fs1 = fs2) →
  xdevice_wal_append we fs (Some w) (Some name) op (Some d) (blen d) =
    Some (XDEVICE_OK, fs2, Some (appended w d)).
Proof.
  intros Hu Hoff Hroom Hw1 Hw2 Hnil. pose proof (blen_nonneg d). unfold u64 in Hu.
  unfold xdevice_wal_append. rewrite bool_decide_eq_false_2 by done. cbn [andb default].
  rewrite mem_read_data. cbn [mbind option_bind]. unfold sizeof_wal_record_header.
  cbn [wal_next_lsn wal_current_offset wal_file_size].
  rewrite (wrap64_small (160 + blen d)), !(wrap64_small (wal_current_offset w + _)) by (unfold u64; lia).
  rewrite (proj2 (Z.ltb_ge (wal_file_size w) _)) by lia.
  change (map_write fs _ _ (record_bytes _))
    with (map_write fs w (wal_current_offset w) (record_bytes (appended_record we w name op d))).
  rewrite Hw1. cbn [mbind option_bind].
  destruct (0 <? blen d) eqn:Hd0; to_prop.
  - change (map_write fs1 _ _ d) with (map_write fs1 w (wal_current_offset w + 160) d).
    rewrite Hw2. cbn [mbind option_bind]. unfold appended. cbn.
    by rewrite (wrap64_small (wal_current_offset w + 160 + blen d)) by (unfold u64; lia).
  - assert (d = []) as -> by (destruct d; [done|unfold blen in *; cbn in *; lia]).
    rewrite Hnil by done. cbn [mbind option_bind]. unfold appended. change (blen []) with 0. cbn.
    by rewrite !Z.add_0_r.
Qed.

Lemma wal_append_room we fs w l name op d :
  wal_log fs w l → blen d < 2 ^ 32 → wal_current_offset w + 160 + blen d <= wal_file_size w →
  ∃ fs', xdevice_wal_append we fs (Some w) (Some name) op (Some d) (blen d) =
      Some (XDEVICE_OK, fs', Some (appended w d)) ∧
    wal_log fs' (appended w d) (l ++ [(appended_record we w name op d, d)]) ∧
    (∀ q, q ≠ wal_fd w → fs' !! q = fs !! q).
Proof.
  intros Hl Hd Hroom. pose proof (blen_nonneg d).
  destruct Hl as [(h&rest&Hfs&Hh&Hsz) Hoff Hfsz Hen Hlsn].
  pose proof (blen_app h (encode_log l)). pose proof (blen_nonneg (encode_log l)).
  set (r := appended_record we w name op d).
  assert (Hr : record_wf r) by by apply appended_record_wf.
  assert (Hrb : blen (record_bytes r) = 160) by (unfold blen; by rewrite length_record_bytes).
  destruct (append_stores fs w h (encode_log l) rest (record_bytes r) d)
    as (fs1&rest'&Hw1&Hw2&Hnil&Hlen); [done|lia..|].
  assert (He : encode_log (l ++ [(r, d)]) = encode_log l ++ record_bytes r ++ d)
    by by rewrite encode_log_app, encode_log_one.
  eexists. split_and!;
    [by apply append_run with fs1; [unfold u64; lia|lia|lia|..]| |intros q Hq; by rewrite lookup_insert_ne].
  unfold appended. split; cbn.
  - exists h, rest'. rewrite He. split_and!; [apply lookup_insert_eq|done|lia|lia].
  - rewrite He, !blen_app. lia.
  - done.
  - apply Forall_app_2; [done|]. apply Forall_singleton. split; [done|]. cbn.
    apply wrap32_small. unfold u32. lia.
  - apply wrap64_range.
Qed.

(** ** Creation *)

(** The header the creation of a log writes. *)
Definition created_header (we : wal_env) (size : Z) : wal_header_t :=
  create_wal_header (we_libc we) (header_of_bytes (uninit (we_libc we) 40)) size.

Lemma created_header_wf we size : u64 size → header_wf (created_header we size).
Proof. intros. apply create_wal_header_wf; [|done]. apply header_of_bytes_wf, length_uninit. Qed.

(** What opening leaves behind when it succeeds. *)
Lemma wal_create_Some we fs path size w fs' ev :
  xdevice_wal_create we fs (Some path) size = (Some w, fs', ev) →
  let c := default [] (fs !! path) in
  wal_fd w = path ∧ wal_next_lsn w = 1 ∧ wal_current_offset w = 40 ∧ wal_last_sync_lsn w = 0 ∧
  (c = [] ∧ we_fstat_ok we = true ∧ size < 2 ^ 63 ∧ wal_file_size w = size ∧
     fs' = <[path := spec_write (zeros size) 0 (take 40 (header_bytes (created_header we size)))]>
             (<[path := c]> fs)
   ∨ 40 <= blen c ∧ validate_wal_header (header_of_bytes (take 40 c)) = true ∧
     wal_file_size w = wh_file_size (header_of_bytes (take 40 c)) ∧ fs' = <[path := c]> fs).
Proof.
  intros Hc c. unfold xdevice_wal_create in Hc. fold c in Hc.
  destruct (size =? 0) eqn:?; [done|].
  destruct (malloc_ok (we_libc we) 0); [cbn [negb] in Hc|done].
  destruct (mutex_init_ok (we_libc we) 0); [cbn [negb] in Hc|done].
  destruct (mutex_init_ok (we_libc we) 1); [cbn [negb] in Hc|done].
  destruct (malloc_ok (we_libc we) 1); [cbn [negb] in Hc|done].
  destruct (we_open_ok we); [cbn [negb] in Hc|done].
  destruct (we_fstat_ok we && (blen c =? 0)) eqn:Hnew.
  - apply andb_true_iff in Hnew as [Hst H0]. to_prop.
    unfold wal_init_file in Hc. cbn [wal_fd] in Hc.
    destruct (we_ftruncate_ok we && (size <? 2 ^ 63)) eqn:Hft; [cbn [negb] in Hc|done].
    apply andb_true_iff in Hft as [_ Hsz]. to_prop.
    destruct (Z.min (we_write we) sizeof_wal_header =? sizeof_wal_header) eqn:Hw;
      [cbn [negb] in Hc|done]. to_prop. rewrite Hw in Hc.
    destruct (we_mmap_ok we); [|done]. apply pair_equal_spec in Hc as [[Hw2 <-]%pair_equal_spec _].
    apply (inj Some) in Hw2 as <-. split_and!; [done..|].
    left. split_and!; try done. unfold blen in H0. destruct c; [done|cbn in H0; lia].
  - unfold wal_load_file in Hc.
    destruct (negb _ || negb _) eqn:Hv in Hc; [done|].
    apply orb_false_iff in Hv as [Hn Hv]. apply negb_false_iff in Hn, Hv. to_prop.
    destruct (we_mmap_ok we); [|done]. apply pair_equal_spec in Hc as [[Hw2 <-]%pair_equal_spec _].
    apply (inj Some) in Hw2 as <-. split_and!; [done..|].
    right. split_and!; [|done..]. unfold sizeof_wal_header in Hn.
    destruct (we_read_ok we); lia.
Qed.

(** A new log is empty. *)
Lemma wal_create_new we fs path size w fs' ev :
  xdevice_wal_create we fs (Some path) size = (Some w, fs', ev) → 0 <= size →
  default [] (fs !! path) = [] →
  wal_log fs' w [] ∧ wal_file_size w = size ∧ wal_next_lsn w = 1 ∧ wal_fd w = path ∧
  wal_last_sync_lsn w = 0 ∧
  ∃ rest, fs' !! path = Some (header_bytes (created_header we size) ++ rest).
Proof.
  intros Hc Hs Hempty.
  destruct (wal_create_Some _ _ _ _ _ _ _ Hc) as (Hfd&Hlsn&Hoff&Hls&Hcase). rewrite Hempty in Hcase.
  destruct Hcase as [(_&_&Hsz&Hfs&->)|(Hb&_)]; [|unfold blen in Hb; cbn in Hb; lia].
  pose proof (length_header_bytes _ (created_header_wf we size ltac:(unfold u64; lia))) as H40.
  rewrite spec_write_0, take_ge by lia.
  set (hb := header_bytes _) in *. set (rest := drop _ (zeros size)).
  assert (Hrest : blen rest = Z.max 0 (size - 40)).
  { unfold rest, zeros, blen. rewrite drop_replicate, length_replicate. lia. }
  assert (Hhb : blen hb = 40) by (unfold blen; lia).
  split_and!; try done.
  - split.
    + exists hb, rest. rewrite Hfd, lookup_insert_eq. cbn [encode_log fmap list_fmap concat app].
      rewrite blen_app. split_and!; [done|done|lia|lia].
    + by rewrite Hoff.
    + lia.
    + constructor.
    + rewrite Hlsn. unfold u64. lia.
  - exists rest. by rewrite lookup_insert_eq.
Qed.

(** ** Sequences of operations *)

Inductive wal_op : Type :=
| WAppend (device_name : string) (op_type : xdevice_wal_op_type_t) (data : block)
| WSync.

Definition wal_step (we : wal_env) (fs : gmap string block) (w : option xdevice_wal) (op : wal_op)
    : option (xdevice_error_t * gmap string block * option xdevice_wal) :=
  match op with
  | WAppend name ty d => xdevice_wal_append we fs w (Some name) ty (Some d) (blen d)
  | WSync => let '(ret, w, _) := xdevice_wal_sync we w in Some (ret, fs, w)
  end.

Fixpoint wal_run (we : nat → wal_env) (fs : gmap string block) (w : option xdevice_wal)
    (ops : list wal_op) (k : nat)
    : option (list xdevice_error_t * gmap string block * option xdevice_wal) :=
  match ops with
  | [] => Some ([], fs, w)
  | op :: ops =>
      '(ret, fs, w) ← wal_step (we k) fs w op;
      '(rets, fs, w) ← wal_run we fs w ops (S k);
      Some (ret :: rets, fs, w)
  end.

(** The abstract log: its capacity, the next sequence number, the last one
    synced, and the entries: number, operation, name field, data. *)
Record abstract_log := mk_abstract_log {
  al_size : Z;
  al_next_lsn : Z;
  al_synced : Z;
  al_entries : list (Z * Z * block * block)
}.

Definition entry_size (x : Z * Z * block * block) : Z := 160 + blen x.2.

Definition used_size (l : list (Z * Z * block * block)) : Z :=
  foldr (λ x n, entry_size x + n) 0 l.

(** The first 127 bytes of the name field. *)
Definition name_field (name : string) : block := take 127 (chars name ++ replicate 127 Byte.x00).

(** Every append takes a sequence number, also one that finds no room. *)
Definition spec_wal_step (we : wal_env) (a : abstract_log) (op : wal_op) : xdevice_error_t * abstract_log :=
  match op with
  | WAppend name ty d =>
      let a' := a <| al_next_lsn := al_next_lsn a ⊞ 1 |> in
      if 40 + used_size (al_entries a) + 160 + blen d <=? al_size a then
        (XDEVICE_OK, a' <| al_entries :=
           al_entries a ++ [(al_next_lsn a, wal_op_code ty, name_field name, d)] |>)
      else (XDEVICE_ERROR_IO, a')
  | WSync =>
      if we_msync_ok we && we_fsync_ok we then
        (XDEVICE_OK, a <| al_synced := al_next_lsn a ⊟ 1 |>)
      else (XDEVICE_ERROR_IO, a)
  end.

Fixpoint spec_wal_run (we : nat → wal_env) (a : abstract_log) (ops : list wal_op) (k : nat)
    : list xdevice_error_t * abstract_log :=
  match ops with
  | [] => ([], a)
  | op :: ops =>
      let '(ret, a) := spec_wal_step (we k) a op in
      let '(rets, a) := spec_wal_run we a ops (S k) in (ret :: rets, a)
  end.

Definition view (en : entry) : Z * Z * block * block :=
  (wr_lsn en.1, wr_op_type en.1, take 127 (wr_device_name en.1), en.2).

Definition abstract_of (w : xdevice_wal) (l : list entry) : abstract_log :=
  mk_abstract_log (wal_file_size w) (wal_next_lsn w) (wal_last_sync_lsn w) (view <$> l).

(** The data fit the 32-bit length field. *)
Definition wal_op_ok (op : wal_op) : Prop :=
  match op with WAppend _ _ d => blen d < 2 ^ 32 | WSync => True end.

Lemma used_size_encode l : Forall entry_wf l → used_size (view <$> l) = blen (encode_log l).
Proof.
  induction 1 as [|en l Hen _ IH]; [done|].
  change (used_size (view <$> en :: l)) with (entry_size (view en) + used_size (view <$> l)).
  change (encode_log (en :: l)) with (encode en ++ encode_log l).
  rewrite IH, blen_app. unfold entry_size, blen. rewrite length_encode by done. cbn. lia.
Qed.

Lemma view_appended we w name op d :
  view (appended_record we w name op d, d) = (wal_next_lsn w, wal_op_code op, name_field name, d).
Proof.
  unfold view. cbn [fst snd]. f_equal. f_equal. cbn. unfold strncpy, name_field.
  apply take_app_length'. rewrite length_take, length_app, length_replicate. lia.
Qed.

Lemma wal_log_lsn fs w l w' :
  wal_log fs w l → wal_fd w' = wal_fd w → wal_file_size w' = wal_file_size w →
  wal_current_offset w' = wal_current_offset w → u64 (wal_next_lsn w') → wal_log fs w' l.
Proof. intros [? ? ? ? ?] H1 H2 H3 ?. split; rewrite ?H1, ?H2, ?H3; done. Qed.

Lemma wal_step_spec we fs w l op :
  wal_log fs w l → wal_op_ok op →
  ∃ ret fs' w' l', wal_step we fs (Some w) op = Some (ret, fs', Some w') ∧ wal_log fs' w' l' ∧
    spec_wal_step we (abstract_of w l) op = (ret, abstract_of w' l') ∧
    (∀ q, q ≠ wal_fd w → fs' !! q = fs !! q) ∧ wal_fd w' = wal_fd w.
Proof.
  intros Hl Hok. pose proof (wl_offset _ _ _ Hl) as Hoff.
  pose proof (used_size_encode l (wl_entries _ _ _ Hl)) as Hu.
  destruct op as [name ty d|]; cbn [wal_step spec_wal_step abstract_of al_size al_next_lsn al_entries].
  - rewrite Hu. destruct (_ <=? wal_file_size w) eqn:Hroom; to_prop.
    + destruct (wal_append_room we fs w l name ty d Hl Hok) as (fs'&Ha&Hl'&Hq); [lia|].
      do 4 eexists. split; [exact Ha|]. split; [exact Hl'|]. split_and!; [|done|done].
      unfold abstract_of. rewrite fmap_app, list_fmap_singleton, view_appended. done.
    + rewrite (wal_append_full we fs w l name ty d Hl Hok) by lia.
      do 4 eexists. split; [done|]. split; [|by split_and!].
      eapply wal_log_lsn; [done..|apply wrap64_range].
  - unfold xdevice_wal_sync.
    destruct (we_msync_ok we), (we_fsync_ok we); cbn [negb andb];
      (do 4 eexists; split; [done|]; split; [|by split_and!]);
      (eapply wal_log_lsn; [done..|apply Hl]).
Qed.

Lemma wal_run_spec we fs w l ops k :
  wal_log fs w l → Forall wal_op_ok ops →
  ∃ rets fs' w' l', wal_run we fs (Some w) ops k = Some (rets, fs', Some w') ∧ wal_log fs' w' l' ∧
    spec_wal_run we (abstract_of w l) ops k = (rets, abstract_of w' l') ∧
    (∀ q, q ≠ wal_fd w → fs' !! q = fs !! q).
Proof.
  intros Hl Hok. revert fs w l k Hl. induction Hok as [|op ops Hop _ IH]; intros fs w l k Hl.
  { exists [], fs, w, l. by split_and!. }
  cbn [wal_run spec_wal_run].
  destruct (wal_step_spec (we k) fs w l op Hl Hop) as (ret&fs1&w1&l1&->&Hl1&->&Hq1&Hfd). cbn.
  destruct (IH fs1 w1 l1 (S k) Hl1) as (rets&fs'&w'&l'&->&Hl'&->&Hq'). cbn.
  exists (ret :: rets), fs', w', l'. split_and!; [done..|].
  intros q Hq. rewrite Hq' by congruence. by apply Hq1.
Qed.
