(* ===== verification/WalProps.v ===== *)
(** * WalProps: properties of the write-ahead log

    The checksum function, the log as a sequence of decodable entries, the
    resources of an open log, and what the checksums actually protect. *)

From Stdlib Require Import String Sorting.Sorted.
From stdpp Require Import base numbers list strings gmap sorting.
From coqutil Require Import Word.LittleEndianList.
From S2P Require Import XDevice Prelude Libc StorageSpec CrcSpec Crc32 WalEngine WalLog.
Local Open Scope Z_scope.

(** ** Checksums *)

(** The results of consecutive calls, threading the static variables. *)
Fixpoint crc32_calls (st : crc_static) (msgs : list block) : list Z :=
  match msgs with
  | [] => []
  | m :: msgs => let '(v, st) := crc32_call st m in v :: crc32_calls st msgs
  end.

(** C13: in every run of the program each call of the table-driven [crc32] returns the
    CRC-32 of IEEE 802.3 of its message, a 32-bit value: the remainder of the polynomial
    division by the generator of the standard, which [CrcSpec] defines without the code;
    the table that the first call builds does not show. *)
Theorem crc32_calls_correct msgs :
  crc32_calls crc_static_zero msgs = crc32_ref <$> msgs ∧ Forall u32 (crc32_ref <$> msgs).
Proof.
  split.
  - assert (Hok : crc_static_ok crc_static_zero) by done.
    revert Hok. generalize crc_static_zero.
    induction msgs as [|m msgs IH]; intros st Hst; cbn; [done|].
    destruct (crc32_call_spec st m Hst) as [Hv Hst'].
    destruct (crc32_call st m) as [v st']. cbn in Hv, Hst'. by rewrite Hv, IH.
  - apply Forall_fmap, Forall_forall. intros m _. cbn.
    rewrite <- (proj1 (crc32_call_spec crc_static_zero m ltac:(done))). apply crc32_range.
Qed.

(** The check value of the CRC-32 catalogue. *)
Example crc32_check : crc32 (chars "123456789") = 0xCBF43926.
Proof. vm_compute. reflexivity. Qed.

(** C37: changing any four consecutive bytes of a message, or fewer, changes its
    checksum: the checksum catches every corruption confined to four bytes. *)
Theorem crc32_detects_burst p x y q :
  length x = length y → (length x <= 4)%nat → x ≠ y → crc32 (p ++ x ++ q) ≠ crc32 (p ++ y ++ q).
Proof.
  intros Hlen H4 Hne Heq. apply Hne. by apply crc32_window_inj in Heq.
Qed.

Lemma crc32_detects_burst_witness :
  crc32 ([Byte.x01] ++ [Byte.x02; Byte.x03] ++ [Byte.x04]) ≠
  crc32 ([Byte.x01] ++ [Byte.x03; Byte.x02] ++ [Byte.x04]).
Proof. apply crc32_detects_burst; [reflexivity|cbn; lia|discriminate]. Defined.

(** ** The log as a sequence of entries *)

(** C1: a new log, after any sequence of appends and syncs under any answers of the
    operating system, is the log of the abstract run: the calls return the
    abstract results, and decoding the bytes between the header and the current
    offset gives exactly the entries appended successfully, in order, with their
    sequence numbers, operations, names and data. No other file is touched. *)
Theorem wal_refines_log we0 (we : nat → wal_env) fs path size w fs1 ev ops :
  xdevice_wal_create we0 fs (Some path) size = (Some w, fs1, ev) → 0 <= size →
  default [] (fs !! path) = [] → Forall wal_op_ok ops →
  ∃ rets fs2 w2 a, wal_run we fs1 (Some w) ops 0 = Some (rets, fs2, Some w2) ∧
    spec_wal_run we (mk_abstract_log size 1 0 []) ops 0 = (rets, a) ∧
    view <$> decode_log (length (log_region fs2 w2)) (log_region fs2 w2) = al_entries a ∧
    wal_next_lsn w2 = al_next_lsn a ∧ wal_last_sync_lsn w2 = al_synced a ∧
    (∀ q, q ≠ path → fs2 !! q = fs1 !! q).
Proof.
  intros Hc Hs Hempty Hops.
  destruct (wal_create_new _ _ _ _ _ _ _ Hc Hs Hempty) as (Hl&Hsz&Hlsn&Hfd&Hsy&_).
  destruct (wal_run_spec we fs1 w [] ops 0 Hl Hops) as (rets&fs2&w2&l&Hr&Hl2&Hspec&Hq).
  unfold abstract_of in Hspec at 1. rewrite Hsz, Hlsn, Hsy in Hspec.
  exists rets, fs2, w2, (abstract_of w2 l). split_and!; [done|done| |done|done|].
  - by rewrite (decode_region _ _ _ _ Hl2).
  - intros q Hne. apply Hq. congruence.
Qed.

(** A log of 600 bytes: room for two records with little data. *)
Definition w_wal_open : option xdevice_wal * gmap string block * list wal_event :=
  xdevice_wal_create default_wal_env ∅ (Some "wal"%string) 600.

Definition w_wal : xdevice_wal :=
  mk_wal "wal" 600 40 1 "wal" false 0 XDEVICE_WAL_BUFFER_SIZE 0 0 0 0.

Definition w_wal_files : gmap string block := Eval vm_compute in w_wal_open.1.2.

Lemma w_wal_opened :
  xdevice_wal_create default_wal_env ∅ (Some "wal"%string) 600 =
    (Some w_wal, w_wal_files, w_wal_open.2).
Proof. vm_compute. reflexivity. Qed.

Definition w_wal_ops : list wal_op :=
  [WAppend "disk0" XDEVICE_WAL_WRITE [Byte.x01; Byte.x02]; WAppend "disk0" XDEVICE_WAL_WRITE (zeros 300);
   WSync; WAppend "disk1" XDEVICE_WAL_CHECKPOINT []].

Lemma wal_refines_log_witness :
  ∃ rets fs2 w2 a,
    wal_run (λ _, default_wal_env) w_wal_files (Some w_wal) w_wal_ops 0 = Some (rets, fs2, Some w2) ∧
    view <$> decode_log (length (log_region fs2 w2)) (log_region fs2 w2) = al_entries a ∧
    rets = [XDEVICE_OK; XDEVICE_ERROR_IO; XDEVICE_OK; XDEVICE_OK] ∧
    al_entries a = [(1, 1, name_field "disk0", [Byte.x01; Byte.x02]); (3, 3, name_field "disk1", [])] ∧
    al_synced a = 2.
Proof.
  destruct (wal_refines_log default_wal_env (λ _, default_wal_env) ∅ "wal" 600 w_wal w_wal_files
    _ w_wal_ops w_wal_opened) as (rets&fs2&w2&a&H1&H2&H3&_);
    [lia|reflexivity|repeat constructor|].
  exists rets, fs2, w2, a. split; [exact H1|]. split; [exact H3|].
  vm_compute in H2. injection H2 as <- <-. split; [reflexivity|]. split; reflexivity.
Defined.

(** ** Sequence numbers *)

(** The sequence numbers an abstract log has given to entries. *)
Definition lsns (a : abstract_log) : list Z := (λ x, x.1.1.1) <$> al_entries a.

Fixpoint appends (ops : list wal_op) : nat :=
  match ops with
  | [] => 0
  | WAppend _ _ _ :: ops => S (appends ops)
  | WSync :: ops => appends ops
  end.

Lemma spec_wal_run_lsns we a ops k rets a' :
  spec_wal_run we a ops k = (rets, a') → 1 <= al_next_lsn a →
  al_next_lsn a + Z.of_nat (length ops) < 2 ^ 64 →
  StronglySorted Z.lt (lsns a) → Forall (λ n, 1 <= n < al_next_lsn a) (lsns a) →
  0 <= al_synced a < al_next_lsn a →
  al_next_lsn a' = al_next_lsn a + Z.of_nat (appends ops) ∧
  StronglySorted Z.lt (lsns a') ∧ Forall (λ n, 1 <= n < al_next_lsn a') (lsns a') ∧
  0 <= al_synced a' < al_next_lsn a'.
Proof.
  revert a k rets. induction ops as [|op ops IH]; intros a k rets Hr H1 Hlt Hs Hf Hy.
  { injection Hr as _ <-. cbn. split_and!; (done || lia). }
  cbn [spec_wal_run] in Hr. cbn [length] in Hlt.
  destruct (spec_wal_step (we k) a op) as [ret a1] eqn:Hst.
  destruct (spec_wal_run we a1 ops (S k)) as [rets1 a2] eqn:Hrun. injection Hr as _ <-.
  destruct op as [name ty d|]; cbn [spec_wal_step] in Hst.
  - cbn [appends]. assert (Hn : al_next_lsn a ⊞ 1 = al_next_lsn a + 1) by (apply wrap64_small; unfold u64; lia).
    assert (Hf' : Forall (λ n, 1 <= n < al_next_lsn a + 1) (lsns a)).
    { eapply Forall_impl; [done|]. cbn. lia. }
    destruct (_ <=? al_size a); injection Hst as <- <-.
    + apply IH in Hrun as [Hn' Hrest]; cbn in *; rewrite ?Hn in *; try lia.
      * split; [rewrite Hn'; lia|exact Hrest].
      * unfold lsns. cbn. rewrite fmap_app. cbn. apply StronglySorted_app_2; [|done|by repeat constructor].
        intros x1 x2 Hx1 ->%list_elem_of_singleton. rewrite Forall_forall in Hf. by apply Hf.
      * unfold lsns. cbn. rewrite fmap_app. apply Forall_app_2; [done|]. apply Forall_singleton. cbn. lia.
    + apply IH in Hrun as [Hn' Hrest]; cbn in *; rewrite ?Hn in *; try lia; try done.
      split; [rewrite Hn'; lia|exact Hrest].
  - cbn [appends]. destruct (_ && _); injection Hst as <- <-.
    + assert (Hn : al_next_lsn a ⊟ 1 = al_next_lsn a - 1) by (apply wrap64_small; unfold u64; lia).
      apply IH in Hrun; cbn in *; rewrite ?Hn in *; try lia; done.
    + apply IH in Hrun; try lia; done.
Qed.

(** C21: in a new log the numbers of the entries are strictly increasing and below the
    next one, which is one more than the number of appends tried: an append that
    finds no room uses up its number too, so the entries' numbers can have gaps.
    The last synced number stays below the next one. *)
Theorem wal_lsns_increasing we0 (we : nat → wal_env) fs path size w fs1 ev ops :
  xdevice_wal_create we0 fs (Some path) size = (Some w, fs1, ev) → 0 <= size →
  default [] (fs !! path) = [] → Forall wal_op_ok ops → Z.of_nat (length ops) < 2 ^ 64 - 1 →
  ∃ rets fs2 w2, wal_run we fs1 (Some w) ops 0 = Some (rets, fs2, Some w2) ∧
    let numbers := (λ en : entry, wr_lsn en.1) <$>
                     decode_log (length (log_region fs2 w2)) (log_region fs2 w2) in
    wal_next_lsn w2 = 1 + Z.of_nat (appends ops) ∧
    StronglySorted Z.lt numbers ∧ Forall (λ n, 1 <= n < wal_next_lsn w2) numbers ∧
    0 <= wal_last_sync_lsn w2 < wal_next_lsn w2.
Proof.
  intros Hc Hs Hempty Hops Hlen.
  destruct (wal_create_new _ _ _ _ _ _ _ Hc Hs Hempty) as (Hl&Hsz&Hlsn&Hfd&Hsy&_).
  destruct (wal_run_spec we fs1 w [] ops 0 Hl Hops) as (rets&fs2&w2&l&Hr&Hl2&Hspec&_).
  apply spec_wal_run_lsns in Hspec; cbn in *; rewrite ?Hlsn, ?Hsy in *; [|lia|lia|constructor|constructor|lia].
  exists rets, fs2, w2. split; [done|]. cbv zeta. rewrite (decode_region _ _ _ _ Hl2) by done.
  unfold lsns in Hspec. cbn in Hspec. rewrite <- list_fmap_compose in Hspec. exact Hspec.
Qed.

Lemma wal_lsns_increasing_witness :
  ∃ rets fs2 w2,
    wal_run (λ _, default_wal_env) w_wal_files (Some w_wal) w_wal_ops 0 = Some (rets, fs2, Some w2) ∧
    wal_next_lsn w2 = 4.
Proof.
  destruct (wal_lsns_increasing default_wal_env (λ _, default_wal_env) ∅ "wal" 600 w_wal w_wal_files
    _ w_wal_ops w_wal_opened) as (rets&fs2&w2&H1&H2&_);
    [lia|reflexivity|repeat constructor|reflexivity|].
  exists rets, fs2, w2. split; [exact H1|exact H2].
Defined.

(** ** Resources *)

(** The resources held after a sequence of events; [None] when one is acquired
    twice or released without being held. *)
Fixpoint run_events (held : list wal_resource) (ev : list wal_event) : option (list wal_resource) :=
  match ev with
  | [] => Some held
  | Acquire r :: ev => if decide (r ∈ held) then None else run_events (r :: held) ev
  | Release r :: ev =>
      match held with
      | r' :: held => if decide (r = r') then run_events held ev else None
      | [] => None
      end
  end.

(** C29: whatever fails during creation, no resource leaks and none is released
    twice: a creation that returns NULL has released exactly what it acquired,
    in reverse order; one that succeeds holds the six resources of a log, and
    destruction releases exactly these. *)
Theorem wal_create_balanced we we' fs path size :
  match xdevice_wal_create we fs path size with
  | (None, _, ev) => run_events [] ev = Some []
  | (Some w, _, ev) =>
      run_events [] ev = Some [RES_MMAP; RES_FD; RES_WRITE_BUFFER; RES_SYNC_COND; RES_WRITE_MUTEX; RES_WAL] ∧
      run_events [] (ev ++ xdevice_wal_destroy we' (Some w)) = Some []
  end.
Proof.
  unfold xdevice_wal_create. destruct path as [path|]; [|done].
  destruct (size =? 0); [done|].
  destruct (malloc_ok (we_libc we) 0); [|done]. cbn [negb].
  destruct (mutex_init_ok (we_libc we) 0); [|done]. cbn [negb].
  destruct (mutex_init_ok (we_libc we) 1); [|done]. cbn [negb].
  destruct (malloc_ok (we_libc we) 1); [|done]. cbn [negb].
  destruct (we_open_ok we); [|done]. cbn [negb].
  destruct (if _ && _ then _ else _) as [[w|] fs']; [|done].
  destruct (we_mmap_ok we); [|done]. cbn [negb].
  split; [done|]. unfold xdevice_wal_destroy. by destruct (xdevice_wal_sync we' (Some w)) as [[? ?] ?].
Qed.

(** ** What the checksums protect *)

(** A new log starts with a header that decodes to the magic number, the
    version, the requested size and the creation time, and whose checksum is
    that of its first 32 bytes followed by four bytes of uninitialised memory. *)
Theorem wal_new_header we fs path size w fs' ev :
  xdevice_wal_create we fs (Some path) size = (Some w, fs', ev) → 0 <= size →
  default [] (fs !! path) = [] →
  ∃ h rest, fs' !! path = Some (header_bytes h ++ rest) ∧
    header_of_bytes (take 40 (header_bytes h ++ rest)) = h ∧
    wh_magic h = WAL_MAGIC ∧ wh_version h = WAL_VERSION ∧ wh_file_size h = size ∧
    wh_created_time h = wrap64 (time_now (we_libc we) 0) ∧
    wh_checksum h =
      crc32 (take 32 (header_bytes h) ++ slice 32 4 (uninit (we_libc we) 40)).
Proof.
  intros Hc Hs Hempty.
  destruct (wal_create_new _ _ _ _ _ _ _ Hc Hs Hempty) as (Hl&_&_&_&_&rest&Hfs).
  assert (Hu : u64 size).
  { destruct (wal_create_Some _ _ _ _ _ _ _ Hc) as (_&_&_&_&Hcase). rewrite Hempty in Hcase.
    destruct Hcase as [(_&_&?&_)|(Hb&_)]; [unfold u64; lia|unfold blen in Hb; cbn in Hb; lia]. }
  pose proof (created_header_wf we size Hu) as Hwf.
  set (h := created_header we size) in *. exists h, rest.
  split; [exact Hfs|]. split.
  { rewrite take_app_length' by by rewrite length_header_bytes.
    rewrite <- (app_nil_r (header_bytes h)). by apply header_of_header_bytes. }
  do 4 (split; [reflexivity|]).
  rewrite <- (split_le_combine' (slice 32 4 (uninit (we_libc we) 40)) 4).
  - assert (Hwf0 : header_wf (header_of_bytes (uninit (we_libc we) 40)))
      by apply header_of_bytes_wf, length_uninit.
    pose proof (created_checksum (we_libc we) _ size Hwf0 Hu) as Hck.
    cbn [header_of_bytes wh_checksum] in Hck. exact Hck.
  - apply length_slice. rewrite length_uninit. lia.
Qed.

Lemma wal_new_header_witness :
  ∃ h rest, w_wal_files !! "wal"%string = Some (header_bytes h ++ rest) ∧
    wh_magic h = WAL_MAGIC ∧ wh_file_size h = 600.
Proof.
  destruct (wal_new_header default_wal_env ∅ "wal" 600 w_wal w_wal_files _ w_wal_opened)
    as (h&rest&H1&_&H2&_&H3&_); [lia|reflexivity|].
  exists h, rest. split; [exact H1|]. split; [exact H2|exact H3].
Defined.

(** Every request of a creation is granted. *)
Definition wal_granted (we : wal_env) : Prop :=
  malloc_ok (we_libc we) 0 = true ∧ malloc_ok (we_libc we) 1 = true ∧
  mutex_init_ok (we_libc we) 0 = true ∧ mutex_init_ok (we_libc we) 1 = true ∧
  we_open_ok we = true ∧ we_read_ok we = true ∧ we_mmap_ok we = true.

(** A log that was just created can be opened again, by a process to which
    everything is granted, exactly when the four uninitialised bytes that lay in
    its header's checksum field happened to be the checksum to be computed: the
    checksum covers its own field. Any other log is refused. *)
Theorem wal_reopen_accepted we fs path size w fs1 ev we2 size2 :
  xdevice_wal_create we fs (Some path) size = (Some w, fs1, ev) → 0 <= size →
  default [] (fs !! path) = [] → wal_granted we2 → size2 ≠ 0 →
  (∃ w2 fs2 ev2, xdevice_wal_create we2 fs1 (Some path) size2 = (Some w2, fs2, ev2)) ↔
  le_combine (slice 32 4 (uninit (we_libc we) 40)) = wh_checksum (created_header we size).
Proof.
  intros Hc Hs Hempty (Hm0&Hm1&Hx0&Hx1&Ho&Hrd&Hmm) Hsz2.
  destruct (wal_create_new _ _ _ _ _ _ _ Hc Hs Hempty) as (_&_&_&_&_&rest&Hfs).
  assert (Hu : u64 size).
  { destruct (wal_create_Some _ _ _ _ _ _ _ Hc) as (_&_&_&_&Hcase). rewrite Hempty in Hcase.
    destruct Hcase as [(_&_&?&_)|(Hb&_)]; [unfold u64; lia|unfold blen in Hb; cbn in Hb; lia]. }
  pose proof (length_header_bytes _ (created_header_wf we size Hu)) as H40.
  assert (Htake : take 40 (header_bytes (created_header we size) ++ rest) =
                  header_bytes (created_header we size) ++ []).
  { rewrite app_nil_r. by apply take_app_length'. }
  assert (Hval : validate_wal_header (header_of_bytes (take 40 (header_bytes (created_header we size) ++ rest))) = true
                 ↔ le_combine (slice 32 4 (uninit (we_libc we) 40)) = wh_checksum (created_header we size)).
  { rewrite Htake, header_of_header_bytes by by apply created_header_wf.
    assert (Hwf0 : header_wf (header_of_bytes (uninit (we_libc we) 40)))
      by apply header_of_bytes_wf, length_uninit.
    pose proof (validate_created (we_libc we) _ size Hwf0 Hu) as Hv.
    cbn [header_of_bytes wh_checksum] in Hv. fold (created_header we size) in Hv.
    rewrite Hv. split; intros Heq; symmetry; exact Heq. }
  rewrite <- Hval. split.
  - intros (w2&fs2&ev2&Hc2). destruct (wal_create_Some _ _ _ _ _ _ _ Hc2) as (_&_&_&_&Hcase).
    rewrite Hfs in Hcase. cbn [from_option id] in Hcase. destruct Hcase as [(Hnil&_)|(_&Hv&_)]; [|exact Hv].
    apply app_nil in Hnil as [Hnil _]. rewrite Hnil in H40. done.
  - intros Hv. unfold xdevice_wal_create.
    set (c := header_bytes (created_header we size) ++ rest) in *.
    assert (Hdef : default [] (fs1 !! path) = c) by by rewrite Hfs.
    rewrite (proj2 (Z.eqb_neq _ _)), Hm0, Hm1, Hx0, Hx1, Ho by done. cbn [negb]. cbv zeta. rewrite Hdef.
    assert (Hlen : 40 <= blen c) by (unfold c, blen; rewrite length_app; lia).
    rewrite (proj2 (Z.eqb_neq (blen c) 0)), andb_false_r by lia.
    unfold wal_load_file. rewrite Hrd, Z.min_l by (unfold sizeof_wal_header; lia).
    rewrite Z.eqb_refl, Hv, Hmm. cbn [negb orb]. do 3 eexists. reflexivity.
Qed.

Lemma wal_reopen_accepted_witness :
  ¬ ∃ w2 fs2 ev2, xdevice_wal_create default_wal_env w_wal_files (Some "wal"%string) 600 =
                    (Some w2, fs2, ev2).
Proof.
  intros H. apply (wal_reopen_accepted default_wal_env ∅ "wal" 600 w_wal w_wal_files _ default_wal_env
    600 w_wal_opened) in H; [|lia|reflexivity|split_and!; reflexivity|discriminate].
  revert H. vm_compute. discriminate.
Defined.

(** A record carries the same flaw: whoever recomputes the checksum of a record
    that an append stored, from the stored bytes and data, finds the stored value
    exactly when four uninitialised bytes happened to equal it. *)
Theorem wal_record_verifiable we fs w l name op d :
  wal_log fs w l → blen d < 2 ^ 32 → wal_current_offset w + 160 + blen d <= wal_file_size w →
  ∃ fs' w' r, xdevice_wal_append we fs (Some w) (Some name) op (Some d) (blen d) =
      Some (XDEVICE_OK, fs', Some w') ∧
    decode_log (length (log_region fs' w')) (log_region fs' w') = l ++ [(r, d)] ∧
    (record_crc r d (blen d) = wr_checksum r ↔
     le_combine (slice 12 4 (uninit (we_libc we) 160)) = wr_checksum r).
Proof.
  intros Hl Hd Hroom. destruct (wal_append_room we fs w l name op d Hl Hd Hroom) as (fs'&Ha&Hl'&_).
  do 3 eexists. split; [exact Ha|]. split; [by apply decode_region|].
  apply (record_check _ (record_of_bytes (uninit (we_libc we) 160))); [|apply Hl].
  apply record_of_bytes_wf, length_uninit.
Qed.

Lemma w_wal_log : wal_log w_wal_files w_wal [].
Proof. by apply (wal_create_new _ _ _ _ _ _ _ w_wal_opened). Qed.

Lemma wal_record_verifiable_witness :
  ∃ fs' w' r, xdevice_wal_append default_wal_env w_wal_files (Some w_wal) (Some "disk0"%string)
      XDEVICE_WAL_WRITE (Some [Byte.x01]) 1 = Some (XDEVICE_OK, fs', Some w') ∧
    decode_log (length (log_region fs' w')) (log_region fs' w') = [(r, [Byte.x01])].
Proof.
  destruct (wal_record_verifiable default_wal_env w_wal_files w_wal [] "disk0" XDEVICE_WAL_WRITE
    [Byte.x01] w_wal_log) as (fs'&w'&r&H1&H2&_); [reflexivity|vm_compute; discriminate|].
  exists fs', w', r. split; [exact H1|exact H2].
Defined.

(** Reopening forgets the entries: opening an existing log gives an empty log
    that numbers from 1 again, so after any sequence of operations only the
    entries appended since can be decoded, the old ones having been overwritten
    from the start of the log. *)
Theorem wal_reopen_forgets we0 (we : nat → wal_env) fs path size c w fs1 ev ops :
  fs !! path = Some c → c ≠ [] → blen c < 2 ^ 63 →
  xdevice_wal_create we0 fs (Some path) size = (Some w, fs1, ev) →
  wal_file_size w <= blen c → Forall wal_op_ok ops →
  ∃ rets fs2 w2 a, wal_run we fs1 (Some w) ops 0 = Some (rets, fs2, Some w2) ∧
    spec_wal_run we (mk_abstract_log (wal_file_size w) 1 0 []) ops 0 = (rets, a) ∧
    view <$> decode_log (length (log_region fs2 w2)) (log_region fs2 w2) = al_entries a.
Proof.
  intros Hfs Hne Hlen Hc Hsz Hops.
  destruct (wal_create_Some _ _ _ _ _ _ _ Hc) as (Hfd&Hlsn&Hoff&Hsy&Hcase).
  rewrite Hfs in Hcase. cbn [from_option id] in Hcase.
  destruct Hcase as [(?&_)|(H40&_&Hfsz&->)]; [done|].
  assert (Hl : wal_log (<[path:=c]> fs) w []).
  { split.
    - exists (take 40 c), (drop 40 c). rewrite Hfd, lookup_insert_eq.
      change (encode_log []) with (@nil Init.Byte.byte). cbn [app]. rewrite take_drop.
      split_and!; try done. unfold blen in *. rewrite length_take. lia.
    - by rewrite Hoff.
    - rewrite Hfsz. apply header_of_bytes_wf. rewrite length_take. unfold blen in H40. lia.
    - constructor.
    - rewrite Hlsn. unfold u64. lia. }
  destruct (wal_run_spec we _ w [] ops 0 Hl Hops) as (rets&fs2&w2&l&Hr&Hl2&Hspec&_).
  unfold abstract_of in Hspec at 1. rewrite Hlsn, Hsy in Hspec.
  exists rets, fs2, w2, (abstract_of w2 l). split; [done|]. split; [done|].
  by rewrite (decode_region _ _ _ _ Hl2).
Qed.

(** An environment whose uninitialised memory holds the checksum to come, and a log
    that was created in it and holds one entry. *)
Definition w_lucky : wal_env :=
  default_wal_env <| we_libc := default_env <| junk := λ k,
    match k with 32 => Byte.x19 | 33 => Byte.xc2 | 34 => Byte.x35 | 35 => Byte.x6b | _ => Byte.xaa end%nat |> |>.

Definition w_old_files : gmap string block := Eval vm_compute in
  match xdevice_wal_append w_lucky (xdevice_wal_create w_lucky ∅ (Some "wal"%string) 600).1.2
          (Some w_wal) (Some "disk0"%string) XDEVICE_WAL_WRITE (Some [Byte.x01; Byte.x02]) 2 with
  | Some (_, fs, _) => fs
  | None => ∅
  end.

Definition w_old_content : block := Eval vm_compute in default [] (w_old_files !! "wal"%string).

Lemma w_old_reopened :
  xdevice_wal_create default_wal_env w_old_files (Some "wal"%string) 600 =
    (Some w_wal, w_old_files, w_wal_open.2).
Proof. vm_compute. reflexivity. Qed.

Lemma wal_reopen_forgets_witness :
  ∃ rets fs2 w2 a,
    decode_log 2 (slice 40 162 w_old_content) ≠ [] ∧
    wal_run (λ _, default_wal_env) w_old_files (Some w_wal) [WAppend "disk1" XDEVICE_WAL_WRITE [Byte.x09]] 0 =
      Some (rets, fs2, Some w2) ∧
    view <$> decode_log (length (log_region fs2 w2)) (log_region fs2 w2) = al_entries a ∧
    al_entries a = [(1, 1, name_field "disk1", [Byte.x09])].
Proof.
  destruct (wal_reopen_forgets default_wal_env (λ _, default_wal_env) w_old_files "wal" 600
    w_old_content w_wal w_old_files w_wal_open.2 [WAppend "disk1" XDEVICE_WAL_WRITE [Byte.x09]])
    as (rets&fs2&w2&a&H1&H2&H3);
    [vm_compute; reflexivity|vm_compute; discriminate|vm_compute; reflexivity|apply w_old_reopened
    |vm_compute; discriminate|repeat constructor|].
  exists rets, fs2, w2, a. split; [vm_compute; discriminate|]. split; [exact H1|]. split; [exact H3|].
  vm_compute in H2. injection H2 as _ <-. reflexivity.
Defined.
