(* ===== verification/WalCrash.v ===== *)
(** * WalCrash: what is on disk after a crash

    The log is written through a memory mapping: a store goes to the page cache, and the
    operating system writes pages back whenever it likes, in any order. An [msync] that
    succeeds has written the pages of its range. Here the calls of a log are interleaved
    with the writing back of pages, and a crash leaves what is on disk. *)

From Stdlib Require Import String.
From stdpp Require Import base numbers list strings gmap.
From S2P Require Import XDevice Prelude Libc StorageSpec Crc32 WalEngine WalLog WalProps.
Local Open Scope Z_scope.

(** ** The file on disk *)

Definition PAGE : nat := 4096.

(** Page [p] of the cached content [c] reaches the disk, whose content is [d]. *)
Definition write_back (c d : block) (p : nat) : block :=
  if decide (p * PAGE < length c)%nat
  then spec_write d (Z.of_nat (p * PAGE)) (slice (p * PAGE) PAGE c) else d.

(** [msync] of the first [n] bytes: the pages that hold them. *)
Definition flush (c d : block) (n : Z) : block :=
  foldl (write_back c) d (seq 0 (Z.to_nat ((n + 4095) / 4096))).

(** An open log, the files as its process sees them, and the log's file on disk. *)
Record crash_state := mk_crash_state {
  cs_files : gmap string block;
  cs_wal : xdevice_wal;
  cs_disk : block
}.

Inductive crash_event : Type :=
| Call (we : wal_env) (op : wal_op)
| WriteBack (p : nat).

Definition content (s : crash_state) : block := default [] (cs_files s !! wal_fd (cs_wal s)).

(** What a call to the operating system is documented to put on disk, for a file with
    content [c]: [msync] the pages of its range. POSIX ties the pages of a mapping to
    [msync] alone, so [fsync] promises nothing about them here; what it may write on
    some systems, and what a failed call has written, are among the [WriteBack] events. *)
Definition disk_effect (c d : block) (call : disk_call) : block :=
  match call with
  | Msync n true => flush c d n
  | Msync _ false | Fsync _ => d
  end.

(** The calls that an operation of the log makes. *)
Definition disk_calls (we : wal_env) (w : xdevice_wal) (op : wal_op) : list disk_call :=
  match op with
  | WSync => (xdevice_wal_sync we (Some w)).2
  | WAppend _ _ _ => []
  end.

Definition crash_step (s : crash_state) (ev : crash_event) : option crash_state :=
  match ev with
  | Call we op =>
      '(_, fs, w) ← wal_step we (cs_files s) (Some (cs_wal s)) op;
      w ← w;
      Some (mk_crash_state fs w
        (foldl (disk_effect (content s)) (cs_disk s) (disk_calls we (cs_wal s) op)))
  | WriteBack p => Some (s <| cs_disk := write_back (content s) (cs_disk s) p |>)
  end.

Fixpoint crash_run (s : crash_state) (evs : list crash_event) : option crash_state :=
  match evs with
  | [] => Some s
  | ev :: evs => s ← crash_step s ev; crash_run s evs
  end.

Definition event_ok (ev : crash_event) : Prop :=
  match ev with Call _ op => wal_op_ok op | WriteBack _ => True end.

(** ** Lemmas *)

(** Inside the page the disk agrees with the cache, outside nothing changes. *)
Lemma write_back_in c d p (i : nat) :
  (p * PAGE <= i < p * PAGE + PAGE)%nat → (i < length c)%nat → write_back c d p !! i = c !! i.
Proof.
  intros Hi Hc. unfold write_back. rewrite decide_True by lia. unfold spec_write.
  set (pad := pad_to _ d). assert (Hpad : blen pad = Z.max (Z.of_nat (p * PAGE) + blen (slice (p * PAGE) PAGE c)) (blen d))
    by apply blen_pad_to.
  rewrite Nat2Z.id. assert (Hlen : length (take (p * PAGE) pad) = (p * PAGE)%nat).
  { rewrite length_take. unfold blen in Hpad. lia. }
  rewrite lookup_app_r by lia. rewrite Hlen. unfold slice.
  rewrite lookup_app_l; [|rewrite length_take, length_drop; lia].
  rewrite lookup_take_lt by lia. rewrite lookup_drop.
  f_equal. lia.
Qed.

Lemma write_back_out c d p (i : nat) :
  ¬ (p * PAGE <= i < p * PAGE + PAGE)%nat → (i < length d)%nat → write_back c d p !! i = d !! i.
Proof.
  intros Hi Hd. unfold write_back. case_decide as Hp; [|done]. unfold spec_write.
  set (sl := slice _ _ c). set (pad := pad_to _ d).
  assert (Hpad : blen pad = Z.max (Z.of_nat (p * PAGE) + blen sl) (blen d)) by apply blen_pad_to.
  assert (Hpi : pad !! i = d !! i) by (unfold pad, pad_to; by rewrite lookup_app_l).
  assert (Hsl : (length sl <= PAGE)%nat) by (unfold sl, slice; rewrite length_take; lia).
  rewrite Nat2Z.id. assert (Hlen : length (take (p * PAGE) pad) = (p * PAGE)%nat).
  { rewrite length_take. unfold blen in Hpad. lia. }
  destruct (decide (i < p * PAGE)%nat) as [Hlt|Hge].
  - rewrite lookup_app_l by lia. by rewrite lookup_take_lt by lia.
  - rewrite lookup_app_r by lia. rewrite lookup_app_r by lia. rewrite Hlen, lookup_drop.
    rewrite <- Hpi. f_equal. lia.
Qed.

Lemma write_back_kept c d p (i : nat) :
  (i < length c)%nat → d !! i = c !! i → write_back c d p !! i = c !! i.
Proof.
  intros Hi Heq. destruct (decide (p * PAGE <= i < p * PAGE + PAGE)%nat); [by apply write_back_in|].
  rewrite write_back_out; [done|done|]. apply lookup_lt_is_Some_1. rewrite Heq. by apply lookup_lt_is_Some_2.
Qed.

Lemma flush_kept c d n (i : nat) : (i < length c)%nat → d !! i = c !! i → flush c d n !! i = c !! i.
Proof.
  intros Hi. unfold flush. generalize (seq 0 (Z.to_nat ((n + 4095) / 4096))). intros ps. revert d.
  induction ps as [|p ps IH]; intros d Heq; [done|]. apply IH. by apply write_back_kept.
Qed.

(** After a flush the bytes of its range are on disk. *)
Lemma flush_in c d n (i : nat) : Z.of_nat i < n → (i < length c)%nat → flush c d n !! i = c !! i.
Proof.
  intros Hin Hi. unfold flush.
  assert (Hm : (i < Z.to_nat ((n + 4095) / 4096) * PAGE)%nat).
  { unfold PAGE. pose proof (Z.div_mod (n + 4095) 4096 ltac:(lia)).
    pose proof (Z.mod_pos_bound (n + 4095) 4096 ltac:(lia)). lia. }
  generalize dependent (Z.to_nat ((n + 4095) / 4096)). intros m. induction m as [|m IH]; intros Hm; [lia|].
  rewrite seq_S, foldl_app. cbn [foldl Nat.add].
  destruct (decide (i < m * PAGE)%nat) as [Hlt|Hge].
  - apply write_back_kept; [done|by apply IH].
  - apply write_back_in; [lia|done].
Qed.

Lemma disk_calls_kept c d calls (i : nat) :
  (i < length c)%nat → d !! i = c !! i → foldl (disk_effect c) d calls !! i = c !! i.
Proof.
  intros Hi. revert d. induction calls as [|[n []|ok] calls IH]; intros d Hd; cbn; auto. by apply IH, flush_kept.
Qed.

(** The first [n] bytes of two blocks. *)
Lemma take_lookup_eq (n : nat) (a b : block) :
  (n <= length b)%nat → (∀ i, (i < n)%nat → a !! i = b !! i) → take n a = take n b.
Proof.
  intros Hb Heq. apply list_eq. intros i. destruct (decide (i < n)%nat) as [Hi|Hi].
  - rewrite !lookup_take_lt by done. by apply Heq.
  - by rewrite !lookup_take_ge by lia.
Qed.

(** ** What the calls keep *)

Lemma mem_write_prefix c off b c' (n : nat) :
  mem_write c off b = Some c' → (n <= Z.to_nat off)%nat → take n c' = take n c.
Proof.
  intros (?&?&->)%mem_write_Some Hn. pose proof (blen_nonneg b).
  rewrite take_app_le by (rewrite length_take; unfold blen in *; lia).
  rewrite take_take. f_equal. lia.
Qed.

(** The cached content of the log's file. *)
Definition cached_log (fs : gmap string block) (w : xdevice_wal) : block := default [] (fs !! wal_fd w).

Lemma map_write_prefix fs w off b fs' (n : nat) :
  map_write fs w off b = Some fs' → (n <= Z.to_nat off)%nat →
  take n (cached_log fs' w) = take n (cached_log fs w) ∧ length (cached_log fs' w) = length (cached_log fs w).
Proof.
  unfold map_write, cached_log. destruct (fs !! wal_fd w) as [c|] eqn:Hc; [|done]. cbn [mbind option_bind].
  destruct (mem_write c off b) as [c'|] eqn:Hw; [|done]. cbn [mbind option_bind]. intros [= <-] Hn.
  rewrite lookup_insert_eq. cbn. split; [by eapply mem_write_prefix|by eapply mem_write_len].
Qed.

(** An append does not write below the current offset. *)
Lemma append_prefix we fs w name op d ret fs' w' :
  0 <= wal_current_offset w < 2 ^ 63 → blen d < 2 ^ 32 →
  xdevice_wal_append we fs (Some w) (Some name) op (Some d) (blen d) = Some (ret, fs', Some w') →
  wal_fd w' = wal_fd w ∧ wal_current_offset w <= wal_current_offset w' ∧
  take (Z.to_nat (wal_current_offset w)) (cached_log fs' w) = take (Z.to_nat (wal_current_offset w)) (cached_log fs w) ∧
  length (cached_log fs' w) = length (cached_log fs w).
Proof.
  intros Hoff Hd. pose proof (blen_nonneg d). unfold xdevice_wal_append. rewrite bool_decide_eq_false_2 by done. cbn [andb default].
  rewrite mem_read_data. cbn [mbind option_bind]. cbv zeta.
  destruct (_ <? _); [intros [= _ <- <-]; split_and!; done || lia|].
  destruct (map_write fs _ _ (record_bytes _)) as [fs1|] eqn:Hw1; [|done]. cbn [mbind option_bind].
  apply (map_write_prefix _ _ _ _ _ (Z.to_nat (wal_current_offset w))) in Hw1 as [Hp1 Hl1]; [|done].
  destruct (0 <? blen d).
  - destruct (map_write fs1 _ _ d) as [fs2|] eqn:Hw2; [|done]. cbn [mbind option_bind].
    apply (map_write_prefix _ _ _ _ _ (Z.to_nat (wal_current_offset w))) in Hw2 as [Hp2 Hl2];
      [|cbn; unfold sizeof_wal_record_header; rewrite wrap64_small by (unfold u64; lia); lia].
    intros [= _ <- <-]. split_and!; [done| |exact (eq_trans Hp2 Hp1)|exact (eq_trans Hl2 Hl1)].
    cbn. unfold sizeof_wal_record_header. rewrite !wrap64_small by (unfold u64; rewrite ?wrap64_small; unfold u64; lia). lia.
  - cbn [mbind option_bind]. intros [= _ <- <-]. split_and!; [done| |exact Hp1|exact Hl1].
    cbn. unfold sizeof_wal_record_header. rewrite wrap64_small by (unfold u64; lia). lia.
Qed.

(** A disciplined state: the cache holds the log [l]. *)
Definition log_state (s : crash_state) (l : list entry) : Prop := wal_log (cs_files s) (cs_wal s) l.

(** From [s] on the first [n] bytes of the cache stay, and the disk has them. *)
Record durable (n : nat) (p : block) (s : crash_state) : Prop := {
  du_length : (n <= length (content s))%nat;
  du_offset : Z.of_nat n <= wal_current_offset (cs_wal s);
  du_cache : take n (content s) = p;
  du_disk : ∀ i, (i < n)%nat → cs_disk s !! i = content s !! i
}.

Lemma log_state_content s l :
  log_state s l →
  wal_current_offset (cs_wal s) <= blen (content s) < 2 ^ 63 ∧ 40 <= wal_current_offset (cs_wal s) ∧
  ∃ rest, drop 40 (content s) = encode_log l ++ rest.
Proof.
  intros [(h&rest&Hfs&Hh&Hsz) Hoff _ _ _]. unfold content. rewrite Hfs, Hoff. cbn [default from_option id].
  pose proof (blen_nonneg (encode_log l)). rewrite !blen_app in *. pose proof (blen_nonneg rest).
  split_and!; [lia|lia|lia|]. exists rest. apply drop_app_length'. unfold blen in Hh. lia.
Qed.

(** Every event is defined, keeps the log and leaves the bytes below the offset alone. *)
Lemma crash_step_spec s l ev :
  log_state s l → event_ok ev →
  ∃ s' l', crash_step s ev = Some s' ∧ log_state s' l' ∧
    wal_current_offset (cs_wal s) <= wal_current_offset (cs_wal s') ∧
    take (Z.to_nat (wal_current_offset (cs_wal s))) (content s') =
      take (Z.to_nat (wal_current_offset (cs_wal s))) (content s) ∧
    length (content s') = length (content s) ∧
    (∀ i, (i < length (content s))%nat → cs_disk s !! i = content s !! i → cs_disk s' !! i = content s !! i).
Proof.
  intros Hl Hok. destruct (log_state_content s l Hl) as (Hoff&H40&_).
  destruct ev as [we op|p]; cbn [crash_step].
  - destruct (wal_step_spec we _ _ l op Hl Hok) as (ret&fs'&w'&l'&Hst&Hl'&_&_&Hfd). rewrite Hst.
    cbn [mbind option_bind]. eexists _, l'. split; [reflexivity|]. split; [exact Hl'|].
    unfold content. cbn [cs_wal cs_files cs_disk]. rewrite Hfd. fold (cached_log fs' (cs_wal s)).
    fold (cached_log (cs_files s) (cs_wal s)). destruct op as [name ty d|]; cbn [wal_step] in Hst.
    + apply append_prefix in Hst as (_&Ho&Hp&Hlen); [|lia|done]. by split_and!.
    + destruct (xdevice_wal_sync we _) as [[ret1 w1] calls] eqn:Hsync. injection Hst as <- <- ->.
      assert (Ho : wal_current_offset w' = wal_current_offset (cs_wal s)).
      { unfold xdevice_wal_sync in Hsync. destruct (we_msync_ok we), (we_fsync_ok we); by injection Hsync as <- <- <-. }
      split_and!; [lia|done|done|]. intros i Hi Hd. by apply disk_calls_kept.
  - eexists _, l. split; [reflexivity|]. split; [exact Hl|].
    split_and!; [done|done|done|]. intros i Hi Hd. by apply write_back_kept.
Qed.

Lemma durable_step n p s l ev s' :
  log_state s l → event_ok ev → durable n p s → crash_step s ev = Some s' → durable n p s'.
Proof.
  intros Hl Hok [Hlen Hoff Hc Hd] Hst.
  destruct (crash_step_spec s l ev Hl Hok) as (s2&l'&Hst2&_&Ho&Hp&Hlen'&Hdisk).
  assert (s2 = s') as -> by congruence.
  assert (Hsame : take n (content s') = take n (content s)).
  { apply (f_equal (take n)) in Hp. by rewrite !take_take, !Nat.min_l in Hp by lia. }
  split; [lia|lia|congruence|]. intros i Hi.
  rewrite Hdisk by (lia || by apply Hd).
  apply (f_equal (λ x : block, x !! i)) in Hsame. by rewrite !lookup_take_lt in Hsame by done.
Qed.

Lemma crash_run_spec s l evs :
  log_state s l → Forall event_ok evs →
  ∃ s' l', crash_run s evs = Some s' ∧ log_state s' l' ∧ ∀ n p, durable n p s → durable n p s'.
Proof.
  intros Hl Hok. revert s l Hl. induction Hok as [|ev evs Hev _ IH]; intros s l Hl; [by exists s, l|].
  cbn [crash_run]. destruct (crash_step_spec s l ev Hl Hev) as (s1&l1&Hst&Hl1&_). rewrite Hst. cbn [mbind option_bind].
  destruct (IH s1 l1 Hl1) as (s'&l'&->&Hl'&Hdur). exists s', l'. split_and!; [done|done|].
  intros n p Hd. apply Hdur. exact (durable_step n p s l ev s1 Hl Hev Hd Hst).
Qed.

(** C7: a sync that returns [XDEVICE_OK] is a promise the disk keeps: in a new log, after any
    appends, syncs and page writes in any order, then a successful sync, then again
    anything, whenever the machine stops, the file on disk begins with the bytes that the
    log had at the sync, and the decoder reads from it at least the entries appended
    before the sync, in order. (The sync asks for [msync] of all bytes below the current
    offset, then for [fsync].) *)
Theorem wal_sync_durable we0 fs path size w fs1 ev disk evs1 we evs2 :
  xdevice_wal_create we0 fs (Some path) size = (Some w, fs1, ev) → 0 <= size →
  default [] (fs !! path) = [] → Forall event_ok evs1 → Forall event_ok evs2 →
  we_msync_ok we = true → we_fsync_ok we = true →
  ∃ s1 s2 w2, crash_run (mk_crash_state fs1 w disk) evs1 = Some s1 ∧
    xdevice_wal_sync we (Some (cs_wal s1)) =
      (XDEVICE_OK, Some w2, [Msync (wal_current_offset (cs_wal s1)) true; Fsync true]) ∧
    crash_run s1 (Call we WSync :: evs2) = Some s2 ∧
    let n := Z.to_nat (wal_current_offset (cs_wal s1)) in
    let synced := decode_log n (log_region (cs_files s1) (cs_wal s1)) in
    take n (cs_disk s2) = take n (content s1) ∧
    synced `prefix_of` decode_log (length (cs_disk s2)) (drop 40 (cs_disk s2)).
Proof.
  intros Hcr Hsz Hempty Hok1 Hok2 Hms Hfs.
  destruct (wal_create_new _ _ _ _ _ _ _ Hcr Hsz Hempty) as (Hl0&_).
  destruct (crash_run_spec (mk_crash_state fs1 w disk) [] evs1 Hl0 Hok1) as (s1&l1&->&Hl1&_).
  exists s1. destruct (log_state_content s1 l1 Hl1) as ([Hoff Hlen]&H40&rest&Hrest).
  set (n := Z.to_nat (wal_current_offset (cs_wal s1))).
  assert (Hsync : ∃ w1, crash_step s1 (Call we WSync) =
      Some (mk_crash_state (cs_files s1) w1 (flush (content s1) (cs_disk s1) (wal_current_offset (cs_wal s1)))) ∧
    wal_fd w1 = wal_fd (cs_wal s1) ∧ wal_current_offset w1 = wal_current_offset (cs_wal s1)).
  { cbn [crash_step wal_step disk_calls]. unfold xdevice_wal_sync. rewrite Hms, Hfs. cbn. by eexists. }
  destruct Hsync as (w1&Hsync&Hfd&Ho1). set (s1' := mk_crash_state _ w1 _) in Hsync.
  assert (Hc1 : content s1' = content s1) by (unfold content; cbn; by rewrite Hfd).
  assert (Hdur : durable n (take n (content s1)) s1').
  { split; rewrite ?Hc1; cbn; rewrite ?Ho1; [unfold blen in Hoff; lia|lia|done|].
    intros i Hi. apply flush_in; [lia|unfold blen in Hoff; lia]. }
  destruct (crash_step_spec s1 l1 (Call we WSync) Hl1 I) as (x&l1'&Hx&Hl1'&_).
  rewrite Hsync in Hx. apply (inj Some) in Hx as <-.
  destruct (crash_run_spec s1' l1' evs2 Hl1' Hok2) as (s2&l2&Hrun&Hl2&Hkeep).
  exists s2. eexists. split; [done|]. split; [unfold xdevice_wal_sync; by rewrite Hms, Hfs|]. cbn [crash_run]. rewrite Hsync. split; [exact Hrun|]. cbn zeta.
  destruct (Hkeep n _ Hdur) as [Hlen2 _ Hc2 Hd2].
  assert (Hdisk : take n (cs_disk s2) = take n (content s1)).
  { rewrite <- Hc2. by apply take_lookup_eq. }
  split; [exact Hdisk|].
  pose proof (wl_offset _ _ _ Hl1) as Hel. pose proof (wl_entries _ _ _ Hl1) as Hen.
  pose proof (length_encode_log l1 Hen) as Hll. unfold blen in Hel.
  assert (Hd40 : drop 40 (cs_disk s2) = encode_log l1 ++ drop n (cs_disk s2)).
  { rewrite <- (take_drop n (cs_disk s2)) at 1. rewrite Hdisk.
    rewrite drop_app_le by (rewrite length_take; unfold blen in Hoff; lia). f_equal.
    rewrite skipn_firstn_comm, Hrest. apply take_app_length'. lia. }
  rewrite (decode_region _ _ _ n Hl1).
  - rewrite Hd40, decode_encode_prefix; [by eexists|done|].
    apply (f_equal length) in Hd40. rewrite length_drop, length_app in Hd40. lia.
  - rewrite (log_region_eq _ _ _ Hl1). lia.
Qed.

(** An append, a page written back, a sync, then an append that is lost in the crash. *)
Definition w_before : list crash_event :=
  [Call default_wal_env (WAppend "disk0" XDEVICE_WAL_WRITE [Byte.x01; Byte.x02]); WriteBack 0].

Definition w_after : list crash_event :=
  [Call default_wal_env (WAppend "disk1" XDEVICE_WAL_WRITE [Byte.x03])].

Lemma w_crash_synced :
  (λ s, decode_log (Z.to_nat (wal_current_offset (cs_wal s))) (log_region (cs_files s) (cs_wal s))) <$>
    crash_run (mk_crash_state w_wal_files w_wal []) w_before =
  Some [(appended_record default_wal_env w_wal "disk0" XDEVICE_WAL_WRITE [Byte.x01; Byte.x02], [Byte.x01; Byte.x02])].
Proof. vm_compute. reflexivity. Qed.

Lemma wal_sync_durable_witness :
  ∃ s1 s2, crash_run (mk_crash_state w_wal_files w_wal []) w_before = Some s1 ∧
    crash_run s1 (Call default_wal_env WSync :: w_after) = Some s2 ∧
    [(appended_record default_wal_env w_wal "disk0" XDEVICE_WAL_WRITE [Byte.x01; Byte.x02], [Byte.x01; Byte.x02])]
      `prefix_of` decode_log (length (cs_disk s2)) (drop 40 (cs_disk s2)).
Proof.
  destruct (wal_sync_durable default_wal_env ∅ "wal" 600 w_wal w_wal_files _ [] w_before default_wal_env w_after
    w_wal_opened) as (s1&s2&_&H1&_&H2&_&H3);
    [lia|reflexivity|repeat constructor|repeat constructor|reflexivity|reflexivity|].
  exists s1, s2. pose proof w_crash_synced as Hs. rewrite H1 in Hs. injection Hs as Hs. cbv zeta in H3.
  rewrite Hs in H3. split; [exact H1|]. split; [exact H2|exact H3].
Defined.
