(* ===== verification/Raft.v ===== *)
(** * Raft: a consensus node ([src/distributed/raft.c])

    A node is a record; each round of the two threads and each API call that runs
    with the mutex held is one step. What the threads obtain from outside (the
    time, [rand], the answers of the peers through the callbacks, allocation) is
    the environment of the step. A read of memory that was never written, an
    array access out of bounds and a second join of a thread are [None]. *)

From stdpp Require Import base numbers list strings.
From S2P Require Import XDevice Prelude.
Local Open Scope Z_scope.

Definition RAFT_HEARTBEAT_INTERVAL_MS : Z := 50.
Definition RAFT_ELECTION_TIMEOUT_MIN_MS : Z := 150.
Definition RAFT_ELECTION_TIMEOUT_MAX_MS : Z := 300.

(** ** Data *)

(** [data] is NULL in an entry whose allocation failed. *)
Record xdevice_raft_log_entry_t := mk_log_entry {
  le_term : Z;
  le_index : Z;
  le_data : option block;
  le_length : Z
}.

Record xdevice_node_info_t := mk_node_info {
  ni_node_id : string;
  ni_address : string;
  ni_port : Z;
  ni_state : xdevice_node_state_t;
  ni_last_heartbeat : Z;
  ni_term : Z
}.

(** The identifier of the sender is a [char[64]] of which [strncpy] writes 63. *)
Record xdevice_raft_vote_request_t := mk_vote_request {
  vq_term : Z;
  vq_candidate_id : block;
  vq_last_log_index : Z;
  vq_last_log_term : Z
}.

Record xdevice_raft_vote_response_t := mk_vote_response {
  vr_term : Z;
  vr_vote_granted : bool
}.

(** [entries] is NULL and [entries_count] 0 in every message sent. *)
Record xdevice_raft_append_request_t := mk_append_request {
  aq_term : Z;
  aq_leader_id : block;
  aq_prev_log_index : Z;
  aq_prev_log_term : Z;
  aq_leader_commit : Z;
  aq_entries_count : Z
}.

Record xdevice_raft_append_response_t := mk_append_response {
  ar_term : Z;
  ar_success : bool
}.

(** Which callbacks are not NULL. *)
Record xdevice_raft_callbacks_t := mk_callbacks {
  cb_send_vote_request : bool;
  cb_send_append_entries : bool;
  cb_apply_log_entry : bool;
  cb_on_leader_changed : bool;
  cb_on_state_changed : bool
}.

(** A [pthread_t] field: zero, a running thread, a thread that was joined, and what a
    failed [pthread_create] leaves there, which is unspecified. *)
Inductive thread_t : Set := THREAD_NONE | THREAD_LIVE | THREAD_JOINED | THREAD_UNSPECIFIED.

(** The log array has [log_capacity] slots; a slot never written is [None]. *)
Record xdevice_raft_node := mk_raft_node {
  rn_node_id : string;
  rn_state : xdevice_node_state_t;
  rn_current_term : Z;
  rn_voted_for : string;
  rn_commit_index : Z;
  rn_last_applied : Z;
  rn_log_entries : list (option xdevice_raft_log_entry_t);
  rn_log_capacity : Z;
  rn_log_size : Z;
  rn_next_index : list Z;
  rn_match_index : list Z;
  rn_cluster_nodes : list (option xdevice_node_info_t);
  rn_cluster_size : Z;
  rn_election_timeout : Z;
  rn_last_heartbeat : Z;
  rn_election_thread : thread_t;
  rn_heartbeat_thread : thread_t;
  rn_running : bool;
  rn_callbacks : xdevice_raft_callbacks_t
}.

(** ** The environment of a step *)

(** [struct timeval]. *)
Record timeval := mk_timeval { tv_s : Z; tv_usec : Z }.

(** The k-th call of each function in the step; the answers of the peers are
    numbered by the loop index. When the callback fails or does not fill in the
    response, the response is what lay on the stack. *)
Record raft_env := mk_raft_env {
  re_malloc_ok : nat → bool;
  re_mutex_init_ok : bool;
  re_thread_ok : nat → bool;
  re_time : nat → timeval;
  re_rand : nat → Z;
  re_junk : nat → Init.Byte.byte;
  re_vote : nat → xdevice_raft_vote_request_t → xdevice_error_t * xdevice_raft_vote_response_t;
  re_append : nat → xdevice_raft_append_request_t → xdevice_error_t * xdevice_raft_append_response_t
}.

Definition get_current_time_ms (tv : timeval) : Z := wrap64 (tv_s tv * 1000 + tv_usec tv / 1000).

Definition generate_election_timeout (rand : Z) : Z :=
  RAFT_ELECTION_TIMEOUT_MIN_MS +
    Z.rem rand (RAFT_ELECTION_TIMEOUT_MAX_MS - RAFT_ELECTION_TIMEOUT_MIN_MS).

(** [k] numbers the reading of the clock, [j] the call of [rand]. *)
Definition reset_election_timer (e : raft_env) (k j : nat) (n : xdevice_raft_node) : xdevice_raft_node :=
  n <| rn_election_timeout :=
         get_current_time_ms (re_time e k) ⊞ generate_election_timeout (re_rand e j) |>.

(** ** Elections *)

(** [node->log_entries[i].term]. *)
Definition entry_term (n : xdevice_raft_node) (i : Z) : option Z :=
  slot ← rn_log_entries n !! Z.to_nat i; entry ← slot; Some (le_term entry).

Definition sender_id (e : raft_env) (n : xdevice_raft_node) : block :=
  strncpy (re_junk e <$> seq 0 64) (rn_node_id n) 63.

Definition make_vote_request (e : raft_env) (n : xdevice_raft_node) : option xdevice_raft_vote_request_t :=
  last_term ← (if 0 <? rn_log_size n then entry_term n (rn_log_size n ⊟ 1) else Some 0);
  Some {| vq_term := rn_current_term n; vq_candidate_id := sender_id e n;
          vq_last_log_index := rn_log_size n; vq_last_log_term := last_term |}.

(** What a response with a higher term does. *)
Definition step_down (e : raft_env) (k j : nat) (term : Z) (n : xdevice_raft_node) : xdevice_raft_node :=
  reset_election_timer e k j
    (n <| rn_current_term := term |> <| rn_state := XDEVICE_NODE_FOLLOWER |> <| rn_voted_for := "" |>).

(** The loop over the peers, from index [i]; [fuel] rounds are left. *)
Fixpoint vote_loop (e : raft_env) (n : xdevice_raft_node) (votes : Z) (fuel i : nat)
    : option (xdevice_raft_node * Z) :=
  match fuel with
  | O => Some (n, votes)
  | S fuel =>
      slot ← rn_cluster_nodes n !! i;
      peer ← slot;
      if decide (ni_node_id peer = rn_node_id n) then vote_loop e n votes fuel (S i)
      else
        vote_req ← make_vote_request e n;
        if negb (cb_send_vote_request (rn_callbacks n)) then vote_loop e n votes fuel (S i)
        else
          let '(ret, vote_resp) := re_vote e i vote_req in
          if decide (ret = XDEVICE_OK) then
            let votes := if vr_vote_granted vote_resp then votes ⊞₃₂ 1 else votes in
            if rn_current_term n <? vr_term vote_resp then
              Some (step_down e 2 1 (vr_term vote_resp) n, votes)
            else vote_loop e n votes fuel (S i)
          else vote_loop e n votes fuel (S i)
  end.

(** [for (i = 0; i < cluster_size; i++) a[i] = v]. *)
Fixpoint fill (a : list Z) (v : Z) (fuel i : nat) : option (list Z) :=
  match fuel with
  | O => Some a
  | S fuel => if decide (i < length a)%nat then fill (<[i := v]> a) v fuel (S i) else None
  end.

Definition become_leader (n : xdevice_raft_node) : option xdevice_raft_node :=
  let size := Z.to_nat (rn_cluster_size n) in
  next ← fill (rn_next_index n) (rn_log_size n ⊞ 1) size 0;
  matched ← fill (rn_match_index n) 0 size 0;
  Some (n <| rn_state := XDEVICE_NODE_LEADER |> <| rn_next_index := next |>
          <| rn_match_index := matched |> <| rn_last_heartbeat := 0 |>).

(** [candidate] is the node when the election starts. *)
Definition start_election (e : raft_env) (n : xdevice_raft_node) : xdevice_raft_node :=
  reset_election_timer e 1 0
    (n <| rn_state := XDEVICE_NODE_CANDIDATE |> <| rn_current_term := rn_current_term n ⊞ 1 |>
       <| rn_voted_for := str_take 63 (rn_node_id n) |>).

(** One round of the loop of [election_thread_func], with the mutex held. *)
Definition election_round (e : raft_env) (n : xdevice_raft_node) : option xdevice_raft_node :=
  let current_time := get_current_time_ms (re_time e 0) in
  if bool_decide (rn_state n ≠ XDEVICE_NODE_LEADER) && (rn_election_timeout n <=? current_time) then
    '(n, votes_received) ←
      vote_loop e (start_election e n) 1 (Z.to_nat (rn_cluster_size n)) 0;
    if bool_decide (rn_state n = XDEVICE_NODE_CANDIDATE) && (rn_cluster_size n / 2 <? votes_received)
    then become_leader n
    else Some n
  else Some n.

(** ** Heartbeats *)

Definition make_append_request (e : raft_env) (n : xdevice_raft_node) (next_index : Z)
    : option xdevice_raft_append_request_t :=
  let prev := next_index ⊟ 1 in
  prev_term ← (if 0 <? prev then entry_term n (prev ⊟ 1) else Some 0);
  Some {| aq_term := rn_current_term n; aq_leader_id := sender_id e n; aq_prev_log_index := prev;
          aq_prev_log_term := prev_term; aq_leader_commit := rn_commit_index n;
          aq_entries_count := 0 |}.

Fixpoint heartbeat_loop (e : raft_env) (n : xdevice_raft_node) (fuel i : nat)
    : option xdevice_raft_node :=
  match fuel with
  | O => Some n
  | S fuel =>
      slot ← rn_cluster_nodes n !! i;
      peer ← slot;
      if decide (ni_node_id peer = rn_node_id n) then heartbeat_loop e n fuel (S i)
      else
        next ← rn_next_index n !! i;
        append_req ← make_append_request e n next;
        if negb (cb_send_append_entries (rn_callbacks n)) then heartbeat_loop e n fuel (S i)
        else
          let '(ret, append_resp) := re_append e i append_req in
          if decide (ret = XDEVICE_OK) then
            if rn_current_term n <? ar_term append_resp then
              Some (step_down e 1 0 (ar_term append_resp) n)
            else if ar_success append_resp then
              let m := aq_prev_log_index append_req in
              if decide (i < length (rn_match_index n))%nat then
                heartbeat_loop e (n <| rn_match_index := <[i := m]> (rn_match_index n) |>
                                    <| rn_next_index := <[i := m ⊞ 1]> (rn_next_index n) |>) fuel (S i)
              else None
            else if 1 <? next then
              heartbeat_loop e (n <| rn_next_index := <[i := next ⊟ 1]> (rn_next_index n) |>) fuel (S i)
            else heartbeat_loop e n fuel (S i)
          else heartbeat_loop e n fuel (S i)
  end.

(** One round of the loop of [heartbeat_thread_func], with the mutex held. *)
Definition heartbeat_round (e : raft_env) (n : xdevice_raft_node) : option xdevice_raft_node :=
  if decide (rn_state n = XDEVICE_NODE_LEADER) then
    let current_time := get_current_time_ms (re_time e 0) in
    if RAFT_HEARTBEAT_INTERVAL_MS <=? current_time ⊟ rn_last_heartbeat n then
      n ← heartbeat_loop e n (Z.to_nat (rn_cluster_size n)) 0;
      Some (n <| rn_last_heartbeat := current_time |>)
    else Some n
  else Some n.

(** ** The API *)

Definition no_callbacks : xdevice_raft_callbacks_t := mk_callbacks false false false false false.

Definition xdevice_raft_create_node (e : raft_env) (node_id : option string) : option xdevice_raft_node :=
  match node_id with
  | None => None
  | Some id =>
      if negb (re_malloc_ok e 0) then None
      else if negb (re_malloc_ok e 1) then None
      else if negb (re_mutex_init_ok e) then None
      else Some (reset_election_timer e 0 0
        {| rn_node_id := str_take 63 id; rn_state := XDEVICE_NODE_FOLLOWER; rn_current_term := 0;
           rn_voted_for := ""; rn_commit_index := 0; rn_last_applied := 0;
           rn_log_entries := replicate 1024 None; rn_log_capacity := 1024; rn_log_size := 0;
           rn_next_index := replicate 64 0; rn_match_index := replicate 64 0;
           rn_cluster_nodes := replicate 64 None; rn_cluster_size := 0;
           rn_election_timeout := 0; rn_last_heartbeat := 0;
           rn_election_thread := THREAD_NONE; rn_heartbeat_thread := THREAD_NONE;
           rn_running := false; rn_callbacks := no_callbacks |})
  end.

(** [pthread_join]: of a thread, once. *)
Definition join (t : thread_t) : option thread_t :=
  match t with THREAD_LIVE => Some THREAD_JOINED | _ => None end.

Definition xdevice_raft_start_node (e : raft_env) (n : option xdevice_raft_node)
    (callbacks : option xdevice_raft_callbacks_t) : option (xdevice_error_t * option xdevice_raft_node) :=
  match n, callbacks with
  | Some n, Some cb =>
      let n := n <| rn_callbacks := cb |> <| rn_running := true |> in
      if negb (re_thread_ok e 0) then
        Some (XDEVICE_ERROR, Some (n <| rn_election_thread := THREAD_UNSPECIFIED |>))
      else
        let n := n <| rn_election_thread := THREAD_LIVE |> in
        if negb (re_thread_ok e 1) then
          let n := n <| rn_heartbeat_thread := THREAD_UNSPECIFIED |> <| rn_running := false |> in
          t ← join (rn_election_thread n);
          Some (XDEVICE_ERROR, Some (n <| rn_election_thread := t |>))
        else Some (XDEVICE_OK, Some (n <| rn_heartbeat_thread := THREAD_LIVE |>))
  | _, _ => Some (XDEVICE_ERROR_INVALID_PARAM, n)
  end.

(** The memory is released; the result says that the joins were legal: a field whose
    content is unspecified may be taken for a thread. *)
Definition xdevice_raft_destroy_node (n : option xdevice_raft_node) : option unit :=
  match n with
  | None => Some tt
  | Some n =>
      let n := n <| rn_running := false |> in
      _ ← (match rn_election_thread n with THREAD_NONE => Some THREAD_NONE | t => join t end);
      _ ← (match rn_heartbeat_thread n with THREAD_NONE => Some THREAD_NONE | t => join t end);
      Some tt
  end.

(** The tests before the mutex is taken, and the body under the mutex. *)
Definition add_node_check (n : option xdevice_raft_node) (new_node : option xdevice_node_info_t) : bool :=
  match n, new_node with
  | Some n, Some _ => negb (XDEVICE_MAX_NODES <=? rn_cluster_size n)
  | _, _ => false
  end.

Definition add_node_body (n : xdevice_raft_node) (new_node : xdevice_node_info_t)
    : option xdevice_raft_node :=
  if decide (Z.to_nat (rn_cluster_size n) < length (rn_cluster_nodes n))%nat then
    Some (n <| rn_cluster_nodes := <[Z.to_nat (rn_cluster_size n) := Some new_node]> (rn_cluster_nodes n) |>
            <| rn_cluster_size := rn_cluster_size n ⊞₃₂ 1 |>)
  else None.

Definition xdevice_raft_add_node_to_cluster (n : option xdevice_raft_node)
    (new_node : option xdevice_node_info_t) : option (xdevice_error_t * option xdevice_raft_node) :=
  match n, new_node with
  | Some node, Some info =>
      if add_node_check n new_node then
        node ← add_node_body node info; Some (XDEVICE_OK, Some node)
      else Some (XDEVICE_ERROR_INVALID_PARAM, n)
  | _, _ => Some (XDEVICE_ERROR_INVALID_PARAM, n)
  end.

(** [realloc] of the log array: [sizeof(xdevice_raft_log_entry_t)] is 32, and the
    new array has as many slots as the requested bytes hold. *)
Definition grow_log (slots : list (option xdevice_raft_log_entry_t)) (new_capacity : Z)
    : list (option xdevice_raft_log_entry_t) :=
  let count := Z.to_nat ((32 ⊠ new_capacity) / 32) in
  take count slots ++ replicate (count - length slots) None.

Definition xdevice_raft_append_log (e : raft_env) (n : option xdevice_raft_node)
    (data : option block) (length : Z) : option (xdevice_error_t * option xdevice_raft_node) :=
  match n, data with
  | Some n0, Some d =>
      if length =? 0 then Some (XDEVICE_ERROR_INVALID_PARAM, n)
      else if negb (bool_decide (rn_state n0 = XDEVICE_NODE_LEADER)) then
        Some (XDEVICE_ERROR_PERMISSION, n)
      else
        let full := rn_log_capacity n0 <=? rn_log_size n0 in
        if full && negb (re_malloc_ok e 0) then Some (XDEVICE_ERROR_OUT_OF_MEMORY, n)
        else
          let n0 :=
            if full then
              let new_capacity := rn_log_capacity n0 ⊠ 2 in
              n0 <| rn_log_entries := grow_log (rn_log_entries n0) new_capacity |>
                 <| rn_log_capacity := new_capacity |>
            else n0 in
          let i := Z.to_nat (rn_log_size n0) in
          let entry :=
            {| le_term := rn_current_term n0; le_index := rn_log_size n0 ⊞ 1; le_data := None;
               le_length := length |} in
          if decide (i < List.length (rn_log_entries n0))%nat then
            if negb (re_malloc_ok e 1) then
              Some (XDEVICE_ERROR_OUT_OF_MEMORY,
                    Some (n0 <| rn_log_entries := <[i := Some entry]> (rn_log_entries n0) |>))
            else
              copy ← mem_read d 0 length;
              Some (XDEVICE_OK,
                Some (n0 <| rn_log_entries :=
                              <[i := Some (entry <| le_data := Some copy |>)]> (rn_log_entries n0) |>
                         <| rn_log_size := rn_log_size n0 ⊞ 1 |>))
          else None
  | _, _ => Some (XDEVICE_ERROR_INVALID_PARAM, n)
  end.

Definition xdevice_raft_get_state (n : option xdevice_raft_node) : xdevice_node_state_t :=
  match n with None => XDEVICE_NODE_UNKNOWN | Some n => rn_state n end.
