(* ===== verification/RaftInv.v ===== *)
(** * RaftInv: the invariant of a Raft node

    The steps of a node as a transition system, the invariant its reachable states
    satisfy, and what each step does to a state that satisfies it. *)

From stdpp Require Import base numbers list strings.
From S2P Require Import XDevice Prelude Raft.
Local Open Scope Z_scope.

(** ** Steps *)

Inductive raft_op : Type :=
| ElectionRound (e : raft_env)
| HeartbeatRound (e : raft_env)
| StartNode (e : raft_env) (cb : xdevice_raft_callbacks_t)
| AddNode (info : xdevice_node_info_t)
| AppendLog (e : raft_env) (data : block).

(** [None] is undefined behaviour. *)
Definition raft_step (n : xdevice_raft_node) (op : raft_op) : option xdevice_raft_node :=
  match op with
  | ElectionRound e => election_round e n
  | HeartbeatRound e => heartbeat_round e n
  | StartNode e cb => '(_, n) ← xdevice_raft_start_node e (Some n) (Some cb); n
  | AddNode info => '(_, n) ← xdevice_raft_add_node_to_cluster (Some n) (Some info); n
  | AppendLog e d => '(_, n) ← xdevice_raft_append_log e (Some n) (Some d) (blen d); n
  end.

(** Terms that arrive in responses are below [2^62]. *)
Definition raft_env_ok (e : raft_env) : Prop :=
  (∀ i q, 0 <= vr_term (re_vote e i q).2 < 2 ^ 62) ∧
  (∀ i q, 0 <= ar_term (re_append e i q).2 < 2 ^ 62).

(** No node is added while this node is the leader. *)
Definition raft_op_ok (n : xdevice_raft_node) (op : raft_op) : Prop :=
  match op with
  | ElectionRound e | HeartbeatRound e => raft_env_ok e
  | StartNode _ _ => True
  | AddNode _ => rn_state n ≠ XDEVICE_NODE_LEADER
  | AppendLog _ d => 0 < blen d < 2 ^ 63
  end.

(** The states reached in [b] steps. *)
Inductive reachable : Z → xdevice_raft_node → Prop :=
| reach_create e id n :
    xdevice_raft_create_node e (Some id) = Some n → reachable 0 n
| reach_step b n op n' :
    reachable b n → raft_op_ok n op → raft_step n op = Some n' → reachable (b + 1) n'.

(** ** The invariant *)

(** Entry [i] of the log. *)
Definition log_at (n : xdevice_raft_node) (i : nat) : option xdevice_raft_log_entry_t :=
  mjoin (rn_log_entries n !! i).

Record raft_inv (b : Z) (n : xdevice_raft_node) : Prop := {
  ri_next : length (rn_next_index n) = 64%nat;
  ri_match : length (rn_match_index n) = 64%nat;
  ri_nodes : length (rn_cluster_nodes n) = 64%nat;
  ri_size : 0 <= rn_cluster_size n <= 64;
  ri_members : ∀ i : nat, Z.of_nat i < rn_cluster_size n →
    ∃ info, rn_cluster_nodes n !! i = Some (Some info);
  ri_slots : Z.of_nat (length (rn_log_entries n)) = rn_log_capacity n;
  ri_log_size : 0 <= rn_log_size n <= rn_log_capacity n;
  ri_capacity : 1024 <= rn_log_capacity n <= Z.max 1024 (2 * rn_log_size n);
  ri_growth : rn_log_size n <= b;
  ri_term : 0 <= rn_current_term n <= 2 ^ 62 + b;
  ri_log : ∀ i : nat, Z.of_nat i < rn_log_size n →
    ∃ en d, log_at n i = Some en ∧ le_index en = Z.of_nat i + 1 ∧ le_data en = Some d ∧
            le_length en = blen d ∧ 0 <= le_term en <= rn_current_term n;
  ri_log_terms : ∀ (i j : nat) en en', (i <= j)%nat → Z.of_nat j < rn_log_size n →
    log_at n i = Some en → log_at n j = Some en' → le_term en <= le_term en';
  ri_next_range : Forall (λ x, 0 <= x <= rn_log_size n + 1) (rn_next_index n);
  ri_match_range : Forall (λ x, 0 <= x <= rn_log_size n) (rn_match_index n);
  ri_leader : rn_state n = XDEVICE_NODE_LEADER →
    ∀ (i : nat) x, Z.of_nat i < rn_cluster_size n → rn_next_index n !! i = Some x → 1 <= x;
  ri_commit : rn_commit_index n = 0
}.

(** The bound on the number of steps for which the arithmetic does not wrap. *)
Definition max_steps : Z := 2 ^ 57.

(** ** Lemmas on the loops *)

Lemma fill_spec (a : list Z) v fuel i :
  (i + fuel <= length a)%nat →
  ∃ a', fill a v fuel i = Some a' ∧ length a' = length a ∧
    ∀ k : nat, a' !! k = if decide (i <= k < i + fuel)%nat then Some v else a !! k.
Proof.
  revert a i. induction fuel as [|fuel IH]; intros a i Hi; cbn.
  { exists a. split_and!; [done|done|]. intros k. by rewrite decide_False by lia. }
  rewrite decide_True by lia.
  destruct (IH (<[i:=v]> a) (S i)) as (a'&->&Hlen&Hk); [rewrite length_insert; lia|].
  exists a'. rewrite length_insert in Hlen. split_and!; [done|done|]. intros k. rewrite Hk.
  destruct (decide (k = i)) as [->|].
  - rewrite decide_False, decide_True, list_lookup_insert_eq by lia. done.
  - rewrite list_lookup_insert_ne by done. repeat case_decide; done || lia.
Qed.

Lemma fill_Forall (a a' : list Z) v fuel i (Q : Z → Prop) :
  fill a v fuel i = Some a' → (i + fuel <= length a)%nat → Forall Q a → Q v → Forall Q a'.
Proof.
  intros Hf Hi Ha Hv. destruct (fill_spec a v fuel i Hi) as (a2&Hf2&_&Hk).
  rewrite Hf in Hf2. injection Hf2 as <-. apply Forall_lookup. intros k x Hx.
  rewrite Hk in Hx. case_decide; [congruence|]. by eapply Forall_lookup_1 in Ha.
Qed.

(** The terms in the log can be read. *)
Lemma entry_term_in b n (i : Z) :
  raft_inv b n → 0 <= i < rn_log_size n → ∃ t, entry_term n i = Some t.
Proof.
  intros Hinv Hi. destruct (ri_log _ _ Hinv (Z.to_nat i)) as (en&d&Hen&_); [lia|].
  unfold log_at in Hen. unfold entry_term.
  destruct (rn_log_entries n !! Z.to_nat i) as [[en'|]|]; try done. cbn. eauto.
Qed.

Lemma make_vote_request_total b e n :
  raft_inv b n → b <= max_steps → ∃ q, make_vote_request e n = Some q.
Proof.
  intros Hinv Hb. unfold max_steps in Hb. pose proof (ri_log_size _ _ Hinv). pose proof (ri_growth _ _ Hinv).
  unfold make_vote_request. destruct (0 <? rn_log_size n) eqn:Hls; [|by eauto]. to_prop.
  rewrite wrap64_small by (unfold u64; lia).
  destruct (entry_term_in b n (rn_log_size n - 1) Hinv) as [t ->]; [lia|]. cbn. eauto.
Qed.

(** Peer [j] granted its vote to the candidate [n]. *)
Definition granted_by (e : raft_env) (n : xdevice_raft_node) (j : nat) : Prop :=
  ∃ info q r, rn_cluster_nodes n !! j = Some (Some info) ∧ ni_node_id info ≠ rn_node_id n ∧
    make_vote_request e n = Some q ∧ re_vote e j q = (XDEVICE_OK, r) ∧ vr_vote_granted r = true.

(** A result of the vote loop over the peers from [lo] up to [hi]: it returns, counts
    each granting peer once, and steps down exactly when an answer carries a higher
    term. *)
Definition vote_result (e : raft_env) (n : xdevice_raft_node) (lo hi : nat) (votes : Z)
    (res : option (xdevice_raft_node * Z)) : Prop :=
  ∃ n' votes' js, res = Some (n', votes') ∧
    NoDup js ∧ Forall (λ j, (lo <= j < hi)%nat ∧ granted_by e n j) js ∧
    votes' = votes + Z.of_nat (length js) ∧
    (n' = n ∨ ∃ j q, n' = step_down e 2 1 (vr_term (re_vote e j q).2) n ∧
                     rn_current_term n < vr_term (re_vote e j q).2).

Lemma vote_result_skip e n i hi votes res :
  vote_result e n (S i) hi votes res → vote_result e n i hi votes res.
Proof.
  intros (n'&votes'&js&?&?&Hjs&?&?). exists n', votes', js. split_and!; [done|done| |done|done].
  eapply Forall_impl; [done|]. cbn. intros j [??]. split; [lia|done].
Qed.

Lemma vote_result_count e n i hi votes res :
  granted_by e n i → (i < hi)%nat →
  vote_result e n (S i) hi (votes + 1) res → vote_result e n i hi votes res.
Proof.
  intros Hg Hi (n'&votes'&js&?&?&Hjs&?&?).
  exists n', votes', (i :: js). split_and!; [done| | |cbn; lia|done].
  - constructor; [|done]. intros Hin. rewrite Forall_forall in Hjs. apply Hjs in Hin. lia.
  - constructor; [split; [lia|done]|]. eapply Forall_impl; [done|]. cbn. intros j [??].
    split; [lia|done].
Qed.

(** No more votes are counted after a step down. *)
Lemma vote_result_down e n i hi votes j q :
  rn_current_term n < vr_term (re_vote e j q).2 →
  vote_result e n i hi votes (Some (step_down e 2 1 (vr_term (re_vote e j q).2) n, votes)).
Proof.
  intros Ht. exists (step_down e 2 1 (vr_term (re_vote e j q).2) n), votes, [].
  split_and!; [done|constructor|constructor|cbn; lia|]. right. by exists j, q.
Qed.

Lemma vote_loop_spec b e n fuel i votes :
  raft_inv b n → b <= max_steps → (Z.of_nat (i + fuel) <= rn_cluster_size n) →
  0 <= votes → votes + Z.of_nat fuel < 2 ^ 32 →
  vote_result e n i (i + fuel) votes (vote_loop e n votes fuel i).
Proof.
  intros Hinv Hb. revert i votes.
  induction fuel as [|fuel IH]; intros i votes Hi Hv Hw; cbn [vote_loop].
  { exists n, votes, []. split_and!; [done|constructor|constructor|cbn; lia|by left]. }
  rewrite Nat.add_succ_r, <- Nat.add_succ_l.
  destruct (ri_members _ _ Hinv i) as [info Hinfo]; [lia|]. rewrite Hinfo. cbn [mbind option_bind].
  assert (Hskip : vote_result e n i (S i + fuel) votes (vote_loop e n votes fuel (S i)))
    by (apply vote_result_skip, IH; lia).
  case_decide as Hself; [exact Hskip|].
  destruct (make_vote_request_total b e n Hinv Hb) as [q Hq]. rewrite Hq. cbn [mbind option_bind].
  destruct (cb_send_vote_request (rn_callbacks n)); cbn [negb]; [|exact Hskip].
  destruct (re_vote e i q) as [ret resp] eqn:Hre.
  case_decide as Hret; [subst ret|exact Hskip].
  assert (Hdown : ∀ k v, rn_current_term n < vr_term resp →
    vote_result e n k (S i + fuel) v (Some (step_down e 2 1 (vr_term resp) n, v))).
  { intros k v Ht. pose proof (vote_result_down e n k (S i + fuel) v i q) as H.
    rewrite Hre in H. by apply H. }
  destruct (vr_vote_granted resp) eqn:Hg.
  - rewrite wrap32_small by (unfold u32; lia).
    apply vote_result_count; [by exists info, q, resp|lia|].
    destruct (rn_current_term n <? vr_term resp) eqn:Ht; to_prop; [by apply Hdown|apply IH; lia].
  - destruct (rn_current_term n <? vr_term resp) eqn:Ht; to_prop; [by apply Hdown|exact Hskip].
Qed.

(** ** Steps keep the invariant *)

Lemma raft_inv_mono b b' n : raft_inv b n → b <= b' → raft_inv b' n.
Proof. intros [] ?. split; try done; lia. Qed.

(** A change of state to a non-leader, of the term upwards, and of fields the
    invariant does not mention. *)
Lemma raft_inv_follower b b' n n' :
  raft_inv b n → b <= b' →
  rn_next_index n' = rn_next_index n → rn_match_index n' = rn_match_index n →
  rn_cluster_nodes n' = rn_cluster_nodes n → rn_cluster_size n' = rn_cluster_size n →
  rn_log_entries n' = rn_log_entries n → rn_log_capacity n' = rn_log_capacity n →
  rn_log_size n' = rn_log_size n → rn_commit_index n' = rn_commit_index n →
  rn_state n' ≠ XDEVICE_NODE_LEADER →
  rn_current_term n <= rn_current_term n' <= 2 ^ 62 + b' → raft_inv b' n'.
Proof.
  intros Hinv Hb Hn Hm Hc Hs Hl Hcap Hls Hci Hst Ht. destruct Hinv.
  split; unfold log_at in *; rewrite ?Hn, ?Hm, ?Hc, ?Hs, ?Hl, ?Hcap, ?Hls, ?Hci; try done; try lia.
  intros i Hi. destruct (ri_log0 i Hi) as (en&d&?&?&?&?&?). exists en, d. split_and!; (done || lia).
Qed.

Lemma start_election_inv b e n :
  raft_inv b n → 0 <= b < max_steps →
  raft_inv (b + 1) (start_election e n) ∧
  rn_current_term (start_election e n) = rn_current_term n + 1.
Proof.
  intros Hinv Hb. unfold max_steps in Hb. pose proof (ri_term _ _ Hinv).
  assert (Ht : rn_current_term (start_election e n) = rn_current_term n + 1).
  { cbn. apply wrap64_small. unfold u64. lia. }
  split; [|done]. eapply raft_inv_follower; try done; [lia|]. rewrite Ht. lia.
Qed.

Lemma step_down_inv b e k j t n :
  raft_inv b n → 0 <= b → rn_current_term n < t < 2 ^ 62 → raft_inv b (step_down e k j t n).
Proof. intros Hinv Hb Ht. eapply raft_inv_follower; try done. cbn. lia. Qed.

Lemma become_leader_spec b n :
  raft_inv b n → b <= max_steps →
  ∃ n', become_leader n = Some n' ∧ raft_inv b n' ∧ rn_state n' = XDEVICE_NODE_LEADER ∧
    rn_current_term n' = rn_current_term n ∧ rn_voted_for n' = rn_voted_for n ∧
    rn_node_id n' = rn_node_id n ∧ rn_cluster_nodes n' = rn_cluster_nodes n ∧
    rn_cluster_size n' = rn_cluster_size n ∧ rn_log_size n' = rn_log_size n ∧
    rn_last_heartbeat n' = 0 ∧ rn_running n' = rn_running n ∧
    ∀ i : nat, Z.of_nat i < rn_cluster_size n →
      rn_next_index n' !! i = Some (rn_log_size n + 1) ∧ rn_match_index n' !! i = Some 0.
Proof.
  intros Hinv Hb. unfold max_steps in Hb. pose proof (ri_size _ _ Hinv).
  pose proof (ri_next _ _ Hinv) as Hn. pose proof (ri_match _ _ Hinv) as Hm.
  pose proof (ri_growth _ _ Hinv). pose proof (ri_log_size _ _ Hinv).
  assert (Hw : rn_log_size n ⊞ 1 = rn_log_size n + 1) by (apply wrap64_small; unfold u64; lia).
  unfold become_leader. rewrite Hw.
  destruct (fill_spec (rn_next_index n) (rn_log_size n + 1) (Z.to_nat (rn_cluster_size n)) 0)
    as (next&Hf1&Hl1&Hk1); [lia|].
  destruct (fill_spec (rn_match_index n) 0 (Z.to_nat (rn_cluster_size n)) 0)
    as (matched&Hf2&Hl2&Hk2); [lia|].
  rewrite Hf1, Hf2. cbn. eexists. split; [done|]. split_and!; try done.
  - destruct Hinv. split; cbn; try done; try lia.
    + eapply fill_Forall; [exact Hf1|lia|done|lia].
    + eapply fill_Forall; [exact Hf2|lia|done|lia].
    + intros _ i x Hi Hx. rewrite Hk1, decide_True in Hx by lia. injection Hx as <-. lia.
  - intros i Hi. cbn. rewrite Hk1, Hk2, !decide_True by lia. done.
Qed.

(** The outcomes of a round of the election thread: no timeout; an election that
    ends with a higher term; one that is not won; one that is won. *)
Inductive election_outcome (e : raft_env) (n : xdevice_raft_node) : xdevice_raft_node → Prop :=
| election_idle :
    rn_state n = XDEVICE_NODE_LEADER ∨
      get_current_time_ms (re_time e 0) < rn_election_timeout n →
    election_outcome e n n
| election_higher_term j q :
    rn_current_term n + 1 < vr_term (re_vote e j q).2 →
    election_outcome e n (step_down e 2 1 (vr_term (re_vote e j q).2) (start_election e n))
| election_lost js :
    NoDup js → Forall (granted_by e (start_election e n)) js →
    1 + Z.of_nat (length js) <= rn_cluster_size n / 2 →
    election_outcome e n (start_election e n)
| election_won js n' :
    NoDup js → Forall (λ j, (j < Z.to_nat (rn_cluster_size n))%nat ∧ granted_by e (start_election e n) j) js →
    rn_cluster_size n / 2 < 1 + Z.of_nat (length js) →
    become_leader (start_election e n) = Some n' →
    election_outcome e n n'.

Lemma election_round_spec b e n :
  raft_inv b n → 0 <= b < max_steps →
  ∃ n', election_round e n = Some n' ∧ election_outcome e n n'.
Proof.
  intros Hinv Hb. destruct (start_election_inv b e n Hinv Hb) as [Hinv' Ht].
  pose proof (ri_size _ _ Hinv). unfold election_round.
  destruct (bool_decide _ && _) eqn:Hcond; cycle 1.
  { exists n. split; [done|]. apply election_idle.
    apply andb_false_iff in Hcond as [Hl|Ht0]; to_prop; [|by right]. left.
    by destruct (decide (rn_state n = XDEVICE_NODE_LEADER)). }
  assert (Hsz : rn_cluster_size (start_election e n) = rn_cluster_size n) by done.
  destruct (vote_loop_spec (b + 1) e (start_election e n) (Z.to_nat (rn_cluster_size n)) 0 1)
    as (n1&votes&js&Hv&Hnd&Hjs&Hvotes&Hn1); [done|unfold max_steps in *; lia|rewrite Hsz; lia|lia|lia|].
  rewrite Hv. cbn [mbind option_bind].
  destruct Hn1 as [->|(j&q&->&Hlt)].
  - rewrite bool_decide_eq_true_2 by done. rewrite Hsz. cbn [andb].
    destruct (rn_cluster_size n / 2 <? votes) eqn:Hmaj; to_prop.
    + destruct (become_leader_spec (b + 1) (start_election e n)) as (n'&Hbl&_);
        [done|unfold max_steps in *; lia|].
      exists n'. split; [done|]. apply (election_won _ _ js); try done; [|lia].
      eapply Forall_impl; [done|]. cbn. intros j [? ?]. split; [lia|done].
    + eexists. split; [done|]. apply (election_lost _ _ js); try done; [|lia].
      eapply Forall_impl; [done|]. cbn. by intros j [? ?].
  - rewrite bool_decide_eq_false_2 by done. eexists. split; [done|].
    apply election_higher_term. rewrite Ht in Hlt. exact Hlt.
Qed.

Lemma election_outcome_inv b e n n' :
  raft_inv b n → 0 <= b < max_steps → raft_env_ok e → election_outcome e n n' →
  raft_inv (b + 1) n'.
Proof.
  intros Hinv Hb [He _] Hout. destruct (start_election_inv b e n Hinv Hb) as [Hinv' Ht].
  destruct Hout as [_|j q Hq|js _ _ _|js n' _ _ _ Hbl].
  - eapply raft_inv_mono; [done|lia].
  - apply step_down_inv; [done|lia|]. rewrite Ht. specialize (He j q). lia.
  - done.
  - destruct (become_leader_spec (b + 1) _ Hinv') as (n2&Hbl2&?&_); [unfold max_steps in *; lia|].
    congruence.
Qed.

(** The node with other index arrays: what the heartbeats change. *)
Definition with_indexes (n : xdevice_raft_node) (matched next : list Z) : xdevice_raft_node :=
  n <| rn_match_index := matched |> <| rn_next_index := next |>.

Lemma with_indexes_inv b n matched next :
  raft_inv b n → length matched = 64%nat → length next = 64%nat →
  Forall (λ x, 0 <= x <= rn_log_size n) matched → Forall (λ x, 0 <= x <= rn_log_size n + 1) next →
  (rn_state n = XDEVICE_NODE_LEADER → ∀ (i : nat) x,
     Z.of_nat i < rn_cluster_size n → next !! i = Some x → 1 <= x) →
  raft_inv b (with_indexes n matched next).
Proof. intros [] ?????. by split. Qed.

Lemma with_indexes_id n : with_indexes n (rn_match_index n) (rn_next_index n) = n.
Proof. by destruct n. Qed.

(** A result of a round over the peers: it returns, changes the index arrays, within
    the invariant, and steps down exactly when an answer carries a higher term. *)
Definition heartbeat_result (b : Z) (e : raft_env) (n : xdevice_raft_node)
    (res : option xdevice_raft_node) : Prop :=
  ∃ n' matched next, res = Some n' ∧ raft_inv b (with_indexes n matched next) ∧
    (n' = with_indexes n matched next ∨
     ∃ j q, n' = step_down e 1 0 (ar_term (re_append e j q).2) (with_indexes n matched next) ∧
            rn_current_term n < ar_term (re_append e j q).2).

(** What a leader keeps for a member it sends to. *)
Lemma leader_next b n (i : nat) :
  raft_inv b n → rn_state n = XDEVICE_NODE_LEADER → Z.of_nat i < rn_cluster_size n →
  ∃ next, rn_next_index n !! i = Some next ∧ 1 <= next <= rn_log_size n + 1.
Proof.
  intros Hinv Hst Hi. pose proof (ri_size _ _ Hinv). pose proof (ri_next _ _ Hinv).
  destruct (lookup_lt_is_Some_2 (rn_next_index n) i) as [next Hnext]; [lia|].
  exists next. split; [done|]. split; [by eapply (ri_leader _ _ Hinv)|].
  pose proof (ri_next_range _ _ Hinv) as Hr. eapply Forall_lookup_1 in Hr; [|done]. lia.
Qed.

Lemma make_append_request_total b e n next :
  raft_inv b n → b <= max_steps → 1 <= next <= rn_log_size n + 1 →
  ∃ q, make_append_request e n next = Some q ∧ aq_prev_log_index q = next - 1.
Proof.
  intros Hinv Hb Hn. unfold max_steps in Hb. pose proof (ri_log_size _ _ Hinv).
  pose proof (ri_growth _ _ Hinv). unfold make_append_request.
  rewrite !(wrap64_small (next - 1)) by (unfold u64; lia).
  destruct (0 <? next - 1) eqn:Hp; [|by eauto]. to_prop.
  rewrite wrap64_small by (unfold u64; lia).
  destruct (entry_term_in b n (next - 1 - 1)) as [t ->]; [done|lia|]. cbn. eauto.
Qed.

(** The member has everything before [next]. *)
Lemma mark_success_inv b n (i : nat) next :
  raft_inv b n → 1 <= next <= rn_log_size n + 1 →
  raft_inv b (with_indexes n (<[i:=next - 1]> (rn_match_index n)) (rn_next_index n)).
Proof.
  intros Hinv Hn.
  apply with_indexes_inv; [done|rewrite length_insert; apply Hinv|apply Hinv| |apply Hinv|apply Hinv].
  apply Forall_insert; [apply Hinv|lia].
Qed.

(** The member is tried again one entry earlier. *)
Lemma mark_failure_inv b n (i : nat) next :
  raft_inv b n → 1 < next <= rn_log_size n + 1 →
  raft_inv b (with_indexes n (rn_match_index n) (<[i:=next - 1]> (rn_next_index n))).
Proof.
  intros Hinv Hn.
  apply with_indexes_inv; [done|apply Hinv|rewrite length_insert; apply Hinv|apply Hinv| |].
  - apply Forall_insert; [apply Hinv|lia].
  - intros Hst k x Hk Hx. apply list_lookup_insert_Some in Hx as [(_&<-&_)|(_&Hx)]; [lia|].
    by eapply (ri_leader _ _ Hinv).
Qed.

Lemma heartbeat_loop_spec b e n fuel i :
  raft_inv b n → rn_state n = XDEVICE_NODE_LEADER → b <= max_steps →
  Z.of_nat (i + fuel) <= rn_cluster_size n →
  heartbeat_result b e n (heartbeat_loop e n fuel i).
Proof.
  intros Hinv Hst Hb. revert i n Hinv Hst.
  induction fuel as [|fuel IH]; intros i n Hinv Hst Hi; cbn [heartbeat_loop].
  { exists n, (rn_match_index n), (rn_next_index n). rewrite with_indexes_id. split_and!; [done..|by left]. }
  destruct (ri_members _ _ Hinv i) as [info Hinfo]; [lia|]. rewrite Hinfo. cbn [mbind option_bind].
  assert (Hsame : heartbeat_result b e n (heartbeat_loop e n fuel (S i))) by (apply IH; done || lia).
  assert (Hupd : ∀ m x, raft_inv b (with_indexes n m x) →
    heartbeat_result b e n (heartbeat_loop e (with_indexes n m x) fuel (S i))).
  { intros m x Hmx. destruct (IH (S i) (with_indexes n m x)) as (n'&m'&x'&?&?&?); [done|done|cbn; lia|].
    by exists n', m', x'. }
  case_decide as Hself; [exact Hsame|].
  destruct (leader_next b n i Hinv Hst) as (next&Hnext&Hrange); [lia|].
  rewrite Hnext. cbn [mbind option_bind].
  destruct (make_append_request_total b e n next Hinv Hb Hrange) as (q&->&Hprev).
  cbn [mbind option_bind].
  destruct (cb_send_append_entries (rn_callbacks n)); cbn [negb]; [|exact Hsame].
  destruct (re_append e i q) as [ret resp] eqn:Hre.
  case_decide as Hret; [|exact Hsame]. subst ret.
  destruct (rn_current_term n <? ar_term resp) eqn:Hterm; to_prop.
  { exists (step_down e 1 0 (ar_term resp) n), (rn_match_index n), (rn_next_index n).
    rewrite with_indexes_id. split_and!; [done|done|]. right. exists i, q. by rewrite Hre. }
  rewrite Hprev. pose proof (ri_log_size _ _ Hinv). pose proof (ri_growth _ _ Hinv).
  pose proof (ri_match _ _ Hinv). pose proof (ri_size _ _ Hinv). unfold max_steps in Hb.
  destruct (ar_success resp).
  - rewrite decide_True by lia. rewrite (wrap64_small (next - 1 + 1)) by (unfold u64; lia).
    rewrite Z.sub_add, (list_insert_id (rn_next_index n)) by done.
    by apply Hupd, mark_success_inv.
  - destruct (1 <? next) eqn:Hn1; to_prop; [|exact Hsame]. rewrite wrap64_small by (unfold u64; lia).
    assert (Heq : n <| rn_next_index := <[i:=next - 1]> (rn_next_index n) |> =
                  with_indexes n (rn_match_index n) (<[i:=next - 1]> (rn_next_index n))) by by destruct n.
    rewrite Heq. apply Hupd, mark_failure_inv; [done|lia].
Qed.

(** The outcomes of a round of the heartbeat thread. *)
Inductive heartbeat_outcome (e : raft_env) (n : xdevice_raft_node) : xdevice_raft_node → Prop :=
| heartbeat_idle : heartbeat_outcome e n n
| heartbeat_sent matched next :
    rn_state n = XDEVICE_NODE_LEADER →
    heartbeat_outcome e n ((with_indexes n matched next)
      <| rn_last_heartbeat := get_current_time_ms (re_time e 0) |>)
| heartbeat_higher_term matched next j q :
    rn_state n = XDEVICE_NODE_LEADER → rn_current_term n < ar_term (re_append e j q).2 →
    heartbeat_outcome e n
      ((step_down e 1 0 (ar_term (re_append e j q).2) (with_indexes n matched next))
         <| rn_last_heartbeat := get_current_time_ms (re_time e 0) |>).

Lemma set_heartbeat_inv b n t : raft_inv b n → raft_inv b (n <| rn_last_heartbeat := t |>).
Proof. intros []. by split. Qed.

Lemma heartbeat_round_spec b e n :
  raft_inv b n → 0 <= b <= max_steps → raft_env_ok e →
  ∃ n', heartbeat_round e n = Some n' ∧ raft_inv b n' ∧ heartbeat_outcome e n n'.
Proof.
  intros Hinv Hb [_ He]. unfold heartbeat_round.
  case_decide as Hst; [|exists n; split_and!; [done|done|constructor]].
  case_match; [|exists n; split_and!; [done|done|constructor]].
  pose proof (ri_size _ _ Hinv).
  destruct (heartbeat_loop_spec b e n (Z.to_nat (rn_cluster_size n)) 0 Hinv Hst)
    as (n'&matched&next&->&Hinv'&Hn'); [lia|lia|]. cbn [mbind option_bind].
  eexists. split; [done|]. destruct Hn' as [->|(j&q&->&Hlt)].
  - split; [by apply set_heartbeat_inv|by constructor].
  - split; [|by constructor]. apply set_heartbeat_inv.
    apply step_down_inv; [done|lia|]. cbn. specialize (He j q). lia.
Qed.

(** ** The log *)

(** The node with another log: what appending changes. *)
Definition with_log (n : xdevice_raft_node) (slots : list (option xdevice_raft_log_entry_t))
    (capacity size : Z) : xdevice_raft_node :=
  n <| rn_log_entries := slots |> <| rn_log_capacity := capacity |> <| rn_log_size := size |>.

(** The entries up to the log size are the same. *)
Definition same_log (n : xdevice_raft_node) (slots : list (option xdevice_raft_log_entry_t)) : Prop :=
  ∀ i : nat, Z.of_nat i < rn_log_size n → mjoin (slots !! i) = log_at n i.

Lemma with_log_inv b n slots capacity :
  raft_inv b n → same_log n slots → Z.of_nat (length slots) = capacity →
  rn_log_size n <= capacity → 1024 <= capacity <= Z.max 1024 (2 * rn_log_size n) →
  raft_inv b (with_log n slots capacity (rn_log_size n)).
Proof.
  intros Hinv Hsame Hlen Hcap Hcap'. destruct Hinv. split; try done; unfold log_at in *; cbn; try lia.
  - intros i Hi. rewrite Hsame by done. by apply ri_log0.
  - intros i j en en' Hij Hj. rewrite !Hsame by lia. by eapply ri_log_terms0.
Qed.

Lemma with_log_snoc_inv b n slots capacity en d :
  raft_inv b n → same_log n slots → Z.of_nat (length slots) = capacity →
  rn_log_size n < capacity → 1024 <= capacity <= Z.max 1024 (2 * rn_log_size n) →
  slots !! Z.to_nat (rn_log_size n) = Some (Some en) →
  le_index en = rn_log_size n + 1 → le_term en = rn_current_term n → le_data en = Some d →
  le_length en = blen d →
  raft_inv (b + 1) (with_log n slots capacity (rn_log_size n + 1)).
Proof.
  intros Hinv Hsame Hlen Hcap Hcap' Hen Hidx Hterm Hdata Hlength.
  pose proof (ri_log_size _ _ Hinv) as Hls. pose proof (ri_term _ _ Hinv) as Ht.
  assert (Hat : ∀ i : nat, Z.of_nat i < rn_log_size n + 1 →
    mjoin (slots !! i) = if decide (Z.of_nat i = rn_log_size n) then Some en else log_at n i).
  { intros i Hi. case_decide as Heq; [|apply Hsame; lia].
    replace i with (Z.to_nat (rn_log_size n)) by lia. by rewrite Hen. }
  destruct Hinv. split; try done; unfold log_at in *; cbn; try lia.
  - intros i Hi. rewrite Hat by done. case_decide as Heq; [|apply ri_log0; lia].
    exists en, d. split_and!; (done || lia).
  - intros i j en1 en2 Hij Hj. rewrite !Hat by lia. intros H1 H2.
    destruct (decide (Z.of_nat j = rn_log_size n)) as [Hjn|Hjn].
    + injection H2 as <-. rewrite Hterm. destruct (decide (Z.of_nat i = rn_log_size n)).
      * injection H1 as <-. lia.
      * destruct (ri_log0 i) as (en3&d3&H3&_&_&_&?); [lia|]. rewrite H1 in H3. injection H3 as <-. lia.
    + rewrite decide_False in H1 by lia. by apply (ri_log_terms0 i j); [|lia|..].
  - eapply Forall_impl; [done|]. cbn. lia.
  - eapply Forall_impl; [done|]. cbn. lia.
Qed.

Lemma grow_log_double (slots : list (option xdevice_raft_log_entry_t)) capacity :
  Z.of_nat (length slots) = capacity → capacity < 2 ^ 58 →
  grow_log slots (2 * capacity) = slots ++ replicate (length slots) None.
Proof.
  intros Hlen Hcap. unfold grow_log. rewrite wrap64_small by (unfold u64; lia).
  rewrite (Z.mul_comm 32), Z.div_mul by lia. rewrite take_ge by lia. do 2 f_equal. lia.
Qed.

(** What an append with a valid argument does. *)
Inductive append_outcome (n : xdevice_raft_node) (d : block) :
    xdevice_error_t → xdevice_raft_node → Prop :=
| append_not_leader :
    rn_state n ≠ XDEVICE_NODE_LEADER → append_outcome n d XDEVICE_ERROR_PERMISSION n
| append_no_array :
    rn_state n = XDEVICE_NODE_LEADER → rn_log_capacity n = rn_log_size n →
    append_outcome n d XDEVICE_ERROR_OUT_OF_MEMORY n
| append_no_data slots capacity :
    rn_state n = XDEVICE_NODE_LEADER → same_log n slots →
    append_outcome n d XDEVICE_ERROR_OUT_OF_MEMORY (with_log n slots capacity (rn_log_size n))
| append_done slots capacity :
    rn_state n = XDEVICE_NODE_LEADER → same_log n slots →
    slots !! Z.to_nat (rn_log_size n) =
      Some (Some (mk_log_entry (rn_current_term n) (rn_log_size n + 1) (Some d) (blen d))) →
    append_outcome n d XDEVICE_OK (with_log n slots capacity (rn_log_size n + 1)).

(** The array before the new entry is stored, grown when it was full. *)
Lemma grow_step b n :
  raft_inv b n → 0 <= b < max_steps →
  ∃ slots capacity, (if rn_log_capacity n <=? rn_log_size n
      then n <| rn_log_entries := grow_log (rn_log_entries n) (rn_log_capacity n ⊠ 2) |>
             <| rn_log_capacity := rn_log_capacity n ⊠ 2 |> else n) =
      with_log n slots capacity (rn_log_size n) ∧ same_log n slots ∧
    Z.of_nat (length slots) = capacity ∧
    rn_log_size n < capacity ∧ 1024 <= capacity <= Z.max 1024 (2 * rn_log_size n).
Proof.
  intros Hinv Hb. unfold max_steps in Hb.
  pose proof (ri_log_size _ _ Hinv) as Hls. pose proof (ri_growth _ _ Hinv) as Hg.
  pose proof (ri_capacity _ _ Hinv) as Hcap. pose proof (ri_slots _ _ Hinv) as Hslots.
  destruct (rn_log_capacity n <=? rn_log_size n) eqn:Hfull; to_prop.
  - rewrite wrap64_small by (unfold u64; lia).
    replace (rn_log_capacity n * 2) with (2 * rn_log_capacity n) by lia.
    rewrite grow_log_double by lia.
    exists (rn_log_entries n ++ replicate (length (rn_log_entries n)) None), (2 * rn_log_capacity n).
    split; [by destruct n|]. split_and!; [|rewrite length_app, length_replicate; lia|lia..].
    intros i Hi. unfold log_at. by rewrite lookup_app_l by lia.
  - exists (rn_log_entries n), (rn_log_capacity n). split; [by destruct n|].
    split_and!; (done || lia).
Qed.

Lemma append_log_spec b e n d :
  raft_inv b n → 0 <= b < max_steps → 0 < blen d < 2 ^ 63 →
  ∃ ret n', xdevice_raft_append_log e (Some n) (Some d) (blen d) = Some (ret, Some n') ∧
    append_outcome n d ret n' ∧ raft_inv (b + 1) n' ∧
    (rn_state n = XDEVICE_NODE_LEADER → re_malloc_ok e 0 = true → re_malloc_ok e 1 = true →
     ret = XDEVICE_OK).
Proof.
  intros Hinv Hb Hd. unfold xdevice_raft_append_log.
  assert (Hmono : raft_inv (b + 1) n) by (eapply raft_inv_mono; [done|lia]).
  pose proof (ri_log_size _ _ Hinv). pose proof (ri_growth _ _ Hinv).
  rewrite (proj2 (Z.eqb_neq _ _)) by lia.
  destruct (decide (rn_state n = XDEVICE_NODE_LEADER)) as [Hst|Hst]; cycle 1.
  { rewrite bool_decide_eq_false_2 by done. exists XDEVICE_ERROR_PERMISSION, n.
    split_and!; [done|by constructor|done|done]. }
  rewrite bool_decide_eq_true_2 by done. cbn [negb].
  destruct ((rn_log_capacity n <=? rn_log_size n) && negb (re_malloc_ok e 0)) eqn:Hfail.
  { apply andb_true_iff in Hfail as [Hf Hm0]. to_prop. exists XDEVICE_ERROR_OUT_OF_MEMORY, n.
    split_and!; [done|constructor; [done|lia]|done|].
    intros _ Hm. rewrite Hm in Hm0. done. }
  destruct (grow_step b n Hinv Hb) as (slots&capacity&->&Hsame&Hlen&Hbound&Hbound').
  unfold max_steps in Hb. set (n1 := with_log n slots capacity (rn_log_size n)).
  change (rn_log_size n1) with (rn_log_size n). change (rn_log_entries n1) with slots.
  change (rn_current_term n1) with (rn_current_term n).
  rewrite decide_True, wrap64_small by (unfold u64; lia).
  assert (Hsame' : ∀ x, same_log n (<[Z.to_nat (rn_log_size n):=x]> slots)).
  { intros x i Hi. rewrite list_lookup_insert_ne by lia. by apply Hsame. }
  destruct (re_malloc_ok e 1) eqn:Hm1; cbn [negb].
  - rewrite mem_read_all. cbn [mbind option_bind].
    set (en := mk_log_entry (rn_current_term n) (rn_log_size n + 1) (Some d) (blen d)).
    set (slots' := <[Z.to_nat (rn_log_size n) := Some en]> slots).
    assert (Hen : slots' !! Z.to_nat (rn_log_size n) = Some (Some en))
      by (apply list_lookup_insert_eq; lia).
    exists XDEVICE_OK, (with_log n slots' capacity (rn_log_size n + 1)).
    split; [by destruct n|]. split_and!; [constructor; [done|apply Hsame'|done]|..|done].
    apply (with_log_snoc_inv b n slots' capacity en d); try done; [apply Hsame'|].
    unfold slots'. by rewrite length_insert.
  - set (slots' := <[_ := _]> slots).
    exists XDEVICE_ERROR_OUT_OF_MEMORY, (with_log n slots' capacity (rn_log_size n)).
    split; [by destruct n|]. split_and!; [constructor; [done|apply Hsame']|..|done].
    apply with_log_inv; [done|apply Hsame'|unfold slots'; by rewrite length_insert|lia|done].
Qed.

(** ** The other operations *)

Lemma create_inv e id n : xdevice_raft_create_node e (Some id) = Some n → raft_inv 0 n.
Proof.
  unfold xdevice_raft_create_node. intros Hc.
  destruct (re_malloc_ok e 0), (re_malloc_ok e 1), (re_mutex_init_ok e); try done.
  injection Hc as <-. split; cbn -[replicate]; rewrite ?length_replicate; try done; try lia.
  - repeat (constructor; [lia|]). constructor.
  - repeat (constructor; [lia|]). constructor.
Qed.

Lemma start_node_inv b e n cb :
  raft_inv b n →
  ∃ ret n', xdevice_raft_start_node e (Some n) (Some cb) = Some (ret, Some n') ∧ raft_inv b n' ∧
    rn_state n' = rn_state n ∧ rn_current_term n' = rn_current_term n ∧
    rn_commit_index n' = rn_commit_index n.
Proof.
  intros Hinv. unfold xdevice_raft_start_node.
  destruct (re_thread_ok e 0); cbn [negb]; [destruct (re_thread_ok e 1); cbn [negb]|];
    (do 2 eexists; split; [done|]; split; [destruct Hinv; by split|done]).
Qed.

Lemma add_node_inv b n info :
  raft_inv b n → rn_state n ≠ XDEVICE_NODE_LEADER →
  ∃ ret n', xdevice_raft_add_node_to_cluster (Some n) (Some info) = Some (ret, Some n') ∧
    raft_inv b n' ∧
    (ret = XDEVICE_ERROR_INVALID_PARAM ∧ rn_cluster_size n = 64 ∧ n' = n
     ∨ ret = XDEVICE_OK ∧ rn_cluster_size n' = rn_cluster_size n + 1 ∧
       rn_current_term n' = rn_current_term n ∧ rn_commit_index n' = rn_commit_index n).
Proof.
  intros Hinv Hst. pose proof (ri_size _ _ Hinv) as Hsz. pose proof (ri_nodes _ _ Hinv) as Hnl.
  unfold xdevice_raft_add_node_to_cluster, add_node_check, XDEVICE_MAX_NODES.
  destruct (64 <=? rn_cluster_size n) eqn:Hfull; to_prop; cbn [negb].
  { exists XDEVICE_ERROR_INVALID_PARAM, n. split_and!; [done|done|]. left. split_and!; (done || lia). }
  unfold add_node_body. rewrite decide_True by lia. cbn.
  rewrite wrap32_small by (unfold u32; lia).
  do 2 eexists. split; [done|]. split; [|right; by split_and!].
  destruct Hinv. split; cbn; try done; [by rewrite length_insert|lia|].
  intros i Hi. destruct (decide (i = Z.to_nat (rn_cluster_size n))) as [->|].
  - rewrite list_lookup_insert_eq by lia. eauto.
  - rewrite list_lookup_insert_ne by done. apply ri_members0. lia.
Qed.

(** Every step of a state that satisfies the invariant is defined and keeps it. *)
Lemma raft_step_inv b n op :
  raft_inv b n → 0 <= b < max_steps → raft_op_ok n op →
  ∃ n', raft_step n op = Some n' ∧ raft_inv (b + 1) n'.
Proof.
  intros Hinv Hb Hok.
  assert (Hmono : ∀ n', raft_inv b n' → raft_inv (b + 1) n').
  { intros n' Hn'. eapply raft_inv_mono; [done|lia]. }
  destruct op as [e|e|e cb|info|e d]; cbn [raft_step].
  - destruct (election_round_spec b e n Hinv Hb) as (n'&->&Hout). exists n'. split; [done|].
    by eapply election_outcome_inv.
  - destruct (heartbeat_round_spec b e n) as (n'&->&?&_); [done|lia|done|]. eauto.
  - destruct (start_node_inv b e n cb Hinv) as (ret&n'&->&?&_). cbn. eauto.
  - destruct (add_node_inv b n info Hinv Hok) as (ret&n'&->&?&_). cbn. eauto.
  - destruct (append_log_spec b e n d Hinv Hb Hok) as (ret&n'&->&_&?&_). cbn. eauto.
Qed.

Lemma reachable_nonneg b n : reachable b n → 0 <= b.
Proof. induction 1; lia. Qed.

Lemma reachable_inv b n : reachable b n → b <= max_steps → raft_inv b n.
Proof.
  induction 1 as [e id n Hc|b n op n' Hr IH Hok Hst]; intros Hb; [by eapply create_inv|].
  pose proof (reachable_nonneg _ _ Hr).
  destruct (raft_step_inv b n op) as (n2&Hst2&Hinv); [apply IH; lia|lia|done|]. congruence.
Qed.

(** The term never decreases. *)
Lemma raft_step_term b n op n' :
  raft_inv b n → 0 <= b < max_steps → raft_op_ok n op → raft_step n op = Some n' →
  rn_current_term n <= rn_current_term n'.
Proof.
  intros Hinv Hb Hok Hst. destruct op as [e|e|e cb|info|e d]; cbn [raft_step] in Hst.
  - destruct (election_round_spec b e n Hinv Hb) as (n2&Hst2&Hout).
    assert (n2 = n') as -> by congruence.
    destruct (start_election_inv b e n Hinv Hb) as [Hinv1 Ht].
    destruct Hout as [_|j q Hq|js _ _ _|js n' _ _ _ Hbl]; [done|cbn; lia|lia|].
    destruct (become_leader_spec (b + 1) _ Hinv1) as (n3&Hbl3&_&_&Hterm&_); [unfold max_steps in *; lia|].
    assert (n3 = n') as -> by congruence. lia.
  - destruct (heartbeat_round_spec b e n) as (n2&Hst2&_&Hout); [done|lia|done|].
    assert (n2 = n') as -> by congruence. destruct Hout; cbn; lia.
  - destruct (start_node_inv b e n cb Hinv) as (ret&n2&Heq&_&_&Ht&_). rewrite Heq in Hst.
    cbn in Hst. injection Hst as <-. lia.
  - destruct (add_node_inv b n info Hinv Hok) as (ret&n2&Heq&_&Hcase). rewrite Heq in Hst.
    cbn in Hst. injection Hst as <-. destruct Hcase as [(_&_&->)|(_&_&Ht&_)]; lia.
  - destruct (append_log_spec b e n d Hinv Hb Hok) as (ret&n2&Heq&Hout&_). rewrite Heq in Hst.
    cbn in Hst. injection Hst as <-. destruct Hout; cbn; lia.
Qed.

(** The entries of the log stay. *)
Lemma raft_step_log b n op n' :
  raft_inv b n → 0 <= b < max_steps → raft_op_ok n op → raft_step n op = Some n' →
  rn_log_size n <= rn_log_size n' ∧
  ∀ i : nat, Z.of_nat i < rn_log_size n → log_at n' i = log_at n i.
Proof.
  intros Hinv Hb Hok Hst.
  assert (Hsame : rn_log_entries n' = rn_log_entries n → rn_log_size n' = rn_log_size n →
    rn_log_size n <= rn_log_size n' ∧
    ∀ i : nat, Z.of_nat i < rn_log_size n → log_at n' i = log_at n i).
  { intros H1 H2. unfold log_at. rewrite H1, H2. split; [lia|done]. }
  destruct op as [e|e|e cb|info|e d]; cbn [raft_step] in Hst.
  - destruct (election_round_spec b e n Hinv Hb) as (n2&Hst2&Hout).
    assert (n2 = n') as -> by congruence.
    destruct Hout as [_|j q Hq|js _ _ _|js n' _ _ _ Hbl]; try by apply Hsame.
    unfold become_leader in Hbl.
    destruct (fill (rn_next_index _) _ _ _); [|done]. cbn in Hbl.
    destruct (fill (rn_match_index _) _ _ _); [|done]. cbn in Hbl. injection Hbl as <-.
    by apply Hsame.
  - destruct (heartbeat_round_spec b e n) as (n2&Hst2&_&Hout); [done|lia|done|].
    assert (n2 = n') as -> by congruence. destruct Hout; by apply Hsame.
  - unfold xdevice_raft_start_node in Hst.
    destruct (re_thread_ok e 0), (re_thread_ok e 1); cbn in Hst; injection Hst as <-; by apply Hsame.
  - unfold xdevice_raft_add_node_to_cluster, add_node_body in Hst.
    destruct (add_node_check _ _); [case_decide|]; cbn in Hst; try done; injection Hst as <-;
      by apply Hsame.
  - destruct (append_log_spec b e n d Hinv Hb Hok) as (ret&n2&Heq&Hout&_). rewrite Heq in Hst.
    cbn in Hst. injection Hst as <-.
    destruct Hout as [_|_ _|slots capacity _ Hs|slots capacity _ Hs _]; try by apply Hsame.
    + split; [cbn; lia|exact Hs].
    + split; [cbn; lia|exact Hs].
Qed.

(** A peer whose [next_index] was never set makes the loop leave the log, unless the
    loop ends before it. *)
Lemma heartbeat_loop_unset e n fuel i info :
  rn_cluster_nodes n !! (i + fuel)%nat = Some (Some info) → ni_node_id info ≠ rn_node_id n →
  rn_next_index n !! (i + fuel)%nat = Some 0 →
  Z.of_nat (length (rn_log_entries n)) < 2 ^ 63 →
  (∀ j q, ar_term (re_append e j q).2 <= rn_current_term n) →
  heartbeat_loop e n (S fuel) i = None.
Proof.
  intros Hinfo Hid Hnext Hlen Hterm. revert n i Hinfo Hid Hnext Hlen Hterm.
  induction fuel as [|fuel IH]; intros n i Hinfo Hid Hnext Hlen Hterm.
  - rewrite Nat.add_0_r in *. cbn. rewrite Hinfo. cbn. rewrite decide_False by done.
    rewrite Hnext. cbn. unfold make_append_request. change (0 ⊟ 1) with (2 ^ 64 - 1).
    change (0 <? 2 ^ 64 - 1) with true. cbn [mbind option_bind].
    unfold entry_term. change (2 ^ 64 - 1 ⊟ 1) with (2 ^ 64 - 2).
    rewrite lookup_ge_None_2; [done|]. lia.
  - assert (Hnx : ∀ m, rn_cluster_nodes m = rn_cluster_nodes n → rn_node_id m = rn_node_id n →
      rn_next_index m !! (S i + fuel)%nat = Some 0 → rn_log_entries m = rn_log_entries n →
      rn_current_term m = rn_current_term n → heartbeat_loop e m (S fuel) (S i) = None).
    { intros m H1 H2 H3 H4 H5. apply IH; rewrite ?H1, ?H2, ?H4, ?H5; try done.
      by rewrite Nat.add_succ_comm. }
    rewrite Nat.add_succ_comm in Hnx.
    assert (Hthis : heartbeat_loop e n (S fuel) (S i) = None) by by apply Hnx.
    remember (S fuel) as k eqn:Hk. cbn [heartbeat_loop].
    destruct (rn_cluster_nodes n !! i) as [[peer|]|]; cbn [mbind option_bind]; try done.
    case_decide; [done|]. destruct (rn_next_index n !! i) as [next|]; cbn [mbind option_bind]; [|done].
    destruct (make_append_request e n next) as [q|]; cbn [mbind option_bind]; [|done].
    destruct (cb_send_append_entries (rn_callbacks n)); cbn [negb]; [|done].
    specialize (Hterm i q). destruct (re_append e i q) as [ret resp]. cbn in Hterm.
    case_decide; [|done]. rewrite (proj2 (Z.ltb_ge _ _)) by lia.
    destruct (ar_success resp); [case_decide; [|done]|destruct (1 <? next); [|done]];
      apply Hnx; try done; cbn; by rewrite list_lookup_insert_ne by lia.
Qed.

(** ** Runs of given steps *)

Fixpoint raft_steps (n : xdevice_raft_node) (ops : list raft_op) : option xdevice_raft_node :=
  match ops with
  | [] => Some n
  | op :: ops => n ← raft_step n op; raft_steps n ops
  end.

(** The obligations of the steps, along the run. *)
Fixpoint ok_steps (n : xdevice_raft_node) (ops : list raft_op) : Prop :=
  match ops with
  | [] => True
  | op :: ops =>
      raft_op_ok n op ∧ match raft_step n op with Some n => ok_steps n ops | None => True end
  end.

Lemma reachable_steps b n ops n' :
  reachable b n → ok_steps n ops → raft_steps n ops = Some n' →
  reachable (b + Z.of_nat (length ops)) n'.
Proof.
  revert b n. induction ops as [|op ops IH]; intros b n Hr Hok Hs.
  { injection Hs as <-. by rewrite Z.add_0_r. }
  destruct Hok as [Hop Hok]. cbn in Hs. destruct (raft_step n op) as [n1|] eqn:Hst; [|done].
  cbn in Hs. assert (Hr1 : reachable (b + 1) n1) by by eapply reach_step.
  replace (b + Z.of_nat (length (op :: ops))) with (b + 1 + Z.of_nat (length ops)) by (cbn; lia).
  by eapply IH.
Qed.
