(* ===== verification/RaftProps.v ===== *)
(** * RaftProps: properties of a Raft node

    Safety of every reachable state, the log, elections and terms, and the places
    where the code leaves its array or its protocol. *)

From Stdlib Require Import String.
From stdpp Require Import base numbers list strings.
From S2P Require Import XDevice Prelude Raft RaftInv.
Local Open Scope Z_scope.

(** ** Concrete nodes, for the witnesses *)

(** Everything is granted, no peer answers, the clock is at ten seconds. *)
Definition w_env : raft_env :=
  {| re_malloc_ok := λ _, true; re_mutex_init_ok := true; re_thread_ok := λ _, true;
     re_time := λ _, mk_timeval 10 0; re_rand := λ _, 7; re_junk := λ _, Byte.xaa;
     re_vote := λ _ _, (XDEVICE_ERROR_NETWORK, mk_vote_response 0 false);
     re_append := λ _ _, (XDEVICE_ERROR_NETWORK, mk_append_response 0 false) |}.

(** The same at eleven seconds, when every peer grants its vote for term 1. *)
Definition w_env_grant : raft_env :=
  w_env <| re_time := λ _, mk_timeval 11 0 |>
        <| re_vote := λ _ _, (XDEVICE_OK, mk_vote_response 1 true) |>.

Definition w_info (id : string) : xdevice_node_info_t :=
  mk_node_info id "10.0.0.1" 8080 XDEVICE_NODE_FOLLOWER 0 0.

Definition w_callbacks : xdevice_raft_callbacks_t := mk_callbacks true true false false false.

Definition w_node0 : xdevice_raft_node := Eval vm_compute in
  default (mk_raft_node "" XDEVICE_NODE_DOWN 0 "" 0 0 [] 0 0 [] [] [] 0 0 0 THREAD_NONE THREAD_NONE
             false no_callbacks) (xdevice_raft_create_node w_env (Some "n1"%string)).

Lemma w_node0_reachable : reachable 0 w_node0.
Proof. apply (reach_create w_env "n1"). vm_compute. reflexivity. Qed.

Definition w_setup : list raft_op :=
  [StartNode w_env w_callbacks; AddNode (w_info "n1"); AddNode (w_info "n2"); AddNode (w_info "n3")].

(** A started node in a cluster of three. *)
Definition w_node3 : xdevice_raft_node := Eval vm_compute in default w_node0 (raft_steps w_node0 w_setup).

(** The node after an election it wins. *)
Definition w_leader : xdevice_raft_node := Eval vm_compute in
  default w_node0 (election_round w_env_grant w_node3).

Lemma w_env_ok : raft_env_ok w_env.
Proof. split; intros i q; cbn; lia. Qed.

Lemma w_node3_reachable : reachable 4 w_node3.
Proof.
  apply (reachable_steps 0 w_node0 w_setup w_node3 w_node0_reachable); [|vm_compute; reflexivity].
  vm_compute. repeat split; discriminate.
Qed.

Lemma w_env_grant_ok : raft_env_ok w_env_grant.
Proof. split; intros i q; cbn; lia. Qed.

Lemma w_leader_reachable : reachable 5 w_leader.
Proof.
  apply (reachable_steps 4 w_node3 [ElectionRound w_env_grant] w_leader w_node3_reachable);
    [|vm_compute; reflexivity].
  split; [apply w_env_grant_ok|]. by destruct (raft_step _ _).
Qed.

(** ** Safety *)

(** C2: in every reachable state each round of the two threads and each API call is
    defined: no array of the node or of its log is left, nothing uninitialised is
    read; and the next state again satisfies the invariant (log entries numbered
    from 1 with non-decreasing terms up to the current one, indexes of the peers
    within the log, at most 64 members). The one obligation is that no member
    is added while this node leads. *)
Theorem raft_safe b n op :
  reachable b n → b < max_steps → raft_op_ok n op →
  raft_inv b n ∧ ∃ n', raft_step n op = Some n' ∧ reachable (b + 1) n' ∧ raft_inv (b + 1) n'.
Proof.
  intros Hr Hb Hok. pose proof (reachable_nonneg _ _ Hr).
  assert (Hinv : raft_inv b n) by (apply reachable_inv; [done|lia]). split; [done|].
  destruct (raft_step_inv b n op) as (n'&Hst&Hinv'); [done|lia|done|].
  exists n'. split_and!; [done|by eapply reach_step|done].
Qed.

Lemma raft_safe_witness :
  ∃ n', raft_step w_leader (HeartbeatRound w_env) = Some n' ∧ raft_inv 6 n'.
Proof.
  destruct (raft_safe 5 w_leader (HeartbeatRound w_env) w_leader_reachable) as (_&n'&H1&_&H2);
    [reflexivity|exact w_env_ok|]. exists n'. split; [exact H1|exact H2].
Defined.

(** C33: appending to the log. A node that does not lead refuses and changes nothing.
    A leader that gets its memory adds exactly one entry at the end, with the
    current term, the next index and a copy of the data; the entries before it
    stay. When memory is refused, the log is as it was. *)
Theorem raft_append_outcomes b e n d :
  reachable b n → b < max_steps → 0 < blen d < 2 ^ 63 →
  ∃ ret n', xdevice_raft_append_log e (Some n) (Some d) (blen d) = Some (ret, Some n') ∧
    append_outcome n d ret n' ∧
    (rn_state n = XDEVICE_NODE_LEADER → re_malloc_ok e 0 = true → re_malloc_ok e 1 = true →
     ret = XDEVICE_OK) ∧
    (rn_state n ≠ XDEVICE_NODE_LEADER → ret = XDEVICE_ERROR_PERMISSION ∧ n' = n).
Proof.
  intros Hr Hb Hd. pose proof (reachable_nonneg _ _ Hr).
  destruct (append_log_spec b e n d) as (ret&n'&Ha&Hout&_&Hok);
    [apply reachable_inv; [done|lia]|lia|done|].
  exists ret, n'. split_and!; [done..|]. intros Hst. by destruct Hout.
Qed.

Lemma raft_append_outcomes_witness :
  ∃ n', xdevice_raft_append_log w_env (Some w_leader) (Some [Byte.x01; Byte.x02]) 2 =
      Some (XDEVICE_OK, Some n') ∧ rn_log_size n' = 1 ∧
    log_at n' 0 = Some (mk_log_entry 1 1 (Some [Byte.x01; Byte.x02]) 2).
Proof.
  destruct (raft_append_outcomes 5 w_env w_leader [Byte.x01; Byte.x02] w_leader_reachable)
    as (ret&n'&H1&_&H2&_); [reflexivity|vm_compute; split; reflexivity|].
  rewrite (H2 eq_refl eq_refl eq_refl) in H1. exists n'.
  change (blen [Byte.x01; Byte.x02]) with 2 in H1. split; [exact H1|].
  vm_compute in H1. injection H1 as <-. split; reflexivity.
Defined.

(** ** Elections *)

(** The members' identifiers, in the order of the table. *)
Definition cluster_ids (n : xdevice_raft_node) : list string :=
  (λ o : option xdevice_node_info_t, match o with Some i => ni_node_id i | None => ""%string end)
    <$> take (Z.to_nat (rn_cluster_size n)) (rn_cluster_nodes n).

(** C15: a node becomes leader only by an election in a new term that it wins: it has
    voted for itself and at least half of the cluster size, counted without it,
    has answered this very request with a vote, each peer counted once and none
    of them itself. As leader it starts every peer at the end of its log. *)
Theorem raft_leader_majority b e n n' :
  reachable b n → b < max_steps → rn_state n ≠ XDEVICE_NODE_LEADER →
  election_round e n = Some n' → rn_state n' = XDEVICE_NODE_LEADER →
  rn_election_timeout n <= get_current_time_ms (re_time e 0) ∧
  rn_current_term n' = rn_current_term n + 1 ∧
  rn_voted_for n' = str_take 63 (rn_node_id n) ∧
  (∃ js, NoDup js ∧ rn_cluster_size n < 2 * (1 + Z.of_nat (length js)) ∧
     Forall (λ j, (j < Z.to_nat (rn_cluster_size n))%nat ∧ granted_by e (start_election e n) j) js) ∧
  (∀ i : nat, Z.of_nat i < rn_cluster_size n →
     rn_next_index n' !! i = Some (rn_log_size n + 1) ∧ rn_match_index n' !! i = Some 0).
Proof.
  intros Hr Hb Hst Hround Hlead. pose proof (reachable_nonneg _ _ Hr).
  assert (Hinv : raft_inv b n) by (apply reachable_inv; [done|lia]).
  destruct (election_round_spec b e n Hinv) as (n2&Hr2&Hout); [lia|].
  assert (n2 = n') as -> by congruence.
  destruct (start_election_inv b e n Hinv) as [Hinv1 Ht]; [lia|].
  assert (Htime : rn_election_timeout n <= get_current_time_ms (re_time e 0)).
  { unfold election_round in Hround. destruct (bool_decide _ && _) eqn:Hc.
    - apply andb_true_iff in Hc as [_ Hc]. by to_prop.
    - congruence. }
  destruct Hout as [_|j q Hq|js _ _ _|js n' Hnd Hjs Hmaj Hbl]; try done.
  destruct (become_leader_spec (b + 1) _ Hinv1)
    as (n3&Hbl3&_&_&Hterm&Hvoted&_&_&_&_&_&_&Hidx); [unfold max_steps in *; lia|].
  assert (n3 = n') as -> by congruence. rewrite Hterm, Ht, Hvoted.
  split_and!; [done|done|done| |exact Hidx].
  exists js. split_and!; [done| |done].
  pose proof (Z.div_mod (rn_cluster_size n) 2 ltac:(lia)).
  pose proof (Z.mod_pos_bound (rn_cluster_size n) 2 ltac:(lia)). lia.
Qed.

Lemma raft_leader_majority_witness :
  rn_current_term w_leader = 1 ∧
  ∃ js, NoDup js ∧ 3 < 2 * (1 + Z.of_nat (length js)) ∧
    Forall (λ j, (j < 3)%nat ∧ granted_by w_env_grant (start_election w_env_grant w_node3) j) js.
Proof.
  destruct (raft_leader_majority 4 w_env_grant w_node3 w_leader w_node3_reachable)
    as (_&H1&_&H2&_); [reflexivity|discriminate|vm_compute; reflexivity|reflexivity|].
  split; [reflexivity|exact H2].
Defined.

(** Who votes for the candidate [n]: itself and the peers that grant. *)
Definition votes_for (e : raft_env) (n : xdevice_raft_node) (id : string) : Prop :=
  id = rn_node_id n ∨
  ∃ j info, rn_cluster_nodes n !! j = Some (Some info) ∧ ni_node_id info = id ∧ granted_by e n j.

(** The winner's votes, as a set of members larger than half of the cluster. *)
Lemma winner_votes b e n n' :
  reachable b n → b < max_steps → rn_state n ≠ XDEVICE_NODE_LEADER →
  election_round e n = Some n' → rn_state n' = XDEVICE_NODE_LEADER →
  NoDup (cluster_ids n) → rn_node_id n ∈ cluster_ids n →
  ∃ vs, NoDup vs ∧ vs ⊆ cluster_ids n ∧ (length (cluster_ids n) < 2 * length vs)%nat ∧
        Forall (votes_for e (start_election e n)) vs ∧
        rn_current_term n' = rn_current_term (start_election e n).
Proof.
  intros Hr Hb Hst Hround Hlead Hnd Hself. pose proof (reachable_nonneg _ _ Hr).
  assert (Hinv : raft_inv b n) by (apply reachable_inv; [done|lia]).
  pose proof (ri_size _ _ Hinv). pose proof (ri_nodes _ _ Hinv) as Hlen.
  destruct (election_round_spec b e n Hinv) as (n2&Hr2&Hout); [lia|].
  assert (n2 = n') as -> by congruence.
  destruct Hout as [_|j q Hq|js _ _ _|js n' Hndj Hjs Hmaj Hbl]; try done.
  destruct (start_election_inv b e n Hinv) as [Hinv1 _]; [lia|].
  destruct (become_leader_spec (b + 1) _ Hinv1) as (n3&Hbl3&_&_&Hterm&_); [unfold max_steps in *; lia|].
  assert (n3 = n') as -> by congruence.
  set (id := λ j, match rn_cluster_nodes n !! j with Some (Some i) => ni_node_id i | _ => ""%string end).
  assert (Hid : ∀ j : nat, (j < Z.to_nat (rn_cluster_size n))%nat → cluster_ids n !! j = Some (id j)).
  { intros j Hj. unfold cluster_ids, id. rewrite list_lookup_fmap, lookup_take_lt by done.
    destruct (ri_members _ _ Hinv j) as [info ->]; [lia|]. done. }
  rewrite Forall_forall in Hjs.
  exists (rn_node_id n :: (id <$> js)). split_and!.
  - constructor.
    + intros (j&Hj&Hin)%list_elem_of_fmap. destruct (Hjs j Hin) as [_ (info&q&r&Hi&Hne&_)].
      apply Hne. unfold id in Hj. cbn in Hi. rewrite Hi in Hj. done.
    + apply NoDup_fmap_2_strong; [|done]. intros j1 j2 H1 H2 Heq.
      apply Hjs in H1 as [H1 _], H2 as [H2 _].
      eapply NoDup_lookup; [exact Hnd|by apply Hid|]. rewrite Heq. by apply Hid.
  - intros x [->|(j&->&Hin)%list_elem_of_fmap]%elem_of_cons; [done|].
    eapply list_elem_of_lookup_2, Hid. by apply Hjs.
  - cbn. rewrite length_fmap. unfold cluster_ids. rewrite length_fmap, length_take, Hlen.
    pose proof (Z.div_mod (rn_cluster_size n) 2 ltac:(lia)).
    pose proof (Z.mod_pos_bound (rn_cluster_size n) 2 ltac:(lia)). lia.
  - constructor; [by left|]. apply Forall_fmap, Forall_forall. intros j Hin.
    destruct (Hjs j Hin) as [_ Hg]. right. exists j. pose proof Hg as (info&q&r&Hi&_).
    exists info. split_and!; [done| |done]. cbn. unfold id. cbn in Hi. by rewrite Hi.
  - exact Hterm.
Qed.

(** C3: election safety. Two nodes with the same members, identifiers all distinct
    and each node among them, that both win an election in the same term are the
    same node, provided that every member gives its vote of a term to one
    candidate: any two majorities share a member. *)
Theorem raft_election_safety b1 e1 n1 n1' b2 e2 n2 n2' (ballot : string → Z → string) :
  reachable b1 n1 → b1 < max_steps → reachable b2 n2 → b2 < max_steps →
  rn_state n1 ≠ XDEVICE_NODE_LEADER → rn_state n2 ≠ XDEVICE_NODE_LEADER →
  election_round e1 n1 = Some n1' → rn_state n1' = XDEVICE_NODE_LEADER →
  election_round e2 n2 = Some n2' → rn_state n2' = XDEVICE_NODE_LEADER →
  rn_current_term n1' = rn_current_term n2' →
  cluster_ids n1 ≡ₚ cluster_ids n2 → NoDup (cluster_ids n1) →
  rn_node_id n1 ∈ cluster_ids n1 → rn_node_id n2 ∈ cluster_ids n2 →
  (∀ v, votes_for e1 (start_election e1 n1) v →
        ballot v (rn_current_term (start_election e1 n1)) = rn_node_id n1) →
  (∀ v, votes_for e2 (start_election e2 n2) v →
        ballot v (rn_current_term (start_election e2 n2)) = rn_node_id n2) →
  rn_node_id n1 = rn_node_id n2.
Proof.
  intros Hr1 Hb1 Hr2 Hb2 Hs1 Hs2 He1 Hl1 He2 Hl2 Hterm Hperm Hnd Hin1 Hin2 Hone1 Hone2.
  destruct (winner_votes b1 e1 n1 n1') as (v1&Hnd1&Hsub1&Hmaj1&Hv1&Ht1); [done..|].
  destruct (winner_votes b2 e2 n2 n2') as (v2&Hnd2&Hsub2&Hmaj2&Hv2&Ht2);
    [done..|by rewrite <- Hperm|done|].
  destruct (decide (Exists (.∈ v2) v1)) as [(v&Hv&Hv')%Exists_exists|Hdisj].
  - rewrite Forall_forall in Hv1, Hv2. rewrite <- (Hone1 v) by by apply Hv1.
    rewrite <- (Hone2 v) by by apply Hv2. by rewrite <- Ht1, <- Ht2, Hterm.
  - exfalso. assert (Hlen : (length (v1 ++ v2) <= length (cluster_ids n1))%nat).
    { apply submseteq_length, NoDup_submseteq.
      - apply NoDup_app. split_and!; [done| |done]. intros v H1 H2. apply Hdisj, Exists_exists. eauto.
      - intros v [?|?]%elem_of_app; [by apply Hsub1|]. rewrite Hperm. by apply Hsub2. }
    rewrite length_app in Hlen. rewrite <- Hperm in Hmaj2. lia.
Qed.

Lemma raft_election_safety_witness :
  rn_state w_leader = XDEVICE_NODE_LEADER ∧ rn_node_id w_node3 = rn_node_id w_node3.
Proof.
  split; [reflexivity|].
  apply (raft_election_safety 4 w_env_grant w_node3 w_leader 4 w_env_grant w_node3 w_leader
           (λ _ _, "n1"%string) w_node3_reachable ltac:(reflexivity) w_node3_reachable ltac:(reflexivity));
    try (vm_compute; reflexivity); try (vm_compute; discriminate).
  - apply (bool_decide_unpack _). vm_compute. exact I.
  - apply (bool_decide_unpack _). vm_compute. exact I.
  - apply (bool_decide_unpack _). vm_compute. exact I.
Defined.

(** A higher term ends leadership at once. After a heartbeat round in which a
    leader reads a response with a term above its own it is a follower of that
    term without a vote, its log is untouched, and its next election is due 150
    to 299 ms after the clock reading; otherwise it goes on leading in its term. *)
Theorem raft_step_down b e n n' :
  reachable b n → b < max_steps → raft_env_ok e → rn_state n = XDEVICE_NODE_LEADER →
  (∀ k, 0 <= re_rand e k) → (∀ k, get_current_time_ms (re_time e k) < 2 ^ 63) →
  heartbeat_round e n = Some n' →
  (rn_state n' = XDEVICE_NODE_LEADER ∧ rn_current_term n' = rn_current_term n ∧
   rn_voted_for n' = rn_voted_for n)
  ∨ (rn_state n' = XDEVICE_NODE_FOLLOWER ∧ rn_voted_for n' = ""%string ∧
     (∃ j q, rn_current_term n' = ar_term (re_append e j q).2 ∧
             rn_current_term n < rn_current_term n') ∧
     rn_log_entries n' = rn_log_entries n ∧ rn_log_size n' = rn_log_size n ∧
     150 <= rn_election_timeout n' - get_current_time_ms (re_time e 1) < 300).
Proof.
  intros Hr Hb He Hst Hrand Htime Hround. pose proof (reachable_nonneg _ _ Hr).
  assert (Hinv : raft_inv b n) by (apply reachable_inv; [done|lia]).
  destruct (heartbeat_round_spec b e n Hinv) as (n2&Hr2&_&Hout); [lia|done|].
  assert (n2 = n') as -> by congruence.
  destruct Hout as [|matched next _|matched next j q _ Hlt]; [by left|by left|].
  right. split_and!; [done|done|by exists j, q|done|done|..];
    (cbn; unfold generate_election_timeout, RAFT_ELECTION_TIMEOUT_MIN_MS, RAFT_ELECTION_TIMEOUT_MAX_MS;
     pose proof (Z.rem_bound_pos (re_rand e 0) (300 - 150) (Hrand 0%nat) ltac:(lia));
     pose proof (wrap64_range (tv_s (re_time e 1) * 1000 + tv_usec (re_time e 1) / 1000)) as Hw;
     specialize (Htime 1%nat); unfold get_current_time_ms in *; unfold u64 in Hw;
     rewrite (wrap64_small (wrap64 _ + _)) by (unfold u64; lia); lia).
Qed.

(** A peer that is in term 9. *)
Definition w_env_higher : raft_env :=
  w_env <| re_append := λ _ _, (XDEVICE_OK, mk_append_response 9 false) |>.

Lemma raft_step_down_witness :
  ∃ n', heartbeat_round w_env_higher w_leader = Some n' ∧
    rn_state n' = XDEVICE_NODE_FOLLOWER ∧ rn_current_term n' = 9 ∧
    150 <= rn_election_timeout n' - 10000 < 300.
Proof.
  eexists. split; [vm_compute; reflexivity|].
  edestruct (raft_step_down 5 w_env_higher w_leader) as [(H&_)|(H1&_&_&_&_&H2)];
    [apply w_leader_reachable|reflexivity|split; intros i q; cbn; lia|reflexivity
    |intros k; cbn; lia|intros k; reflexivity|vm_compute; reflexivity|discriminate H|].
  split; [reflexivity|]. split; [reflexivity|]. split; [discriminate|reflexivity].
Defined.

(** ** Monotonicity *)

(** C30: along every step the term never decreases and the log only grows: its
    entries stay what they are. The commit index stays 0 for ever: nothing in
    the code advances it, so no entry is ever committed or applied. *)
Theorem raft_monotone b n op n' :
  reachable b n → b < max_steps → raft_op_ok n op → raft_step n op = Some n' →
  rn_current_term n <= rn_current_term n' ∧ rn_log_size n <= rn_log_size n' ∧
  (∀ i : nat, Z.of_nat i < rn_log_size n → log_at n' i = log_at n i) ∧
  rn_commit_index n' = 0.
Proof.
  intros Hr Hb Hok Hst. pose proof (reachable_nonneg _ _ Hr).
  assert (Hinv : raft_inv b n) by (apply reachable_inv; [done|lia]).
  destruct (raft_step_inv b n op) as (n2&Hst2&Hinv'); [done|lia|done|].
  assert (n2 = n') as -> by congruence.
  destruct (raft_step_log b n op n') as [Hsz Hlog]; [done|lia|done|done|].
  split_and!; [eapply raft_step_term; (done || lia)|done|done|apply Hinv'].
Qed.

Lemma raft_monotone_witness :
  ∃ n', raft_step w_leader (AppendLog w_env [Byte.x01]) = Some n' ∧
    rn_log_size w_leader <= rn_log_size n' ∧ rn_commit_index n' = 0.
Proof.
  eexists. split; [vm_compute; reflexivity|].
  edestruct (raft_monotone 5 w_leader (AppendLog w_env [Byte.x01])) as (_&H1&_&H2);
    [apply w_leader_reachable|reflexivity|split; reflexivity|vm_compute; reflexivity|].
  split; [exact H1|exact H2].
Defined.

(** ** Departures *)

(** Adding a member while this node leads makes the next heartbeat read outside
    the log. The new member's [next_index] is still 0, the previous index wraps
    around to [2^64 - 1], and the term of that entry is looked up, unless an
    earlier peer ends the round with a higher term. *)
Theorem raft_add_member_while_leader b e n info :
  reachable b n → b < max_steps → rn_state n = XDEVICE_NODE_LEADER →
  rn_cluster_size n < 64 → rn_next_index n !! Z.to_nat (rn_cluster_size n) = Some 0 →
  ni_node_id info ≠ rn_node_id n →
  (∀ j q, ar_term (re_append e j q).2 <= rn_current_term n) →
  RAFT_HEARTBEAT_INTERVAL_MS <= get_current_time_ms (re_time e 0) ⊟ rn_last_heartbeat n →
  ∃ n1, xdevice_raft_add_node_to_cluster (Some n) (Some info) = Some (XDEVICE_OK, Some n1) ∧
        heartbeat_round e n1 = None.
Proof.
  intros Hr Hb Hst Hsz Hnext Hid Hterm Htime. pose proof (reachable_nonneg _ _ Hr).
  assert (Hinv : raft_inv b n) by (apply reachable_inv; [done|lia]).
  pose proof (ri_size _ _ Hinv). pose proof (ri_nodes _ _ Hinv). pose proof (ri_slots _ _ Hinv).
  pose proof (ri_capacity _ _ Hinv). pose proof (ri_growth _ _ Hinv).
  unfold xdevice_raft_add_node_to_cluster, add_node_check, XDEVICE_MAX_NODES.
  rewrite (proj2 (Z.leb_gt _ _)) by lia. cbn [negb]. unfold add_node_body.
  rewrite decide_True by lia. cbn [mbind option_bind].
  rewrite wrap32_small by (unfold u32; lia). eexists. split; [done|].
  match goal with |- heartbeat_round e ?m = None => set (n1 := m) end.
  assert (Hs1 : rn_cluster_size n1 = rn_cluster_size n + 1) by done.
  assert (Hh1 : rn_last_heartbeat n1 = rn_last_heartbeat n) by done.
  assert (Hst1 : rn_state n1 = XDEVICE_NODE_LEADER) by done.
  unfold heartbeat_round. rewrite decide_True, Hh1, (proj2 (Z.leb_le _ _)), Hs1 by done.
  replace (Z.to_nat (rn_cluster_size n + 1)) with (S (Z.to_nat (rn_cluster_size n))) by lia.
  rewrite (heartbeat_loop_unset e n1 (Z.to_nat (rn_cluster_size n)) 0 info); [done|..].
  - apply list_lookup_insert_eq. lia.
  - exact Hid.
  - exact Hnext.
  - change (rn_log_entries n1) with (rn_log_entries n). unfold max_steps in *. lia.
  - exact Hterm.
Qed.

Lemma raft_add_member_while_leader_witness :
  ∃ n1, xdevice_raft_add_node_to_cluster (Some w_leader) (Some (w_info "n4")) =
      Some (XDEVICE_OK, Some n1) ∧ heartbeat_round w_env n1 = None.
Proof.
  apply (raft_add_member_while_leader 5 w_env w_leader (w_info "n4") w_leader_reachable);
    [reflexivity|reflexivity|reflexivity|reflexivity|discriminate| |vm_compute; discriminate].
  intros j q. vm_compute. discriminate.
Defined.

(** The size check of [add_node_to_cluster] is made before the mutex is taken. Two
    threads that both check a cluster of 63 members both go on, and the second
    one writes past the end of the table. One after the other, the second call
    is refused. *)
Theorem raft_add_node_race n info1 info2 :
  length (rn_cluster_nodes n) = 64%nat → rn_cluster_size n = 63 →
  add_node_check (Some n) (Some info1) = true ∧ add_node_check (Some n) (Some info2) = true ∧
  ∃ n1, add_node_body n info1 = Some n1 ∧ add_node_body n1 info2 = None ∧
    xdevice_raft_add_node_to_cluster (Some n) (Some info1) = Some (XDEVICE_OK, Some n1) ∧
    xdevice_raft_add_node_to_cluster (Some n1) (Some info2) =
      Some (XDEVICE_ERROR_INVALID_PARAM, Some n1).
Proof.
  intros Hlen Hsz. unfold xdevice_raft_add_node_to_cluster, add_node_check. rewrite Hsz.
  split_and!; [done|done|].
  set (n1 := n <| rn_cluster_nodes := <[63%nat := Some info1]> (rn_cluster_nodes n) |>
               <| rn_cluster_size := 64 |>).
  assert (Hbody : add_node_body n info1 = Some n1).
  { unfold add_node_body. rewrite Hsz, decide_True by lia. done. }
  exists n1. rewrite Hbody. split_and!; [done| |done|done].
  unfold add_node_body. rewrite decide_False; [done|].
  change (rn_cluster_nodes n1) with (<[63%nat := Some info1]> (rn_cluster_nodes n)).
  rewrite length_insert, Hlen. change (Z.to_nat (rn_cluster_size n1)) with 64%nat. lia.
Qed.

Definition w_node63 : xdevice_raft_node :=
  w_node3 <| rn_cluster_nodes := replicate 63 (Some (w_info "x")) ++ [None] |> <| rn_cluster_size := 63 |>.

Lemma raft_add_node_race_witness :
  add_node_check (Some w_node63) (Some (w_info "a")) = true ∧
  add_node_check (Some w_node63) (Some (w_info "b")) = true ∧
  ∃ n1, add_node_body w_node63 (w_info "a") = Some n1 ∧ add_node_body n1 (w_info "b") = None.
Proof.
  destruct (raft_add_node_race w_node63 (w_info "a") (w_info "b")) as (H1&H2&n1&H3&H4&_);
    [reflexivity|reflexivity|].
  split; [exact H1|]. split; [exact H2|]. exists n1. split; [exact H3|exact H4].
Defined.

(** A new node can be destroyed after its start exactly when the start succeeded. One
    that fails at the first thread leaves an unspecified handle, which destroying the
    node joins if it is not zero; one that fails at the second thread joins the first
    one and keeps the joined handle, so that destroying the node joins it again. *)
Theorem raft_start_destroy e n cb :
  rn_election_thread n = THREAD_NONE → rn_heartbeat_thread n = THREAD_NONE →
  ∃ ret n', xdevice_raft_start_node e (Some n) (Some cb) = Some (ret, Some n') ∧
    (ret = XDEVICE_OK ↔ re_thread_ok e 0 = true ∧ re_thread_ok e 1 = true) ∧
    (xdevice_raft_destroy_node (Some n') = None ↔ ret ≠ XDEVICE_OK).
Proof.
  intros H1 H2. unfold xdevice_raft_start_node, xdevice_raft_destroy_node.
  destruct (re_thread_ok e 0), (re_thread_ok e 1); cbn [negb];
    (do 2 eexists; split; [done|]; cbn; rewrite ?H1, ?H2; cbn; split; split; intros; try done;
     try (by destruct_and?)).
Qed.

(** The system refuses the second thread. *)
Definition w_env_one_thread : raft_env := w_env <| re_thread_ok := λ k, Nat.eqb k 0 |>.

Lemma raft_start_destroy_witness :
  ∃ ret n', xdevice_raft_start_node w_env_one_thread (Some w_node0) (Some w_callbacks) = Some (ret, Some n') ∧
    xdevice_raft_destroy_node (Some n') = None.
Proof.
  destruct (raft_start_destroy w_env_one_thread w_node0 w_callbacks) as (ret&n'&H1&_&H2);
    [reflexivity|reflexivity|].
  exists ret, n'. split; [exact H1|]. apply H2. injection H1 as <- _. discriminate.
Defined.
