(* ===== verification/RaftThreads.v ===== *)
(** * RaftThreads: the threads of a Raft node ([src/distributed/raft.c])

    [Raft] takes a round of a thread, or a call of the API, as one step. Here are the
    threads themselves: a thread reads the [running] flag without the mutex, takes the
    mutex, makes its round, gives the mutex back and sleeps; a client thread starts the
    node, adds members, appends, asks for the state and destroys the node, and every
    access it makes between two of its locks is a step of its own. [sys_exec] is one
    step of one of them, and [sys_run] any interleaving of the steps, as if every access
    was atomic. C does not say so: the [running] flag is a plain [bool], and two
    accesses that nothing orders are undefined behaviour when one of them is a write.
    [c_run] is the same run with that rule. The refinement lemmas are in
    [ThreadProps]. *)

From Stdlib Require Import String.
From stdpp Require Import base numbers list strings.
From S2P Require Import XDevice Prelude Raft RaftInv.
Local Open Scope Z_scope.

(** ** Threads *)

Inductive thread_kind : Set := ElectionThread | HeartbeatThread.

(** Where a thread is in its loop: before the test of [running], before the lock,
    holding the mutex before and after the round, before [usleep] returns, and out. *)
Inductive thread_pc : Set := AtTest | AtLock | AtRound | AtUnlock | AtSleep | Exited.

Record thread := mk_thread { th_kind : thread_kind; th_pc : thread_pc; th_joined : bool }.

#[export] Instance thread_pc_eq_dec : EqDecision thread_pc.
Proof. solve_decision. Defined.

(** The calls of the API that take the mutex, once they wait for it. *)
Inductive locked_call : Type :=
| CallAdd (info : xdevice_node_info_t)
| CallAppend (e : raft_env) (data : block)
| CallGetState.

(** Where the client is: between two calls, or in one. *)
Inductive client_pc : Type :=
| Idle
| StartFirst | StartSecond | StartJoin
| CallLock (c : locked_call) | CallBody (c : locked_call) | CallUnlock
| DestroyFirst | DestroySecond | DestroyFree
| Gone.

Inductive holder : Set := ByClient | ByThread (i : nat).

#[export] Instance holder_eq_dec : EqDecision holder.
Proof. solve_decision. Defined.

(** The field of a thread handle: the zero of the structure, the position of a thread, or
    what a failed [pthread_create] leaves. *)
Inductive handle : Set := NoThread | Handle (i : nat) | Unspecified.

#[export] Instance handle_eq_dec : EqDecision handle.
Proof. solve_decision. Defined.

(** The fields of the node for the handles are not used here. *)
Record sys := mk_sys {
  sy_node : xdevice_raft_node;
  sy_mutex : option holder;
  sy_threads : list thread;
  sy_election : handle;
  sy_heartbeat : handle;
  sy_client : client_pc;
  sy_freed : bool
}.

Definition sys_initial (n : xdevice_raft_node) : sys := mk_sys n None [] NoThread NoThread Idle false.

(** What happens next: a thread goes on, the client begins a call or goes on in it. [e]
    is the environment of a round, [ok] the success of a [pthread_create]. *)
Inductive label : Type :=
| LThread (i : nat) (e : raft_env)
| LStart (cb : xdevice_raft_callbacks_t)
| LCall (c : locked_call)
| LDestroy
| LClient (ok : bool).

(** A step is not possible now (a mutex is taken, a thread has not exited), leads to
    undefined behaviour, or leads to a state. *)
Inductive outcome : Type := Blocked | Undefined | Next (s : sys).

Definition or_undefined (r : option sys) : outcome := match r with Some s => Next s | None => Undefined end.

Definition thread_round (k : thread_kind) : raft_env → xdevice_raft_node → option xdevice_raft_node :=
  match k with ElectionThread => election_round | HeartbeatThread => heartbeat_round end.

Definition goto (i : nat) (t : thread) (pc : thread_pc) (s : sys) : sys :=
  s <| sy_threads := <[i := t <| th_pc := pc |>]> (sy_threads s) |>.

(** One step of [election_thread_func] or [heartbeat_thread_func]. All but the return
    from [usleep] use the node. *)
Definition exec_thread (s : sys) (i : nat) (e : raft_env) : outcome :=
  match sy_threads s !! i with
  | None => Blocked
  | Some t =>
      match th_pc t with
      | Exited => Blocked
      | AtSleep => Next (goto i t AtTest s)
      | pc =>
          if sy_freed s then Undefined
          else
            match pc with
            | AtTest => Next (goto i t (if rn_running (sy_node s) then AtLock else Exited) s)
            | AtLock =>
                match sy_mutex s with
                | None => Next ((goto i t AtRound s) <| sy_mutex := Some (ByThread i) |>)
                | Some _ => Blocked
                end
            | AtRound =>
                or_undefined (n ← thread_round (th_kind t) e (sy_node s);
                              Some ((goto i t AtUnlock s) <| sy_node := n |>))
            | _ => Next ((goto i t AtSleep s) <| sy_mutex := None |>)
            end
      end
  end.

(** [pthread_create]: the new thread is at the start of its loop. *)
Definition spawn (k : thread_kind) (s : sys) : sys :=
  s <| sy_threads := sy_threads s ++ [mk_thread k AtTest false] |>.

(** [pthread_join]: waits for the thread to exit; joining it twice is undefined. *)
Definition exec_join (s : sys) (h : nat) (pc : client_pc) : outcome :=
  match sy_threads s !! h with
  | None => Undefined
  | Some t =>
      if th_joined t then Undefined
      else if decide (th_pc t = Exited) then
        Next (s <| sy_threads := <[h := t <| th_joined := true |>]> (sy_threads s) |> <| sy_client := pc |>)
      else Blocked
  end.

(** [if (node->..._thread) pthread_join(...)]. *)
Definition exec_join_handle (s : sys) (h : handle) (pc : client_pc) : outcome :=
  match h with
  | NoThread => Next (s <| sy_client := pc |>)
  | Handle i => exec_join s i pc
  | Unspecified => Undefined
  end.

(** The body of a call, with the mutex held. *)
Definition call_body (c : locked_call) (n : xdevice_raft_node) : option xdevice_raft_node :=
  match c with
  | CallAdd info => add_node_body n info
  | CallAppend e d => '(_, n) ← xdevice_raft_append_log e (Some n) (Some d) (blen d); n
  | CallGetState => Some n
  end.

(** The tests a call makes before it takes the mutex. *)
Definition call_check (c : locked_call) (n : xdevice_raft_node) : bool :=
  match c with
  | CallAdd info => add_node_check (Some n) (Some info)
  | CallAppend _ d => negb (blen d =? 0)
  | CallGetState => true
  end.

(** The client goes on in its call. *)
Definition exec_client (s : sys) (ok : bool) : outcome :=
  match sy_client s with
  | Idle | Gone => Blocked
  | StartFirst =>
      if ok then Next ((spawn ElectionThread s) <| sy_election := Handle (length (sy_threads s)) |>
                                             <| sy_client := StartSecond |>)
      else Next (s <| sy_election := Unspecified |> <| sy_client := Idle |>)
  | StartSecond =>
      if ok then Next ((spawn HeartbeatThread s) <| sy_heartbeat := Handle (length (sy_threads s)) |>
                                              <| sy_client := Idle |>)
      else Next (s <| sy_node := (sy_node s) <| rn_running := false |> |>
                   <| sy_heartbeat := Unspecified |> <| sy_client := StartJoin |>)
  | StartJoin => match sy_election s with Handle i => exec_join s i Idle | _ => Undefined end
  | CallLock c =>
      match sy_mutex s with
      | None => Next (s <| sy_mutex := Some ByClient |> <| sy_client := CallBody c |>)
      | Some _ => Blocked
      end
  | CallBody c =>
      or_undefined (n ← call_body c (sy_node s);
                    Some (s <| sy_node := n |> <| sy_client := CallUnlock |>))
  | CallUnlock => Next (s <| sy_mutex := None |> <| sy_client := Idle |>)
  | DestroyFirst => exec_join_handle s (sy_election s) DestroySecond
  | DestroySecond => exec_join_handle s (sy_heartbeat s) DestroyFree
  | DestroyFree =>
      match sy_mutex s with
      | None => Next (s <| sy_freed := true |> <| sy_client := Gone |>)
      | Some _ => Undefined
      end
  end.

Definition sys_exec (s : sys) (l : label) : outcome :=
  match l with
  | LThread i e => exec_thread s i e
  | LClient ok => exec_client s ok
  | _ =>
      match sy_client s with
      | Idle =>
          match l with
          | LStart cb =>
              Next (s <| sy_node := (sy_node s) <| rn_callbacks := cb |> <| rn_running := true |> |>
                      <| sy_client := StartFirst |>)
          | LCall c => Next (if call_check c (sy_node s) then s <| sy_client := CallLock c |> else s)
          | _ => Next (s <| sy_node := (sy_node s) <| rn_running := false |> |> <| sy_client := DestroyFirst |>)
          end
      | _ => Blocked
      end
  end.

Fixpoint sys_run (s : sys) (ls : list label) : outcome :=
  match ls with
  | [] => Next s
  | l :: ls => match sys_exec s l with Next s => sys_run s ls | r => r end
  end.

(** ** Data races

    The fields that the client and the threads share, and the accesses to them. *)
Inductive field : Set := FieldRunning | FieldCallbacks | FieldMembers | FieldState.

#[export] Instance field_eq_dec : EqDecision field.
Proof. solve_decision. Defined.

Record access := mk_access { ac_field : field; ac_write : bool; ac_locked : bool }.

(** A thread tests the flag without the mutex; its round has the mutex. *)
Definition thread_accesses : list access :=
  [mk_access FieldRunning false false; mk_access FieldCallbacks false true;
   mk_access FieldMembers false true; mk_access FieldState true true].

(** The accesses of a step of the client. The mutex and the handles are no fields here:
    the threads do not use the handles. *)
Definition client_accesses (s : sys) (l : label) : list access :=
  match l with
  | LThread _ _ => []
  | LStart _ => [mk_access FieldCallbacks true false; mk_access FieldRunning true false]
  | LCall (CallAdd _) => [mk_access FieldMembers false false]
  | LCall _ => []
  | LDestroy => [mk_access FieldRunning true false]
  | LClient ok =>
      match sy_client s with
      | StartSecond => if ok then [] else [mk_access FieldRunning true false]
      | CallBody (CallAdd _) => [mk_access FieldMembers true true]
      | CallBody (CallAppend _ _) => [mk_access FieldState true true]
      | CallBody CallGetState => [mk_access FieldState false true]
      | DestroyFree => (λ f, mk_access f true false) <$> [FieldRunning; FieldCallbacks; FieldMembers; FieldState]
      | _ => []
      end
  end.

Definition conflict (a b : access) : bool :=
  bool_decide (ac_field a = ac_field b) && (ac_write a || ac_write b) && negb (ac_locked a && ac_locked b).

(** The client's step is not ordered with the accesses of a thread that has not been
    joined, unless both hold the mutex; creating a thread and joining it order them, and
    a thread tests the flag at least once more before it exits. *)
Definition racy (s : sys) (l : label) : bool :=
  existsb (λ t, negb (th_joined t)) (sy_threads s) &&
  existsb (λ a, existsb (conflict a) thread_accesses) (client_accesses s l).

Definition c_exec (s : sys) (l : label) : outcome :=
  match sys_exec s l with
  | Blocked => Blocked
  | r => if racy s l then Undefined else r
  end.

Fixpoint c_run (s : sys) (ls : list label) : outcome :=
  match ls with
  | [] => Next s
  | l :: ls => match c_exec s l with Next s => c_run s ls | r => r end
  end.

(** The steps that reset the flag: destroying the node, and a start without its second
    thread. *)
Definition resets_flag (s : sys) (l : label) : bool :=
  match l, sy_client s with
  | LDestroy, _ | LClient false, StartSecond => true
  | _, _ => false
  end.

(** ** Discipline

    What the client has to observe: members are added and the node is started before it
    has threads, a node whose last start failed is not destroyed, and terms and lengths
    are in range. *)
Definition call_ok (s : sys) (c : locked_call) : Prop :=
  match c with
  | CallAdd _ => sy_threads s = []
  | CallAppend _ d => blen d < 2 ^ 63
  | CallGetState => True
  end.

Definition label_ok (s : sys) (l : label) : Prop :=
  match l with
  | LThread _ e => raft_env_ok e
  | LStart _ => sy_threads s = []
  | LCall c => call_ok s c
  | LDestroy => Forall (λ t, th_joined t = false) (sy_threads s) ∧
                sy_election s ≠ Unspecified ∧ sy_heartbeat s ≠ Unspecified
  | LClient _ => True
  end.

Fixpoint labels_ok (s : sys) (ls : list label) : Prop :=
  match ls with
  | [] => True
  | l :: ls => label_ok s l ∧ match sys_exec s l with Next s => labels_ok s ls | _ => True end
  end.
