(* ===== verification/ThreadProps.v ===== *)
(** * ThreadProps: properties of the threads of a Raft node

    Every interleaving of the threads and a disciplined client refines the transition
    system of [RaftInv], in which a round or a call is one step; nothing uses the node
    after it is released; and destroying the node terminates. In C that holds up to the
    reset of the [running] flag, the only data race. *)

From Stdlib Require Import String.
From stdpp Require Import base numbers list strings.
From S2P Require Import XDevice Prelude Raft RaftInv RaftProps RaftThreads.
Local Open Scope Z_scope.

(** ** What a round does not look at

    The flag and the handles of the threads. *)
Definition forget (n : xdevice_raft_node) : xdevice_raft_node :=
  n <| rn_running := false |> <| rn_election_thread := THREAD_NONE |>
    <| rn_heartbeat_thread := THREAD_NONE |>.

Lemma vote_loop_forget e n votes fuel i :
  vote_loop e (forget n) votes fuel i =
    (λ r : xdevice_raft_node * Z, (forget r.1, r.2)) <$> vote_loop e n votes fuel i.
Proof.
  revert votes i. induction fuel as [|fuel IH]; intros votes i; [done|]. cbn [vote_loop].
  change (rn_cluster_nodes (forget n)) with (rn_cluster_nodes n).
  destruct (rn_cluster_nodes n !! i) as [[peer|]|]; cbn [mbind option_bind]; [|done..].
  change (rn_node_id (forget n)) with (rn_node_id n). case_decide; [apply IH|].
  change (make_vote_request e (forget n)) with (make_vote_request e n).
  destruct (make_vote_request e n) as [q|]; cbn [mbind option_bind]; [|done].
  change (rn_callbacks (forget n)) with (rn_callbacks n). destruct (negb _); [apply IH|].
  destruct (re_vote e i q) as [ret resp]. case_decide; [|apply IH].
  change (rn_current_term (forget n)) with (rn_current_term n).
  destruct (rn_current_term n <? vr_term resp); [done|apply IH].
Qed.

Lemma election_round_forget e n : election_round e (forget n) = forget <$> election_round e n.
Proof.
  unfold election_round. change (rn_state (forget n)) with (rn_state n).
  change (rn_election_timeout (forget n)) with (rn_election_timeout n).
  destruct (_ && _); [|done].
  change (start_election e (forget n)) with (forget (start_election e n)).
  change (rn_cluster_size (forget n)) with (rn_cluster_size n). rewrite vote_loop_forget.
  destruct (vote_loop e (start_election e n) 1 _ 0) as [[n1 v]|]; cbn [fmap option_fmap option_map mbind option_bind fst snd]; [|done].
  change (rn_state (forget n1)) with (rn_state n1).
  change (rn_cluster_size (forget n1)) with (rn_cluster_size n1).
  destruct (_ && _); [|done]. unfold become_leader.
  change (rn_cluster_size (forget n1)) with (rn_cluster_size n1).
  change (rn_next_index (forget n1)) with (rn_next_index n1).
  change (rn_match_index (forget n1)) with (rn_match_index n1).
  change (rn_log_size (forget n1)) with (rn_log_size n1).
  destruct (fill (rn_next_index n1) _ _ _); cbn [mbind option_bind]; [|done].
  by destruct (fill (rn_match_index n1) _ _ _).
Qed.

Lemma heartbeat_loop_forget e n fuel i :
  heartbeat_loop e (forget n) fuel i = forget <$> heartbeat_loop e n fuel i.
Proof.
  revert n i. induction fuel as [|fuel IH]; intros n i; [done|]. cbn [heartbeat_loop].
  change (rn_cluster_nodes (forget n)) with (rn_cluster_nodes n).
  destruct (rn_cluster_nodes n !! i) as [[peer|]|]; cbn [mbind option_bind]; [|done..].
  change (rn_node_id (forget n)) with (rn_node_id n). case_decide; [apply IH|].
  change (rn_next_index (forget n)) with (rn_next_index n).
  destruct (rn_next_index n !! i) as [next|]; cbn [mbind option_bind]; [|done].
  change (make_append_request e (forget n) next) with (make_append_request e n next).
  destruct (make_append_request e n next) as [q|]; cbn [mbind option_bind]; [|done].
  change (rn_callbacks (forget n)) with (rn_callbacks n). destruct (negb _); [apply IH|].
  destruct (re_append e i q) as [ret resp]. case_decide; [|apply IH].
  change (rn_current_term (forget n)) with (rn_current_term n).
  destruct (rn_current_term n <? ar_term resp); [done|].
  change (rn_match_index (forget n)) with (rn_match_index n).
  destruct (ar_success resp).
  - case_decide; [|done]. exact (IH (n <| rn_match_index := <[i:=aq_prev_log_index q]> (rn_match_index n) |>
      <| rn_next_index := <[i:=aq_prev_log_index q ⊞ 1]> (rn_next_index n) |>) (S i)).
  - destruct (1 <? next); [|apply IH]. exact (IH (n <| rn_next_index := <[i:=next ⊟ 1]> (rn_next_index n) |>) (S i)).
Qed.

Lemma heartbeat_round_forget e n : heartbeat_round e (forget n) = forget <$> heartbeat_round e n.
Proof.
  unfold heartbeat_round. change (rn_state (forget n)) with (rn_state n). case_decide; [|done].
  change (rn_last_heartbeat (forget n)) with (rn_last_heartbeat n). destruct (_ <=? _); [|done].
  change (rn_cluster_size (forget n)) with (rn_cluster_size n). rewrite heartbeat_loop_forget.
  by destruct (heartbeat_loop e n _ 0).
Qed.

Lemma thread_round_forget k e n : thread_round k e (forget n) = forget <$> thread_round k e n.
Proof. destruct k; [apply election_round_forget|apply heartbeat_round_forget]. Qed.

Lemma append_body_forget e d n :
  call_body (CallAppend e d) (forget n) = forget <$> call_body (CallAppend e d) n.
Proof.
  unfold call_body, xdevice_raft_append_log. destruct (blen d =? 0); [done|].
  change (rn_state (forget n)) with (rn_state n). destruct (negb _); [done|].
  change (rn_log_capacity (forget n)) with (rn_log_capacity n).
  change (rn_log_size (forget n)) with (rn_log_size n).
  destruct (rn_log_capacity n <=? rn_log_size n); cbn [andb].
  - destruct (negb (re_malloc_ok e 0)); [done|]. cbn. case_decide; [|done].
    destruct (negb (re_malloc_ok e 1)); [done|]. by destruct (mem_read d 0 (blen d)).
  - cbn. case_decide; [|done].
    destruct (negb (re_malloc_ok e 1)); [done|]. by destruct (mem_read d 0 (blen d)).
Qed.

Lemma add_body_forget info n : add_node_body (forget n) info = forget <$> add_node_body n info.
Proof. unfold add_node_body. cbn. by case_decide. Qed.

Lemma call_body_forget c n : call_body c (forget n) = forget <$> call_body c n.
Proof. destruct c; [apply add_body_forget|apply append_body_forget|done]. Qed.

(** Two nodes that differ in those fields only make the same rounds. *)
Lemma forget_transfer (f : xdevice_raft_node → option xdevice_raft_node) n a a' :
  (∀ n, f (forget n) = forget <$> f n) → forget n = forget a → f a = Some a' →
  ∃ n', f n = Some n' ∧ forget n' = forget a'.
Proof.
  intros Hf Heq Ha. pose proof (Hf n) as Hn. rewrite Heq, Hf, Ha in Hn. cbn in Hn.
  destruct (f n) as [n'|]; [|done]. apply (inj Some) in Hn. by exists n'.
Qed.

Lemma raft_inv_forget b n a : forget n = forget a → raft_inv b a → raft_inv b n.
Proof.
  intros Heq Hinv. assert (Hf : raft_inv b (forget n)) by (rewrite Heq; destruct Hinv; by split).
  destruct Hf; by split.
Qed.

(** A round is defined, and leaves the flag and the members alone. *)
Lemma thread_round_keeps b k e n :
  raft_inv b n → 0 <= b < max_steps → raft_env_ok e →
  ∃ n', thread_round k e n = Some n' ∧ rn_running n' = rn_running n ∧
        rn_cluster_size n' = rn_cluster_size n.
Proof.
  intros Hinv Hb He. destruct k; cbn [thread_round].
  - destruct (election_round_spec b e n Hinv Hb) as (n'&->&Hout). exists n'. split; [done|].
    destruct Hout as [| | |js n' _ _ _ Hbl]; [done..|]. unfold become_leader in Hbl.
    destruct (fill (rn_next_index _) _ _ _); [|done]. cbn in Hbl.
    destruct (fill (rn_match_index _) _ _ _); [|done]. cbn in Hbl. by injection Hbl as <-.
  - destruct (heartbeat_round_spec b e n) as (n'&->&_&Hout); [done|lia|done|].
    exists n'. split; [done|]. by destruct Hout.
Qed.

(** ** The simulation *)

(** Who holds the mutex, as the places of the threads and of the client say. *)
Definition thread_holds (pc : thread_pc) : bool := bool_decide (pc = AtRound ∨ pc = AtUnlock).

Definition client_holds (pc : client_pc) : bool :=
  match pc with CallBody _ | CallUnlock => true | _ => false end.

Definition holds (s : sys) (h : holder) : bool :=
  match h with
  | ByClient => client_holds (sy_client s)
  | ByThread i => from_option (thread_holds ∘ th_pc) false (sy_threads s !! i)
  end.

Definition unjoined (s : sys) : Prop := Forall (λ t, th_joined t = false) (sy_threads s).

(** What holds of the threads while the client is at [pc]. *)
Definition client_inv (s : sys) (pc : client_pc) : Prop :=
  match pc with
  | Idle | CallUnlock => True
  | StartFirst => sy_threads s = []
  | StartSecond => length (sy_threads s) = 1%nat ∧ unjoined s
  | StartJoin => length (sy_threads s) = 1%nat ∧ unjoined s ∧ rn_running (sy_node s) = false
  | CallLock (CallAdd _) | CallBody (CallAdd _) =>
      sy_threads s = [] ∧ rn_cluster_size (sy_node s) < 64
  | CallLock (CallAppend _ d) | CallBody (CallAppend _ d) => 0 < blen d < 2 ^ 63
  | CallLock CallGetState | CallBody CallGetState => True
  | DestroyFirst => unjoined s ∧ rn_running (sy_node s) = false ∧
      sy_election s ≠ Unspecified ∧ sy_heartbeat s ≠ Unspecified
  | DestroySecond => rn_running (sy_node s) = false ∧ sy_heartbeat s ≠ Unspecified ∧
      ∀ i t, sy_threads s !! i = Some t → th_joined t = bool_decide (i = 0%nat)
  | DestroyFree | Gone => Forall (λ t, th_joined t = true) (sy_threads s)
  end.

(** A handle that is not that of a thread. *)
Definition no_thread (h : handle) : Prop := h = NoThread ∨ h = Unspecified.

Record sim (s : sys) (a : xdevice_raft_node) : Prop := {
  sim_node : forget (sy_node s) = forget a;
  sim_mutex : ∀ h, holds s h = bool_decide (sy_mutex s = Some h);
  sim_threads : (length (sy_threads s) <= 2)%nat;
  sim_election : if decide (sy_threads s = []) then no_thread (sy_election s) else sy_election s = Handle 0;
  sim_heartbeat : if decide (length (sy_threads s) = 2%nat) then sy_heartbeat s = Handle 1
                  else no_thread (sy_heartbeat s);
  sim_joined : ∀ i t, sy_threads s !! i = Some t → th_joined t = true → th_pc t = Exited;
  sim_follower : sy_threads s = [] → rn_state (sy_node s) ≠ XDEVICE_NODE_LEADER;
  sim_client : client_inv s (sy_client s);
  sim_freed : sy_freed s = true ↔ sy_client s = Gone
}.

Lemma sim_initial e id n :
  xdevice_raft_create_node e (Some id) = Some n → sim (sys_initial n) n.
Proof.
  intros Hc. split; try done; [|cbn; lia|by left..|].
  - intros [|i]; cbn; by rewrite bool_decide_eq_false_2.
  - intros _. cbn. unfold xdevice_raft_create_node in Hc.
    destruct (re_malloc_ok e 0), (re_malloc_ok e 1), (re_mutex_init_ok e); try done.
    by injection Hc as <-.
Qed.

(** An environment in which no thread can be created: what [LStart] itself does. *)
Definition env_no_thread : raft_env :=
  mk_raft_env (λ _, true) true (λ _, false) (λ _, mk_timeval 0 0) (λ _, 0) (λ _, Init.Byte.x00)
    (λ _ _, (XDEVICE_OK, mk_vote_response 0 false)) (λ _ _, (XDEVICE_OK, mk_append_response 0 false)).

(** The operation that takes effect in a step: a round, the body of a call, the start;
    most steps have none. *)
Definition label_op (s : sys) (l : label) : option raft_op :=
  match l with
  | LThread i e =>
      t ← sy_threads s !! i;
      if decide (th_pc t = AtRound) then
        Some (match th_kind t with ElectionThread => ElectionRound e | HeartbeatThread => HeartbeatRound e end)
      else None
  | LStart cb => Some (StartNode env_no_thread cb)
  | LClient _ =>
      match sy_client s with
      | CallBody (CallAdd info) => Some (AddNode info)
      | CallBody (CallAppend e d) => Some (AppendLog e d)
      | _ => None
      end
  | _ => None
  end.

(** The step to [s'] is that operation on the node [a], or leaves it alone. *)
Definition follows (op : option raft_op) (s' : sys) (a : xdevice_raft_node) : Prop :=
  match op with
  | None => sim s' a
  | Some op => raft_op_ok a op ∧ ∃ a', raft_step a op = Some a' ∧ sim s' a'
  end.

(** An outcome that is not undefined, and follows the operation. *)
Definition sim_outcome (op : option raft_op) (o : outcome) (a : xdevice_raft_node) : Prop :=
  match o with Blocked => True | Undefined => False | Next s' => follows op s' a end.

(** A thread of a disciplined system is not joined while it runs, and the node is there. *)
Lemma sim_running s a i t :
  sim s a → sy_threads s !! i = Some t → th_pc t ≠ Exited → sy_freed s = false ∧ th_joined t = false.
Proof.
  intros Hs Hi Hpc. split.
  - destruct (sy_freed s) eqn:Hf; [|done]. apply (sim_freed _ _ Hs) in Hf.
    pose proof (sim_client _ _ Hs) as Hc. rewrite Hf in Hc. cbn in Hc.
    rewrite Forall_lookup in Hc. by destruct Hpc; eapply sim_joined; eauto.
  - destruct (th_joined t) eqn:Hj; [|done]. by destruct Hpc; eapply sim_joined.
Qed.

Lemma goto_lookup i t pc s j :
  sy_threads s !! i = Some t →
  sy_threads (goto i t pc s) !! j = if decide (j = i) then Some (t <| th_pc := pc |>) else sy_threads s !! j.
Proof.
  intros Hi. cbn. case_decide as Hj; [subst|by rewrite list_lookup_insert_ne].
  rewrite list_lookup_insert_eq; [done|by eapply lookup_lt_Some].
Qed.

(** The client's part of the invariant looks at the threads' join marks only. *)
Lemma client_inv_goto i t pc s n m c :
  sy_threads s !! i = Some t → client_inv s c →
  rn_running n = rn_running (sy_node s) → rn_cluster_size n = rn_cluster_size (sy_node s) →
  client_inv ((goto i t pc s) <| sy_node := n |> <| sy_mutex := m |>) c.
Proof.
  intros Hi Hc Hr Hsz.
  assert (Hne : ¬ sy_threads s = []) by (intros Heq; by rewrite Heq in Hi).
  assert (Hu : unjoined s → Forall (λ t, th_joined t = false) (sy_threads (goto i t pc s))).
  { unfold unjoined. intros Hu. apply Forall_insert; [done|]. exact (Forall_lookup_1 _ _ _ _ Hu Hi). }
  destruct c as [| | | |[]|[]| | | | |]; cbn in *; unfold unjoined in *; cbn in *;
    rewrite ?Hr, ?Hsz, ?length_insert; try tauto.
  - destruct Hc as (Hrun&Hhb&Hj). split_and!; [done|done|]. intros j t' Ht'.
    pose proof (goto_lookup i t pc s j Hi) as Hg. cbn in Hg. rewrite Hg in Ht'. case_decide; [|eauto]. apply (inj Some) in Ht' as <-. subst. by apply (Hj i t).
  - apply Forall_insert; [done|]. exact (Forall_lookup_1 _ _ _ _ Hc Hi).
  - apply Forall_insert; [done|]. exact (Forall_lookup_1 _ _ _ _ Hc Hi).
Qed.

(** A thread moves from one place of its loop to the next. *)
Lemma sim_goto s a i t pc n m a' :
  sim s a → sy_threads s !! i = Some t → th_pc t ≠ Exited → forget n = forget a' →
  rn_running n = rn_running (sy_node s) → rn_cluster_size n = rn_cluster_size (sy_node s) →
  (∀ h, (if decide (h = ByThread i) then thread_holds pc else holds s h) = bool_decide (m = Some h)) →
  sim ((goto i t pc s) <| sy_node := n |> <| sy_mutex := m |>) a'.
Proof.
  intros Hs Hi Hpc Hn Hr Hsz Hm.
  assert (Hlt : (i < length (sy_threads s))%nat) by by eapply lookup_lt_Some.
  assert (Hnil : ∀ t', <[i:=t']> (sy_threads s) = [] ↔ sy_threads s = []).
  { intros t'. rewrite <- !length_zero_iff_nil, length_insert. done. }
  destruct (sim_running _ _ _ _ Hs Hi Hpc) as [_ Hj]. destruct Hs as [_ _ ? He Hh Hjn _ Hc Hf].
  split; [done| |cbn; by rewrite length_insert|..|exact Hf].
  - intros h. rewrite <- Hm. destruct h as [|j]; [done|].
    pose proof (goto_lookup i t pc s j Hi) as Hg. cbn in Hg |- *. rewrite Hg.
    destruct (decide (j = i)) as [->|]; [by rewrite decide_True|by rewrite decide_False by congruence].
  - rewrite decide_False in He by (intros Heq; by rewrite Heq in Hi).
    rewrite decide_False; [exact He|]. cbn. rewrite Hnil. intros Heq. by rewrite Heq in Hi.
  - cbn. by rewrite length_insert.
  - intros j t' Ht' Hj'. pose proof (goto_lookup i t pc s j Hi) as Hg. cbn in Hg, Ht'.
    rewrite Hg in Ht'. case_decide; [|by eapply Hjn]. apply (inj Some) in Ht' as <-. cbn in Hj'. congruence.
  - cbn. rewrite Hnil. intros Heq. by rewrite Heq in Hi.
  - by apply client_inv_goto.
Qed.

(** The steps of a thread. *)
Lemma exec_thread_sim b s a i e :
  sim s a → raft_inv b a → 0 <= b < max_steps → raft_env_ok e →
  sim_outcome (label_op s (LThread i e)) (exec_thread s i e) a.
Proof.
  intros Hs Hinv Hb He. unfold exec_thread, label_op. destruct (sy_threads s !! i) as [t|] eqn:Hi; [|done].
  cbn [mbind option_bind]. pose proof (sim_mutex _ _ Hs) as Hm.
  assert (Hhold : thread_holds (th_pc t) = bool_decide (sy_mutex s = Some (ByThread i))).
  { rewrite <- Hm. cbn. by rewrite Hi. }
  assert (Hkeep : ∀ pc, th_pc t ≠ Exited → thread_holds pc = thread_holds (th_pc t) →
    sim (goto i t pc s) a).
  { intros pc Hpc Hsame. apply (sim_goto s a i t pc (sy_node s) (sy_mutex s)); try done; [apply Hs|].
    intros h. destruct (decide (h = ByThread i)) as [->|]; [by rewrite Hsame, Hhold|apply Hm]. }
  destruct (th_pc t) eqn:Hpc; try done; [| | | |by apply Hkeep];
    destruct (sim_running _ _ _ _ Hs Hi) as [-> _]; try (by rewrite Hpc).
  - cbn. destruct (rn_running (sy_node s)); by apply Hkeep.
  - cbn. destruct (sy_mutex s) eqn:Hmx; [done|]. cbn.
    apply (sim_goto s a i t AtRound (sy_node s) (Some (ByThread i))); try done; [by rewrite Hpc|apply Hs|].
    intros h. destruct (decide (h = ByThread i)) as [->|]; [by rewrite bool_decide_eq_true_2|].
    rewrite Hm, !bool_decide_eq_false_2; congruence.
  - rewrite decide_True by done.
    destruct (thread_round_keeps b (th_kind t) e (sy_node s)) as (n&Hn&Hrun&Hsz); try done.
    { eapply raft_inv_forget; [apply Hs|done]. }
    destruct (forget_transfer (thread_round (th_kind t) e) a (sy_node s) n) as (a'&Ha'&Hf); try done.
    { apply thread_round_forget. } { symmetry. apply Hs. }
    rewrite Hn. cbn. split; [by destruct (th_kind t)|]. exists a'. split; [by destruct (th_kind t)|].
    apply (sim_goto s a i t AtUnlock n (sy_mutex s)); try done; [by rewrite Hpc|].
    intros h. destruct (decide (h = ByThread i)) as [->|]; [done|apply Hm].
  - apply (sim_goto s a i t AtSleep (sy_node s) None); try done; [by rewrite Hpc|apply Hs|].
    symmetry in Hhold. apply bool_decide_eq_true in Hhold.
    intros h. destruct (decide (h = ByThread i)) as [->|]; [by rewrite bool_decide_eq_false_2|].
    rewrite Hm, Hhold, !bool_decide_eq_false_2; congruence.
Qed.

(** A step of the client that leaves the threads alone. *)
Lemma sim_client_goto s a n m c a' :
  sim s a → sy_client s ≠ Gone → c ≠ Gone → forget n = forget a' →
  (sy_threads s = [] → rn_state n ≠ XDEVICE_NODE_LEADER) →
  (∀ i, m = Some (ByThread i) ↔ sy_mutex s = Some (ByThread i)) →
  client_holds c = bool_decide (m = Some ByClient) →
  client_inv (s <| sy_node := n |>) c →
  sim (s <| sy_node := n |> <| sy_mutex := m |> <| sy_client := c |>) a'.
Proof.
  intros [_ Hm Hlen He Hh Hj _ _ Hf] Hg Hg' Hn Hst Hmt Hmc Hc. split; try done.
  - intros [|i]; cbn [holds]; [exact Hmc|]. etrans; [apply (Hm (ByThread i))|].
    apply bool_decide_ext. symmetry. apply Hmt.
  - cbn. rewrite Hf. by split.
Qed.

(** [pthread_join] on a thread that no join has returned for. *)
Lemma sim_join s a h t pc :
  sim s a → sy_threads s !! h = Some t → th_joined t = false →
  sy_client s ≠ Gone → pc ≠ Gone → client_holds pc = client_holds (sy_client s) →
  client_inv (s <| sy_threads := <[h := t <| th_joined := true |>]> (sy_threads s) |>) pc →
  match exec_join s h pc with Blocked => True | Undefined => False | Next s' => sim s' a end.
Proof.
  intros [Hn Hm Hlen He Hh Hj Hst _ Hf] Hi Hnj Hg Hg' Hcl Hc. unfold exec_join. rewrite Hi, Hnj.
  destruct (decide (th_pc t = Exited)) as [Hex|]; [|done]. pose proof (lookup_lt_Some _ _ _ Hi) as Hlt.
  assert (Hnil : <[h:=t <| th_joined := true |>]> (sy_threads s) = [] ↔ sy_threads s = []).
  { rewrite <- !length_zero_iff_nil, length_insert. done. }
  split; cbn -[insert list_insert client_inv]; rewrite ?length_insert; try done.
  - intros [|i]; rewrite <- Hm; cbn; [done|]. change (list_insert h) with (insert (M:=list thread) h).
    destruct (decide (i = h)) as [->|].
    + rewrite list_lookup_insert_eq by done. by rewrite Hi.
    + by rewrite list_lookup_insert_ne.
  - rewrite decide_False in He by (intros Heq; by rewrite Heq in Hi).
    rewrite decide_False; [exact He|]. rewrite Hnil. intros Heq. by rewrite Heq in Hi.
  - intros i t' Ht' Hjt. destruct (decide (i = h)) as [->|].
    + rewrite list_lookup_insert_eq in Ht' by done. by apply (inj Some) in Ht' as <-.
    + rewrite list_lookup_insert_ne in Ht' by done. by eapply Hj.
  - by rewrite Hnil.
  - rewrite Hf. by split.
Qed.

(** A new thread. *)
Lemma sim_spawn s a k el hb c :
  sim s a → sy_client s ≠ Gone → c ≠ Gone → (length (sy_threads s) <= 1)%nat →
  el = Handle 0 → (if decide (length (sy_threads s) = 1%nat) then hb = Handle 1 else no_thread hb) →
  client_holds c = client_holds (sy_client s) →
  client_inv ((spawn k s) <| sy_election := el |> <| sy_heartbeat := hb |>) c →
  sim ((spawn k s) <| sy_election := el |> <| sy_heartbeat := hb |> <| sy_client := c |>) a.
Proof.
  intros [Hn Hm _ _ _ Hj _ _ Hf] Hg Hg' Hlen -> Hhb Hcl Hc.
  assert (Hnew : ∀ i t, (sy_threads s ++ [mk_thread k AtTest false]) !! i = Some t →
    sy_threads s !! i = Some t ∨ i = length (sy_threads s) ∧ t = mk_thread k AtTest false).
  { intros i t. rewrite lookup_app. destruct (sy_threads s !! i) eqn:Hi; [by left|].
    rewrite list_lookup_singleton_Some. apply lookup_ge_None in Hi. intros [? <-]. right. split; [lia|done]. }
  split; cbn -[client_inv]; rewrite ?length_app; cbn -[client_inv]; try done.
  - intros [|i]; rewrite <- Hm; cbn; [done|]. rewrite lookup_app.
    destruct (sy_threads s !! i) eqn:Hi; [done|]. cbn. by destruct (i - length (sy_threads s))%nat as [|[]].
  - lia.
  - rewrite decide_False; [done|]. by destruct (sy_threads s).
  - destruct (decide (length (sy_threads s) = 1%nat)); [rewrite decide_True by lia|rewrite decide_False by lia]; exact Hhb.
  - intros i t Hi Hjt. apply Hnew in Hi as [Hi|[_ ->]]; [by eapply Hj|done].
  - by destruct (sy_threads s).
  - rewrite Hf. by split.
Qed.

Lemma add_body_step a info :
  rn_cluster_size a < 64 → raft_step a (AddNode info) = add_node_body a info.
Proof.
  intros Hsz. cbn. unfold xdevice_raft_add_node_to_cluster, add_node_check, XDEVICE_MAX_NODES.
  rewrite (proj2 (Z.leb_gt _ _)) by done. cbn. by destruct (add_node_body a info).
Qed.

Lemma call_body_keeps c n n' :
  call_body c n = Some n' → rn_state n' = rn_state n ∧ rn_running n' = rn_running n.
Proof.
  destruct c as [info|e d|]; cbn [call_body].
  - unfold add_node_body. case_decide; [|done]. by intros [= <-].
  - unfold xdevice_raft_append_log. destruct (blen d =? 0); [by intros [= <-]|].
    destruct (negb (bool_decide _)); [by intros [= <-]|].
    destruct (rn_log_capacity n <=? rn_log_size n), (negb (re_malloc_ok e 0)); cbn [andb];
      try (by intros [= <-]); cbn; (case_decide; [|done]);
      (destruct (negb (re_malloc_ok e 1)); [by intros [= <-]|]);
      (destruct (mem_read d 0 (blen d)); [|done]); by intros [= <-].
  - by intros [= <-].
Qed.

(** The body of a call is the step of the atomic call. *)
Lemma call_body_sim b s a c ok :
  sim s a → raft_inv b a → 0 <= b < max_steps → sy_client s = CallBody c →
  ∃ n, call_body c (sy_node s) = Some n ∧
    match label_op s (LClient ok) with
    | None => n = sy_node s
    | Some op => raft_op_ok a op ∧ ∃ a', raft_step a op = Some a' ∧ forget n = forget a'
    end.
Proof.
  intros Hs Hinv Hb Hc. pose proof (sim_client _ _ Hs) as Hci. rewrite Hc in Hci.
  pose proof (sim_node _ _ Hs) as Hn.
  assert (Hop : ∀ op, raft_op_ok a op → raft_step a op = call_body c a →
    ∃ n, call_body c (sy_node s) = Some n ∧
      (raft_op_ok a op ∧ ∃ a', raft_step a op = Some a' ∧ forget n = forget a')).
  { intros op Hop Heq. destruct (raft_step_inv b a op Hinv Hb Hop) as (a'&Ha'&_).
    destruct (forget_transfer (call_body c) (sy_node s) a a') as (n&Hbody&Hf);
      [apply call_body_forget|done|by rewrite <- Heq|]. exists n. eauto. }
  unfold label_op. rewrite Hc. destruct c as [info|e d|]; cbn in Hci.
  - destruct Hci as [Hnil Hsz]. pose proof (sim_follower _ _ Hs Hnil) as Hst.
    change (rn_cluster_size (sy_node s)) with (rn_cluster_size (forget (sy_node s))) in Hsz.
    change (rn_state (sy_node s)) with (rn_state (forget (sy_node s))) in Hst.
    rewrite Hn in Hsz, Hst. apply (Hop (AddNode info)); [done|by apply add_body_step].
  - by apply (Hop (AppendLog e d)).
  - by exists (sy_node s).
Qed.

(** The steps of [xdevice_raft_destroy_node] after the flag is reset. *)
Lemma exec_destroy_sim s a :
  sim s a → sy_client s = DestroyFirst ∨ sy_client s = DestroySecond →
  match exec_client s true with Blocked => True | Undefined => False | Next s' => sim s' a end.
Proof.
  intros Hs Hcl. pose proof (sim_client _ _ Hs) as Hc. pose proof (sim_threads _ _ Hs) as Hlen.
  assert (Hgo : ∀ c, sy_client s ≠ Gone → c ≠ Gone → client_holds c = client_holds (sy_client s) →
    client_inv s c → sim (s <| sy_client := c |>) a).
  { intros c Hg Hg' Hh Hci. apply (sim_client_goto s a (sy_node s) (sy_mutex s)); try done; [apply Hs..|].
    rewrite Hh. apply (sim_mutex _ _ Hs ByClient). }
  unfold exec_client. destruct Hcl as [Hcl|Hcl]; rewrite Hcl in Hc |- *; unfold exec_join_handle.
  - destruct Hc as (Hu&Hrun&Hel&Hhb). pose proof (sim_election _ _ Hs) as He.
    destruct (decide (sy_threads s = [])) as [Hnil|Hnil].
    + destruct He as [->|]; [|done]. apply (Hgo DestroySecond); rewrite ?Hcl; try done. cbn. by rewrite Hnil.
    + rewrite He. destruct (lookup_lt_is_Some_2 (sy_threads s) 0) as [t Ht]; [by destruct (sy_threads s); cbn; [|lia]|].
      apply (sim_join s a 0 t); rewrite ?Hcl; try done; [exact (Forall_lookup_1 _ _ _ _ Hu Ht)|].
      split_and!; [done|done|]. intros i t' Hi. destruct (decide (i = 0%nat)) as [->|].
      * cbn in Hi. destruct (sy_threads s); [done|]. cbn in Hi. by injection Hi as <-.
      * rewrite bool_decide_eq_false_2 by done. cbn in Hi.
        rewrite (list_lookup_insert_ne _ 0 i) in Hi by done. exact (Forall_lookup_1 _ _ _ _ Hu Hi).
  - destruct Hc as (Hrun&Hhb&Hj). pose proof (sim_heartbeat _ _ Hs) as He. case_decide as Hl.
    + rewrite He. destruct (lookup_lt_is_Some_2 (sy_threads s) 1) as [t Ht]; [lia|].
      apply (sim_join s a 1 t); rewrite ?Hcl; try done; [by rewrite (Hj _ _ Ht)|]. cbn.
      apply Forall_lookup. intros i t' Hi. destruct (decide (i = 1%nat)) as [->|].
      * rewrite (list_lookup_insert_eq _ 1) in Hi by lia. by apply (inj Some) in Hi as <-.
      * rewrite (list_lookup_insert_ne _ 1 i) in Hi by done. rewrite (Hj _ _ Hi).
        apply lookup_lt_Some in Hi. by rewrite bool_decide_eq_true_2 by lia.
    + destruct He as [->|]; [|done]. apply (Hgo DestroyFree); rewrite ?Hcl; try done. cbn. apply Forall_lookup. intros i t Hi.
      rewrite (Hj _ _ Hi). apply lookup_lt_Some in Hi. by rewrite bool_decide_eq_true_2 by lia.
Qed.

(** When every thread was joined nobody holds the mutex. *)
Lemma joined_unlocked s a :
  sim s a → client_holds (sy_client s) = false → Forall (λ t, th_joined t = true) (sy_threads s) →
  sy_mutex s = None.
Proof.
  intros Hs Hc Hj. destruct (sy_mutex s) as [h|] eqn:Hm; [|done].
  pose proof (sim_mutex _ _ Hs h) as Hh. rewrite Hm, bool_decide_eq_true_2 in Hh by done.
  destruct h as [|i]; cbn in Hh; [congruence|]. destruct (sy_threads s !! i) as [t|] eqn:Hi; [|done].
  cbn in Hh. by rewrite (sim_joined _ _ Hs _ _ Hi (Forall_lookup_1 _ _ _ _ Hj Hi)) in Hh.
Qed.

(** The body of a call, in the client. *)
Lemma exec_body_sim b s a c ok :
  sim s a → raft_inv b a → 0 <= b < max_steps → sy_client s = CallBody c →
  sim_outcome (label_op s (LClient ok)) (exec_client s ok) a.
Proof.
  intros Hs Hinv Hb Hcl. pose proof (sim_follower _ _ Hs) as Hst.
  pose proof (sim_client _ _ Hs) as Hc. pose proof (sim_mutex _ _ Hs ByClient) as Hm. cbn in Hm.
  pose proof (sim_node _ _ Hs) as Hn. rewrite Hcl in Hc, Hm.
  destruct (call_body_sim b s a c ok Hs Hinv Hb Hcl) as (n&Hbody&Hop).
  unfold exec_client, label_op in *. rewrite Hcl in *. rewrite Hbody. cbn [mbind option_bind or_undefined].
  destruct (call_body_keeps _ _ _ Hbody) as [Hns Hrun].
  assert (Hsim : ∀ a', forget n = forget a' → sim (s <| sy_node := n |> <| sy_client := CallUnlock |>) a').
  { intros a' Hf. apply (sim_client_goto s a n (sy_mutex s)); rewrite ?Hcl; try done.
    intros Hnil. rewrite Hns. auto. }
  destruct c as [info|e d|]; cbn in Hop |- *; [| |apply Hsim; by subst];
    destruct Hop as [Hok (a'&Hstep&Hf)]; split; eauto.
Qed.

(** The steps of the client inside a call. *)
Lemma exec_client_sim b s a ok :
  sim s a → raft_inv b a → 0 <= b < max_steps →
  sim_outcome (label_op s (LClient ok)) (exec_client s ok) a.
Proof.
  intros Hs Hinv Hb. pose proof (sim_client _ _ Hs) as Hc. pose proof (sim_node _ _ Hs) as Hn.
  pose proof (sim_follower _ _ Hs) as Hst. pose proof (sim_mutex _ _ Hs ByClient) as Hm. cbn in Hm.
  assert (Hgo : ∀ n c, sy_client s ≠ Gone → c ≠ Gone → client_holds c = client_holds (sy_client s) →
    forget n = forget a → rn_state n = rn_state (sy_node s) → client_inv (s <| sy_node := n |>) c →
    sim (s <| sy_node := n |> <| sy_client := c |>) a).
  { intros n c Hg Hg' Hh Hna Hns Hci. apply (sim_client_goto s a n (sy_mutex s)); try done.
    - intros Hnil. rewrite Hns. auto.
    - by rewrite Hh. }
  unfold exec_client, label_op. destruct (sy_client s) as [| | | |c|c| | | | |] eqn:Hcl; try done.
  - cbn in Hc. destruct ok; cbn [sim_outcome follows].
    + apply (sim_spawn s a ElectionThread (Handle (length (sy_threads s))) (sy_heartbeat s)); rewrite ?Hcl, ?Hc; try done.
      { cbn. lia. } { pose proof (sim_heartbeat _ _ Hs) as He. by rewrite Hc in He. }
      cbn. unfold unjoined. cbn. rewrite Hc. split; [done|by repeat constructor].
    + pose proof (Hgo (sy_node s) Idle ltac:(done) ltac:(done) ltac:(done) Hn eq_refl I) as [? ? ? _ ? ? ? ? ?].
      split; try done. cbn. rewrite Hc. by right.
  - destruct Hc as [Hlen Hu]. destruct ok; cbn [sim_outcome follows].
    + apply (sim_spawn s a HeartbeatThread (sy_election s) (Handle (length (sy_threads s)))); rewrite ?Hcl, ?Hlen; try done.
      pose proof (sim_election _ _ Hs) as He. by destruct (sy_threads s).
    + pose proof (Hgo ((sy_node s) <| rn_running := false |>) StartJoin) as [? ? ? ? _ ? ? ? ?]; try done.
      split; try done. cbn. rewrite decide_False by lia. by right.
  - destruct Hc as (Hlen&Hu&Hrun). pose proof (sim_election _ _ Hs) as He.
    rewrite decide_False in He by (intros Hnil; by rewrite Hnil in Hlen). rewrite He.
    destruct (lookup_lt_is_Some_2 (sy_threads s) 0) as [t Ht]; [lia|].
    pose proof (sim_join s a 0 t Idle Hs Ht (Forall_lookup_1 _ _ _ _ Hu Ht)) as Hj.
    rewrite Hcl in Hj. specialize (Hj ltac:(done) ltac:(done) ltac:(done) I).
    destruct (exec_join s 0 Idle); done.
  - destruct (sy_mutex s) as [|] eqn:Hmx; [done|].
    apply (sim_client_goto s a (sy_node s) (Some ByClient)); by rewrite ?Hcl, ?Hmx.
  - pose proof (exec_body_sim b s a c ok Hs Hinv Hb Hcl) as Hbody. unfold exec_client, label_op in Hbody.
    by rewrite Hcl in Hbody.
  - symmetry in Hm. apply bool_decide_eq_true in Hm.
    apply (sim_client_goto s a (sy_node s) None); rewrite ?Hcl; try done. intros i. by rewrite Hm.
  - pose proof (exec_destroy_sim s a Hs (or_introl Hcl)) as Hd. unfold exec_client in Hd.
    rewrite Hcl in Hd. destruct (exec_join_handle _ _ _); done.
  - pose proof (exec_destroy_sim s a Hs (or_intror Hcl)) as Hd. unfold exec_client in Hd.
    rewrite Hcl in Hd. destruct (exec_join_handle _ _ _); done.
  - rewrite (joined_unlocked s a Hs); [|by rewrite Hcl|done].
    destruct Hs as [? Hmx ????? _ _]. split; try done. intros [|i]; [exact Hm|exact (Hmx (ByThread i))].
Qed.

(** A disciplined step of the system. *)
Lemma sys_exec_sim b s a l :
  sim s a → raft_inv b a → 0 <= b < max_steps → label_ok s l →
  sim_outcome (label_op s l) (sys_exec s l) a.
Proof.
  intros Hs Hinv Hb Hl. destruct l as [i e|cb|c| |ok]; cbn [sys_exec];
    [by eapply exec_thread_sim| | | |by eapply exec_client_sim];
    destruct (sy_client s) eqn:Hcl; try done; cbn in Hl;
    pose proof (sim_mutex _ _ Hs ByClient) as Hm; cbn in Hm; rewrite Hcl in Hm.
  - split; [done|]. eexists. split; [done|].
    apply (sim_client_goto s a _ (sy_mutex s)); rewrite ?Hcl; try done; [|apply (sim_follower _ _ Hs)].
    change ((forget (sy_node s)) <| rn_callbacks := cb |> = (forget a) <| rn_callbacks := cb |>).
    by rewrite (sim_node _ _ Hs).
  - destruct (call_check c (sy_node s)) eqn:Hk; [|done].
    apply (sim_client_goto s a (sy_node s) (sy_mutex s)); rewrite ?Hcl; try done; [apply Hs..|].
    destruct c as [info|e d|]; cbn in Hk, Hl |- *; [|pose proof (blen_nonneg d); to_prop; lia|done].
    unfold add_node_check, XDEVICE_MAX_NODES in Hk. to_prop. split; [done|lia].
  - destruct Hl as (Hu&Hel&Hhb).
    apply (sim_client_goto s a _ (sy_mutex s)); rewrite ?Hcl; try done; apply Hs.
Qed.

(** ** Runs *)

(** The operations of a run, in the order in which they take effect. *)
Fixpoint linear (s : sys) (ls : list label) : list raft_op :=
  match ls with
  | [] => []
  | l :: ls =>
      match sys_exec s l with
      | Next s' => option_list (label_op s l) ++ linear s' ls
      | _ => []
      end
  end.

Lemma sys_run_sim b s a ls :
  sim s a → raft_inv b a → 0 <= b → b + Z.of_nat (length ls) <= max_steps → labels_ok s ls →
  match sys_run s ls with
  | Blocked => True
  | Undefined => False
  | Next s' => ∃ a', ok_steps a (linear s ls) ∧ raft_steps a (linear s ls) = Some a' ∧ sim s' a' ∧
                     raft_inv (b + Z.of_nat (length ls)) a'
  end.
Proof.
  revert b s a. induction ls as [|l ls IH]; intros b s a Hs Hinv Hb Hlen Hok.
  { exists a. rewrite Z.add_0_r. by split_and!. }
  cbn [length] in Hlen |- *. destruct Hok as [Hl Hok]. cbn [sys_run linear].
  pose proof (sys_exec_sim b s a l Hs Hinv ltac:(lia) Hl) as Hstep.
  destruct (sys_exec s l) as [| |s1]; [done..|]. cbn in Hstep.
  replace (b + Z.of_nat (S (length ls))) with (b + 1 + Z.of_nat (length ls)) by lia.
  destruct (label_op s l) as [op|]; cbn in Hstep |- *.
  - destruct Hstep as (Hop&a1&Ha1&Hs1). destruct (raft_step_inv b a op) as (a2&Ha2&Hinv2); [done|lia|done|].
    assert (a2 = a1) as -> by congruence. specialize (IH (b + 1) s1 a1 Hs1 Hinv2 ltac:(lia) ltac:(lia) Hok).
    rewrite Ha1. destruct (sys_run s1 ls); [done..|]. destruct IH as (a'&Hoks&Hrest). by exists a'.
  - apply IH; try done; [|lia..]. eapply raft_inv_mono; [done|lia].
Qed.

(** The states of a disciplined run of a new node, and the node of the atomic steps. *)
Definition disciplined (n : xdevice_raft_node) (ls : list label) : Prop :=
  (∃ e id, xdevice_raft_create_node e (Some id) = Some n) ∧
  Z.of_nat (length ls) < max_steps ∧ labels_ok (sys_initial n) ls.

Lemma disciplined_sim n ls :
  disciplined n ls →
  match sys_run (sys_initial n) ls with
  | Blocked => True
  | Undefined => False
  | Next s' => ∃ a', ok_steps n (linear (sys_initial n) ls) ∧
      raft_steps n (linear (sys_initial n) ls) = Some a' ∧ sim s' a' ∧
      raft_inv (0 + Z.of_nat (length ls)) a'
  end.
Proof.
  intros ((e&id&Hc)&Hlen&Hok). apply sys_run_sim; try done; [by eapply sim_initial|by eapply create_inv|lia].
Qed.

(** ** Data races *)

Lemma sys_run_app s ls1 ls2 s1 :
  sys_run s ls1 = Next s1 → sys_run s (ls1 ++ ls2) = sys_run s1 ls2.
Proof.
  revert s. induction ls1 as [|l ls1 IH]; intros s H; cbn in *; [by injection H as ->|].
  destruct (sys_exec s l); [done..|by apply IH].
Qed.

Lemma labels_ok_app s ls1 ls2 : labels_ok s (ls1 ++ ls2) → labels_ok s ls1.
Proof.
  revert s. induction ls1 as [|l ls1 IH]; intros s; cbn; [done|]. intros [Hl Hok]. split; [done|].
  destruct (sys_exec s l); [done..|by apply IH].
Qed.

Lemma labels_ok_drop s ls1 ls2 s1 :
  labels_ok s (ls1 ++ ls2) → sys_run s ls1 = Next s1 → labels_ok s1 ls2.
Proof.
  revert s. induction ls1 as [|l ls1 IH]; intros s Hok Hrun; cbn in *; [by injection Hrun as ->|].
  destruct Hok as [_ Hok]. destruct (sys_exec s l); [done..|by eapply IH].
Qed.

(** Some step of the run is a race. *)
Fixpoint run_racy (s : sys) (ls : list label) : bool :=
  match ls with
  | [] => false
  | l :: ls =>
      match sys_exec s l with
      | Blocked => false
      | Undefined => racy s l
      | Next s' => racy s l || run_racy s' ls
      end
  end.

Lemma c_run_eq s ls : c_run s ls = if run_racy s ls then Undefined else sys_run s ls.
Proof.
  revert s. induction ls as [|l ls IH]; intros s; [done|]. cbn [c_run run_racy sys_run]. unfold c_exec.
  destruct (sys_exec s l) as [| |s1]; [done|by destruct (racy s l)|].
  destruct (racy s l); [done|apply IH].
Qed.

Lemma run_racy_iff s ls :
  run_racy s ls = true ↔
    ∃ ls1 l ls2 s1, ls = ls1 ++ l :: ls2 ∧ sys_run s ls1 = Next s1 ∧ sys_exec s1 l ≠ Blocked ∧ racy s1 l = true.
Proof.
  split.
  - revert s. induction ls as [|l ls IH]; intros s; [done|]. cbn [run_racy]. intros H.
    assert (Hhere : sys_exec s l ≠ Blocked → racy s l = true → ∃ ls1 l' ls2 s1, l :: ls = ls1 ++ l' :: ls2 ∧
      sys_run s ls1 = Next s1 ∧ sys_exec s1 l' ≠ Blocked ∧ racy s1 l' = true) by (intros; by exists [], l, ls, s).
    destruct (sys_exec s l) as [| |s1] eqn:He; [done|by apply Hhere|].
    apply orb_true_iff in H as [H|H]; [by apply Hhere|].
    destruct (IH s1 H) as (ls1&l'&ls2&s2&->&Hrun&Hrest). exists (l :: ls1), l', ls2, s2. split_and!; try apply Hrest; [done|].
    cbn [sys_run]. by rewrite He.
  - intros (ls1&l&ls2&s1&->&Hrun&Hb&Hr). revert s Hrun. induction ls1 as [|l1 ls1 IH]; intros s Hrun; cbn in *.
    + injection Hrun as ->. destruct (sys_exec s1 l); [done|done|by rewrite Hr].
    + destruct (sys_exec s l1) as [| |s2]; [done..|]. apply orb_true_iff. right. by apply IH.
Qed.

(** The run resets the flag while a thread has not been joined. *)
Definition resets_in (s : sys) (ls : list label) : Prop :=
  ∃ ls1 l ls2 s1, ls = ls1 ++ l :: ls2 ∧ sys_run s ls1 = Next s1 ∧ sys_exec s1 l ≠ Blocked ∧
    resets_flag s1 l = true ∧ Exists (λ t, th_joined t = false) (sy_threads s1).

Lemma not_joined_exists s : existsb (λ t, negb (th_joined t)) (sy_threads s) = true ↔
  Exists (λ t, th_joined t = false) (sy_threads s).
Proof.
  rewrite existsb_exists, Exists_exists. setoid_rewrite negb_true_iff.
  by setoid_rewrite list_elem_of_In.
Qed.

(** Of the steps of a disciplined client only those that reset the flag are races. *)
Lemma racy_resets s a l :
  sim s a → label_ok s l → sys_exec s l ≠ Blocked →
  racy s l = true ↔ resets_flag s l = true ∧ Exists (λ t, th_joined t = false) (sy_threads s).
Proof.
  intros Hs Hl Hb. pose proof (sim_client _ _ Hs) as Hc. unfold racy. rewrite andb_true_iff, not_joined_exists.
  split; intros [H1 H2]; split; try done; clear Hb.
  - destruct l as [i e|cb|c| |ok]; try done; cbn in Hl, H2.
    + rewrite Hl in H1. by apply Exists_nil in H1.
    + by destruct c.
    + unfold resets_flag. destruct (sy_client s) as [| | | |c|c| | | | |]; try done; [by destruct ok|by destruct c|].
      cbn in Hc. apply Exists_exists in H1 as (t&Ht&Hj). rewrite Forall_forall in Hc. rewrite Hc in Hj by done. done.
  - destruct l as [i e|cb|c| |ok]; try done. unfold resets_flag in H1. cbn.
    by destruct (sy_client s), ok.
Qed.

Lemma disciplined_races n ls :
  disciplined n ls → run_racy (sys_initial n) ls = true ↔ resets_in (sys_initial n) ls.
Proof.
  intros (Hc&Hlen&Hok). rewrite run_racy_iff. unfold resets_in.
  do 4 (apply exist_proper; intros ?). rename x into ls1, x0 into l, x1 into ls2, x2 into s1.
  split; intros (->&Hrun&Hb&H); split_and!; try done; rewrite length_app in Hlen; cbn in Hlen.
  all: assert (Hdis : disciplined n ls1) by (split_and!; [done|lia|by eapply labels_ok_app]).
  all: pose proof (disciplined_sim n ls1 Hdis) as Hsim; rewrite Hrun in Hsim; destruct Hsim as (a&_&_&Hs&_).
  all: pose proof (labels_ok_drop _ _ _ _ Hok Hrun) as [Hl _].
  all: apply (racy_resets s1 a l); done.
Qed.

(** ** Refinement *)

(** C6: the two threads of a node and a client that adds the members before it starts the
    node. With every access taken as atomic, any interleaving of their steps refines the
    atomic calls: no step is undefined (no use of the node after its release, no second
    join, no access out of bounds), the node is, the [running] flag apart, the one that
    the rounds and calls make when each is executed at once, in the order in which their
    critical sections run, and the mutex is held by the one thread that is between its
    lock and its unlock. In C, where [running] is a plain [bool], the run is the same,
    without a data race, until the flag is reset while a thread has not been joined;
    that step is a race, the only one there is. *)
Theorem raft_threads_refine n ls :
  disciplined n ls →
  sys_run (sys_initial n) ls ≠ Undefined ∧
  (c_run (sys_initial n) ls = Undefined ↔ resets_in (sys_initial n) ls) ∧
  (¬ resets_in (sys_initial n) ls → c_run (sys_initial n) ls = sys_run (sys_initial n) ls) ∧
  ∀ s, sys_run (sys_initial n) ls = Next s →
    ∃ a, ok_steps n (linear (sys_initial n) ls) ∧
         raft_steps n (linear (sys_initial n) ls) = Some a ∧
         forget (sy_node s) = forget a ∧
         (∀ h, holds s h = bool_decide (sy_mutex s = Some h)) ∧
         (sy_freed s = true → Forall (λ t, th_pc t = Exited) (sy_threads s)).
Proof.
  intros Hd. pose proof (disciplined_sim n ls Hd) as H. pose proof (disciplined_races n ls Hd) as Hr.
  assert (Hdef : sys_run (sys_initial n) ls ≠ Undefined) by by destruct (sys_run (sys_initial n) ls).
  rewrite c_run_eq. split_and!; [done| | |].
  - rewrite <- Hr. by destruct (run_racy _ _).
  - rewrite <- Hr. by destruct (run_racy _ _).
  - intros s Hs1. rewrite Hs1 in H. destruct H as (a&Hok&Hst&Hs&_).
    exists a. split_and!; [done|done|apply Hs|apply Hs|].
    intros Hf. apply (sim_freed _ _ Hs) in Hf. pose proof (sim_client _ _ Hs) as Hc. rewrite Hf in Hc.
    apply Forall_lookup. intros i t Hi. eapply sim_joined; [done|done|]. exact (Forall_lookup_1 _ _ _ _ Hc Hi).
Qed.

(** ** Destroying the node *)

(** The steps left to a thread that finds the flag reset, and to the client. *)
Definition pc_left (pc : thread_pc) : nat :=
  match pc with AtLock => 5 | AtRound => 4 | AtUnlock => 3 | AtSleep => 2 | AtTest => 1 | Exited => 0 end.

Definition client_left (pc : client_pc) : nat :=
  match pc with DestroyFirst => 3 | DestroySecond => 2 | DestroyFree => 1 | _ => 0 end.

Definition steps_left (s : sys) : nat :=
  sum_list_with (pc_left ∘ th_pc) (sy_threads s) + client_left (sy_client s).

Definition destroying (s : sys) : bool :=
  match sy_client s with DestroyFirst | DestroySecond | DestroyFree | Gone => true | _ => false end.

Lemma sum_list_with_insert {A} (f : A → nat) l i x y :
  l !! i = Some x → (sum_list_with f (<[i:=y]> l) + f x = sum_list_with f l + f y)%nat.
Proof.
  revert i. induction l as [|z l IH]; intros [|i] Hi; try done; cbn.
  - injection Hi as ->. lia.
  - specialize (IH i Hi).
    change ((f z + sum_list_with f (<[i:=y]> l) + f x)%nat = (f z + sum_list_with f l + f y)%nat). lia.
Qed.

Lemma thread_left s i t pc :
  sy_threads s !! i = Some t →
  (steps_left (goto i t pc s) + pc_left (th_pc t) = steps_left s + pc_left pc)%nat.
Proof.
  intros Hi. pose proof (sum_list_with_insert (pc_left ∘ th_pc) _ i t (t <| th_pc := pc |>) Hi) as H.
  unfold steps_left. cbn -[sum_list_with insert] in *. change (list_insert i) with (insert (M:=list thread) i). lia.
Qed.

Lemma join_left s h pc s' :
  exec_join s h pc = Next s' →
  sy_client s' = pc ∧ (steps_left s' + client_left (sy_client s) = steps_left s + client_left pc)%nat.
Proof.
  unfold exec_join. destruct (sy_threads s !! h) as [t|] eqn:Hi; [|done].
  destruct (th_joined t); [done|]. destruct (decide (th_pc t = Exited)); [|done]. intros [= <-]. split; [done|].
  pose proof (sum_list_with_insert (pc_left ∘ th_pc) _ h t (t <| th_joined := true |>) Hi) as H.
  unfold steps_left. cbn -[sum_list_with insert] in *. change (list_insert h) with (insert (M:=list thread) h). lia.
Qed.

(** Each step of a system that is being destroyed is one step less. *)
Lemma destroy_step s a l s' :
  sim s a → destroying s = true → sys_exec s l = Next s' →
  destroying s' = true ∧ steps_left s = S (steps_left s').
Proof.
  intros Hs Hd Hstep. pose proof (sim_client _ _ Hs) as Hc. unfold sys_exec in Hstep.
  destruct l as [i e|cb|c| |ok]; try (unfold destroying in Hd; by destruct (sy_client s)).
  - unfold exec_thread in Hstep. destruct (sy_threads s !! i) as [t|] eqn:Hi; [|done].
    assert (Hrun : th_pc t ≠ Exited → rn_running (sy_node s) = false).
    { intros Hpc. unfold destroying in Hd. destruct (sy_client s); try done; cbn in Hc; try tauto;
        destruct Hpc; eapply sim_joined; try done; exact (Forall_lookup_1 _ _ _ _ Hc Hi). }
    assert (Hgo : ∀ pc n m, (pc_left (th_pc t) = S (pc_left pc))%nat →
      let s' := (goto i t pc s) <| sy_node := n |> <| sy_mutex := m |> in
      destroying s' = true ∧ steps_left s = S (steps_left s')).
    { intros pc n m Hpc. cbn zeta. split; [done|].
      change (steps_left _) with (steps_left (goto i t pc s)) at 2. pose proof (thread_left s i t pc Hi). lia. }
    destruct (th_pc t) eqn:Hpc; try done; [| | | |]; try (destruct (sy_freed s); [done|]).
    + rewrite Hrun in Hstep by done. injection Hstep as <-. by apply (Hgo Exited (sy_node s) (sy_mutex s)).
    + destruct (sy_mutex s); [done|]. injection Hstep as <-. by apply (Hgo AtRound (sy_node s)).
    + destruct (thread_round _ _ _) as [n|]; [|done]. injection Hstep as <-. by apply (Hgo AtUnlock n (sy_mutex s)).
    + injection Hstep as <-. by apply (Hgo AtSleep (sy_node s)).
    + injection Hstep as <-. by apply (Hgo AtTest (sy_node s) (sy_mutex s)).
  - assert (Hjoin : ∀ h pc, (client_left (sy_client s) = S (client_left pc))%nat →
      match pc with DestroySecond | DestroyFree => true | _ => false end = true →
      exec_join_handle s h pc = Next s' → destroying s' = true ∧ steps_left s = S (steps_left s')).
    { intros h pc Hl Hpc Hj. destruct h as [|h|]; cbn in Hj; [| |done].
      - injection Hj as <-. split; [by destruct pc|]. unfold steps_left. cbn. lia.
      - apply join_left in Hj as [Hcl Hsl]. split; [unfold destroying; by rewrite Hcl; destruct pc|lia]. }
    unfold exec_client in Hstep. unfold destroying in Hd.
    destruct (sy_client s) eqn:Hcl; try done; [by refine (Hjoin _ _ _ _ Hstep)..|].
    destruct (sy_mutex s); [done|]. injection Hstep as <-. split; [done|].
    unfold steps_left. rewrite Hcl. cbn. lia.
Qed.

(** Some step is possible until the node is released. *)
Lemma destroy_progress b s a :
  sim s a → raft_inv b a → 0 <= b < max_steps → destroying s = true → sy_client s ≠ Gone →
  ∃ l s', label_ok s l ∧ sys_exec s l = Next s'.
Proof.
  intros Hs Hinv Hb Hd Hg.
  assert (Hdo : ∀ l, label_ok s l → sys_exec s l ≠ Blocked → ∃ l s', label_ok s l ∧ sys_exec s l = Next s').
  { intros l Hl Hnb. pose proof (sys_exec_sim b s a l Hs Hinv Hb Hl) as H. exists l.
    destruct (sys_exec s l); by eauto. }
  assert (Henv : raft_env_ok env_no_thread) by by split.
  assert (Hthread : ∀ i t, sy_threads s !! i = Some t → th_pc t ≠ Exited → (th_pc t = AtLock → sy_mutex s = None) →
    ∃ l s', label_ok s l ∧ sys_exec s l = Next s').
  { intros i t Hi Hpc Hm. apply (Hdo (LThread i env_no_thread)); [done|]. cbn. unfold exec_thread. rewrite Hi.
    destruct (th_pc t); try done; destruct (sy_freed s); try done; [by rewrite Hm|].
    by destruct (thread_round _ _ _). }
  destruct (sy_mutex s) as [[|i]|] eqn:Hm.
  - pose proof (sim_mutex _ _ Hs ByClient) as H. rewrite Hm, bool_decide_eq_true_2 in H by done.
    unfold destroying in Hd. cbn in H. by destruct (sy_client s).
  - pose proof (sim_mutex _ _ Hs (ByThread i)) as H. rewrite Hm, bool_decide_eq_true_2 in H by done.
    cbn in H. destruct (sy_threads s !! i) as [t|] eqn:Hi; [|done].
    apply (Hthread i t Hi); cbn in H; [|intros Hpc]; by destruct (th_pc t).
  - destruct (decide (Forall (λ t, th_pc t = Exited) (sy_threads s))) as [Hall|Hsome]; cycle 1.
    { apply not_Forall_Exists in Hsome; [|apply _]. apply Exists_exists in Hsome as (t&Hin&Hpc).
      apply list_elem_of_lookup in Hin as [i Hi]. by apply (Hthread i t Hi). }
    apply (Hdo (LClient true)); [done|]. cbn. unfold exec_client, exec_join_handle, exec_join.
    assert (Hex : ∀ h t, sy_threads s !! h = Some t → th_pc t = Exited)
      by (intros h t Hi; exact (Forall_lookup_1 _ _ _ _ Hall Hi)).
    unfold destroying in Hd. destruct (sy_client s) eqn:Hcl; try done;
      [destruct (sy_election s)|destruct (sy_heartbeat s)|by rewrite Hm]; try done;
      (destruct (sy_threads s !! _) as [t|] eqn:Hi; [|done]); (destruct (th_joined t); [done|]);
      by rewrite decide_True by by eapply Hex.
Qed.

Lemma steps_left_bound s a : sim s a → (steps_left s <= 13)%nat.
Proof.
  intros Hs. pose proof (sim_threads _ _ Hs) as Hlen. unfold steps_left.
  assert (Hpc : ∀ pc, (pc_left pc <= 5)%nat) by (intros []; cbn; lia).
  assert (Hc : (client_left (sy_client s) <= 3)%nat) by (destruct (sy_client s); cbn; lia).
  destruct (sy_threads s) as [|t [|t' [|]]]; cbn in *; try lia.
  - pose proof (Hpc (th_pc t)). lia.
  - pose proof (Hpc (th_pc t)). pose proof (Hpc (th_pc t')). lia.
Qed.

Lemma steps_left_zero s a : sim s a → destroying s = true → steps_left s = 0%nat ↔ sy_freed s = true.
Proof.
  intros Hs Hd. rewrite (sim_freed _ _ Hs). unfold steps_left, destroying in *.
  pose proof (sim_client _ _ Hs) as Hc. split; [destruct (sy_client s); cbn; done || lia|].
  intros Hg. rewrite Hg in Hc |- *. cbn in Hc |- *. rewrite Nat.add_0_r.
  assert (Hex : Forall (λ t, th_pc t = Exited) (sy_threads s)).
  { apply Forall_lookup. intros i t Hi. eapply sim_joined; [done|done|]. exact (Forall_lookup_1 _ _ _ _ Hc Hi). }
  clear -Hex. induction Hex as [|t ts Ht _ IH]; [done|]. cbn in IH |- *. by rewrite IH, Ht.
Qed.

Lemma destroy_run b s a ls s' :
  sim s a → raft_inv b a → 0 <= b → b + Z.of_nat (length ls) <= max_steps → labels_ok s ls →
  destroying s = true → sys_run s ls = Next s' →
  destroying s' = true ∧ (length ls + steps_left s' = steps_left s)%nat.
Proof.
  revert b s a. induction ls as [|l ls IH]; intros b s a Hs Hinv Hb Hlen Hok Hd Hrun.
  { by injection Hrun as <-. }
  cbn [length sys_run labels_ok] in *. destruct Hok as [Hl Hok].
  pose proof (sys_exec_sim b s a l Hs Hinv ltac:(lia) Hl) as Hstep.
  destruct (sys_exec s l) as [| |s1] eqn:He; [done..|].
  destruct (destroy_step s a l s1 Hs Hd He) as [Hd1 Hs1]. cbn in Hstep.
  destruct (label_op s l) as [op|]; cbn in Hstep.
  - destruct Hstep as (Hop&a1&Ha1&Hsim). destruct (raft_step_inv b a op) as (a2&Ha2&Hinv2); [done|lia|done|].
    assert (a2 = a1) as -> by congruence.
    destruct (IH (b + 1) s1 a1) as [? ?]; try done; [lia..|]. split; [done|lia].
  - destruct (IH (b + 1) s1 a) as [? ?]; try done; [eapply raft_inv_mono; [done|lia]|lia..|]. split; [done|lia].
Qed.

(** What a step does to the place of the client and to the number of threads. *)
Lemma thread_keeps s i e s' :
  exec_thread s i e = Next s' → sy_client s' = sy_client s ∧ length (sy_threads s') = length (sy_threads s).
Proof.
  unfold exec_thread. destruct (sy_threads s !! i) as [t|]; [|done].
  assert (Hgo : ∀ pc, length (<[i := t <| th_pc := pc |>]> (sy_threads s)) = length (sy_threads s))
    by (intros; apply length_insert).
  destruct (th_pc t); try done; try (destruct (sy_freed s); [done|]); try (destruct (sy_mutex s); [done|]);
    try (destruct (thread_round _ _ _); [|done]); intros [= <-]; cbn; by rewrite Hgo.
Qed.

Lemma join_keeps s h pc s' :
  exec_join_handle s h pc = Next s' → sy_client s' = pc ∧ length (sy_threads s') = length (sy_threads s).
Proof.
  destruct h as [|h|]; cbn; [by intros [= <-]| |done]. unfold exec_join.
  destruct (sy_threads s !! h); [|done]. destruct (th_joined _); [done|].
  case_decide; [|done]. intros [= <-]. cbn. by rewrite length_insert.
Qed.

Lemma client_keeps s ok s' :
  exec_client s ok = Next s' →
  destroying s' = destroying s ∧ (length (sy_threads s) <= length (sy_threads s'))%nat ∧
  (destroying s = true → length (sy_threads s') = length (sy_threads s)).
Proof.
  assert (Hjoin : ∀ h pc, destroying (s <| sy_client := pc |>) = destroying s → exec_join_handle s h pc = Next s' →
    destroying s' = destroying s ∧ (length (sy_threads s) <= length (sy_threads s'))%nat ∧
    (destroying s = true → length (sy_threads s') = length (sy_threads s))).
  { intros h pc Hd Hj. apply join_keeps in Hj as [Hcl Hlen]. split_and!; [|lia|done].
    rewrite <- Hd. unfold destroying. by rewrite Hcl. }
  unfold exec_client, destroying in *. destruct (sy_client s) eqn:Hcl; try done; try destruct ok;
    try (destruct (sy_mutex s); [done|]); try (destruct (call_body _ _); [|done]);
    try (by intros [= <-]; cbn; rewrite ?length_app; cbn; split_and!; [|lia|]); try (by apply Hjoin).
  all: destruct (sy_election s) as [|h|]; try done; by apply (Hjoin (Handle h) Idle).
Qed.

Lemma step_keeps s l s' :
  sys_exec s l = Next s' →
  (length (sy_threads s) <= length (sy_threads s'))%nat ∧
  (destroying s = true → destroying s' = true ∧ length (sy_threads s') = length (sy_threads s)) ∧
  (destroying s = false → destroying s' = true → l = LDestroy).
Proof.
  destruct l as [i e|cb|c| |ok]; cbn [sys_exec]; [| | | |].
  - intros [Hcl Hlen]%thread_keeps. unfold destroying. rewrite Hcl. split_and!; [lia|done|congruence].
  - unfold destroying. destruct (sy_client s); try done. by intros [= <-].
  - unfold destroying. destruct (sy_client s) eqn:Hcl; try done. intros [= <-].
    destruct (call_check _ _); [done|by rewrite Hcl].
  - unfold destroying. destruct (sy_client s); try done. by intros [= <-].
  - intros (Hd&Hlen&Heq)%client_keeps. rewrite Hd. split_and!; [lia|auto|congruence].
Qed.

(** Threads are not forgotten, and a system that is being destroyed gets no new ones. *)
Lemma run_keeps s ls s' :
  sys_run s ls = Next s' →
  (length (sy_threads s) <= length (sy_threads s'))%nat ∧
  (destroying s = true → length (sy_threads s') = length (sy_threads s)).
Proof.
  revert s. induction ls as [|l ls IH]; intros s Hrun; cbn in Hrun; [by injection Hrun as <-|].
  destruct (sys_exec s l) as [| |s1] eqn:He; [done..|]. destruct (step_keeps s l s1 He) as (H1&H1'&_).
  destruct (IH s1 Hrun) as [H2 H2']. split; [lia|]. intros Hd. destruct (H1' Hd) as [Hd1 <-]. auto.
Qed.

(** The reset that began the destruction. *)
Lemma run_reset s ls s' :
  sys_run s ls = Next s' → destroying s = false → destroying s' = true →
  ∃ ls1 ls2 s1, ls = ls1 ++ LDestroy :: ls2 ∧ sys_run s ls1 = Next s1 ∧ sys_exec s1 LDestroy ≠ Blocked ∧
    length (sy_threads s1) = length (sy_threads s').
Proof.
  revert s. induction ls as [|l ls IH]; intros s Hrun Hd Hd'; cbn in Hrun; [injection Hrun as <-; congruence|].
  destruct (sys_exec s l) as [| |s1] eqn:He; [done..|]. destruct (destroying s1) eqn:Hd1.
  - destruct (step_keeps s l s1 He) as (_&_&Hl). rewrite (Hl Hd Hd1) in He |- *. exists [], ls, s. split_and!; [done|done|by rewrite He|].
    destruct (run_keeps s1 ls s' Hrun) as [_ ->]; [|done].
    cbn in He. destruct (sy_client s); try done. by injection He as <-.
  - destruct (IH s1 Hrun Hd1 Hd') as (ls1&ls2&s2&->&Hrun1&Hrest). exists (l :: ls1), ls2, s2.
    split_and!; try apply Hrest; [done|]. cbn. by rewrite He.
Qed.

(** A node that has no threads when it is being destroyed never had any to race with. *)
Lemma no_reset s0 ls0 ls s s' :
  sys_run s0 ls0 = Next s → sys_run s ls = Next s' → destroying s = true → sy_threads s = [] →
  ¬ resets_in s0 (ls0 ++ ls).
Proof.
  intros Hrun0 Hrun Hd Hnil (ls1&l&ls2&s1&Heq&Hrun1&_&_&Hex).
  assert (Hall : sys_run s0 (ls0 ++ ls) = Next s') by by rewrite (sys_run_app _ _ _ _ Hrun0).
  rewrite Heq, (sys_run_app _ _ _ _ Hrun1) in Hall.
  destruct (run_keeps _ _ _ Hall) as [Hle _]. destruct (run_keeps _ _ _ Hrun) as [_ Hsame].
  rewrite Hsame, Hnil in Hle by done. cbn in Hle. destruct (sy_threads s1); [by apply Exists_nil in Hex|cbn in Hle; lia].
Qed.

(** One that has threads had them when the flag was reset. *)
Lemma destroy_resets n ls0 ls s :
  disciplined n (ls0 ++ ls) → sys_run (sys_initial n) ls0 = Next s → destroying s = true → sy_threads s ≠ [] →
  resets_in (sys_initial n) (ls0 ++ ls).
Proof.
  intros (_&_&Hok) Hrun Hd Hne.
  destruct (run_reset _ _ _ Hrun eq_refl Hd) as (ls1&ls2&s1&->&Hrun1&Hb&Hlen).
  exists ls1, LDestroy, (ls2 ++ ls), s1. rewrite <- app_assoc in Hok |- *. split_and!; try done.
  destruct (labels_ok_drop _ _ _ _ Hok Hrun1) as [[Hu _] _].
  destruct (sy_threads s1) as [|t ts]; [by destruct (sy_threads s)|]. left. by apply Forall_cons in Hu as [? _].
Qed.

(** C16: destroying the node, with every access taken as atomic, returns: from the moment
    the flag is reset, whatever the scheduler does, the system has at most 13 more steps
    (five for a thread that was about to take the mutex, three for the client), each step
    is one less, the node is released exactly when none is left, and until then some step
    is possible. In C that is so for a node that has no threads; when it has, the reset of
    the plain [bool] is a data race, and the whole run is undefined. *)
Theorem raft_destroy_returns n ls0 ls s s' :
  disciplined n (ls0 ++ ls) → sys_run (sys_initial n) ls0 = Next s → destroying s = true →
  sys_run s ls = Next s' →
  (length ls + steps_left s' = steps_left s)%nat ∧ (steps_left s <= 13)%nat ∧
  (steps_left s' = 0%nat ↔ sy_freed s' = true) ∧
  (sy_freed s' = false → ∃ l s'', label_ok s' l ∧ sys_exec s' l = Next s'') ∧
  c_run (sys_initial n) (ls0 ++ ls) = (if decide (sy_threads s = []) then Next s' else Undefined).
Proof.
  intros Hd0 Hrun0 Hd Hrun. pose proof Hd0 as (Hc&Hlen&Hok). rewrite length_app in Hlen.
  assert (Hdis : disciplined n ls0) by (split_and!; [done|lia|by eapply labels_ok_app]).
  pose proof (disciplined_sim n ls0 Hdis) as H0. rewrite Hrun0 in H0. destruct H0 as (a&_&_&Hs&Hinv).
  pose proof (labels_ok_drop _ _ _ _ Hok Hrun0) as Hok'.
  pose proof (sys_run_sim _ s a ls Hs Hinv ltac:(lia) ltac:(lia) Hok') as H1. rewrite Hrun in H1.
  destruct H1 as (a'&_&_&Hs'&Hinv').
  destruct (destroy_run _ s a ls s' Hs Hinv) as [Hd' Hsum]; try done; [lia|lia|].
  split_and!; [done|by eapply steps_left_bound|by eapply (steps_left_zero s' a')| |].
  - intros Hf. eapply (destroy_progress _ s' a'); try done; [lia|].
    intros Hg. apply (sim_freed _ _ Hs') in Hg. congruence.
  - assert (Hall : sys_run (sys_initial n) (ls0 ++ ls) = Next s') by (rewrite (sys_run_app _ _ _ _ Hrun0); done).
    rewrite c_run_eq. case_decide as Hnil.
    + destruct (run_racy _ _) eqn:Hr; [|done]. apply (disciplined_races _ _ Hd0) in Hr. by destruct (no_reset (sys_initial n) ls0 ls s s').
    + by rewrite (proj2 (disciplined_races _ _ Hd0) (destroy_resets n ls0 ls s Hd0 Hrun0 Hd Hnil)).
Qed.

(** Nothing in [xdevice_raft_start_node] refuses a node that runs: a second start
    overwrites the handles of the first two threads, destroying the node waits for the
    last two only and releases it, and the first ones then use it. (In C the second start
    is a race already: the threads read the callbacks and the flag that it writes.) *)
Theorem raft_start_twice n cb cb' e :
  let start cb := [LStart cb; LClient true; LClient true] in
  let destroy := [LDestroy; LThread 2 e; LThread 3 e; LClient true; LClient true; LClient true] in
  let ls := start cb ++ start cb' ++ destroy in
  (∃ s, sys_run (sys_initial n) ls = Next s ∧ sy_freed s = true ∧
        th_pc <$> sy_threads s = [AtTest; AtTest; Exited; Exited]) ∧
  sys_run (sys_initial n) (ls ++ [LThread 0 e]) = Undefined ∧
  c_run (sys_initial n) (start cb ++ start cb') = Undefined.
Proof.
  split; [|by split; vm_compute]. eexists. split; [vm_compute; reflexivity|by vm_compute].
Qed.

(** A node whose start failed cannot be destroyed: after a failure at the first thread its
    handle is unspecified, after one at the second thread the first is joined again. *)
Theorem raft_failed_start_destroy n cb e :
  sys_run (sys_initial n) [LStart cb; LClient false; LDestroy; LClient true] = Undefined ∧
  sys_run (sys_initial n) ([LStart cb; LClient true; LClient false; LThread 0 e; LClient true] ++
                           [LDestroy; LClient true]) = Undefined.
Proof. by split; vm_compute. Qed.

(** ** A run, for the witnesses

    Three members, a start, an election that thread 0 wins while the client waits to
    append and thread 1 waits for the mutex, and the destruction. *)
Definition w_labels : list label :=
  let add id := [LCall (CallAdd (w_info id)); LClient true; LClient true; LClient true] in
  add "n1" ++ add "n2" ++ add "n3" ++ [LStart w_callbacks; LClient true; LClient true] ++
  ((λ i, LThread i w_env_grant) <$> [0; 1; 0; 0]%nat) ++
  [LCall (CallAppend w_env (chars "op")); LThread 0 w_env_grant; LClient true; LClient true; LClient true;
   LDestroy].

Definition w_labels_end : list label :=
  ((λ i, LThread i w_env_grant) <$> [0; 1; 1; 0; 1; 1; 1]%nat) ++ [LClient true; LClient true; LClient true].

Lemma w_disciplined : disciplined w_node0 (w_labels ++ w_labels_end).
Proof.
  split_and!; [exists w_env, "n1"%string; vm_compute; reflexivity|vm_compute; reflexivity|].
  vm_compute. repeat split; try discriminate; repeat constructor.
Qed.

(** The first part of the run: the operations take effect in this order, and thread 1
    waits for the mutex when the client begins to destroy the node. *)
Lemma w_run :
  match sys_run (sys_initial w_node0) w_labels with
  | Next s => (th_pc <$> sy_threads s, destroying s, steps_left s)
  | _ => ([], false, 0%nat)
  end = ([AtSleep; AtLock], true, 10%nat).
Proof. vm_compute. reflexivity. Qed.

Lemma w_linear :
  (λ a, (rn_state a, rn_log_size a)) <$> raft_steps w_node0 (linear (sys_initial w_node0) w_labels) =
  Some (XDEVICE_NODE_LEADER, 1).
Proof. vm_compute. reflexivity. Qed.

Lemma w_run_end :
  match sys_run (sys_initial w_node0) (w_labels ++ w_labels_end) with
  | Next s => sy_freed s | _ => false
  end = true.
Proof. vm_compute. reflexivity. Qed.

Lemma raft_threads_refine_witness :
  ∃ s a, sys_run (sys_initial w_node0) w_labels = Next s ∧
    raft_steps w_node0 (linear (sys_initial w_node0) w_labels) = Some a ∧
    forget (sy_node s) = forget a ∧ rn_state a = XDEVICE_NODE_LEADER ∧ rn_log_size a = 1 ∧
    th_pc <$> sy_threads s = [AtSleep; AtLock].
Proof.
  assert (Hd : disciplined w_node0 w_labels).
  { destruct w_disciplined as (Hc&_&Hok). split_and!; [done|vm_compute; reflexivity|].
    exact (labels_ok_app _ _ _ Hok). }
  destruct (raft_threads_refine w_node0 w_labels Hd) as (_&_&_&H).
  pose proof w_run as Hr. destruct (sys_run (sys_initial w_node0) w_labels) as [| |s]; [done..|].
  destruct (H s eq_refl) as (a&_&Ha&Hf&_). pose proof w_linear as Hl. rewrite Ha in Hl.
  exists s, a. split_and!; [done|done|done|..]; cbn in Hl; congruence.
Defined.

Lemma raft_destroy_returns_witness :
  ∃ s s', sys_run (sys_initial w_node0) w_labels = Next s ∧ sys_run s w_labels_end = Next s' ∧
    steps_left s = 10%nat ∧ steps_left s' = 0%nat ∧ sy_freed s' = true ∧
    c_run (sys_initial w_node0) (w_labels ++ w_labels_end) = Undefined.
Proof.
  pose proof w_run as Hr. pose proof w_run_end as He.
  destruct (sys_run (sys_initial w_node0) w_labels) as [| |s] eqn:Hs; [discriminate Hr..|].
  rewrite (sys_run_app _ _ w_labels_end _ Hs) in He. injection Hr as Hpc Hds Hleft.
  destruct (sys_run s w_labels_end) as [| |s'] eqn:Hs'; [discriminate He..|].
  destruct (raft_destroy_returns w_node0 w_labels w_labels_end s s' w_disciplined Hs Hds Hs') as (_&_&Hz&_&Hrace).
  rewrite decide_False in Hrace; [|intros Hnil; rewrite Hnil in Hpc; discriminate Hpc].
  exists s, s'. split_and!; [reflexivity|exact Hs'|exact Hleft|by apply Hz|exact He|exact Hrace].
Defined.
