(* ===== verification/Getopt.v ===== *)
(** * Getopt: command lines ([getopt_long] and [atoi] as the two programs use them)

    Both [main] functions read their arguments with [getopt_long], which looks at the
    whole command line: it collects operands and goes on behind them, up to ["--"]. A
    long option may be abbreviated. ([POSIXLY_CORRECT], which ends this, is taken to be
    unset.) [scan] gives the results of the successive calls and
    the operands that are left at the end; the callers stop at the first result they
    reject. *)

From Stdlib Require Import String.
From stdpp Require Import base numbers list strings.
From S2P Require Import XDevice Prelude.
Local Open Scope Z_scope.

(** The character ['c'] of a short option. *)
Abbreviation opt_char := Init.Byte.byte.

(** [{name, has_arg, 0, val}]; short options with an argument have a colon in the
    option string. *)
Record long_option := mk_long_option {
  lo_name : string;
  lo_has_arg : bool;
  lo_val : opt_char
}.

Record opt_spec := mk_opt_spec {
  os_short : list (opt_char * bool);
  os_long : list long_option
}.

(** A result of [getopt_long]: an option with its [optarg], or ['?']. *)
Inductive opt_result : Set :=
| OptFound (c : opt_char) (optarg : option string)
| OptBad.

Definition DASH : opt_char := Byte.x2d.
Definition EQUALS : opt_char := Byte.x3d.

Fixpoint short_has_arg (short : list (opt_char * bool)) (c : opt_char) : option bool :=
  match short with
  | [] => None
  | (x, has_arg) :: short => if decide (x = c) then Some has_arg else short_has_arg short c
  end.

(** The characters behind a single dash; [next] is the following argument. The second
    component tells whether it was taken as the argument of an option. *)
Fixpoint short_cluster (short : list (opt_char * bool)) (cs : list opt_char) (next : option string)
    : list opt_result * bool :=
  match cs with
  | [] => ([], false)
  | c :: cs =>
      match short_has_arg short c with
      | None => let '(rs, took) := short_cluster short cs next in (OptBad :: rs, took)
      | Some false =>
          let '(rs, took) := short_cluster short cs next in (OptFound c None :: rs, took)
      | Some true =>
          match cs, next with
          | _ :: _, _ => ([OptFound c (Some (string_of_list_byte cs))], false)
          | [], Some arg => ([OptFound c (Some arg)], true)
          | [], None => ([OptBad], false)
          end
      end
  end.

(** The name of a long option and its value, which an equals sign separates. *)
Fixpoint split_equals (cs : list opt_char) : list opt_char * option string :=
  match cs with
  | [] => ([], None)
  | c :: cs =>
      if decide (c = EQUALS) then ([], Some (string_of_list_byte cs))
      else let '(name, val) := split_equals cs in (c :: name, val)
  end.

(** An exact name, or else the only one the given name is a prefix of. *)
Definition find_long (long : list long_option) (name : list opt_char) : option long_option :=
  match filter (λ o, chars (lo_name o) = name) long with
  | o :: _ => Some o
  | [] =>
      match filter (λ o, take (length name) (chars (lo_name o)) = name) long with
      | [o] => Some o
      | _ => None
      end
  end.

(** An argument that starts with two dashes. *)
Definition long_option_result (long : list long_option) (cs : list opt_char)
    (next : option string) : opt_result * bool :=
  let '(name, val) := split_equals cs in
  match find_long long name with
  | None => (OptBad, false)
  | Some o =>
      match lo_has_arg o, val with
      | true, Some v => (OptFound (lo_val o) (Some v), false)
      | true, None =>
          match next with
          | Some arg => (OptFound (lo_val o) (Some arg), true)
          | None => (OptBad, false)
          end
      | false, Some _ => (OptBad, false)
      | false, None => (OptFound (lo_val o) None, false)
      end
  end.

(** What one argument is. *)
Inductive arg_kind : Set :=
| ArgEnd                                   (* "--" *)
| ArgLong (cs : list opt_char)
| ArgShort (cs : list opt_char)
| ArgOperand.

Definition classify (arg : string) : arg_kind :=
  match chars arg with
  | c1 :: c2 :: cs =>
      if decide (c1 = DASH) then
        if decide (c2 = DASH) then match cs with [] => ArgEnd | _ => ArgLong cs end
        else ArgShort (c2 :: cs)
      else ArgOperand
  | _ => ArgOperand
  end.

(** The arguments behind the program's name. *)
Fixpoint scan (spec : opt_spec) (args : list string) : list opt_result * list string :=
  match args with
  | [] => ([], [])
  | arg :: rest =>
      match classify arg with
      | ArgEnd => ([], rest)
      | ArgOperand => let '(rs, ops) := scan spec rest in (rs, arg :: ops)
      | ArgLong cs =>
          let '(r, took) := long_option_result (os_long spec) cs (head rest) in
          let '(rs, ops) :=
            match took, rest with true, _ :: rest => scan spec rest | _, _ => scan spec rest end in
          (r :: rs, ops)
      | ArgShort cs =>
          let '(rs1, took) := short_cluster (os_short spec) cs (head rest) in
          let '(rs, ops) :=
            match took, rest with true, _ :: rest => scan spec rest | _, _ => scan spec rest end in
          (rs1 ++ rs, ops)
      end
  end.

(** ** Numbers *)

Definition is_space (c : opt_char) : bool :=
  bool_decide (c ∈ [Byte.x20; Byte.x09; Byte.x0a; Byte.x0b; Byte.x0c; Byte.x0d]).

Definition digit_value (c : opt_char) : option Z :=
  let n := Z.of_N (Byte.to_N c) - 48 in
  if (0 <=? n) && (n <=? 9) then Some n else None.

Fixpoint skip_spaces (cs : list opt_char) : list opt_char :=
  match cs with
  | c :: cs' => if is_space c then skip_spaces cs' else cs
  | [] => []
  end.

(** The digits at the start, behind [acc]. *)
Fixpoint read_digits (acc : Z) (cs : list opt_char) : Z :=
  match cs with
  | c :: cs => match digit_value c with Some d => read_digits (10 * acc + d) cs | None => acc end
  | [] => acc
  end.

(** [None] when the value is not an [int]: C leaves that undefined. *)
Definition atoi (s : string) : option Z :=
  let v :=
    match skip_spaces (chars s) with
    | c :: cs =>
        if decide (c = DASH) then - read_digits 0 cs
        else if decide (c = Byte.x2b) then read_digits 0 cs
        else read_digits 0 (c :: cs)
    | [] => 0
    end in
  if bool_decide (- 2 ^ 31 <= v < 2 ^ 31) then Some v else None.

(** [(uint16_t)atoi(optarg)]. *)
Definition port_of (s : string) : option Z := v ← atoi s; Some (v mod 2 ^ 16).

(** ** Lemmas *)

(** A single argument is looked at before the ones behind it. *)
Lemma scan_bad_long spec cs arg rest :
  classify arg = ArgLong cs → find_long (os_long spec) (split_equals cs).1 = None →
  ∃ rs ops, scan spec (arg :: rest) = (OptBad :: rs, ops).
Proof.
  intros Hc Hf. cbn. rewrite Hc. unfold long_option_result.
  destruct (split_equals cs) as [name val]. cbn in Hf. rewrite Hf.
  destruct (scan spec rest) as [rs ops]. by exists rs, ops.
Qed.

Lemma scan_operand spec arg rest :
  classify arg = ArgOperand →
  scan spec (arg :: rest) = ((scan spec rest).1, arg :: (scan spec rest).2).
Proof. intros Hc. cbn. rewrite Hc. by destruct (scan spec rest). Qed.

Lemma scan_end spec arg rest : classify arg = ArgEnd → scan spec (arg :: rest) = ([], rest).
Proof. intros Hc. cbn. by rewrite Hc. Qed.

(** An option with its value behind an equals sign. *)
Lemma split_equals_app name val :
  EQUALS ∉ name → split_equals (name ++ EQUALS :: chars val) = (name, Some val).
Proof.
  induction name as [|c name IH]; intros Hn; cbn.
  - by rewrite string_of_chars.
  - apply not_elem_of_cons in Hn as [Hc Hn]. rewrite decide_False by congruence. by rewrite IH.
Qed.

Lemma scan_long_value spec o name val arg rest :
  classify arg = ArgLong (name ++ EQUALS :: chars val) → EQUALS ∉ name →
  find_long (os_long spec) name = Some o → lo_has_arg o = true →
  scan spec (arg :: rest) =
    (OptFound (lo_val o) (Some val) :: (scan spec rest).1, (scan spec rest).2).
Proof.
  intros Hc Hn Hf Ha. cbn. rewrite Hc. unfold long_option_result.
  rewrite split_equals_app, Hf, Ha by done. by destruct (scan spec rest).
Qed.
