(* ===== verification/Double.v ===== *)
(** * Double: the type [double] and [strtod]

    What the size parser and the size formatter of the command line tool use of
    floating point: the numbers of the binary64 format, rounding to them, products
    with a power of two, the conversions from and to [uint64_t], and the C library's
    [strtod] in the "C" locale. *)

From Stdlib Require Import String.
From stdpp Require Import base numbers list strings pretty.
From S2P Require Import XDevice Prelude Getopt.
Local Open Scope Z_scope.

(** A value of type [double]: [m * 2^e], an infinity or not a number. *)
Inductive double : Set :=
| DFinite (m e : Z)
| DInf (negative : bool)
| DNan.

(** [d <= 0]. *)
Definition double_le_0 (d : double) : bool :=
  match d with
  | DFinite m _ => m <=? 0
  | DInf negative => negative
  | DNan => false
  end.

(** The product with a power of two, [0 <= k], is exact, or infinite when it overflows. *)
Definition double_mul_pow2 (d : double) (k : Z) : double :=
  match d with
  | DFinite m e =>
      if bool_decide (Z.abs m * 2 ^ (Z.max 0 (e + k)) < 2 ^ 1024 * 2 ^ (Z.max 0 (- (e + k))))
      then DFinite m (e + k) else DInf (m <? 0)
  | _ => d
  end.

(** [(uint64_t)d]: truncation; [None] when the value is not in the type. *)
Definition double_to_u64 (d : double) : option Z :=
  match d with
  | DFinite m e =>
      let z := if 0 <=? e then m * 2 ^ e else Z.quot m (2 ^ (- e)) in
      if bool_decide (0 <= z < 2 ^ 64) then Some z else None
  | _ => None
  end.

(** [n / d] as an integer: to the nearest, ties to even. *)
Definition round_half_even (n d : Z) : Z :=
  let q := n / d in
  let r := n mod d in
  if 2 * r <? d then q else if d <? 2 * r then q + 1 else if Z.even q then q else q + 1.

(** [(double)n] of an unsigned integer: 53 significant bits. *)
Definition u64_to_double (n : Z) : Z :=
  let k := Z.max 0 (Z.log2 n - 52) in round_half_even n (2 ^ k) * 2 ^ k.

(** The exponent of the leading bit of [n / d], for positive [n] and [d]. *)
Definition quot_log2 (n d : Z) : Z :=
  let l := Z.log2 n - Z.log2 d in
  if d * 2 ^ (Z.max 0 l) <=? n * 2 ^ (Z.max 0 (- l)) then l else l - 1.

(** [n / d] rounded to the format, for [0 <= n] and [0 < d]: 53 significant bits, no
    unit below [2^-1074], infinite from [2^1024] on. *)
Definition round_double (n d : Z) : double :=
  if n =? 0 then DFinite 0 0
  else
    let e := Z.max (-1074) (quot_log2 n d - 52) in
    let m := round_half_even (n * 2 ^ (Z.max 0 (- e))) (d * 2 ^ (Z.max 0 e)) in
    if 2 ^ 1024 <=? m * 2 ^ (Z.max 0 e) then DInf false else DFinite m e.

Definition double_opp (d : double) : double :=
  match d with DFinite m e => DFinite (- m) e | DInf s => DInf (negb s) | DNan => DNan end.

(** ** [strtod] *)

Definition to_lower (c : Init.Byte.byte) : Init.Byte.byte :=
  let n := Byte.to_N c in
  if bool_decide (65 <= n <= 90)%N then default c (Byte.of_N (n + 32)) else c.

Definition strcasecmp_eq (a b : string) : bool :=
  bool_decide (to_lower <$> chars a = to_lower <$> chars b).

(** The value of a digit in base 10 or 16. *)
Definition digit_in (base : Z) (c : opt_char) : option Z :=
  let n := Z.of_N (Byte.to_N (to_lower c)) in
  let v := if (48 <=? n) && (n <=? 57) then n - 48
           else if (97 <=? n) && (n <=? 122) then n - 87 else base in
  if v <? base then Some v else None.

(** The digits at the start: the number they extend [acc] to, how many they are, and
    what follows. *)
Fixpoint span_digits (base acc count : Z) (cs : list opt_char) : Z * Z * list opt_char :=
  match cs with
  | c :: cs' =>
      match digit_in base c with
      | Some d => span_digits base (base * acc + d) (count + 1) cs'
      | None => (acc, count, cs)
      end
  | [] => (acc, count, [])
  end.

(** Digits with an optional point, at least one digit: the number without its point,
    the number of digits behind the point, and what follows. *)
Definition mantissa (base : Z) (cs : list opt_char) : option (Z * Z * list opt_char) :=
  let '(m, count, cs1) := span_digits base 0 0 cs in
  match cs1 with
  | Byte.x2e :: cs2 =>
      let '(m, frac, cs3) := span_digits base m 0 cs2 in
      if count + frac =? 0 then None else Some (m, frac, cs3)
  | _ => if count =? 0 then None else Some (m, 0, cs1)
  end.

Definition signed (cs : list opt_char) : bool * list opt_char :=
  match cs with
  | c :: cs' =>
      if decide (c = DASH) then (true, cs') else if decide (c = Byte.x2b) then (false, cs') else (false, cs)
  | [] => (false, [])
  end.

(** An optional exponent: the marker, a sign and at least one digit. *)
Definition exponent (marker : opt_char) (cs : list opt_char) : Z * list opt_char :=
  match cs with
  | c :: cs' =>
      if decide (to_lower c = marker) then
        let '(negative, cs1) := signed cs' in
        let '(x, count, cs2) := span_digits 10 0 0 cs1 in
        if count =? 0 then (0, cs) else ((if negative then - x else x), cs2)
      else (0, cs)
  | [] => (0, [])
  end.

(** [word] in front, in any case. *)
Definition strip_word (word : string) (cs : list opt_char) : option (list opt_char) :=
  let n := length (chars word) in
  if decide (to_lower <$> take n cs = chars word) then Some (drop n cs) else None.

Definition is_alnum_ (c : opt_char) : bool :=
  match digit_in 36 c with Some _ => true | None => bool_decide (c = Byte.x5f) end.

(** ["(...)"] behind ["nan"]. *)
Fixpoint nan_end (cs : list opt_char) : option (list opt_char) :=
  match cs with
  | c :: cs => if is_alnum_ c then nan_end cs else if decide (c = Byte.x29) then Some cs else None
  | [] => None
  end.

Definition nan_chars (cs : list opt_char) : list opt_char :=
  match cs with
  | Byte.x28 :: cs' => default cs (nan_end cs')
  | _ => cs
  end.

(** A hexadecimal number behind ["0x"], or a decimal one. *)
Definition strtod_number (cs : list opt_char) : option (double * list opt_char) :=
  match (hex ← strip_word "0x" cs; mantissa 16 hex) with
  | Some (m, frac, rest) =>
      let '(x, rest) := exponent Byte.x70 rest in
      let x := x - 4 * frac in
      Some (round_double (m * 2 ^ (Z.max 0 x)) (2 ^ (Z.max 0 (- x))), rest)
  | None =>
      '(m, frac, rest) ← mantissa 10 cs;
      let '(x, rest) := exponent Byte.x65 rest in
      let x := x - frac in
      Some (round_double (m * 10 ^ (Z.max 0 x)) (10 ^ (Z.max 0 (- x))), rest)
  end.

(** The value, and what [*endptr] refers to. Without a number that is the whole
    string. *)
Definition strtod (s : string) : double * string :=
  let '(negative, cs) := signed (skip_spaces (chars s)) in
  let found :=
    match strip_word "infinity" cs, strip_word "inf" cs, strip_word "nan" cs with
    | Some rest, _, _ | _, Some rest, _ => Some (DInf false, rest)
    | _, _, Some rest => Some (DNan, nan_chars rest)
    | _, _, _ => strtod_number cs
    end in
  match found with
  | Some (d, rest) => (if negative : bool then double_opp d else d, string_of_list_byte rest)
  | None => (DFinite 0 0, s)
  end.

(** The formats it reads. *)
Example strtod_samples :
  (strtod <$> ["1.5gb"; " +2e3x"; "-0x1.8p1"; "0x"; "INF"; "nan(7)T"; ".5e"; "KB"; "0.1"]) =
  [(DFinite 6755399441055744 (-52), "gb"); (DFinite 8796093022208000 (-42), "x");
   (DFinite (-6755399441055744) (-51), ""); (DFinite 0 0, "x"); (DInf false, ""); (DNan, "T");
   (DFinite 4503599627370496 (-53), "e"); (DFinite 0 0, "KB");
   (DFinite 7205759403792794 (-56), "")].
Proof. by vm_compute. Qed.

(** ** Lemmas on rounding *)

(** A quotient rounded to the nearest is at most half a unit away. *)
Lemma round_half_even_spec n d :
  0 < d → 2 * Z.abs (round_half_even n d * d - n) <= d.
Proof.
  intros Hd. unfold round_half_even. pose proof (Z.div_mod n d ltac:(lia)) as Hdiv.
  pose proof (Z.mod_pos_bound n d Hd) as Hr. set (q := n / d) in *. set (r := n mod d) in *.
  destruct (2 * r <? d) eqn:H1; [to_prop; nia|]. destruct (d <? 2 * r) eqn:H2; to_prop; [nia|].
  destruct (Z.even q); nia.
Qed.

Lemma round_half_even_1 n : round_half_even n 1 = n.
Proof.
  unfold round_half_even. rewrite Z.mod_1_r, Z.div_1_r. by change (2 * 0 <? 1) with true.
Qed.

Lemma log2_lt_53 n : 0 <= n < 2 ^ 53 → Z.log2 n < 53.
Proof. intros Hn. destruct (decide (n = 0)) as [->|]; [done|]. apply Z.log2_lt_pow2; lia. Qed.

Lemma u64_to_double_exact n : 0 <= n < 2 ^ 53 → u64_to_double n = n.
Proof.
  intros Hn%log2_lt_53. unfold u64_to_double. rewrite Z.max_l by lia.
  rewrite Z.pow_0_r, round_half_even_1. apply Z.mul_1_r.
Qed.

Lemma u64_to_double_bound n : 0 <= n < 2 ^ 64 → 0 <= u64_to_double n < 2 ^ 65.
Proof.
  intros Hn. unfold u64_to_double. set (k := Z.max 0 (Z.log2 n - 52)).
  assert (Hk : 0 <= k <= 11).
  { assert (Z.log2 n <= 63); [|lia]. change 63 with (Z.log2 (2 ^ 64 - 1)). apply Z.log2_le_mono. lia. }
  assert (Hp : 0 < 2 ^ k <= 2 ^ 11) by (split; [apply Z.pow_pos_nonneg|apply Z.pow_le_mono_r]; lia).
  pose proof (round_half_even_spec n (2 ^ k) ltac:(lia)) as Hr. change (2 ^ 11) with 2048 in Hp.
  set (r := round_half_even n (2 ^ k)) in *. set (p := 2 ^ k) in *.
  assert (0 <= r) by nia. split; [nia|]. lia.
Qed.

(** An integer of 53 bits is a number of the format. *)
Lemma round_double_integer n :
  0 < n < 2 ^ 53 → round_double n 1 = DFinite (n * 2 ^ (52 - Z.log2 n)) (Z.log2 n - 52).
Proof.
  intros Hn. pose proof (log2_lt_53 n ltac:(lia)) as Hl. pose proof (Z.log2_nonneg n).
  unfold round_double. rewrite (proj2 (Z.eqb_neq n 0)) by lia.
  assert (quot_log2 n 1 = Z.log2 n) as ->.
  { unfold quot_log2. change (Z.log2 1) with 0. rewrite Z.sub_0_r, Z.max_r, Z.max_l by lia.
    rewrite Z.mul_1_l, Z.pow_0_r, Z.mul_1_r. rewrite (proj2 (Z.leb_le _ _)); [done|].
    apply Z.log2_spec. lia. }
  cbn zeta. rewrite (Z.max_r (-1074)), Z.max_r, (Z.max_l 0 (Z.log2 n - 52)) by lia.
  rewrite Z.pow_0_r, round_half_even_1, Z.mul_1_r.
  replace (- (Z.log2 n - 52)) with (52 - Z.log2 n) by lia.
  rewrite (proj2 (Z.leb_gt _ _)); [done|].
  assert (2 ^ (52 - Z.log2 n) <= 2 ^ 52) by (apply Z.pow_le_mono_r; lia).
  assert (2 ^ 53 * 2 ^ 52 < 2 ^ 1024) by (by apply Z.ltb_lt; vm_compute).
  assert (0 <= 2 ^ (52 - Z.log2 n)) by (apply Z.pow_nonneg; lia). nia.
Qed.

(** ** Lemmas on numbers in decimal *)

Definition is_digit (c : opt_char) : Prop := is_Some (digit_in 10 c).

Lemma digit_in_pretty (d : N) :
  (d < 10)%N → digit_in 10 (Ascii.byte_of_ascii (pretty_N_char d)) = Some (Z.of_N d).
Proof.
  intros Hd. assert (Hall : ∀ d : nat, (d < 10)%nat →
    digit_in 10 (Ascii.byte_of_ascii (pretty_N_char (N.of_nat d))) = Some (Z.of_nat d))
    by (intros [|[|[|[|[|[|[|[|[|[|]]]]]]]]]] ?; [reflexivity..|lia]).
  specialize (Hall (N.to_nat d) ltac:(lia)). rewrite N2Nat.id in Hall. rewrite Hall. f_equal. lia.
Qed.

Lemma span_pretty_go x s :
  ∃ count, 0 <= count ∧ ((0 < x)%N → 0 < count) ∧
    span_digits 10 0 0 (chars (pretty_N_go x s)) = span_digits 10 (Z.of_N x) count (chars s).
Proof.
  revert s. induction (N.lt_wf_0 x) as [x _ IH]; intros s.
  destruct (decide (x = 0%N)) as [->|Hne]; [exists 0; by rewrite pretty_N_go_0|].
  rewrite pretty_N_go_step by lia.
  destruct (IH (x `div` 10)%N ltac:(by apply N.div_lt; lia) (String (pretty_N_char (x `mod` 10)) s))
    as (count&Hc&_&->).
  exists (count + 1). split; [lia|]. split; [lia|].
  change (chars (String ?c s)) with (Ascii.byte_of_ascii c :: chars s). cbn [span_digits].
  rewrite digit_in_pretty by (by apply N.mod_lt). f_equal.
  pose proof (N.div_mod x 10 ltac:(done)). lia.
Qed.

(** The digits of a printed number. *)
Lemma span_pretty (x : N) :
  ∃ count, 0 < count ∧ span_digits 10 0 0 (chars (pretty x)) = (Z.of_N x, count, []).
Proof.
  unfold pretty, pretty_N. case_decide as Hx; [subst; by exists 1|].
  destruct (span_pretty_go x "") as (count&_&Hc&->). exists count. split; [lia|done].
Qed.

Lemma span_digits_app base acc count cs rest m n :
  span_digits base acc count cs = (m, n, []) →
  span_digits base acc count (cs ++ rest) = span_digits base m n rest.
Proof.
  revert acc count. induction cs as [|c cs IH]; intros acc count; cbn; [by intros [= -> ->]|].
  destruct (digit_in base c); [apply IH|done].
Qed.

Lemma span_digits_all base acc count cs m n :
  span_digits base acc count cs = (m, n, []) → Forall (λ c, is_Some (digit_in base c)) cs.
Proof.
  revert acc count. induction cs as [|c cs IH]; intros acc count; cbn; [done|].
  destruct (digit_in base c) eqn:Hc; [|done]. intros H. constructor; [by rewrite Hc|by eapply IH].
Qed.

Lemma pretty_digits (x : N) :
  ∃ c cs, chars (pretty x) = c :: cs ∧ is_digit c ∧ Forall is_digit cs.
Proof.
  destruct (span_pretty x) as (count&Hc&Hs). pose proof (span_digits_all _ _ _ _ _ _ Hs) as Hall.
  destruct (chars (pretty x)) as [|c cs]; [cbn in Hs; injection Hs; lia|].
  inversion Hall; subst. by exists c, cs.
Qed.

(** What a digit is not. *)
Lemma is_digit_facts c :
  is_digit c → is_space c = false ∧ c ≠ DASH ∧ c ≠ Byte.x2b ∧ to_lower c ≠ Byte.x69 ∧
    to_lower c ≠ Byte.x6e ∧ to_lower c ≠ Byte.x78.
Proof. intros [v Hv]. destruct c; try done; by vm_compute. Qed.

(** A string that starts with a digit is neither an infinity nor NaN, has no sign and
    no spaces in front. *)
Lemma skip_spaces_digit c cs : is_digit c → skip_spaces (c :: cs) = c :: cs.
Proof. intros (Hs&_)%is_digit_facts. cbn. by rewrite Hs. Qed.

Lemma signed_digit c cs : is_digit c → signed (c :: cs) = (false, c :: cs).
Proof. intros (_&?&?&_)%is_digit_facts. cbn. by rewrite !decide_False by done. Qed.

Lemma strip_word_head word c cs w ws :
  chars word = w :: ws → to_lower c ≠ w → strip_word word (c :: cs) = None.
Proof.
  intros Hw Hc. unfold strip_word. rewrite Hw. cbn [length take fmap list_fmap].
  by rewrite decide_False by congruence.
Qed.

(** Nor is it hexadecimal when no ['x'] follows. *)
Lemma strip_0x_none cs : (∀ c, cs !! 1%nat = Some c → to_lower c ≠ Byte.x78) → strip_word "0x" cs = None.
Proof.
  intros Hx. unfold strip_word. rewrite decide_False; [done|].
  destruct cs as [|c1 [|c2 cs]]; cbn; try congruence.
  specialize (Hx c2 eq_refl). congruence.
Qed.

Lemma strtod_digits s c cs d rest :
  chars s = c :: cs → is_digit c → strtod_number (c :: cs) = Some (d, rest) →
  strtod s = (d, string_of_list_byte rest).
Proof.
  intros Hs Hc Hn. unfold strtod. rewrite Hs, skip_spaces_digit, signed_digit by done.
  destruct (is_digit_facts c Hc) as (_&_&_&Hi&Hna&_).
  rewrite (strip_word_head "infinity" c cs Byte.x69 (drop 1 (chars "infinity"))),
    (strip_word_head "inf" c cs Byte.x69 (drop 1 (chars "inf"))),
    (strip_word_head "nan" c cs Byte.x6e (drop 1 (chars "nan"))) by done.
  by rewrite Hn.
Qed.

(** What may follow a number without being taken for a part of it. *)
Definition number_ends (rest : list opt_char) : Prop :=
  match rest with
  | [] => True
  | c :: _ => digit_in 10 c = None ∧ c ≠ Byte.x2e ∧ to_lower c ≠ Byte.x65 ∧ to_lower c ≠ Byte.x78
  end.

Lemma exponent_ends rest : number_ends rest → exponent Byte.x65 rest = (0, rest).
Proof. destruct rest as [|c rest]; [done|]. intros (_&_&He&_). cbn. by rewrite decide_False. Qed.

Lemma span_ends base m n rest :
  base = 10 → number_ends rest → span_digits base m n rest = (m, n, rest).
Proof. intros ->. destruct rest as [|c rest]; [done|]. intros (Hd&_). cbn. by rewrite Hd. Qed.

Lemma digits_no_0x c cs rest :
  Forall is_digit cs → (∀ c, head rest = Some c → to_lower c ≠ Byte.x78) →
  strip_word "0x" ((c :: cs) ++ rest) = None.
Proof.
  intros Hcs Hrest. apply strip_0x_none. destruct cs as [|c2 cs]; cbn.
  - intros c2 Hc. apply Hrest. by destruct rest.
  - intros ? [= <-]. by apply Forall_inv, is_digit_facts in Hcs as (_&_&_&_&_&?).
Qed.

Lemma mantissa_integer x rest :
  number_ends rest → mantissa 10 (chars (pretty x) ++ rest) = Some (Z.of_N x, 0, rest).
Proof.
  intros Hr. unfold mantissa. destruct (span_pretty x) as (count&Hc&Hs).
  rewrite (span_digits_app _ _ _ _ rest _ _ Hs), span_ends by done.
  assert ((count =? 0) = false) as -> by (apply Z.eqb_neq; lia).
  destruct rest as [|c rest]; [done|]. destruct Hr as (_&Hdot&_). by destruct c.
Qed.

(** A number without a point. *)
Lemma strtod_integer x u :
  number_ends (chars u) → strtod (pretty x +:+ u) = (round_double (Z.of_N x) 1, u).
Proof.
  intros Hu. destruct (pretty_digits x) as (c&cs&Hx&Hc&Hcs).
  rewrite <- (string_of_chars u) at 2. apply strtod_digits with c (cs ++ chars u); [|done|].
  - by rewrite chars_append, Hx.
  - unfold strtod_number. change (c :: cs ++ chars u) with ((c :: cs) ++ chars u).
    rewrite digits_no_0x; [|done|destruct (chars u); [done|]; intros ? [= <-]; apply Hu].
    cbn [mbind option_bind]. rewrite <- Hx, mantissa_integer by done. cbn [mbind option_bind].
    rewrite exponent_ends by done. cbn. by rewrite Z.mul_1_r.
Qed.

Lemma span_dot m n rest : span_digits 10 m n (Byte.x2e :: rest) = (m, n, Byte.x2e :: rest).
Proof. done. Qed.

Lemma span_digits_forall cs acc n rest :
  Forall is_digit cs →
  ∃ m, span_digits 10 acc n (cs ++ rest) = span_digits 10 m (n + Z.of_nat (length cs)) rest.
Proof.
  intros Hcs. revert acc n. induction Hcs as [|c cs [d Hd] _ IH]; intros acc n; cbn [app length span_digits].
  - exists acc. by rewrite Z.add_0_r.
  - rewrite Hd. destruct (IH (10 * acc + d) (n + 1)) as [m ->]. exists m. f_equal. lia.
Qed.

(** A number with a point: what follows it. *)
Lemma strtod_fraction (x y z : N) u :
  number_ends (chars u) → (strtod (pretty x +:+ "." +:+ pretty y +:+ pretty z +:+ u)).2 = u.
Proof.
  intros Hu. destruct (pretty_digits x) as (c&cs&Hx&Hc&Hcs).
  destruct (pretty_digits y) as (c1&cs1&Hy&Hc1&Hcs1), (pretty_digits z) as (c2&cs2&Hz&Hc2&Hcs2).
  set (frac := chars (pretty y) ++ chars (pretty z) ++ chars u).
  assert (Hm : ∃ m f, mantissa 10 ((c :: cs) ++ Byte.x2e :: frac) = Some (m, f, chars u)).
  { unfold mantissa, frac. destruct (span_pretty x) as (n1&?&Hs1).
    rewrite <- Hx, (span_digits_app _ _ _ _ _ _ _ Hs1), span_dot, app_assoc.
    destruct (span_digits_forall (chars (pretty y) ++ chars (pretty z)) (Z.of_N x) 0 (chars u))
      as [m ->]; [rewrite Hy, Hz; by apply Forall_app_2; constructor|].
    rewrite span_ends by done. rewrite (proj2 (Z.eqb_neq _ 0)) by lia. by do 2 eexists. }
  destruct Hm as (m&f&Hm). rewrite <- (string_of_chars u) at 2.
  rewrite (strtod_digits _ c (cs ++ Byte.x2e :: frac)
    (round_double (m * 10 ^ Z.max 0 (0 - f)) (10 ^ Z.max 0 (- (0 - f)))) (chars u)); [done| |done|].
  - by rewrite !chars_append, Hx.
  - unfold strtod_number. change (c :: cs ++ Byte.x2e :: frac) with ((c :: cs) ++ Byte.x2e :: frac).
    rewrite digits_no_0x; [|done|by intros ? [= <-]]. cbn [mbind option_bind].
    rewrite Hm. cbn [mbind option_bind]. by rewrite exponent_ends.
Qed.
