(* ===== verification/Cli.v ===== *)
(** * Cli: the command line tool ([src/main/cli_main.c])

    What the tool does with a command line: its exit status and the calls it makes to
    the device API, in order. The API is declared in [include/xdevice.h] and defined
    nowhere in the repository, so its answers are the environment of a run. The text
    printed is not part of the model, except for the size formatter. *)

From Stdlib Require Import String.
From stdpp Require Import base numbers list strings pretty.
From S2P Require Import XDevice Prelude Raft Getopt Double.
Local Open Scope Z_scope.

(** ** Sizes *)

(** The power of two a unit stands for. *)
Definition unit_log2 (endptr : string) : option Z :=
  if strcasecmp_eq endptr "KB" || strcasecmp_eq endptr "K" then Some 10
  else if strcasecmp_eq endptr "MB" || strcasecmp_eq endptr "M" then Some 20
  else if strcasecmp_eq endptr "GB" || strcasecmp_eq endptr "G" then Some 30
  else if strcasecmp_eq endptr "TB" || strcasecmp_eq endptr "T" then Some 40
  else None.

Definition parse_size_string (size_str : option string) : option Z :=
  match size_str with
  | None => Some 0
  | Some s =>
      let '(size, endptr) := strtod s in
      if double_le_0 size then Some 0
      else
        match (if decide (endptr = "") then Some 0 else unit_log2 endptr) with
        | None => Some 0
        | Some k => double_to_u64 (double_mul_pow2 size k)
        end
  end.

(** ** The device API *)

Inductive api_call : Set :=
| ApiGetVersion
| ApiInit
| ApiCreateDevice (name : string) (size : Z)
| ApiDeleteDevice (name : string)
| ApiGetNodes (count : Z)
| ApiAddNode (node_id address : string) (port : Z)
| ApiCleanup.

(** Its answers. [xdevice_get_nodes] fills in a prefix of the array and sets the
    count. *)
Record cli_env := mk_cli_env {
  ce_init_ok : bool;
  ce_create_device : string → Z → xdevice_error_t;
  ce_delete_device : string → xdevice_error_t;
  ce_get_nodes : xdevice_error_t * list xdevice_node_info_t * Z;
  ce_add_node : string → string → Z → xdevice_error_t
}.

(** A command's exit status and calls; [None] is undefined behaviour. *)
Definition cmd_result : Type := option (Z * list api_call).

(** ** Commands *)

Definition c_n : opt_char := Byte.x6e.
Definition c_s : opt_char := Byte.x73.
Definition c_h : opt_char := Byte.x68.
Definition c_i : opt_char := Byte.x69.
Definition c_a : opt_char := Byte.x61.
Definition c_p : opt_char := Byte.x70.
Definition c_v : opt_char := Byte.x76.

Definition help_option : long_option := mk_long_option "help" false c_h.

Definition create_device_spec : opt_spec :=
  mk_opt_spec [(c_n, true); (c_s, true); (c_h, false)]
    [mk_long_option "name" true c_n; mk_long_option "size" true c_s; help_option].

(** The loop over the options: an exit status, or the two strings. *)
Fixpoint create_device_options (rs : list opt_result) (name size_str : option string)
    : Z + option string * option string :=
  match rs with
  | [] => inr (name, size_str)
  | OptFound c optarg :: rs =>
      if decide (c = c_n) then create_device_options rs optarg size_str
      else if decide (c = c_s) then create_device_options rs name optarg
      else if decide (c = c_h) then inl 0
      else inl 1
  | OptBad :: _ => inl 1
  end.

Definition cmd_create_device (ce : cli_env) (args : list string) : cmd_result :=
  match create_device_options (scan create_device_spec args).1 None None with
  | inl status => Some (status, [])
  | inr (Some name, Some size_str) =>
      size ← parse_size_string (Some size_str);
      if size =? 0 then Some (1, [])
      else
        let error := ce_create_device ce name size in
        Some (if decide (error = XDEVICE_OK) then 0 else 1, [ApiCreateDevice name size])
  | inr _ => Some (1, [])
  end.

Definition delete_device_spec : opt_spec :=
  mk_opt_spec [(c_n, true); (c_h, false)] [mk_long_option "name" true c_n; help_option].

Fixpoint delete_device_options (rs : list opt_result) (name : option string)
    : Z + option string :=
  match rs with
  | [] => inr name
  | OptFound c optarg :: rs =>
      if decide (c = c_n) then delete_device_options rs optarg
      else if decide (c = c_h) then inl 0
      else inl 1
  | OptBad :: _ => inl 1
  end.

Definition cmd_delete_device (ce : cli_env) (args : list string) : cmd_result :=
  match delete_device_options (scan delete_device_spec args).1 None with
  | inl status => Some (status, [])
  | inr None => Some (1, [])
  | inr (Some name) =>
      let error := ce_delete_device ce name in
      Some (if decide (error = XDEVICE_OK) then 0 else 1, [ApiDeleteDevice name])
  end.

(** The list printed is fixed text. *)
Definition cmd_list_devices : cmd_result := Some (0, []).

(** The loop reads the first [count] elements of an array of 64, of which the API has
    written some. *)
Definition cmd_list_nodes (ce : cli_env) : cmd_result :=
  let '(error, nodes, count) := ce_get_nodes ce in
  if decide (error = XDEVICE_OK) then
    if bool_decide (count <= Z.of_nat (length (take (Z.to_nat XDEVICE_MAX_NODES) nodes)))
    then Some (0, [ApiGetNodes XDEVICE_MAX_NODES])
    else None
  else Some (1, [ApiGetNodes XDEVICE_MAX_NODES]).

Definition add_node_spec : opt_spec :=
  mk_opt_spec [(c_i, true); (c_a, true); (c_p, true); (c_h, false)]
    [mk_long_option "id" true c_i; mk_long_option "address" true c_a;
     mk_long_option "port" true c_p; help_option].

(** [None] is the undefined [atoi] of a number that is not an [int]. *)
Fixpoint add_node_options (rs : list opt_result) (node_id address : option string) (port : Z)
    : option (Z + option string * option string * Z) :=
  match rs with
  | [] => Some (inr (node_id, address, port))
  | OptFound c optarg :: rs =>
      if decide (c = c_i) then add_node_options rs optarg address port
      else if decide (c = c_a) then add_node_options rs node_id optarg port
      else if decide (c = c_p) then
        port ← port_of (default "" optarg); add_node_options rs node_id address port
      else if decide (c = c_h) then Some (inl 0)
      else Some (inl 1)
  | OptBad :: _ => Some (inl 1)
  end.

Definition cmd_add_node (ce : cli_env) (args : list string) : cmd_result :=
  options ← add_node_options (scan add_node_spec args).1 None None 8080;
  match options with
  | inl status => Some (status, [])
  | inr (Some node_id, Some address, port) =>
      let error := ce_add_node ce node_id address port in
      Some (if decide (error = XDEVICE_OK) then 0 else 1, [ApiAddNode node_id address port])
  | inr _ => Some (1, [])
  end.

(** The results of the two listings are ignored. *)
Definition cmd_status (ce : cli_env) : cmd_result :=
  '(_, calls1) ← cmd_list_nodes ce;
  '(_, calls2) ← cmd_list_devices;
  Some (0, ApiGetVersion :: calls1 ++ calls2).

(** ** The program *)

Definition global_spec : opt_spec :=
  mk_opt_spec [(c_s, true); (c_h, false); (c_v, false)]
    [mk_long_option "server" true c_s; help_option; mk_long_option "version" false c_v].

(** An exit status with its calls, or the server's address, which is only printed. *)
Fixpoint global_loop (rs : list opt_result) (server_address : option string)
    : Z * list api_call + option string :=
  match rs with
  | [] => inr server_address
  | OptFound c optarg :: rs =>
      if decide (c = c_s) then global_loop rs optarg
      else if decide (c = c_h) then inl (0, [])
      else if decide (c = c_v) then inl (0, [ApiGetVersion])
      else global_loop rs server_address
  | OptBad :: _ => inl (1, [])
  end.

(** The commands that [show_help] lists. *)
Definition help_commands : list string :=
  ["create-device"; "delete-device"; "list-devices"; "device-info"; "list-nodes"; "add-node";
   "remove-node"; "status"; "mount"; "unmount"].

Definition run_command (ce : cli_env) (command : string) (args : list string) : cmd_result :=
  if decide (command = "create-device") then cmd_create_device ce args
  else if decide (command = "delete-device") then cmd_delete_device ce args
  else if decide (command = "list-devices") then cmd_list_devices
  else if decide (command = "list-nodes") then cmd_list_nodes ce
  else if decide (command = "add-node") then cmd_add_node ce args
  else if decide (command = "status") then cmd_status ce
  else Some (1, []).

(** [args] are the arguments behind the program's name. *)
Definition cli_main (ce : cli_env) (args : list string) : cmd_result :=
  match args with
  | [] => Some (1, [])
  | _ =>
      let '(rs, operands) := scan global_spec args in
      match global_loop rs (Some "localhost:8080") with
      | inl result => Some result
      | inr _ =>
          match operands with
          | [] => Some (1, [])
          | command :: cmd_args =>
              if ce_init_ok ce then
                '(result, calls) ← run_command ce command cmd_args;
                Some (result, ApiInit :: calls ++ [ApiCleanup])
              else Some (1, [ApiInit])
          end
      end
  end.

(** ** The size formatter *)

(** ["%.2f"] of [n / 2^k], in hundredths: the quotient is exact, and the decimal
    rounding is to the nearest, ties to even. *)
Definition hundredths (n k : Z) : Z := round_half_even (100 * u64_to_double n) (2 ^ k).

Definition fmt_2f (h : Z) : string :=
  pretty (Z.to_N (h / 100)) +:+ "." +:+ pretty (Z.to_N (h / 10 mod 10)) +:+
    pretty (Z.to_N (h mod 10)).

Definition format_size (bytes buffer_size : Z) : string :=
  snprintf buffer_size
    (if 2 ^ 40 <=? bytes then fmt_2f (hundredths bytes 40) +:+ " TB"
     else if 2 ^ 30 <=? bytes then fmt_2f (hundredths bytes 30) +:+ " GB"
     else if 2 ^ 20 <=? bytes then fmt_2f (hundredths bytes 20) +:+ " MB"
     else if 2 ^ 10 <=? bytes then fmt_2f (hundredths bytes 10) +:+ " KB"
     else pretty (Z.to_N bytes) +:+ " bytes").
