(* ===== verification/CliProps.v ===== *)
(** * CliProps: properties of the command line tool

    Which command lines reach the device API, that the API's context is released on
    every path, and what the sizes mean. *)

From Stdlib Require Import String.
From stdpp Require Import base numbers list strings sets pretty.
From S2P Require Import XDevice Prelude Getopt Double Cli.
Local Open Scope Z_scope.

(** ** Command lines *)

Lemma classify_long name val :
  name ≠ [] → classify (string_of_list_byte (DASH :: DASH :: name ++ EQUALS :: chars val)) =
    ArgLong (name ++ EQUALS :: chars val).
Proof. intros Hn. unfold classify. rewrite chars_of_bytes. cbn. by destruct name. Qed.

(** An argument [--name=val]. *)
Definition long_arg (name val : string) : string := "--" +:+ name +:+ "=" +:+ val.

Lemma long_arg_bytes name val :
  long_arg name val = string_of_list_byte (DASH :: DASH :: chars name ++ EQUALS :: chars val).
Proof.
  apply (inj chars). unfold long_arg. by rewrite chars_of_bytes, !chars_append.
Qed.

(** The options of the commands. *)
Definition command_options : list string := ["name"; "size"; "id"; "address"; "port"].

(** Such an option as an argument, with its value in it or behind it. *)
Definition option_arg (name arg : string) : Prop := arg = "--" +:+ name ∨ ∃ val, arg = long_arg name val.

Lemma command_option_unknown name arg rest :
  name ∈ command_options → option_arg name arg →
  ∃ rs ops, scan global_spec (arg :: rest) = (OptBad :: rs, ops).
Proof.
  intros Hn [->|[val ->]].
  - assert (Hname : classify ("--" +:+ name) = ArgLong (chars name) ∧
      find_long (os_long global_spec) (split_equals (chars name)).1 = None).
    { unfold command_options in Hn. repeat (apply elem_of_cons in Hn as [->|Hn]; [by split; vm_compute|]).
      by apply not_elem_of_nil in Hn. }
    destruct Hname. by eapply scan_bad_long.
  - rewrite long_arg_bytes.
    assert (Hname : (chars name ≠ []) ∧ (EQUALS ∉ chars name) ∧ (find_long (os_long global_spec) (chars name) = None)).
    { unfold command_options in Hn.
      repeat (apply elem_of_cons in Hn as [->|Hn]; [split_and!; [done|by apply (bool_decide_unpack _); vm_compute|by vm_compute]|]).
      by apply not_elem_of_nil in Hn. }
    destruct Hname as (Hne&Heq&Hf). eapply scan_bad_long; [by apply classify_long|].
    by rewrite split_equals_app.
Qed.

Lemma scan_operands_bad spec operands rest rs ops :
  Forall (λ a, classify a = ArgOperand) operands → scan spec rest = (OptBad :: rs, ops) →
  ∃ ops', scan spec (operands ++ rest) = (OptBad :: rs, ops').
Proof.
  intros Hops Hrest. induction Hops as [|a operands Ha _ [ops' IH]]; [by exists ops|].
  cbn [app]. rewrite scan_operand, IH by done. by eexists.
Qed.

(** C39: options of a command are rejected before the command is seen. The main program's
    [getopt_long] looks behind the command and does not know [--name], [--size], [--id],
    [--address] and [--port], so a command line in the form of the program's own usage
    examples ends with status 1 before any call of the API: a command, other operands or
    none, and then one of these options, with an equals sign and a value or without. *)
Theorem cli_command_options_rejected ce operands name arg rest :
  Forall (λ a, classify a = ArgOperand) operands → name ∈ command_options → option_arg name arg →
  cli_main ce (operands ++ arg :: rest) = Some (1, []).
Proof.
  intros Hops Hn Harg. destruct (command_option_unknown name arg rest Hn Harg) as (rs&ops&Hscan).
  destruct (scan_operands_bad _ _ _ _ _ Hops Hscan) as [ops' Hall]. unfold cli_main. rewrite Hall. by destruct operands.
Qed.

(** The commands of the help text without an implementation. *)
Definition missing_commands : list string := ["device-info"; "remove-node"; "mount"; "unmount"].

Lemma scan_operands spec args :
  Forall (λ a, classify a = ArgOperand) args → scan spec args = ([], args).
Proof. induction 1 as [|a args Ha _ IH]; [done|]. by rewrite scan_operand, IH. Qed.

(** Of the ten commands that the help text lists, four are answered as unknown: the exit
    status is 1, after the API's context has been obtained and released for nothing. *)
Theorem cli_missing_commands ce command args :
  ce_init_ok ce = true → Forall (λ a, classify a = ArgOperand) args → command ∈ missing_commands →
  command ∈ help_commands ∧ cli_main ce (command :: args) = Some (1, [ApiInit; ApiCleanup]).
Proof.
  intros Hinit Hargs Hc. unfold cli_main.
  assert (Hop : classify command = ArgOperand ∧ command ∈ help_commands ∧
                ∀ rest, run_command ce command rest = Some (1, [])).
  { unfold missing_commands in Hc.
    repeat (apply elem_of_cons in Hc as [->|Hc]; [split_and!; [by vm_compute|by apply (bool_decide_unpack _)|done]|]).
    by apply not_elem_of_nil in Hc. }
  destruct Hop as (Hop&Hlist&Hrun). split; [done|].
  rewrite scan_operands by by constructor. cbn [global_loop]. by rewrite Hinit, Hrun.
Qed.

(** A command with options behind ["--"]. *)
Lemma cli_main_dashes ce command args :
  cli_main ce ("--" :: command :: args) =
    if ce_init_ok ce then
      '(result, calls) ← run_command ce command args;
      Some (result, ApiInit :: calls ++ [ApiCleanup])
    else Some (1, [ApiInit]).
Proof. done. Qed.

Lemma scan_name_value spec o name val rest :
  name ≠ "" → EQUALS ∉ chars name → find_long (os_long spec) (chars name) = Some o →
  lo_has_arg o = true →
  scan spec (long_arg name val :: rest) =
    (OptFound (lo_val o) (Some val) :: (scan spec rest).1, (scan spec rest).2).
Proof.
  intros Hne Heq Hf Ha. rewrite long_arg_bytes. apply scan_long_value with (chars name); try done.
  apply classify_long. intros Hch. apply Hne. apply (inj chars). by rewrite Hch.
Qed.

(** Creating a device works behind ["--"]: the API is initialised, asked once for the
    device with the given name and the parsed size, and released, and the exit status is
    0 exactly when the device was created. *)
Theorem cli_create_device ce name size_str size :
  ce_init_ok ce = true → parse_size_string (Some size_str) = Some size → size ≠ 0 →
  cli_main ce ["--"; "create-device"; long_arg "name" name; long_arg "size" size_str] =
    Some (if decide (ce_create_device ce name size = XDEVICE_OK) then 0 else 1,
          [ApiInit; ApiCreateDevice name size; ApiCleanup]).
Proof.
  intros Hinit Hsize Hz. rewrite cli_main_dashes, Hinit. unfold run_command.
  rewrite decide_True by done. unfold cmd_create_device.
  rewrite (scan_name_value _ (mk_long_option "name" true c_n));
    [|done|by apply (bool_decide_unpack _); vm_compute|done|done].
  rewrite (scan_name_value _ (mk_long_option "size" true c_s));
    [|done|by apply (bool_decide_unpack _); vm_compute|done|done].
  assert (create_device_options [OptFound c_n (Some name); OptFound c_s (Some size_str)] None None =
    inr (Some name, Some size_str)) as Hopts by done.
  cbn [fst snd lo_val scan]. rewrite Hopts, Hsize. cbn [mbind option_bind].
  by rewrite (proj2 (Z.eqb_neq _ _) Hz).
Qed.

(** ** The context *)

Definition neither_init_nor_cleanup (c : api_call) : Prop := c ≠ ApiInit ∧ c ≠ ApiCleanup.

(** An exit status of 0 or 1, and calls other than initialisation and cleanup. *)
Definition command_ok (r : cmd_result) : Prop :=
  ∀ status calls, r = Some (status, calls) →
    (status = 0 ∨ status = 1) ∧ Forall neither_init_nor_cleanup calls.

Lemma command_ok_some status calls :
  status = 0 ∨ status = 1 → Forall neither_init_nor_cleanup calls → command_ok (Some (status, calls)).
Proof. by intros ??? ? [= <- <-]. Qed.

Lemma command_ok_bind {A} (m : option A) (f : A → cmd_result) :
  (∀ a, command_ok (f a)) → command_ok (m ≫= f).
Proof. intros Hf. destruct m; [apply Hf|by intros ??]. Qed.

Lemma command_ok_call (error : xdevice_error_t) c :
  neither_init_nor_cleanup c → command_ok (Some (if decide (error = XDEVICE_OK) then 0 else 1, [c])).
Proof. intros. apply command_ok_some; [case_decide; auto|by constructor]. Qed.

Lemma create_device_options_exit rs name size_str status :
  create_device_options rs name size_str = inl status → status = 0 ∨ status = 1.
Proof.
  revert name size_str. induction rs as [|[c optarg|] rs IH]; intros name size_str; cbn; [done| |].
  - repeat case_decide; [by apply IH..| |]; intros [= <-]; auto.
  - intros [= <-]; auto.
Qed.

Lemma delete_device_options_exit rs name status :
  delete_device_options rs name = inl status → status = 0 ∨ status = 1.
Proof.
  revert name. induction rs as [|[c optarg|] rs IH]; intros name; cbn; [done| |].
  - repeat case_decide; [by apply IH| |]; intros [= <-]; auto.
  - intros [= <-]; auto.
Qed.

Lemma add_node_options_exit rs node_id address port status :
  add_node_options rs node_id address port = Some (inl status) → status = 0 ∨ status = 1.
Proof.
  revert node_id address port. induction rs as [|[c optarg|] rs IH]; intros node_id address port; cbn; [done| |].
  - repeat case_decide; [by apply IH..| | |]; [|intros [= <-]; auto..].
    destruct (port_of (default "" optarg)); [cbn; apply IH|done].
  - intros [= <-]; auto.
Qed.

Lemma list_nodes_ok ce : command_ok (cmd_list_nodes ce).
Proof.
  unfold cmd_list_nodes. destruct (ce_get_nodes ce) as [[error nodes] count].
  repeat case_decide; try case_bool_decide; try (by intros ??);
    (apply command_ok_some; [auto|by repeat constructor]).
Qed.

Lemma run_command_ok ce command args : command_ok (run_command ce command args).
Proof.
  unfold run_command. repeat case_decide.
  - unfold cmd_create_device. destruct (create_device_options _ _ _) as [status|[[name|] [size_str|]]] eqn:Ho;
      [|apply command_ok_bind; intros size|apply command_ok_some; auto..].
    + apply create_device_options_exit in Ho. by apply command_ok_some.
    + destruct (size =? 0); [apply command_ok_some; auto|]. by apply command_ok_call.
  - unfold cmd_delete_device. destruct (delete_device_options _ _) as [status|[name|]] eqn:Ho.
    + apply delete_device_options_exit in Ho. by apply command_ok_some.
    + by apply command_ok_call.
    + apply command_ok_some; auto.
  - apply command_ok_some; auto.
  - apply list_nodes_ok.
  - unfold cmd_add_node. destruct (add_node_options _ _ _ _) as [options|] eqn:Ho; [|by intros ??].
    cbn [mbind option_bind]. destruct options as [status|[[[id|] [address|]] port]];
      [|by apply command_ok_call|apply command_ok_some; auto..].
    apply add_node_options_exit in Ho. by apply command_ok_some.
  - unfold cmd_status. pose proof (list_nodes_ok ce) as Hok.
    destruct (cmd_list_nodes ce) as [[status calls]|]; [|by intros ??]. cbn.
    destruct (Hok status calls eq_refl) as [_ Hcalls].
    apply command_ok_some; [auto|]. constructor; [done|]. by rewrite app_nil_r.
  - apply command_ok_some; auto.
Qed.

Lemma global_loop_exit rs server result :
  global_loop rs server = inl result → ∃ status calls, result = (status, calls) ∧
    (status = 0 ∨ status = 1) ∧ Forall neither_init_nor_cleanup calls.
Proof.
  revert server. induction rs as [|[c optarg|] rs IH]; intros server; cbn; [done| |].
  - repeat case_decide; [by apply IH| | |by apply IH]; intros [= <-]; do 2 eexists; split_and!;
      auto; by repeat constructor.
  - intros [= <-]; do 2 eexists; split_and!; auto.
Qed.

(** C28: on every command line the exit status is 0 or 1, and the context of the API is
    released exactly when it was obtained: it is never asked for, or asked for and
    refused, or obtained first and released last, once each. *)
Theorem cli_context_released ce args status calls :
  cli_main ce args = Some (status, calls) →
  (status = 0 ∨ status = 1) ∧
  (Forall neither_init_nor_cleanup calls ∨
   calls = [ApiInit] ∧ ce_init_ok ce = false ∧ status = 1 ∨
   ∃ inner, calls = ApiInit :: inner ++ [ApiCleanup] ∧ Forall neither_init_nor_cleanup inner).
Proof.
  unfold cli_main. destruct args as [|arg args]; [intros [= <- <-]; auto|].
  destruct (scan global_spec (arg :: args)) as [rs operands].
  destruct (global_loop rs _) as [result|server] eqn:Hl.
  { apply global_loop_exit in Hl as (st&cs&->&?&?). intros [= <- <-]. auto. }
  destruct operands as [|command cmd_args]; [intros [= <- <-]; auto|].
  destruct (ce_init_ok ce) eqn:Hi; [|intros [= <- <-]; by auto 6].
  pose proof (run_command_ok ce command cmd_args) as Hok.
  destruct (run_command ce command cmd_args) as [[st cs]|]; [|done].
  intros [= <- <-]. destruct (Hok st cs eq_refl). split; [done|]. right. right. by exists cs.
Qed.

(** ** Sizes *)

(** The value [m * 2^e], rounded down. *)
Definition dyadic_floor (m e : Z) : Z := if 0 <=? e then m * 2 ^ e else m / 2 ^ (- e).

(** The size a string stands for. A positive number with a known unit, or without
    one, stands for their product, rounded down; when that is not in the type the
    conversion is undefined. *)
Theorem parse_size_value s m e endptr k :
  strtod s = (DFinite m e, endptr) → 0 < m →
  (endptr = "" ∧ k = 0 ∨ endptr ≠ "" ∧ unit_log2 endptr = Some k) →
  parse_size_string (Some s) =
    if bool_decide (dyadic_floor m (e + k) < 2 ^ 64) then Some (dyadic_floor m (e + k)) else None.
Proof.
  intros Hs Hm Hunit. unfold parse_size_string. rewrite Hs. cbn [double_le_0].
  rewrite (proj2 (Z.leb_gt m 0)) by done.
  assert (Hk : (if decide (endptr = "") then Some 0 else unit_log2 endptr) = Some k).
  { destruct Hunit as [[-> ->]|[Hne Hu]]; [done|]. by rewrite decide_False. }
  rewrite Hk. unfold double_mul_pow2. rewrite Z.abs_eq by lia.
  set (x := e + k). unfold dyadic_floor. case_bool_decide as Hover.
  - cbn [double_to_u64]. destruct (0 <=? x) eqn:Hx; to_prop.
    + rewrite (bool_decide_ext (0 <= m * 2 ^ x < 2 ^ 64) (m * 2 ^ x < 2 ^ 64)); [done|].
      assert (0 <= m * 2 ^ x) by (apply Z.mul_nonneg_nonneg; lia). lia.
    + rewrite Z.quot_div_nonneg by lia.
      rewrite (bool_decide_ext (0 <= m / 2 ^ (- x) < 2 ^ 64) (m / 2 ^ (- x) < 2 ^ 64)); [done|].
      assert (0 <= m / 2 ^ (- x)) by (apply Z.div_pos; lia). lia.
  - cbn [double_to_u64]. rewrite bool_decide_eq_false_2; [done|].
    destruct (0 <=? x) eqn:Hx; to_prop.
    + rewrite Z.max_r, Z.max_l, Z.mul_1_r in Hover by lia.
      assert (2 ^ 64 < 2 ^ 1024) by (by apply Z.ltb_lt; vm_compute). lia.
    + rewrite Z.max_l, Z.max_r, Z.mul_1_r in Hover by lia. intros Hlt.
      assert (Hge : 2 ^ 1024 <= m / 2 ^ (- x)) by (apply Z.div_le_lower_bound; lia).
      assert (2 ^ 64 < 2 ^ 1024) by (by apply Z.ltb_lt; vm_compute). lia.
Qed.

(** A unit ends the number in front of it. *)
Lemma strcasecmp_ends u w l ws :
  strcasecmp_eq u w = true → to_lower <$> chars w = l :: ws → l ∈ chars "kmgt" →
  u ≠ "" ∧ number_ends (chars u).
Proof.
  intros Heq%bool_decide_eq_true Hw Hl. rewrite Hw in Heq. split; [by intros ->|].
  destruct (chars u) as [|c cs]; [done|]. cbn in Heq. injection Heq as Hc _. cbn [number_ends].
  unfold digit_in. rewrite Hc.
  assert (Hdot : c = Byte.x2e → l = Byte.x2e) by (intros ->; by rewrite <- Hc).
  assert (Hl' : l = Byte.x6b ∨ l = Byte.x6d ∨ l = Byte.x67 ∨ l = Byte.x74)
    by (revert Hl; change (chars "kmgt") with [Byte.x6b; Byte.x6d; Byte.x67; Byte.x74];
      rewrite !elem_of_cons, elem_of_nil; tauto).
  destruct Hl' as [->|[->|[->| ->]]]; (split_and!; [by vm_compute|by intros ?%Hdot|done..]).
Qed.

Lemma unit_ends u k : unit_log2 u = Some k → 0 <= k ∧ u ≠ "" ∧ number_ends (chars u).
Proof.
  unfold unit_log2.
  destruct (strcasecmp_eq u "KB") eqn:H1, (strcasecmp_eq u "K") eqn:H2; cbn [orb];
  [..|destruct (strcasecmp_eq u "MB") eqn:H3, (strcasecmp_eq u "M") eqn:H4; cbn [orb];
  [..|destruct (strcasecmp_eq u "GB") eqn:H5, (strcasecmp_eq u "G") eqn:H6; cbn [orb];
  [..|destruct (strcasecmp_eq u "TB") eqn:H7, (strcasecmp_eq u "T") eqn:H8; cbn [orb]; [..|done]]]];
    intros [= <-]; (split; [lia|]);
    match goal with H : strcasecmp_eq u _ = true |- _ =>
      eapply (strcasecmp_ends _ _ _ _ H); [done|by apply (bool_decide_unpack _); vm_compute] end.
Qed.

(** The units, in lower case, and the number of bytes of each. *)
Definition size_units : list (string * Z) :=
  [("", 1); ("k", 1024); ("kb", 1024); ("m", 1048576); ("mb", 1048576); ("g", 1073741824); ("gb", 1073741824);
   ("t", 1099511627776); ("tb", 1099511627776)].

Lemma size_units_log2 u w v :
  (w, v) ∈ size_units → to_lower <$> chars u = chars w →
  ∃ k, v = 2 ^ k ∧ (u = "" ∧ k = 0 ∨ u ≠ "" ∧ unit_log2 u = Some k).
Proof.
  intros Hw Hu.
  assert (Hempty : w = "" ↔ u = "").
  { split; [intros ->|intros ->]; [apply (inj chars); by apply fmap_nil_inv in Hu|].
    apply (inj chars). by rewrite <- Hu. }
  unfold size_units in Hw.
  apply elem_of_cons in Hw as [[= -> ->]|Hw]; [exists 0; split; [done|]; left; split; [by apply Hempty|done]|].
  assert (Hlog : w ≠ "" → ∃ k, v = 2 ^ k ∧ unit_log2 u = Some k).
  { unfold unit_log2, strcasecmp_eq. rewrite Hu. intros _.
    repeat (apply elem_of_cons in Hw as [[= -> ->]|Hw]; [eexists; split; [|vm_compute; reflexivity]; reflexivity|]).
    by apply elem_of_nil in Hw. }
  assert (Hne : w ≠ "").
  { intros ->. repeat (apply elem_of_cons in Hw as [Hx|Hw]; [discriminate Hx|]). by apply elem_of_nil in Hw. }
  destruct (Hlog Hne) as (k&Hv&Hk). exists k. split; [done|]. right. split; [by rewrite <- Hempty|done].
Qed.

(** C38: sizes in decimal. The digits of a number below [2^53] followed by one of the
    units of the table (powers of 1024 for K, M, G and T, with or without a B, in any
    case), or by nothing, are read as exactly the number of bytes, and there is no check
    for a size that does not fit 64 bits: then the conversion is undefined. *)
Theorem parse_size_decimal (n : Z) u w v :
  0 < n < 2 ^ 53 → (w, v) ∈ size_units → to_lower <$> chars u = chars w →
  parse_size_string (Some (pretty (Z.to_N n) +:+ u)) =
    if bool_decide (n * v < 2 ^ 64) then Some (n * v) else None.
Proof.
  intros Hn Hw Hu. destruct (size_units_log2 u w v Hw Hu) as (k&->&Hunit).
  assert (Hends : 0 <= k ∧ number_ends (chars u)).
  { destruct Hunit as [[-> ->]|[_ Hk]]; [by split|]. by destruct (unit_ends u k Hk) as (?&_&?). }
  destruct Hends as (Hk&Hends). pose proof (log2_lt_53 n ltac:(lia)).
  pose proof (Z.log2_nonneg n).
  rewrite (parse_size_value _ (n * 2 ^ (52 - Z.log2 n)) (Z.log2 n - 52) u k); [| |nia|done].
  - assert (dyadic_floor (n * 2 ^ (52 - Z.log2 n)) (Z.log2 n - 52 + k) = n * 2 ^ k) as ->; [|done].
    unfold dyadic_floor. destruct (0 <=? Z.log2 n - 52 + k) eqn:Hs; to_prop.
    + rewrite <- Z.mul_assoc, <- Z.pow_add_r by lia. do 2 f_equal. lia.
    + replace (52 - Z.log2 n) with (k + - (Z.log2 n - 52 + k)) by lia.
      rewrite Z.pow_add_r, Z.mul_assoc, Z.div_mul by lia. done.
  - rewrite strtod_integer by done. by rewrite Z2N.id, round_double_integer by lia.
Qed.

(** The formatter puts a space in front of the unit. *)
Lemma parse_size_unknown_unit s u :
  (strtod s).2 = u → u ≠ "" → unit_log2 u = None → parse_size_string (Some s) = Some 0.
Proof.
  intros <- Hne Hu. unfold parse_size_string. destruct (strtod s) as [d endptr]. cbn in *.
  destruct (double_le_0 d); [done|]. by rewrite decide_False, Hu.
Qed.

Lemma parse_fraction h u buffer_size :
  0 <= h < 10 ^ 22 → 64 <= buffer_size → number_ends (chars u) → u ≠ "" → unit_log2 u = None →
  (length (chars u) <= 10)%nat →
  parse_size_string (Some (snprintf buffer_size (fmt_2f h +:+ u))) = Some 0.
Proof.
  intros Hh Hb Hends Hne Hu Hlen. unfold snprintf. rewrite str_take_short.
  - apply parse_size_unknown_unit with u; [|done..]. etransitivity; [|apply (strtod_fraction
      (Z.to_N (h / 100)) (Z.to_N (h / 10 mod 10)) (Z.to_N (h mod 10)) u); done].
    do 2 f_equal. apply (inj chars). unfold fmt_2f. by rewrite !chars_append, <- !app_assoc.
  - unfold fmt_2f. rewrite !chars_append, !length_app.
    assert (0 <= h / 100 < 10 ^ 20) by (split; [apply Z.div_pos|apply Z.div_lt_upper_bound]; lia).
    pose proof (Z.mod_pos_bound (h / 10) 10 ltac:(lia)). pose proof (Z.mod_pos_bound h 10 ltac:(lia)).
    destruct (pretty_chars 20 (Z.to_N (h / 100))) as [? _]; [lia|cbn; lia|].
    destruct (pretty_chars 1 (Z.to_N (h / 10 mod 10))) as [? _]; [lia|cbn; lia|].
    destruct (pretty_chars 1 (Z.to_N (h mod 10))) as [? _]; [lia|cbn; lia|].
    change (length (chars ".")) with 1%nat. lia.
Qed.

Lemma hundredths_bound n k : u64 n → 0 <= k → 0 <= hundredths n k < 10 ^ 22.
Proof.
  intros Hn Hk. unfold u64 in Hn. assert (Hp : 0 < 2 ^ k) by (apply Z.pow_pos_nonneg; lia).
  pose proof (u64_to_double_bound n Hn). unfold hundredths.
  pose proof (round_half_even_spec (100 * u64_to_double n) (2 ^ k) Hp). nia.
Qed.

(** The tool does not read the sizes it prints. The formatter puts a space in front
    of the unit, and the parser, which takes the rest of the string as the unit, reads
    every formatted size as 0. *)
Theorem format_size_not_parsed bytes buffer_size :
  u64 bytes → 64 <= buffer_size → parse_size_string (Some (format_size bytes buffer_size)) = Some 0.
Proof.
  intros Hb Hs. unfold format_size.
  repeat case_match;
    [apply parse_fraction; [by apply hundredths_bound|done|by split_and!|done|by vm_compute|cbn; lia]..|].
  unfold snprintf, u64 in *. destruct (pretty_chars 20 (Z.to_N bytes)) as [Hl _];
    [lia|apply N.lt_trans with (2 ^ 64)%N; [lia|by vm_compute]|].
  rewrite str_take_short; [|rewrite chars_append, length_app; change (length (chars " bytes")) with 6%nat; lia].
  apply parse_size_unknown_unit with " bytes"; [|done..]. by rewrite strtod_integer.
Qed.

(** The formatter prints two decimals that are at most half a hundredth of the unit
    away from the size, at least 1.00, and in the units below terabytes at most 1024.00,
    followed by the unit. *)
Theorem format_size_accuracy bytes k buffer_size :
  0 <= bytes < 2 ^ 53 → k ∈ [10; 20; 30; 40] → 2 ^ k <= bytes → k = 40 ∨ bytes < 2 ^ (k + 10) →
  2 * Z.abs (hundredths bytes k * 2 ^ k - 100 * bytes) <= 2 ^ k ∧
  100 <= hundredths bytes k ∧ (k ≠ 40 → hundredths bytes k <= 102400) ∧
  format_size bytes buffer_size = snprintf buffer_size (fmt_2f (hundredths bytes k) +:+
     (if decide (k = 10) then " KB" else if decide (k = 20) then " MB"
      else if decide (k = 30) then " GB" else " TB")).
Proof.
  intros Hb Hk Hlo Hhi.
  assert (Hk0 : 0 < k) by (repeat (apply elem_of_cons in Hk as [->|Hk]; [done|]); by apply not_elem_of_nil in Hk).
  assert (Hp : 0 < 2 ^ k) by (apply Z.pow_pos_nonneg; lia).
  assert (Hacc : 2 * Z.abs (hundredths bytes k * 2 ^ k - 100 * bytes) <= 2 ^ k).
  { unfold hundredths. rewrite u64_to_double_exact by done. by apply round_half_even_spec. }
  split; [done|]. split; [nia|]. split.
  - intros Hne. destruct Hhi as [?|Hhi]; [done|]. rewrite Z.pow_add_r in Hhi by lia. nia.
  - unfold format_size.
    destruct (2 ^ 40 <=? bytes) eqn:H40, (2 ^ 30 <=? bytes) eqn:H30, (2 ^ 20 <=? bytes) eqn:H20,
      (2 ^ 10 <=? bytes) eqn:H10; to_prop;
      repeat (apply elem_of_cons in Hk as [->|Hk]; [first [done|lia]|]); by apply not_elem_of_nil in Hk.
Qed.

(** ** Witnesses *)

Definition w_cli_env : cli_env :=
  mk_cli_env true (λ _ _, XDEVICE_OK) (λ _, XDEVICE_OK) (XDEVICE_OK, [], 0) (λ _ _ _, XDEVICE_OK).

Lemma cli_command_options_rejected_witness :
  cli_main  w_cli_env ["create-device"; "--name=wal-device"; "--size=1GB"] = Some (1, []).
Proof.
  apply (cli_command_options_rejected w_cli_env ["create-device"] "name" "--name=wal-device" ["--size=1GB"]);
    [by repeat constructor|apply (bool_decide_unpack _); by vm_compute|right; by exists "wal-device"].
Defined.

Lemma cli_create_device_witness :
  cli_main  w_cli_env ["--"; "create-device"; "--name=wal-device"; "--size=1GB"] =
    Some (0, [ApiInit; ApiCreateDevice "wal-device" (2 ^ 30); ApiCleanup]).
Proof.
  apply (cli_create_device  w_cli_env "wal-device" "1GB" (2 ^ 30)); by vm_compute.
Defined.

Lemma cli_context_released_witness : ∃ inner,
  [ApiInit; ApiCreateDevice "a" 5; ApiCleanup] = ApiInit :: inner ++ [ApiCleanup] ∧
  Forall neither_init_nor_cleanup inner.
Proof.
  destruct (cli_context_released  w_cli_env ["--"; "create-device"; "-na"; "-s5"] 0
    [ApiInit; ApiCreateDevice "a" 5; ApiCleanup]) as [_ [Hn|[(?&_)|Hex]]]; [by vm_compute| |done|exact Hex].
  by apply Forall_inv in Hn as [? _].
Defined.

(** 1.5 gigabytes. *)
Lemma parse_size_value_witness :
  parse_size_string (Some "1.5gb") = Some (3 * 2 ^ 29).
Proof.
  rewrite (parse_size_value "1.5gb" 6755399441055744 (-52) "gb" 30);
    [by vm_compute|by vm_compute|done|right; by split].
Defined.

Lemma format_size_accuracy_witness :
  2 * Z.abs (hundredths 1048575 10 * 1024 - 100 * 1048575) <= 1024 ∧
  format_size 1048575 64 = "1024.00 KB".
Proof.
  destruct (format_size_accuracy 1048575 10 64) as (Hacc&_&_&_); [lia|by left|lia|by right|].
  split; [exact Hacc|by vm_compute].
Defined.

(** 16 terabytes fit, 16777216 do not. *)
Lemma parse_size_decimal_witness :
  parse_size_string (Some "16TB") = Some (2 ^ 44) ∧ parse_size_string (Some "16777216TB") = None.
Proof.
  split; [apply (parse_size_decimal 16 "TB" "tb" 1099511627776)|apply (parse_size_decimal 16777216 "TB" "tb" 1099511627776)];
    first [lia|reflexivity|apply (bool_decide_unpack _); by vm_compute].
Defined.

Lemma format_size_not_parsed_witness :
  format_size (2 ^ 30) 64 = "1.00 GB" ∧ parse_size_string (Some "1.00 GB") = Some 0.
Proof.
  assert (Hf : format_size (2 ^ 30) 64 = "1.00 GB") by (by vm_compute). split; [exact Hf|].
  rewrite <- Hf. apply (format_size_not_parsed (2 ^ 30) 64); [split; [lia|by vm_compute]|lia].
Defined.
