(* ===== verification/NodeMain.v ===== *)
(** * NodeMain: the node daemon ([src/main/node_main.c])

    The daemon's start-up, its main loop and its shutdown around a node of [Raft]. The
    network layer ([include/network.h]) and the context API are not in the repository:
    their answers are the environment of a run. The callbacks handed to the node send
    nothing: they return [XDEVICE_OK] and leave the response as it was. *)

From Stdlib Require Import String.
From stdpp Require Import base numbers list strings.
From S2P Require Import XDevice Prelude Raft RaftInv Getopt Cli.
Local Open Scope Z_scope.

(** ** Options *)

Definition c_c : opt_char := Byte.x63.
Definition c_d : opt_char := Byte.x64.

Definition node_spec : opt_spec :=
  mk_opt_spec [(c_c, true); (c_p, true); (c_i, true); (c_d, true); (c_h, false); (c_v, false)]
    [mk_long_option "config" true c_c; mk_long_option "port" true c_p; mk_long_option "id" true c_i;
     mk_long_option "data-dir" true c_d; help_option; mk_long_option "version" false c_v].

Record node_options := mk_node_options {
  no_config_file : option string;
  no_port : Z;
  no_node_id : string;
  no_data_dir : string
}.

Definition default_options : node_options := mk_node_options None 8080 "node1" "./data".

(** An exit status, or the options; [None] is the undefined [atoi]. The option table
    has no other characters, so [abort] is not reached. *)
Fixpoint node_parse (rs : list opt_result) (o : node_options) : option (Z + node_options) :=
  match rs with
  | [] => Some (inr o)
  | OptFound c optarg :: rs =>
      if decide (c = c_c) then node_parse rs (o <| no_config_file := optarg |>)
      else if decide (c = c_p) then
        port ← port_of (default "" optarg); node_parse rs (o <| no_port := port |>)
      else if decide (c = c_i) then node_parse rs (o <| no_node_id := default "" optarg |>)
      else if decide (c = c_d) then node_parse rs (o <| no_data_dir := default "" optarg |>)
      else if decide (c = c_h) then Some (inl 0)
      else if decide (c = c_v) then Some (inl 0)
      else None
  | OptBad :: _ => Some (inl 1)
  end.

(** ** Start-up and shutdown *)

(** What the daemon acquires and releases. *)
Inductive node_resource : Set := NODE_CONTEXT | NODE_SERVER | NODE_LISTENING | NODE_RAFT.

Inductive node_event : Set :=
| NodeAcquire (r : node_resource)
| NodeRelease (r : node_resource).

#[export] Instance node_resource_eq_dec : EqDecision node_resource.
Proof. solve_decision. Defined.

Record node_env := mk_node_env {
  nv_init_ok : bool;
  nv_create_server_ok : Z → bool;
  nv_start_server : xdevice_error_t;
  nv_create : raft_env;                    (* of [xdevice_raft_create_node] *)
  nv_start : raft_env                      (* of [xdevice_raft_start_node] *)
}.

(** The callbacks of the daemon: all five are given. *)
Definition raft_callbacks : xdevice_raft_callbacks_t := mk_callbacks true true true true true.

(** [send_vote_request] and [send_append_entries]: the response is the caller's
    uninitialised variable. *)
Definition send_vote_request (uninitialised : xdevice_raft_vote_response_t)
    : xdevice_error_t * xdevice_raft_vote_response_t := (XDEVICE_OK, uninitialised).

Definition send_append_entries (uninitialised : xdevice_raft_append_response_t)
    : xdevice_error_t * xdevice_raft_append_response_t := (XDEVICE_OK, uninitialised).

(** The events so far with an exit status, or a running node. [None] is undefined
    behaviour. *)
Definition node_start (ev : node_env) (o : node_options)
    : option (list node_event * (Z + xdevice_raft_node)) :=
  if negb (nv_init_ok ev) then Some ([], inl 1)
  else if negb (nv_create_server_ok ev (no_port o)) then
    Some ([NodeAcquire NODE_CONTEXT; NodeRelease NODE_CONTEXT], inl 1)
  else if bool_decide (nv_start_server ev ≠ XDEVICE_OK) then
    Some ([NodeAcquire NODE_CONTEXT; NodeAcquire NODE_SERVER; NodeRelease NODE_SERVER;
           NodeRelease NODE_CONTEXT], inl 1)
  else
    match xdevice_raft_create_node (nv_create ev) (Some (no_node_id o)) with
    | None =>
        Some ([NodeAcquire NODE_CONTEXT; NodeAcquire NODE_SERVER; NodeAcquire NODE_LISTENING;
               NodeRelease NODE_LISTENING; NodeRelease NODE_SERVER; NodeRelease NODE_CONTEXT], inl 1)
    | Some raft_node =>
        '(error, raft_node) ← xdevice_raft_start_node (nv_start ev) (Some raft_node) (Some raft_callbacks);
        if bool_decide (error ≠ XDEVICE_OK) then
          _ ← xdevice_raft_destroy_node raft_node;
          Some ([NodeAcquire NODE_CONTEXT; NodeAcquire NODE_SERVER; NodeAcquire NODE_LISTENING;
                 NodeAcquire NODE_RAFT; NodeRelease NODE_RAFT; NodeRelease NODE_LISTENING;
                 NodeRelease NODE_SERVER; NodeRelease NODE_CONTEXT], inl 1)
        else
          node ← raft_node;
          Some ([NodeAcquire NODE_CONTEXT; NodeAcquire NODE_SERVER; NodeAcquire NODE_LISTENING;
                 NodeAcquire NODE_RAFT], inr node)
    end.

Definition node_shutdown (node : xdevice_raft_node) : option (list node_event * Z) :=
  _ ← xdevice_raft_destroy_node (Some node);
  Some ([NodeRelease NODE_RAFT; NodeRelease NODE_LISTENING; NodeRelease NODE_SERVER;
         NodeRelease NODE_CONTEXT], 0).

(** While the main loop sleeps, the two threads take their rounds. *)
Fixpoint node_rounds (node : xdevice_raft_node) (rounds : list raft_op) : option xdevice_raft_node :=
  match rounds with
  | [] => Some node
  | op :: rounds => node ← raft_step node op; node_rounds node rounds
  end.

(** A whole run: [rounds] is what the threads do before a signal ends the loop. *)
Definition node_main (ev : node_env) (args : list string) (rounds : list raft_op)
    : option (list node_event * Z) :=
  parsed ← node_parse (scan node_spec args).1 default_options;
  match parsed with
  | inl status => Some ([], status)
  | inr options =>
      '(events, started) ← node_start ev options;
      match started with
      | inl status => Some (events, status)
      | inr node =>
          node ← node_rounds node rounds;
          '(events', status) ← node_shutdown node;
          Some (events ++ events', status)
      end
  end.
