(* ===== verification/NodeProps.v ===== *)
(** * NodeProps: properties of the node daemon

    Its resources on every path, and what becomes of the Raft node in it. *)

From Stdlib Require Import String.
From stdpp Require Import base numbers list strings.
From S2P Require Import XDevice Prelude Raft RaftInv Getopt Cli NodeMain.
Local Open Scope Z_scope.

(** ** A node without members *)

(** The rounds of the two threads. *)
Definition thread_round (op : raft_op) : Prop :=
  match op with ElectionRound _ | HeartbeatRound _ => True | _ => False end.

Lemma lone_election_round e n :
  rn_cluster_size n = 0 →
  election_round e n = Some
    (if bool_decide (rn_state n ≠ XDEVICE_NODE_LEADER) &&
        (rn_election_timeout n <=? get_current_time_ms (re_time e 0))
     then (start_election e n) <| rn_state := XDEVICE_NODE_LEADER |> <| rn_last_heartbeat := 0 |>
     else n).
Proof.
  intros Hs. unfold election_round. destruct (bool_decide _ && _); [|done]. rewrite Hs.
  assert (Hs' : rn_cluster_size (start_election e n) = 0) by done.
  assert (Hc : rn_state (start_election e n) = XDEVICE_NODE_CANDIDATE) by done.
  revert Hs' Hc. generalize (start_election e n). intros c Hs' Hc.
  change (Z.to_nat 0) with 0%nat. cbn [vote_loop mbind option_bind].
  unfold become_leader. rewrite Hs', Hc. by destruct c.
Qed.

Lemma lone_heartbeat_round e n :
  rn_cluster_size n = 0 → ∃ t, heartbeat_round e n = Some (n <| rn_last_heartbeat := t |>).
Proof.
  intros Hs. unfold heartbeat_round. rewrite Hs.
  assert (Hsame : n <| rn_last_heartbeat := rn_last_heartbeat n |> = n) by by destruct n.
  case_decide; [|exists (rn_last_heartbeat n); by rewrite Hsame].
  destruct (_ <=? _); [|exists (rn_last_heartbeat n); by rewrite Hsame]. cbn. eauto.
Qed.

(** Some election round comes at or after [t]. *)
Definition round_at (t : Z) (rounds : list raft_op) : Prop :=
  ∃ e, ElectionRound e ∈ rounds ∧ t <= get_current_time_ms (re_time e 0).

Record lone_node (n : xdevice_raft_node) : Prop := {
  ln_size : rn_cluster_size n = 0;
  ln_running : rn_election_thread n = THREAD_LIVE ∧ rn_heartbeat_thread n = THREAD_LIVE;
  ln_term : rn_state n = XDEVICE_NODE_LEADER ∧ rn_current_term n = 1 ∨
            rn_state n = XDEVICE_NODE_FOLLOWER ∧ rn_current_term n = 0
}.

Lemma lone_step n op :
  lone_node n → thread_round op →
  ∃ n', raft_step n op = Some n' ∧ lone_node n' ∧
    (rn_state n = XDEVICE_NODE_LEADER → rn_state n' = XDEVICE_NODE_LEADER) ∧
    (rn_state n = XDEVICE_NODE_FOLLOWER →
      if decide (rn_state n' = XDEVICE_NODE_LEADER) then round_at (rn_election_timeout n) [op]
      else ¬ round_at (rn_election_timeout n) [op] ∧ rn_election_timeout n' = rn_election_timeout n).
Proof.
  intros [Hs Hr Ht] Hop. destruct op as [e|e| | |]; try done; cbn [raft_step].
  - rewrite lone_election_round by done. eexists. split; [done|].
    destruct (bool_decide _ && _) eqn:Hc; to_prop.
    + destruct Ht as [[? _]|[Hf Hterm]]; [done|]. split_and!.
      * split; cbn; [done|done|left]. by rewrite Hterm.
      * done.
      * intros _. rewrite decide_True by done. exists e. split; [by left|done].
    + split_and!; [by split|done|]. intros Hf. rewrite Hf. rewrite decide_False by done. split; [|done].
      intros (e'&He%list_elem_of_singleton&Hle). injection He as ->.
      rewrite Hf in Hc. apply andb_false_iff in Hc as [Hc|Hc]; to_prop; [by apply Hc|lia].
  - destruct (lone_heartbeat_round e n Hs) as [t ->]. eexists. split; [done|].
    split_and!; [by split|done|]. intros Hf. cbn. rewrite Hf, decide_False by done. split; [|done].
    by intros (e'&He%list_elem_of_singleton&_).
Qed.

Lemma lone_rounds n rounds :
  lone_node n → Forall thread_round rounds →
  ∃ n', node_rounds n rounds = Some n' ∧ lone_node n' ∧
    (rn_state n = XDEVICE_NODE_LEADER → rn_state n' = XDEVICE_NODE_LEADER) ∧
    (rn_state n = XDEVICE_NODE_FOLLOWER →
      (rn_state n' = XDEVICE_NODE_LEADER ↔ round_at (rn_election_timeout n) rounds)).
Proof.
  revert n. induction rounds as [|op rounds IH]; intros n Hn Hrs; cbn [node_rounds].
  { exists n. split_and!; [done|done|done|]. intros Hf. split; [congruence|].
    by intros (e&?%not_elem_of_nil&_). }
  apply Forall_cons in Hrs as [Hop Hrs].
  destruct (lone_step n op Hn Hop) as (n1&->&Hn1&Hlead&Hfol). cbn [mbind option_bind].
  destruct (IH n1 Hn1 Hrs) as (n'&->&Hn'&Hlead'&Hfol').
  exists n'. split_and!; [done|done|auto|]. intros Hf. specialize (Hfol Hf).
  assert (Hcons : ∀ t, round_at t (op :: rounds) ↔ round_at t [op] ∨ round_at t rounds).
  { intros t. split.
    - intros (e&[He|He]%elem_of_cons&Ht); [left|right]; exists e; (split; [|done]); [|done].
      by apply list_elem_of_singleton.
    - intros [(e&He%list_elem_of_singleton&Ht)|(e&He&Ht)]; exists e; (split; [|done]);
        apply elem_of_cons; auto. }
  rewrite Hcons. destruct (decide (rn_state n1 = XDEVICE_NODE_LEADER)) as [Hl|Hl].
  - split; [by left|]. auto.
  - destruct Hfol as [Hno Hto]. rewrite <- Hto in Hno |- *.
    assert (Hf1 : rn_state n1 = XDEVICE_NODE_FOLLOWER) by by destruct (ln_term _ Hn1) as [[]|[]].
    rewrite (Hfol' Hf1). tauto.
Qed.

(** ** Start-up *)

Lemma node_start_node ev o events node :
  node_start ev o = Some (events, inr node) →
  lone_node node ∧ rn_state node = XDEVICE_NODE_FOLLOWER ∧
  rn_election_timeout node =
    get_current_time_ms (re_time (nv_create ev) 0) ⊞ generate_election_timeout (re_rand (nv_create ev) 0).
Proof.
  unfold node_start, xdevice_raft_create_node, xdevice_raft_start_node.
  destruct (nv_init_ok ev), (nv_create_server_ok ev _), (bool_decide _); try done.
  destruct (re_malloc_ok _ 0), (re_malloc_ok _ 1), (re_mutex_init_ok _); try done. cbn [negb].
  destruct (re_thread_ok _ 0), (re_thread_ok _ 1); try done. cbn.
  intros [= <- <-]. split_and!; [|done|done]. split; [done|by split|by right].
Qed.

(** C23: the node of the daemon has no members. Whatever rounds its threads take and
    whatever the callbacks answer, they are defined, and the node becomes the leader, of
    term 1, exactly when a round of the election thread comes at or after the time-out of
    its creation, which is 150 to 299 ms after that; before, it is a follower of term 0. *)
Theorem daemon_becomes_leader ev o events node rounds :
  node_start ev o = Some (events, inr node) → Forall thread_round rounds →
  ∃ node', node_rounds node rounds = Some node' ∧
    (rn_state node' = XDEVICE_NODE_LEADER ↔ round_at (rn_election_timeout node) rounds) ∧
    (rn_state node' = XDEVICE_NODE_LEADER ∧ rn_current_term node' = 1 ∨
     rn_state node' = XDEVICE_NODE_FOLLOWER ∧ rn_current_term node' = 0) ∧
    (0 <= re_rand (nv_create ev) 0 →
     let created := get_current_time_ms (re_time (nv_create ev) 0) in
     created < 2 ^ 63 → created + 150 <= rn_election_timeout node < created + 300).
Proof.
  intros Hst Hrs. destruct (node_start_node _ _ _ _ Hst) as (Hn&Hf&Hto).
  destruct (lone_rounds node rounds Hn Hrs) as (node'&Hr&Hn'&_&Hiff).
  exists node'. split_and!; [done|by apply Hiff|apply Hn'|]. intros Hrand created Hc. rewrite Hto.
  fold created. unfold generate_election_timeout, RAFT_ELECTION_TIMEOUT_MIN_MS, RAFT_ELECTION_TIMEOUT_MAX_MS.
  pose proof (Z.rem_bound_pos (re_rand (nv_create ev) 0) (300 - 150) Hrand ltac:(lia)).
  assert (0 <= created) by apply wrap64_range. rewrite wrap64_small by (unfold u64; lia). lia.
Qed.

(** ** Resources *)

(** The resources held, last acquired first; [None] when a release does not match. *)
Fixpoint held (events : list node_event) (stack : list node_resource) : option (list node_resource) :=
  match events with
  | [] => Some stack
  | NodeAcquire r :: events => if decide (r ∈ stack) then None else held events (r :: stack)
  | NodeRelease r :: events =>
      match stack with
      | r' :: stack => if decide (r = r') then held events stack else None
      | [] => None
      end
  end.

(** Everything is there but one of the two threads. *)
Definition thread_creation_fails (ev : node_env) (o : node_options) : Prop :=
  nv_init_ok ev = true ∧ nv_create_server_ok ev (no_port o) = true ∧ nv_start_server ev = XDEVICE_OK ∧
  re_malloc_ok (nv_create ev) 0 = true ∧ re_malloc_ok (nv_create ev) 1 = true ∧
  re_mutex_init_ok (nv_create ev) = true ∧
  (re_thread_ok (nv_start ev) 0 = false ∨ re_thread_ok (nv_start ev) 1 = false).

Lemma node_start_cases ev o :
  match node_start ev o with
  | None => thread_creation_fails ev o
  | Some (events, inl status) => status = 1 ∧ held events [] = Some [] ∧ ¬ thread_creation_fails ev o
  | Some (events, inr node) => ¬ thread_creation_fails ev o ∧ events = [NodeAcquire NODE_CONTEXT; NodeAcquire NODE_SERVER;
      NodeAcquire NODE_LISTENING; NodeAcquire NODE_RAFT]
  end.
Proof.
  unfold node_start, xdevice_raft_create_node, xdevice_raft_start_node, thread_creation_fails.
  destruct (nv_init_ok ev), (nv_create_server_ok ev _); try (by cbn; split_and!; try intros (?&?&_)); cbn [negb].
  case_bool_decide as Hs; [by split_and!; try intros (_&_&?&_)|].
  destruct (re_malloc_ok _ 0), (re_malloc_ok _ 1), (re_mutex_init_ok _);
    try (by cbn; split_and!; try intros (_&_&_&?&?&?&_)); cbn [negb].
  destruct (re_thread_ok _ 0), (re_thread_ok _ 1); cbn; try (by split_and!; try done; (by left) || by right).
  split; [|done]. by intros (_&_&_&_&_&_&[|]).
Qed.

(** C27: on every path of the daemon that gets to its start-up, what has been acquired
    is released in the reverse order, and the status is 0 exactly when the start-up
    succeeded. The exception, and the only one, are the runs in which one of the node's
    two threads cannot be created: destroying the node then joins what is no thread, or
    joins the first thread twice. (The calls are whole here; that the end of the daemon
    is a data race with its threads as well is shown in [NodeThreads].) *)
Theorem daemon_resources_released ev args rounds o :
  node_parse (scan node_spec args).1 default_options = Some (inr o) → Forall thread_round rounds →
  (node_main ev args rounds = None ↔ thread_creation_fails ev o) ∧
  match node_main ev args rounds with
  | None => True
  | Some (events, status) => held events [] = Some [] ∧
      (status = 0 ↔ ∃ acquired node, node_start ev o = Some (acquired, inr node))
  end.
Proof.
  intros Hp Hrs. unfold node_main. rewrite Hp. cbn [mbind option_bind].
  pose proof (node_start_cases ev o) as Hcases.
  destruct (node_start ev o) as [[events [status|node]]|] eqn:Hst; cbn [mbind option_bind]; [| |by split].
  { destruct Hcases as (->&Hh&Hno). split; [by split|]. split; [done|]. split; [done|]. by intros (?&?&?). }
  destruct (node_start_node _ _ _ _ Hst) as (Hn&_). destruct Hcases as [Hno ->].
  destruct (lone_rounds node rounds Hn Hrs) as (node'&->&[_ [He Hh] _]&_). cbn [mbind option_bind].
  unfold node_shutdown, xdevice_raft_destroy_node. cbn. rewrite He, Hh. cbn.
  split; [by split|]. split; [done|]. split; [by eauto|done].
Qed.

(** ** The callbacks *)

(** Every peer's answer is a granted vote. *)
Lemma vote_loop_granted b e n u fuel i votes :
  raft_inv b n → b <= max_steps → Z.of_nat (i + fuel) <= rn_cluster_size n →
  0 <= votes → votes + Z.of_nat fuel < 2 ^ 32 →
  (∀ (j : nat) info, rn_cluster_nodes n !! j = Some (Some info) → ni_node_id info ≠ rn_node_id n) →
  cb_send_vote_request (rn_callbacks n) = true → re_vote e = (λ _ _, send_vote_request u) →
  vr_vote_granted u = true → vr_term u <= rn_current_term n →
  vote_loop e n votes fuel i = Some (n, votes + Z.of_nat fuel).
Proof.
  intros Hinv Hb Hi Hv Hw Hids Hcb He Hg Ht. revert i votes Hi Hv Hw.
  induction fuel as [|fuel IH]; intros i votes Hi Hv Hw; cbn [vote_loop]; [by rewrite Z.add_0_r|].
  destruct (ri_members _ _ Hinv i) as [info Hinfo]; [lia|]. rewrite Hinfo. cbn [mbind option_bind].
  rewrite decide_False by by eapply Hids.
  destruct (make_vote_request_total b e n Hinv Hb) as [q ->]. cbn [mbind option_bind].
  rewrite Hcb, He. cbn [negb send_vote_request]. unfold send_vote_request.
  rewrite decide_True, Hg, (proj2 (Z.ltb_ge _ _)) by done.
  rewrite wrap32_small by (unfold u32; lia). rewrite IH by lia. do 2 f_equal. lia.
Qed.

(** A vote nobody gave. The daemon's callback for vote requests reports success and
    leaves the response as it was, which is uninitialised. When that memory happens to
    hold a granted vote of no later term, a node with any members becomes the leader of
    the next term although none of them was asked. *)
Theorem daemon_counts_uninitialised_votes b e n u :
  raft_inv b n → 0 <= b < max_steps → rn_state n ≠ XDEVICE_NODE_LEADER →
  rn_election_timeout n <= get_current_time_ms (re_time e 0) →
  (∀ (j : nat) info, rn_cluster_nodes n !! j = Some (Some info) → ni_node_id info ≠ rn_node_id n) →
  rn_callbacks n = raft_callbacks → re_vote e = (λ _ _, send_vote_request u) →
  vr_vote_granted u = true → vr_term u <= rn_current_term n + 1 →
  ∃ n', election_round e n = Some n' ∧ rn_state n' = XDEVICE_NODE_LEADER ∧
    rn_current_term n' = rn_current_term n + 1.
Proof.
  intros Hinv Hb Hst Hto Hids Hcb He Hg Ht.
  destruct (start_election_inv b e n Hinv Hb) as [Hinv' Hterm]. pose proof (ri_size _ _ Hinv) as Hsz.
  unfold election_round. rewrite bool_decide_eq_true_2, (proj2 (Z.leb_le _ _)) by done. cbn [andb].
  rewrite (vote_loop_granted (b + 1) e (start_election e n) u);
    [|done|unfold max_steps in *; lia|cbn; lia|lia|lia|exact Hids|cbn; by rewrite Hcb|done|done|lia].
  cbn [mbind option_bind]. rewrite bool_decide_eq_true_2 by done.
  assert (Hmaj : (rn_cluster_size (start_election e n) / 2 <? 1 + Z.of_nat (Z.to_nat (rn_cluster_size n))) = true).
  { apply Z.ltb_lt. cbn. rewrite Z2Nat.id by lia. apply Z.div_lt_upper_bound; lia. }
  rewrite Hmaj. cbn [andb].
  destruct (become_leader_spec (b + 1) (start_election e n) Hinv') as (n'&Hbl&Hrest);
    [unfold max_steps in *; lia|].
  exists n'. split; [done|]. unfold become_leader in Hbl.
  destruct (fill _ _ _ _), (fill _ _ _ _); try done. injection Hbl as <-. split; [done|].
  exact Hterm.
Qed.

(** ** Witnesses *)

Definition w_time (ms : Z) : nat → timeval := λ _, mk_timeval (ms / 1000) (ms mod 1000 * 1000).

Definition w_uninitialised : xdevice_raft_vote_response_t := mk_vote_response 0 true.

Definition w_raft_env (ms : Z) : raft_env :=
  {| re_malloc_ok := λ _, true; re_mutex_init_ok := true; re_thread_ok := λ _, true;
     re_time := w_time ms; re_rand := λ _, 7; re_junk := λ _, Byte.x00;
     re_vote := λ _ _, send_vote_request w_uninitialised;
     re_append := λ _ _, send_append_entries (mk_append_response 0 false) |}.

Definition w_node_env : node_env :=
  mk_node_env true (λ _, true) XDEVICE_OK (w_raft_env 1000) (w_raft_env 1000).

Definition w_rounds : list raft_op := [ElectionRound (w_raft_env 1100); ElectionRound (w_raft_env 1400)].

Definition w_node : xdevice_raft_node :=
  match node_start w_node_env default_options with
  | Some (_, inr node) => node
  | _ => mk_raft_node "" XDEVICE_NODE_DOWN 0 "" 0 0 [] 0 0 [] [] [] 0 0 0 THREAD_NONE THREAD_NONE
           false raft_callbacks
  end.

Lemma w_rounds_ok : Forall thread_round w_rounds.
Proof. by repeat constructor. Qed.

Lemma daemon_becomes_leader_witness : ∃ node', node_rounds w_node w_rounds = Some node' ∧
  rn_state node' = XDEVICE_NODE_LEADER.
Proof.
  destruct (daemon_becomes_leader w_node_env default_options
    [NodeAcquire NODE_CONTEXT; NodeAcquire NODE_SERVER; NodeAcquire NODE_LISTENING; NodeAcquire NODE_RAFT]
    w_node w_rounds) as (node'&Hr&Hl&_); [done|apply w_rounds_ok|].
  exists node'. split; [exact Hr|]. apply Hl. exists (w_raft_env 1400). split; [right; by left|].
  by vm_compute.
Defined.

Lemma daemon_resources_released_witness : ∃ events,
  node_main w_node_env ["--port=9090"] w_rounds = Some (events, 0) ∧ held events [] = Some [].
Proof.
  pose proof (daemon_resources_released w_node_env ["--port=9090"] w_rounds
    (default_options <| no_port := 9090 |>) ltac:(by vm_compute) w_rounds_ok) as H.
  assert (Hm : ∃ events, node_main w_node_env ["--port=9090"] w_rounds = Some (events, 0))
    by (eexists; vm_compute; reflexivity).
  destruct Hm as [events Hm]. rewrite Hm in H. destruct H as [_ H]. exists events. split; [exact Hm|apply H].
Defined.

(** Two members that were never asked. *)
Definition w_member (id : string) : xdevice_node_info_t :=
  mk_node_info id "" 8080 XDEVICE_NODE_FOLLOWER 0 0.

Definition w_daemon_steps : list raft_op :=
  [StartNode (w_raft_env 1000) raft_callbacks; AddNode (w_member "node2"); AddNode (w_member "node3")].

Definition w_created : xdevice_raft_node := Eval vm_compute in
  default w_node (xdevice_raft_create_node (w_raft_env 1000) (Some "node1")).

Definition w_cluster : xdevice_raft_node := Eval vm_compute in
  default w_node (raft_steps w_created w_daemon_steps).

Lemma w_cluster_inv : raft_inv 3 w_cluster.
Proof.
  assert (H0 : reachable 0 w_created)
    by (apply (reach_create (w_raft_env 1000) "node1"); vm_compute; reflexivity).
  apply reachable_inv; [|unfold max_steps; lia].
  apply (reachable_steps 0 w_created w_daemon_steps w_cluster H0); [|vm_compute; reflexivity].
  vm_compute. repeat split; discriminate.
Qed.

Lemma daemon_counts_uninitialised_votes_witness : ∃ n',
  election_round (w_raft_env 1400) w_cluster = Some n' ∧ rn_state n' = XDEVICE_NODE_LEADER.
Proof.
  destruct (daemon_counts_uninitialised_votes 3 (w_raft_env 1400) w_cluster w_uninitialised w_cluster_inv)
    as (n'&H1&H2&_);
    [unfold max_steps; lia|discriminate|vm_compute; discriminate| |reflexivity|reflexivity|reflexivity
    |vm_compute; discriminate|exists n'; split; [exact H1|exact H2]].
  intros j info Hj.
  assert (Hall : Forall (λ o, from_option (λ i, ni_node_id i ≠ rn_node_id w_cluster) True o)
    (rn_cluster_nodes w_cluster)) by (vm_compute; repeat constructor; discriminate).
  rewrite Forall_lookup in Hall. exact (Hall j _ Hj).
Defined.
