(* ===== verification/NodeThreads.v ===== *)
(** * NodeThreads: the daemon with its threads ([src/main/node_main.c])

    [NodeMain] lets the two threads of the daemon's Raft node take whole rounds while the
    main loop sleeps. Here the main function is a client of [RaftThreads]: it starts the
    node, asks for its state once in a while, and destroys the node when the loop has
    ended, with the threads running all the time. In C the shutdown is a data race. *)

From Stdlib Require Import String.
From stdpp Require Import base numbers list strings.
From S2P Require Import XDevice Prelude Raft RaftInv Getopt Cli NodeMain NodeProps RaftThreads ThreadProps.
Local Open Scope Z_scope.

(** ** The main function as a client *)

(** What it does with its node: the start, with both threads; [n] turns of the loop, each
    with [xdevice_raft_get_state]; and the destruction. *)
Definition main_program (n : nat) : list label :=
  [LStart raft_callbacks; LClient true; LClient true] ++
  mjoin (replicate n [LCall CallGetState; LClient true; LClient true; LClient true]) ++
  [LDestroy; LClient true; LClient true; LClient true].

Definition is_client (l : label) : bool := match l with LThread _ _ => false | _ => true end.

(** A schedule of the daemon: the steps of the main function, as far as it gets, between
    steps of the threads. *)
Definition daemon_schedule (n : nat) (ls : list label) : Prop :=
  filter (λ l, is_client l = true) ls `prefix_of` main_program n ∧
  Forall (λ l, match l with LThread _ e => raft_env_ok e | _ => True end) ls.

(** ** Discipline *)

(** What the main function does after the start. *)
Definition main_label (l : label) : Prop :=
  match l with
  | LThread _ e => raft_env_ok e
  | LStart _ => False
  | LCall c => c = CallGetState
  | LDestroy => True
  | LClient ok => ok = true
  end.

(** No thread has been joined until the node is being destroyed. *)
Definition main_place (s : sys) : Prop :=
  match sy_client s with
  | StartJoin => False
  | CallLock c | CallBody c => c = CallGetState ∧ unjoined s
  | DestroyFirst | DestroySecond | DestroyFree | Gone => True
  | _ => unjoined s
  end.

(** The threads were created. *)
Record main_inv (s : sys) : Prop := {
  mi_place : main_place s;
  mi_handles : sy_election s ≠ Unspecified ∧ sy_heartbeat s ≠ Unspecified;
  mi_threads : sy_client s = StartFirst ∨ sy_threads s ≠ []
}.

Lemma unjoined_goto s i t pc : sy_threads s !! i = Some t → unjoined s → unjoined (goto i t pc s).
Proof.
  intros Hi Hu. unfold unjoined, goto. cbn. apply Forall_insert; [done|]. exact (Forall_lookup_1 _ _ _ _ Hu Hi).
Qed.

Lemma unjoined_spawn s k : unjoined s → unjoined (spawn k s).
Proof. intros Hu. unfold unjoined, spawn. cbn. apply Forall_app. split; [done|by repeat constructor]. Qed.

(** The invariant looks at the join marks and the place of the client only. *)
Lemma main_inv_thread s i t pc n m :
  sy_threads s !! i = Some t → main_inv s →
  main_inv ((goto i t pc s) <| sy_node := n |> <| sy_mutex := m |>).
Proof.
  intros Hi [H Hh Ht]. pose proof (unjoined_goto s i t pc Hi) as Hu. split; [|done|].
  - unfold main_place in *. cbn. destruct (sy_client s); try done; try (by apply Hu); split; first [apply H|apply Hu, H].
  - destruct Ht as [|Ht]; [by left|right]. cbn. rewrite <- length_zero_iff_nil in Ht |- *.
    by change (length (<[i := t <| th_pc := pc |>]> (sy_threads s)) ≠ 0%nat); rewrite length_insert.
Qed.

Lemma exec_thread_main s i e s' : main_inv s → exec_thread s i e = Next s' → main_inv s'.
Proof.
  intros Hs. unfold exec_thread. destruct (sy_threads s !! i) as [t|] eqn:Hi; [|done].
  pose proof (λ pc n m, main_inv_thread s i t pc n m Hi Hs) as Hgo.
  destruct (th_pc t); try done; try (destruct (sy_freed s); [done|]).
  - intros [= <-]. by apply (Hgo _ (sy_node s) (sy_mutex s)).
  - destruct (sy_mutex s); [done|]. intros [= <-]. by apply (Hgo _ (sy_node s)).
  - destruct (RaftThreads.thread_round _ _ _) as [n|]; [|done]. intros [= <-]. by apply (Hgo _ n (sy_mutex s)).
  - intros [= <-]. by apply (Hgo _ (sy_node s)).
  - intros [= <-]. by apply (Hgo _ (sy_node s) (sy_mutex s)).
Qed.

Lemma join_main s h pc s' :
  main_inv s → sy_client s ≠ StartFirst → pc = DestroySecond ∨ pc = DestroyFree →
  exec_join_handle s h pc = Next s' → main_inv s'.
Proof.
  intros [_ Hh [|Ht]] Hcl Hpc Hj; [done|]. pose proof (join_keeps _ _ _ _ Hj) as [Hc Hlen]. split.
  - unfold main_place. rewrite Hc. by destruct Hpc as [->| ->].
  - destruct h as [|h|]; cbn in Hj; [by injection Hj as <-| |done]. unfold exec_join in Hj.
    destruct (sy_threads s !! h); [|done]. destruct (th_joined _); [done|]. case_decide; [|done]. by injection Hj as <-.
  - right. intros Hnil. rewrite Hnil in Hlen. by destruct (sy_threads s).
Qed.

Lemma exec_client_main s s' : main_inv s → exec_client s true = Next s' → main_inv s'.
Proof.
  intros Hs. pose proof Hs as [Hp Hh Ht]. unfold main_place in Hp. unfold exec_client.
  assert (Hnew : ∀ k, sy_threads (spawn k s) ≠ []) by (intros k; cbn; by destruct (sy_threads s)).
  destruct (sy_client s) eqn:Hcl; try done; try (destruct Ht as [|Ht]; [done|]).
  - intros [= <-]. split; [by apply unjoined_spawn|by split; [|apply Hh]|right; apply Hnew].
  - intros [= <-]. split; [by apply unjoined_spawn|by split; [apply Hh|]|right; apply Hnew].
  - destruct (sy_mutex s); [done|]. intros [= <-]. by split; [|done|right].
  - destruct Hp as [-> Hu]. intros [= <-]. by split; [|done|right].
  - intros [= <-]. by split; [|done|right].
  - apply join_main; [done|by rewrite Hcl|by left].
  - apply join_main; [done|by rewrite Hcl|by right].
  - destruct (sy_mutex s); [done|]. intros [= <-]. by split; [|done|right].
Qed.

(** A step of the daemon keeps the discipline of [RaftThreads], unless it has to wait. *)
Lemma main_step s l :
  main_inv s → main_label l → sys_exec s l ≠ Blocked →
  label_ok s l ∧ match sys_exec s l with Next s' => main_inv s' | _ => True end.
Proof.
  intros Hs Hl Hb. destruct l as [i e|cb|c| |ok]; cbn in Hl; [| |subst c| |subst ok].
  - split; [done|]. cbn [sys_exec]. destruct (exec_thread s i e) eqn:He; [done..|]. by eapply exec_thread_main.
  - done.
  - split; [done|]. cbn [sys_exec call_check] in *. destruct Hs as [Hp Hh Ht]. unfold main_place in Hp.
    destruct (sy_client s) eqn:Hcl; try done. by split; [|done|right; destruct Ht].
  - cbn [sys_exec label_ok] in *. destruct Hs as [Hp Hh Ht]. unfold main_place in Hp.
    destruct (sy_client s) eqn:Hcl; try done. split; [done|]. by split; [|done|right; destruct Ht].
  - split; [done|]. cbn [sys_exec]. destruct (exec_client s true) eqn:He; [done..|]. by eapply exec_client_main.
Qed.

Lemma main_start n : main_inv (mk_sys n None [] NoThread NoThread StartFirst false).
Proof. split; [by apply Forall_nil|done|by left]. Qed.

Lemma main_labels_ok s ls : main_inv s → Forall main_label ls → sys_run s ls ≠ Blocked → labels_ok s ls.
Proof.
  intros Hs Hls. revert s Hs. induction Hls as [|l ls Hl _ IH]; intros s Hs Hb; [done|]. cbn [sys_run labels_ok] in *.
  assert (Hb1 : sys_exec s l ≠ Blocked) by (intros Hx; by rewrite Hx in Hb).
  destruct (main_step s l Hs Hl Hb1) as [Hok Hnext]. split; [done|].
  destruct (sys_exec s l) as [| |s1]; [done..|]. by apply IH.
Qed.

Lemma main_program_labels n : ∃ rest, main_program n = LStart raft_callbacks :: rest ∧ Forall main_label rest.
Proof.
  eexists. split; [reflexivity|]. repeat apply Forall_cons_2; try done.
  apply Forall_app. split; [|by repeat constructor].
  induction n as [|n IH]; [constructor|]. cbn. repeat apply Forall_cons_2; try done.
Qed.

(** A schedule that does not begin by waiting begins with the start. *)
Lemma schedule_cases n ls s :
  daemon_schedule n ls → sy_threads s = [] → sys_run s ls ≠ Blocked →
  ls = [] ∨ ∃ ls', ls = LStart raft_callbacks :: ls' ∧ Forall main_label ls'.
Proof.
  intros [[rest Hp] Henv] Ht Hb. destruct ls as [|l ls]; [by left|right].
  destruct (main_program_labels n) as (prog&Hprog&Hmain). rewrite Hprog in Hp.
  destruct l as [i e|cb|c| |ok]; try (rewrite filter_cons in Hp; cbn in Hp; discriminate).
  { destruct Hb. cbn. unfold exec_thread. by rewrite Ht. }
  rewrite filter_cons in Hp. cbn in Hp. injection Hp as <- Hp. exists ls. split; [done|].
  apply Forall_cons in Henv as [_ Henv]. subst prog. apply Forall_app in Hmain as [Hmain _].
  clear -Henv Hmain. induction Henv as [|l ls Hl _ IH]; [constructor|]. rewrite filter_cons in Hmain.
  destruct l as [i e|cb|c| |ok]; cbn in Hmain; [constructor; [done|by apply IH]|..];
    apply Forall_cons in Hmain as [? ?]; (constructor; [done|by apply IH]).
Qed.

Lemma daemon_disciplined e id n0 n ls :
  xdevice_raft_create_node e (Some id) = Some n0 → daemon_schedule n ls → Z.of_nat (length ls) < max_steps →
  sys_run (sys_initial n0) ls ≠ Blocked → disciplined n0 ls.
Proof.
  intros Hc Hls Hlen Hb. split; [by exists e, id|]. split; [done|].
  destruct (schedule_cases n ls (sys_initial n0) Hls eq_refl Hb) as [->|(ls'&->&Hls')]; [done|].
  split; [done|]. cbn [sys_exec sys_initial sy_client]. apply main_labels_ok; [apply main_start|done|exact Hb].
Qed.

(** ** Refinement *)

(** After the start only rounds take effect. *)
Lemma linear_rounds s ls :
  main_inv s → Forall main_label ls → sys_run s ls ≠ Blocked → Forall NodeProps.thread_round (linear s ls).
Proof.
  intros Hs Hls. revert s Hs. induction Hls as [|l ls Hl _ IH]; intros s Hs Hb; [constructor|]. cbn [sys_run linear] in *.
  assert (Hb1 : sys_exec s l ≠ Blocked) by (intros Hx; by rewrite Hx in Hb).
  destruct (main_step s l Hs Hl Hb1) as [_ Hnext].
  destruct (sys_exec s l) as [| |s1]; [done|constructor|]. apply Forall_app. split; [|by apply IH].
  destruct l as [i e|cb|c| |ok]; try done; cbn [label_op].
  - destruct (sy_threads s !! i) as [t|]; [|done]. cbn. case_decide; [|done]. by destruct (th_kind t); repeat constructor.
  - pose proof (mi_place _ Hs) as Hp. unfold main_place in Hp.
    destruct (sy_client s) as [| | | |c|c| | | | |]; try constructor. destruct Hp as [-> _]. constructor.
Qed.

Lemma node_rounds_steps n ops : node_rounds n ops = raft_steps n ops.
Proof. revert n. induction ops as [|op ops IH]; intros n; [done|]. cbn. by destruct (raft_step n op); cbn. Qed.

(** Rounds do not look at the flag and the handles. *)
Lemma rounds_forget n a ops a' :
  forget n = forget a → Forall NodeProps.thread_round ops → raft_steps a ops = Some a' →
  ∃ n', node_rounds n ops = Some n' ∧ forget n' = forget a'.
Proof.
  intros Hf Hops. revert n a Hf. induction Hops as [|op ops Hop _ IH]; intros n a Hf Ha.
  { injection Ha as <-. by exists n. }
  cbn [raft_steps] in Ha. destruct (raft_step a op) as [a1|] eqn:Ha1; [|done].
  assert (Hn : ∃ n1, raft_step n op = Some n1 ∧ forget n1 = forget a1).
  { destruct op as [e|e| | |]; try done; cbn [raft_step] in Ha1 |- *.
    - exact (forget_transfer (election_round e) n a a1 (election_round_forget e) Hf Ha1).
    - exact (forget_transfer (heartbeat_round e) n a a1 (heartbeat_round_forget e) Hf Ha1). }
  destruct Hn as (n1&Hn1&Hf1). cbn [node_rounds]. rewrite Hn1. by apply (IH n1 a1).
Qed.

(** The node that [node_start] gives is the created one with its callbacks. *)
Lemma node_start_forget ev o events node n0 :
  node_start ev o = Some (events, inr node) →
  xdevice_raft_create_node (nv_create ev) (Some (no_node_id o)) = Some n0 →
  forget node = forget (n0 <| rn_callbacks := raft_callbacks |>).
Proof.
  unfold node_start, xdevice_raft_create_node, xdevice_raft_start_node.
  destruct (nv_init_ok ev), (nv_create_server_ok ev _), (bool_decide _); try done.
  destruct (re_malloc_ok _ 0), (re_malloc_ok _ 1), (re_mutex_init_ok _); try done. cbn [negb].
  destruct (re_thread_ok _ 0), (re_thread_ok _ 1); try done. cbn. by intros [= <- <-] [= <-].
Qed.

(** A run of the daemon is the start and then rounds, which the node of [NodeMain] takes
    as well. *)
Lemma daemon_run_rounds ev o events node n0 n ls s :
  node_start ev o = Some (events, inr node) →
  xdevice_raft_create_node (nv_create ev) (Some (no_node_id o)) = Some n0 →
  daemon_schedule n ls → ls ≠ [] → Z.of_nat (length ls) < max_steps →
  sys_run (sys_initial n0) ls = Next s →
  ∃ rounds node' a, Forall NodeProps.thread_round rounds ∧ node_rounds node rounds = Some node' ∧
    forget (sy_node s) = forget node' ∧ sim s a.
Proof.
  intros Hst Hc Hls Hne Hlen Hrun. assert (Hb : sys_run (sys_initial n0) ls ≠ Blocked) by by rewrite Hrun.
  pose proof (disciplined_sim n0 ls (daemon_disciplined _ _ _ _ _ Hc Hls Hlen Hb)) as H.
  rewrite Hrun in H. destruct H as (a&_&Hsteps&Hs&_).
  destruct (schedule_cases n ls (sys_initial n0) Hls eq_refl Hb) as [->|(ls'&->&Hls')]; [done|].
  cbn [sys_run sys_exec sys_initial sy_client linear label_op] in Hrun, Hsteps. revert Hrun Hsteps.
  set (s1 := (sys_initial n0) <| sy_node := _ |> <| sy_client := StartFirst |>). intros Hrun Hsteps.
  assert (Hrs : Forall NodeProps.thread_round (linear s1 ls')).
  { apply linear_rounds; [apply main_start|done|by rewrite Hrun]. }
  cbn [option_list app raft_steps raft_step mbind option_bind] in Hsteps.
  destruct (rounds_forget node (n0 <| rn_callbacks := raft_callbacks |> <| rn_running := true |>
                                  <| rn_election_thread := THREAD_UNSPECIFIED |>)
    (linear s1 ls') a) as (node'&Hnode&Hf); [by apply (node_start_forget _ _ _ _ _ Hst Hc)|done|done|].
  exists (linear s1 ls'), node', a. split_and!; [done|done| |done]. rewrite Hf. apply Hs.
Qed.

Lemma main_run s ls s' :
  main_inv s → Forall main_label ls → sys_run s ls = Next s' → main_inv s'.
Proof.
  intros Hs Hls. revert s Hs. induction Hls as [|l ls Hl _ IH]; intros s Hs Hrun; cbn in Hrun; [by injection Hrun as <-|].
  assert (Hb : sys_exec s l ≠ Blocked) by (intros Hx; by rewrite Hx in Hrun).
  destruct (main_step s l Hs Hl Hb) as [_ Hnext]. destruct (sys_exec s l); [done..|]. by eapply IH.
Qed.

(** The only data race of the daemon is the reset of the flag, with both threads there. *)
Lemma daemon_race n n0 ls s :
  daemon_schedule n ls → sys_run (sys_initial n0) ls = Next s →
  resets_in (sys_initial n0) ls ↔ LDestroy ∈ ls.
Proof.
  intros Hls Hrun. assert (Hb : sys_run (sys_initial n0) ls ≠ Blocked) by by rewrite Hrun.
  split.
  - intros (ls1&l&ls2&s1&->&_&_&Hreset&_). destruct l as [i e|cb|c| |ok]; try done; [apply elem_of_app; right; by left|].
    destruct (schedule_cases n _ (sys_initial n0) Hls eq_refl Hb) as [Hnil|(ls'&Heq&Hls')]; [by destruct ls1|].
    assert (Hin : LClient ok ∈ ls1 ++ LClient ok :: ls2) by (apply elem_of_app; right; by left). rewrite Heq in Hin.
    apply elem_of_cons in Hin as [|Hin]; [done|]. rewrite Forall_forall in Hls'. cbn in Hreset.
    pose proof (Hls' _ Hin) as Hok. cbn in Hok. subst ok. by destruct (sy_client s1).
  - intros (ls1&ls2&->)%list_elem_of_split.
    destruct (sys_run (sys_initial n0) ls1) as [| |s1] eqn:Hrun1.
    1, 2: exfalso; clear -Hrun Hrun1; revert Hrun Hrun1; generalize (sys_initial n0); induction ls1 as [|l ls1 IH];
      intros s0 Hrun Hrun1; cbn in *; [done|destruct (sys_exec s0 l); eauto; done].
    exists ls1, LDestroy, ls2, s1. rewrite (sys_run_app _ _ _ _ Hrun1) in Hrun. cbn [sys_run] in Hrun.
    assert (Hb1 : sys_exec s1 LDestroy ≠ Blocked) by (intros Hx; by rewrite Hx in Hrun).
    split_and!; [done|done|done|done|].
    destruct (schedule_cases n _ (sys_initial n0) Hls eq_refl Hb) as [Hnil|(ls'&Heq&Hls')]; [by destruct ls1|].
    destruct ls1 as [|l ls1]; [done|]. cbn in Heq. injection Heq as -> <-. apply Forall_app in Hls' as [Hls' _].
    cbn [sys_run sys_exec sys_initial sy_client] in Hrun1.
    assert (Hm : main_inv s1) by (eapply main_run; [apply main_start|exact Hls'|exact Hrun1]).
    destruct Hm as [Hp _ Ht]. unfold main_place in Hp. cbn in Hb1.
    destruct (sy_client s1) eqn:Hcl; try done. destruct Ht as [|Ht]; [done|].
    destruct (sy_threads s1) as [|t ts] eqn:Hth; [done|]. left. unfold unjoined in Hp. rewrite Hth in Hp.
    by apply Forall_cons in Hp as [? _].
Qed.

(** C17: the daemon with its threads, which run at any speed while the main function starts
    the node, asks for its state as often as it likes and destroys it. With every access
    taken as atomic, no step is undefined: neither thread uses the node after its release.
    The rounds that have taken effect are a run of the node as [NodeMain] has it, so the
    node is a follower of term 0 until a round of the election thread comes at or after
    its time-out, and the leader of term 1 from then on; and when the node has been
    released every thread has ended. In C the same holds until the main loop has ended;
    every shutdown is undefined behaviour, because it resets the plain [bool] that the
    threads are testing. *)
Theorem daemon_threads_refine ev o events node n0 n ls :
  node_start ev o = Some (events, inr node) →
  xdevice_raft_create_node (nv_create ev) (Some (no_node_id o)) = Some n0 →
  daemon_schedule n ls → ls ≠ [] → Z.of_nat (length ls) < max_steps →
  sys_run (sys_initial n0) ls ≠ Undefined ∧
  ∀ s, sys_run (sys_initial n0) ls = Next s →
    (LDestroy ∉ ls → c_run (sys_initial n0) ls = Next s) ∧
    (LDestroy ∈ ls → c_run (sys_initial n0) ls = Undefined) ∧
    ∃ rounds node', Forall NodeProps.thread_round rounds ∧ node_rounds node rounds = Some node' ∧
      forget (sy_node s) = forget node' ∧
      (rn_state (sy_node s) = XDEVICE_NODE_LEADER ↔ round_at (rn_election_timeout node) rounds) ∧
      rn_current_term (sy_node s) = (if decide (rn_state (sy_node s) = XDEVICE_NODE_LEADER) then 1 else 0) ∧
      (sy_freed s = true → Forall (λ t, th_pc t = Exited) (sy_threads s)).
Proof.
  intros Hst Hc Hls Hne Hlen. split.
  { intros Hu. assert (Hb : sys_run (sys_initial n0) ls ≠ Blocked) by by rewrite Hu.
    pose proof (disciplined_sim n0 ls (daemon_disciplined _ _ _ _ _ Hc Hls Hlen Hb)) as H. by rewrite Hu in H. }
  intros s Hrun. assert (Hb : sys_run (sys_initial n0) ls ≠ Blocked) by by rewrite Hrun.
  pose proof (disciplined_races n0 ls (daemon_disciplined _ _ _ _ _ Hc Hls Hlen Hb)) as Hrace.
  rewrite (daemon_race n n0 ls s Hls Hrun) in Hrace. rewrite c_run_eq, Hrun.
  split; [rewrite <- Hrace; by destruct (run_racy _ _)|]. split; [rewrite <- Hrace; by intros ->|].
  destruct (daemon_run_rounds _ _ _ _ _ _ _ _ Hst Hc Hls Hne Hlen Hrun) as (rounds&node'&a&Hrs&Hnode&Hf&Hs).
  destruct (node_start_node _ _ _ _ Hst) as (Hn&Hfol&_).
  destruct (lone_rounds node rounds Hn Hrs) as (node''&Hnode'&Hn'&_&Hiff).
  assert (node'' = node') as -> by congruence. exists rounds, node'.
  assert (Hstate : rn_state (sy_node s) = rn_state node') by exact (f_equal rn_state Hf).
  assert (Hterm : rn_current_term (sy_node s) = rn_current_term node') by exact (f_equal rn_current_term Hf).
  rewrite Hstate, Hterm. split_and!; try done; [by apply Hiff| |].
  - by destruct (ln_term _ Hn') as [[-> ->]|[-> ->]].
  - intros Hg. apply (sim_freed _ _ Hs) in Hg. pose proof (sim_client _ _ Hs) as Hcl. rewrite Hg in Hcl.
    apply Forall_lookup. intros i t Hi. eapply sim_joined; [done|done|]. exact (Forall_lookup_1 _ _ _ _ Hcl Hi).
Qed.

(** ** Witness

    The daemon with the default options: its second election round is late enough, the
    main function waits for both threads, and the node is released. *)
Definition w_daemon_created : xdevice_raft_node :=
  default (sy_node (sys_initial w_node)) (xdevice_raft_create_node (w_raft_env 1000) (Some "node1"%string)).

Definition w_daemon_schedule : list label :=
  [LStart raft_callbacks; LClient true] ++
  ((λ i, LThread i (w_raft_env 1100)) <$> [0; 0; 0]%nat) ++ [LClient true; LThread 1 (w_raft_env 1100)] ++
  [LThread 0 (w_raft_env 1100); LCall CallGetState; LClient true; LClient true; LClient true] ++
  ((λ i, LThread i (w_raft_env 1400)) <$> [0; 0; 0; 0]%nat) ++ [LDestroy] ++
  ((λ i, LThread i (w_raft_env 1400)) <$> [0; 0; 0; 1; 1; 1; 1; 1]%nat) ++
  [LClient true; LClient true; LClient true].

Lemma w_raft_env_ok ms : raft_env_ok (w_raft_env ms).
Proof. by split; cbn; lia. Qed.

Lemma w_daemon_schedule_ok : daemon_schedule 1 w_daemon_schedule.
Proof.
  split; [by exists []|]. repeat apply Forall_cons_2; try done; apply w_raft_env_ok.
Qed.

Lemma w_daemon_schedule_run :
  match sys_run (sys_initial w_daemon_created) w_daemon_schedule with
  | Next s => (rn_state (sy_node s), sy_freed s, th_pc <$> sy_threads s)
  | _ => (XDEVICE_NODE_DOWN, false, [])
  end = (XDEVICE_NODE_LEADER, true, [Exited; Exited]).
Proof. vm_compute. reflexivity. Qed.

Lemma daemon_threads_refine_witness :
  ∃ s rounds node', sys_run (sys_initial w_daemon_created) w_daemon_schedule = Next s ∧ sy_freed s = true ∧
    node_rounds w_node rounds = Some node' ∧ forget (sy_node s) = forget node' ∧
    round_at (rn_election_timeout w_node) rounds ∧ rn_current_term (sy_node s) = 1 ∧
    c_run (sys_initial w_daemon_created) w_daemon_schedule = Undefined.
Proof.
  destruct (daemon_threads_refine w_node_env default_options
    [NodeAcquire NODE_CONTEXT; NodeAcquire NODE_SERVER; NodeAcquire NODE_LISTENING; NodeAcquire NODE_RAFT]
    w_node w_daemon_created 1 w_daemon_schedule) as [_ H];
    [vm_compute; reflexivity|vm_compute; reflexivity|exact w_daemon_schedule_ok|discriminate|reflexivity|].
  pose proof w_daemon_schedule_run as Hr.
  destruct (sys_run (sys_initial w_daemon_created) w_daemon_schedule) as [| |s]; [discriminate Hr..|].
  injection Hr as Hl Hfr _. destruct (H s eq_refl) as (_&Hrace&rounds&node'&_&Hn&Hf&Hat&Hterm&_).
  rewrite Hl, decide_True in Hterm by reflexivity.
  exists s, rounds, node'. split_and!; [reflexivity|exact Hfr|exact Hn|exact Hf|by apply Hat|exact Hterm|].
  apply Hrace. apply list_elem_of_In. vm_compute. tauto.
Defined.
