(* ===== verification/StorageTest.v ===== *)
(** * StorageTest: the storage test program ([src/test/storage_test.c])

    The repository's own test program, as a client of the other components: each test
    function runs a fixed sequence of calls and returns -1 at the first that fails, and
    [main] returns -1 when a test did. The output is not modelled, apart from the
    statistics that the performance test prints. *)

From Stdlib Require Import String.
From stdpp Require Import base numbers list strings gmap.
From S2P Require Import XDevice Prelude Libc StorageInterface StorageSpec MockStorage MockBackend.
From S2P Require Import Posix LocalStorage StorageManager ManagerClient RaftAdapter.
Local Open Scope Z_scope.

(** ** What the program gets from outside

    The environments of its calls, and what lies on its stack where a structure is not
    initialised. *)
Record test_env := mk_test_env {
  te_create : nat → call_env;              (* the k-th creation of an interface *)
  te_mock : nat → call_env;                (* the k-th call of a test *)
  te_local : nat → call_env;
  te_manager : nat → nat → call_env;
  te_adapter : nat → nat → call_env;
  te_performance : nat → call_env;
  te_info : storage_file_info_t;
  te_stats : storage_stats_t;
  te_storage_manager : storage_manager_t;
  te_raft_adapter : raft_storage_adapter_t
}.

(** ** Tests of one backend *)

Definition test_path : string := "test_file.dat".
Definition test_data : block := chars "Hello, XDevice Storage!".

Section interface_test.
Context {E W P : Type}.

(** [test_storage_interface]: a NULL function pointer is undefined behaviour, except
    for the one that the code tests. *)
Definition test_storage_interface (storage : storage_vtable E W P) (e : nat → E)
    (info : storage_file_info_t) (stats : storage_stats_t) (w : W) (p : iptr P)
    : option (Z * W * iptr P) :=
  let len := blen test_data in
  f ← vt_init storage;
  '(ret, w, p) ← f (e 0%nat) w p (Some "/tmp/xdevice_test"%string);
  if negb (ret =? XDEVICE_OK) then Some (-1, w, p) else
  f ← vt_health_check storage;
  '(ret, w, p) ← f (e 1%nat) w p;
  if negb (ret =? XDEVICE_OK) then Some (-1, w, p) else
  f ← vt_create_file storage;
  '(ret, w, p) ← f (e 2%nat) w p (Some test_path) 1024;
  if negb (ret =? XDEVICE_OK) then Some (-1, w, p) else
  f ← vt_write_sync storage;
  '(ret, w, p) ← f (e 3%nat) w p (Some test_path) 0 (Some test_data) len;
  if negb (ret =? XDEVICE_OK) then Some (-1, w, p) else
  '(ret, w, p) ← (match vt_fsync storage with
                  | Some f => f (e 4%nat) w p (Some test_path)
                  | None => Some (error_code XDEVICE_OK, w, p)
                  end);
  if negb (ret =? XDEVICE_OK) then Some (-1, w, p) else
  f ← vt_read_sync storage;
  '(ret, w, p, buffer) ← f (e 5%nat) w p (Some test_path) 0 (Some (zeros 128)) len;
  if negb (ret =? XDEVICE_OK) then Some (-1, w, p) else
  read_buffer ← buffer;
  if negb (bool_decide (take (length test_data) read_buffer = test_data)) then Some (-1, w, p) else
  f ← vt_get_file_info storage;
  '(ret, w, p, _) ← f (e 6%nat) w p (Some test_path) (Some info);
  if negb (ret =? XDEVICE_OK) then Some (-1, w, p) else
  f ← vt_get_stats storage;
  '(ret, w, p, _) ← f (e 7%nat) w p (Some stats);
  if negb (ret =? XDEVICE_OK) then Some (-1, w, p) else
  f ← vt_delete_file storage;
  '(ret, w, p) ← f (e 8%nat) w p (Some test_path);
  if negb (ret =? XDEVICE_OK) then Some (-1, w, p) else
  f ← vt_cleanup storage;
  '(ret, w, p) ← f (e 9%nat) w p;
  if negb (ret =? XDEVICE_OK) then Some (-1, w, p) else
  Some (0, w, p).

End interface_test.

(** ** Tests over the in-memory backend *)

Section mock_tests.
Context (XDEVICE_ERROR_NO_SPACE : Z) {K : Type}.
Implicit Types (k : K).

Abbreviation mock_table := (mock_vtable XDEVICE_ERROR_NO_SPACE K).
Abbreviation mock_mem := (mem call_env K mock_storage_private_t).

(** The calls of a backend made inside call [n] of the manager, and the manager's own. *)
Definition backend_env (e : nat → nat → call_env) (n : nat) : nat → call_env := λ i, e n (S i).
Definition manager_env (e : nat → nat → call_env) (n : nat) : call_env := e n 0%nat.

(** Where the object of a test is, and its manager: each test has a heap of its own. *)
Definition the_loc : loc := 1%positive.

(** [create_mock_storage_interface], the object in a new heap, and
    [mock_storage->init(mock_storage, NULL)]. The outer [None] is undefined behaviour,
    the inner one the NULL result of the creation. *)
Definition new_mock (e e' : call_env) k : option (option (Z * mock_mem)) :=
  match create_mock_storage_interface e with
  | None => Some None
  | Some i =>
      f ← vt_init mock_table;
      '(ret, k, p) ← f e' k (Some i) None;
      i ← p;
      Some (Some (ret, mk_mem {[the_loc := mk_storage_interface i mock_table]} k))
  end.

Definition test_storage_manager (e : nat → nat → call_env) (manager : storage_manager_t) k
    : option (Z * K) :=
  let path := "manager_test.dat"%string in
  let data := chars "Storage Manager Test Data" in
  let '(ret, m) := storage_manager_init (manager_env e 0) (Some manager) in
  if negb (ret =? XDEVICE_OK) then Some (-1, k) else
  mock ← new_mock (e 1%nat 0%nat) (e 2%nat 0%nat) k;
  match mock with
  | None => Some (-1, k)
  | Some (ret, s) =>
      if negb (ret =? XDEVICE_OK) then Some (-1, mem_world s) else
      '(ret, m, s) ← storage_manager_register_backend (manager_env e 3) s m (Some the_loc);
      if negb (ret =? XDEVICE_OK) then Some (-1, mem_world s) else
      m ← m;
      let m := m <| sm_primary_backend := STORAGE_BACKEND_MOCK |> in
      '(ret, m, s) ← storage_manager_write (manager_env e 4) (backend_env e 4) s (Some m) (Some path) 0
                       (Some data) (blen data);
      if negb (ret =? XDEVICE_OK) then Some (-1, mem_world s) else
      '(ret, m, s, buffer) ← storage_manager_read (manager_env e 5) (backend_env e 5) s m (Some path) 0
                               (Some (zeros 128)) (blen data);
      if negb (ret =? XDEVICE_OK) then Some (-1, mem_world s) else
      read_buffer ← buffer;
      if negb (bool_decide (take (length data) read_buffer = data)) then Some (-1, mem_world s) else
      '(ret, m, s) ← storage_manager_cleanup (backend_env e 6) s m;
      if negb (ret =? XDEVICE_OK) then Some (-1, mem_world s) else
      Some (0, mem_world s)
  end.

(** A buffer of 128 bytes on the stack. *)
Definition stack_buffer (e : call_env) : block := junk e <$> seq 0 128.

(** The results of the initialisation and of the registration are not looked at. *)
Definition test_raft_storage_adapter (e : nat → nat → call_env) (manager : storage_manager_t)
    (adapter : raft_storage_adapter_t) k : option (Z * K) :=
  let log_entry := chars "Log Entry #1: Test Transaction" in
  let state_data := chars "current_term=5,voted_for=node2" in
  let snapshot_data := chars "Snapshot at index 100: Application State Checkpoint" in
  let '(ret, m) := storage_manager_init (manager_env e 0) (Some manager) in
  if negb (ret =? XDEVICE_OK) then Some (-1, k) else
  mock ← new_mock (e 1%nat 0%nat) (e 2%nat 0%nat) k;
  '(_, s) ← mock;
  '(_, m, s) ← storage_manager_register_backend (manager_env e 3) s m (Some the_loc);
  m ← m;
  let m := m <| sm_primary_backend := STORAGE_BACKEND_MOCK |> in
  let s := mk_adapter_mem {[the_loc := m]} s in
  '(ret, a) ← raft_storage_adapter_init s (Some adapter) (Some the_loc) (Some "raft1_"%string);
  if negb (ret =? XDEVICE_OK) then Some (-1, mem_world (am_mem s)) else
  '(ret, s) ← raft_storage_append_log (manager_env e 4) (backend_env e 4) s a 1 (Some log_entry)
                (blen log_entry);
  if negb (ret =? XDEVICE_OK) then Some (-1, mem_world (am_mem s)) else
  '(ret, s, _) ← raft_storage_read_log (manager_env e 5) (backend_env e 5) s a 1
                   (Some (stack_buffer (manager_env e 5))) (Some 128);
  if negb (ret =? XDEVICE_OK) then Some (-1, mem_world (am_mem s)) else
  '(ret, s) ← raft_storage_save_state (manager_env e 6) (backend_env e 6) s a
                (Some "persistent_state"%string) (Some state_data) (blen state_data);
  if negb (ret =? XDEVICE_OK) then Some (-1, mem_world (am_mem s)) else
  '(ret, s, _) ← raft_storage_load_state (manager_env e 7) (backend_env e 7) s a
                   (Some "persistent_state"%string) (Some (stack_buffer (manager_env e 7))) (Some 128);
  if negb (ret =? XDEVICE_OK) then Some (-1, mem_world (am_mem s)) else
  '(ret, s) ← raft_storage_save_snapshot (manager_env e 8) (backend_env e 8) s a 100
                (Some snapshot_data) (blen snapshot_data);
  if negb (ret =? XDEVICE_OK) then Some (-1, mem_world (am_mem s)) else
  '(ret, s, _) ← raft_storage_load_snapshot (manager_env e 9) (backend_env e 9) s a 100
                   (Some (stack_buffer (manager_env e 9))) (Some 128);
  if negb (ret =? XDEVICE_OK) then Some (-1, mem_world (am_mem s)) else
  let '(ret, a) := raft_storage_adapter_cleanup a in
  if negb (ret =? XDEVICE_OK) then Some (-1, mem_world (am_mem s)) else
  m ← am_managers s !! the_loc;
  '(ret, m, s) ← storage_manager_cleanup (backend_env e 10) (am_mem s) (Some m);
  if negb (ret =? XDEVICE_OK) then Some (-1, mem_world s) else
  Some (0, mem_world s).

(** ** The performance test *)

Definition perf_path (i : nat) : string :=
  snprintf 64 ("perf_test_" +:+ fmt_lu (Z.of_nat i) +:+ ".dat").

(** The first loop: [n] writes, from number [i]; a failure ends it. *)
Fixpoint perf_writes (e : nat → call_env) (data : block) (n i : nat) (p : iptr mock_storage_private_t)
    : option (iptr mock_storage_private_t) :=
  match n with
  | O => Some p
  | S n =>
      '(ret, p) ← mock_storage_write_sync XDEVICE_ERROR_NO_SPACE (e i) p (Some (perf_path i)) 0 (Some data)
                    (blen data);
      if negb (ret =? XDEVICE_OK) then Some p else perf_writes e data n (S i) p
  end.

(** The second loop reads the files again. *)
Fixpoint perf_reads (e : nat → call_env) (buffer : option block) (size : Z) (n i : nat)
    (p : iptr mock_storage_private_t) : option (iptr mock_storage_private_t) :=
  match n with
  | O => Some p
  | S n =>
      '(ret, p, buffer) ← mock_storage_read_sync (e i) p (Some (perf_path i)) 0 buffer size;
      if negb (ret =? XDEVICE_OK) then Some p else perf_reads e buffer size n (S i) p
  end.

(** The statistics of the result are the ones it prints; the throughput it computes
    from the clock is only printed. *)
Definition test_performance (create init alloc : call_env) (ew er : nat → call_env)
    (stats : storage_stats_t) : option (Z * option storage_stats_t) :=
  match create_mock_storage_interface create with
  | None => Some (-1, None)
  | Some i =>
      let '(ret, p) := mock_storage_init init (Some i) None in
      if negb (ret =? XDEVICE_OK) then Some (-1, None) else
      let p := mock_storage_set_delays p 100 200 in
      if negb (malloc_ok alloc 0 && malloc_ok alloc 1) then Some (-1, None) else
      let data := replicate (Z.to_nat 4096) Byte.xab in
      let buffer := junk alloc <$> seq 0 (Z.to_nat 4096) in
      p ← perf_writes ew data 1000 0 p;
      p ← perf_reads er (Some buffer) 4096 1000 0 p;
      let '(_, st) := mock_storage_get_stats p (Some stats) in
      Some (0, st)
  end.

(** ** The program *)

Context {HP : Posix K}.

(** The environments of the performance test: its creation, initialisation,
    allocation, and from the fourth on its transfers in turn. *)
Definition run_performance (te : test_env) : option (Z * option storage_stats_t) :=
  let e := te_performance te in
  test_performance (e 0%nat) (e 1%nat) (e 2%nat) (λ i, e (3 + 2 * i)%nat) (λ i, e (4 + 2 * i)%nat)
    (te_stats te).

(** [if (test(...) != 0) ret = -1]. *)
Definition failed (ret r : Z) : Z := if r =? 0 then ret else -1.

Definition main (te : test_env) k : option (Z * K) :=
  let ret := 0 in
  '(ret, k) ← match create_mock_storage_interface (te_create te 0) with
              | Some i =>
                  '(r, k, _) ← test_storage_interface mock_table (te_mock te) (te_info te) (te_stats te) k (Some i);
                  Some (failed ret r, k)
              | None => Some (ret, k)
              end;
  '(ret, k) ← match create_local_storage_interface (te_create te 1) with
              | Some i =>
                  '(r, k, _) ← test_storage_interface local_vtable (te_local te) (te_info te) (te_stats te) k (Some i);
                  Some (failed ret r, k)
              | None => Some (ret, k)
              end;
  '(r, k) ← test_storage_manager (te_manager te) (te_storage_manager te) k;
  let ret := failed ret r in
  '(r, k) ← test_raft_storage_adapter (te_adapter te) (te_storage_manager te) (te_raft_adapter te) k;
  let ret := failed ret r in
  '(r, _) ← run_performance te;
  Some (failed ret r, k).

End mock_tests.
