(* ===== verification/StorageTestProps.v ===== *)
(** * StorageTestProps: what the storage test program finds

    The tests over the in-memory backend pass when the C library grants what they ask
    for; the test of the local backend cannot pass; and the performance test reports
    success whatever its transfers do. *)

From Stdlib Require Import String.
From stdpp Require Import base numbers list strings gmap.
From S2P Require Import XDevice Prelude Libc StorageInterface StorageSpec MockStorage MockBackend.
From S2P Require Import Posix LocalStorage LocalInv LocalProps StorageManager ManagerClient RaftAdapter.
From S2P Require Import StorageTest.
Local Open Scope Z_scope.

(** ** The test of the local backend *)

Section local_test.
Context {K : Type} {HP : Posix K} {HL : PosixLaws K}.
Implicit Types (k : K) (priv : local_storage_private_t).

Definition new_local : iface local_storage_private_t :=
  mk_iface STORAGE_BACKEND_LOCAL "LocalFileStorage" None.

Lemma local_init_returns e k p config :
  chars (lp_base_path (local_initial_private config)) ≠ [] →
  ∃ ret k' p', local_storage_init e k p config = Some (ret, k', p').
Proof.
  intros Hc. unfold local_storage_init. destruct p as [i|]; [|eauto].
  destruct (malloc_ok e 0); cbn [negb]; [|eauto].
  destruct (create_directories_spec k (lp_base_path (local_initial_private config)) Hc) as (ret&k1&->&_).
  cbn [mbind option_bind].
  destruct (ret =? XDEVICE_OK), (malloc_ok e 1), (mutex_init_ok e 0), (malloc_ok e 2),
    (mutex_init_ok e 1), (mutex_init_ok e 2); cbn [negb]; eauto.
Qed.

(** Two calls that leave the object as it is. *)
Lemma health_object k p priv :
  local_object k p priv →
  ∃ ret k', local_storage_health_check k p = (ret, k') ∧ local_object k' p priv.
Proof.
  intros Hob. destruct (local_step_spec k p priv LHealth Hob I) as (r&k'&p'&priv'&Hst&Hob'&_).
  cbn [local_step] in Hst. destruct (local_storage_health_check k p) as [ret k1].
  injection Hst as -> -> <-. exists r, k'. split; [done|].
  assert (priv' = priv) as <-; [|done]. destruct Hob as [Hp _], Hob' as [Hp' _]. congruence.
Qed.

Lemma create_object e k p priv path size :
  local_object k p priv → local_op_ok (lp_base_path priv) (LCreate e path size) →
  ∃ ret k', local_storage_create_file e k p (Some path) size = Some (ret, k') ∧ local_object k' p priv.
Proof.
  intros Hob Hok. destruct (local_step_spec k p priv _ Hob Hok) as (r&k'&p'&priv'&Hst&Hob'&_).
  cbn [local_step] in Hst. destruct (local_storage_create_file e k p (Some path) size) as [[ret k1]|]; [|done].
  injection Hst as -> -> <-. exists r, k'. split; [done|].
  assert (priv' = priv) as <-; [|done]. destruct Hob as [Hp _], Hob' as [Hp' _]. congruence.
Qed.

(** The test goes on or returns -1. *)
Ltac next_step r := destruct (r =? XDEVICE_OK) eqn:?Hr; cbn [negb]; [apply Z.eqb_eq in Hr as ->|by do 2 eexists].

(** The program that checks the storage backends can not pass on the local one: whatever
    the operating system answers, the test returns -1. Where the calls before it succeed
    it is the read that fails, on the descriptor that the write cached. *)
Theorem local_interface_test_fails e info stats k :
  ∃ k' p', test_storage_interface local_vtable e info stats k (Some new_local) = Some (-1, k', p').
Proof.
  unfold test_storage_interface.
  cbn [vt_init vt_health_check vt_create_file vt_write_sync vt_fsync vt_read_sync local_vtable mbind option_bind].
  set (cfg := "/tmp/xdevice_test"%string).
  destruct (local_init_returns (e 0%nat) k (Some new_local) (Some cfg)) as (r0&k0&p0&Hinit); [done|].
  rewrite Hinit. cbn [mbind option_bind].
  next_step r0. destruct (local_init_object _ _ _ _ _ _ Hinit) as (priv&Hob&Hpriv&_). clear Hinit.
  assert (Hpath : local_path_ok (build_file_path (lp_base_path priv) test_path)).
  { subst priv. apply (bool_decide_eq_true_1 _). vm_compute. reflexivity. }
  destruct (health_object _ _ _ Hob) as (r1&k1&->&Hob1). cbn [mbind option_bind]. next_step r1.
  destruct (create_object (e 2%nat) _ _ _ test_path 1024 Hob1) as (r2&k2&->&Hob2); [split; [done|lia]|].
  cbn [mbind option_bind]. next_step r2.
  destruct (local_object_iface _ _ _ Hob2) as (i&->&Hi&Hinv).
  destruct (local_write_spec (e 3%nat) k2 i priv test_path 0 test_data Hi Hinv Hpath)
    as (r3&k3&priv3&->&Hinv3&Hg3&_&Hout); [split; [lia|by vm_compute]|by vm_compute|].
  cbn [mbind option_bind]. next_step r3.
  apply write_caches in Hout as (fd&o&Hc&Ho&Hro); [|done|done|right; by subst priv|apply Hpath].
  destruct (local_fsync_spec (e 4%nat) k3 (i <| if_private := Some priv3 |>) priv3 test_path)
    as (r4&k4&priv4&->&Ht&_); [by destruct i|done|].
  cbn [mbind option_bind]. next_step r4.
  destruct Ht as [Hinv4 Hg4 _ _ _].
  destruct (cached_wrong_mode (e 5%nat) k4 (Some (i <| if_private := Some priv3 |> <| if_private := Some priv4 |>))
    priv4 test_path fd o 0) as [Hfail _].
  - by split.
  - rewrite (lg_base _ _ _ _ Hg4), (lg_base _ _ _ _ Hg3). by apply (lg_cached _ _ _ _ Hg4).
  - by apply (lg_fds _ _ _ _ Hg4).
  - split; [lia|by vm_compute].
  - destruct (Hfail Hro (blen test_data) (zeros 128)) as (k5&p5&->); [by vm_compute|by vm_compute|].
    cbn [mbind option_bind]. change (error_code XDEVICE_ERROR_IO =? XDEVICE_OK) with false. by do 2 eexists.
Qed.

End local_test.

(** ** The tests over the in-memory backend *)

(** An environment that grants every request; times, random numbers and the contents
    of fresh memory are any. *)
Definition granted (time : nat → Z) (start stop : timespec) (rand : Z) (fresh : nat → Init.Byte.byte)
    : call_env :=
  {| malloc_ok := λ _, true; mutex_init_ok := λ _, true; time_now := time; clock_start := start;
     clock_end := stop; rand_value := rand; junk := fresh |}.

Section mock_tests.
Context (nospace : Z) {K : Type}.
(** What the environments have beside the grants: for call [n], and inside it call [k]. *)
Context (t : nat → nat → nat → Z) (c d : nat → nat → timespec) (r : nat → nat → Z)
  (j : nat → nat → nat → Init.Byte.byte).

Definition granted_at (n k : nat) : call_env := granted (t n k) (c n k) (d n k) (r n k) (j n k).

Lemma mock_interface_test info stats (k : K) :
  fst <$> (test_storage_interface (mock_vtable nospace K) (λ n, granted_at n 0) info stats k
    (Some (mk_iface STORAGE_BACKEND_MOCK "MockStorage" None))) = Some (0, k).
Proof. vm_compute. reflexivity. Qed.

Lemma storage_manager_test manager (k : K) :
  test_storage_manager nospace granted_at manager k = Some (0, k).
Proof. vm_compute. reflexivity. Qed.

Lemma raft_adapter_test manager adapter (k : K) :
  test_raft_storage_adapter nospace granted_at manager adapter k = Some (0, k).
Proof. vm_compute. reflexivity. Qed.

End mock_tests.

(** ** The performance test *)

Lemma perf_path_full i :
  Z.of_nat i < 1000 →
  perf_path i = "perf_test_" +:+ fmt_lu (Z.of_nat i) +:+ ".dat" ∧ mock_path_ok (perf_path i).
Proof.
  intros Hi. destruct (fmt_lu_chars (Z.of_nat i)) as [Hlen _]; [unfold u64; lia|].
  assert (Hs : (length (chars ("perf_test_" +:+ fmt_lu (Z.of_nat i) +:+ ".dat")) <= 34)%nat).
  { rewrite !chars_append, !length_app. cbn -[fmt_lu]. lia. }
  assert (Heq : perf_path i = "perf_test_" +:+ fmt_lu (Z.of_nat i) +:+ ".dat").
  { apply snprintf_short. lia. }
  split; [done|]. unfold mock_path_ok. rewrite Heq. lia.
Qed.

Lemma perf_path_inj i k : Z.of_nat i < 1000 → Z.of_nat k < 1000 → perf_path i = perf_path k → i = k.
Proof.
  intros Hi Hk. destruct (perf_path_full i Hi) as [-> _], (perf_path_full k Hk) as [-> _].
  intros Heq%(f_equal chars). rewrite !chars_append in Heq. apply (inj (app _)) in Heq.
  apply (inj (λ x, x ++ _)) in Heq.
  apply (inj chars), fmt_lu_inj in Heq; [lia|unfold u64; lia..].
Qed.

(** What a successful transfer adds to the statistics. *)
Lemma find_or_create_stats e priv path n i priv' :
  find_or_create e priv path n = Some (i, priv') → mp_stats priv' = mp_stats priv.
Proof.
  unfold find_or_create, create_new_file. destruct (find_file _ _); [by intros [= _ <-]|].
  destruct (_ <=? _); [done|]. destruct (negb _); [done|]. destruct (_ && _); [done|]. by intros [= _ <-].
Qed.

Lemma mock_write_stats nospace e i priv path off data size p' :
  nospace ≠ error_code XDEVICE_OK → if_private i = Some priv →
  mock_storage_write_sync nospace e (Some i) (Some path) off (Some data) size = Some (error_code XDEVICE_OK, p') →
  ∃ priv', private_of p' = Some priv' ∧
    mp_stats priv' = count_write (mp_stats priv) size (latency_ns (clock_start e) (clock_end e)).
Proof.
  intros Hns Hi. unfold mock_storage_write_sync. cbn [private_of mbind option_bind]. rewrite Hi.
  destruct (size =? 0); [done|]. destruct (_ && _); [done|].
  destruct (find_or_create e priv path _) as [[k priv1]|] eqn:Hf; [|done].
  apply find_or_create_stats in Hf. destruct (mp_files priv1 !! k) as [file|]; [|done]. cbn [mbind option_bind].
  destruct (if mf_size file <? off ⊞ size then _ else _) as [[ret file1]|]; [|done]. cbn [mbind option_bind].
  destruct (negb (ret =? XDEVICE_OK)); [done|]. destruct (_ <? _); [by intros [= ? _]|].
  destruct (mem_read data 0 size) as [src|]; [|done]. cbn [mbind option_bind].
  destruct (mem_write _ _ _) as [buf|]; [|done]. intros [= <-]. cbn. eexists. split; [done|]. cbn. by rewrite Hf.
Qed.

Lemma mock_read_stats e i priv path buf size p' buf' :
  if_private i = Some priv →
  mock_storage_read_sync e (Some i) (Some path) 0 (Some buf) size = Some (error_code XDEVICE_OK, p', buf') →
  ∃ priv' n, private_of p' = Some priv' ∧
    mp_stats priv' = count_read (mp_stats priv) n (latency_ns (clock_start e) (clock_end e)) ∧
    (∀ c, mock_wf priv → mock_abs (mp_files priv) !! path = Some c → blen c = wrap64 size → n = size).
Proof.
  intros Hi. unfold mock_storage_read_sync. cbn [private_of mbind option_bind]. rewrite Hi.
  destruct (size =? 0); [done|]. destruct (_ && _); [done|].
  destruct (find_file (mp_files priv) path) as [k|] eqn:Hf; [|done].
  destruct (mp_files priv !! k) as [file|] eqn:Hk; [|done]. cbn [mbind option_bind].
  destruct (_ <=? 0); [done|]. cbv zeta.
  set (n := if mf_size file <? 0 ⊞ size then mf_size file ⊟ 0 else size).
  destruct (mem_read _ _ _) as [src|]; [|done]. cbn [mbind option_bind].
  destruct (mem_write _ _ _) as [b1|]; [|done]. cbn [mbind option_bind].
  destruct (if n <? size then _ else _) as [b2|]; [|done]. intros [= <- _]. cbn.
  eexists _, n. split_and!; [done|done|]. intros c Hwf Hc Hlen.
  destruct (find_file_Some _ _ _ Hf) as (file'&Hk'&_&Habs). rewrite Hk in Hk'. injection Hk' as <-.
  rewrite Habs in Hc. injection Hc as <-.
  rewrite (blen_content file) in Hlen by exact (Forall_lookup_1 _ _ _ _ (wf_files _ Hwf) Hk).
  unfold n. rewrite Z.add_0_l, Hlen, Z.ltb_irrefl. done.
Qed.

(** The number of files is the number of paths. *)
Lemma size_mock_abs files : NoDup (mf_path <$> files) → size (mock_abs files) = length files.
Proof.
  induction files as [|f files IH]; intros Hnd; [done|]. apply NoDup_cons in Hnd as [Hin Hnd].
  cbn [mock_abs length]. rewrite map_size_insert_None; [by rewrite IH|].
  destruct (mock_abs files !! mf_path f) as [c|] eqn:Hc; [|done]. destruct Hin.
  destruct (find_file files (mf_path f)) as [k|] eqn:Hf.
  - destruct (find_file_Some _ _ _ Hf) as (g&Hg&Hp&_). apply list_elem_of_fmap. exists g.
    split; [done|]. by eapply list_elem_of_lookup_2.
  - apply find_file_None in Hf as [_ Hn]. congruence.
Qed.

Definition perf_data : block := replicate (Z.to_nat 4096) Byte.xab.

(** The files after [n] writes. *)
Fixpoint perf_files (n : nat) : gmap string block :=
  match n with O => ∅ | S n => <[perf_path n := perf_data]> (perf_files n) end.

Lemma perf_files_lookup n k :
  Z.of_nat n <= 1000 → Z.of_nat k < 1000 →
  perf_files n !! perf_path k = if decide (k < n)%nat then Some perf_data else None.
Proof.
  intros Hn Hk. induction n as [|n IH]; [done|]. cbn [perf_files].
  destruct (decide (k = n)) as [->|Hne].
  - rewrite lookup_insert_eq, decide_True by lia. done.
  - rewrite lookup_insert_ne by (intros Heq%perf_path_inj; lia). rewrite IH by lia.
    repeat case_decide; done || lia.
Qed.

Lemma size_perf_files n : Z.of_nat n <= 1000 → size (perf_files n) = n.
Proof.
  intros Hn. induction n as [|n IH]; [done|]. cbn [perf_files].
  rewrite map_size_insert_None; [by rewrite IH by lia|].
  rewrite perf_files_lookup by lia. by rewrite decide_False by lia.
Qed.

Lemma blen_perf_data : blen perf_data = 4096.
Proof. unfold perf_data, blen. rewrite length_replicate. lia. Qed.
#[local] Opaque perf_data.

(** The backend of the test after [w] writes and [r] reads. *)
Record perf_state (w r : nat) (i : iface mock_storage_private_t) (priv : mock_storage_private_t) : Prop := {
  ps_private : if_private i = Some priv;
  ps_wf : mock_wf priv;
  ps_config : mock_same_config mock_initial_private priv;
  ps_files : mock_abs (mp_files priv) = perf_files w;
  ps_writes : write_ops (mp_stats priv) = Z.of_nat w ∧ write_bytes (mp_stats priv) = 4096 * Z.of_nat w;
  ps_reads : read_ops (mp_stats priv) = Z.of_nat r ∧ read_bytes (mp_stats priv) = 4096 * Z.of_nat r;
  ps_errors : error_count (mp_stats priv) = 0
}.

Lemma perf_count w r i priv : Z.of_nat w <= 1000 → perf_state w r i priv → mp_file_count priv = Z.of_nat w.
Proof.
  intros Hw Hs. rewrite (wf_count _ (ps_wf _ _ _ _ Hs)).
  rewrite <- (size_mock_abs _ (wf_paths _ (ps_wf _ _ _ _ Hs))), (ps_files _ _ _ _ Hs).
  by rewrite size_perf_files.
Qed.

(** A write of the loop succeeds as long as there are fewer than 1000 files. *)
Lemma perf_write nospace e w i priv :
  nospace ≠ error_code XDEVICE_OK → perf_state w 0 i priv → Z.of_nat w < 1000 →
  malloc_ok e 0 = true → malloc_ok e 1 = true → malloc_ok e 2 = true →
  ∃ i' priv', mock_storage_write_sync nospace e (Some i) (Some (perf_path w)) 0 (Some perf_data)
      (blen perf_data) = Some (error_code XDEVICE_OK, Some i') ∧ perf_state (S w) 0 i' priv'.
Proof.
  intros Hns Hs Hw Hm0 Hm1 Hm2. pose proof (perf_count w 0 i priv ltac:(lia) Hs) as Hcount.
  destruct Hs as [Hi Hwf Hcfg Hfs [Hwo Hwb] Hr He]. pose proof blen_perf_data as Hlen.
  destruct (perf_path_full w Hw) as [_ Hp].
  assert (Hnone : mock_abs (mp_files priv) !! perf_path w = None).
  { rewrite Hfs, perf_files_lookup by lia. by rewrite decide_False by lia. }
  destruct (mock_write_spec nospace e i priv (perf_path w) 0 perf_data Hi Hwf Hp)
    as (ret&priv'&Hwr&Hwf'&Hcfg'&Hout&Hready); [lia..|].
  assert (Hpad : blen (pad_to (0 + blen perf_data) (default [] (mock_abs (mp_files priv) !! perf_path w))) <=
    mp_max_file_size priv).
  { rewrite Hnone, blen_pad_to, Hlen. destruct Hcfg as (->&_). by vm_compute. }
  assert (Hret : ret = error_code XDEVICE_OK).
  { apply Hready; [|done]. destruct Hcfg as (_&Hmax&_&Hinj&_).
    split_and!; [done|done|done|by rewrite Hinj|]. left. rewrite Hcount, Hmax. cbn. lia. }
  subst ret. destruct (mock_write_stats _ _ _ _ _ _ _ _ _ Hns Hi Hwr) as (priv2&Hp2&Hst).
  injection Hp2 as <-. exists (i <| if_private := Some priv' |>), priv'. split; [done|].
  assert (Habs : mock_abs (mp_files priv') = spec_write_file (mock_abs (mp_files priv)) (perf_path w) 0 perf_data)
    by (by inversion Hout).
  split; rewrite ?Hst; [by destruct i|done|by etrans| | |exact Hr|exact He].
  - rewrite Habs. unfold spec_write_file. rewrite Hnone, Hfs. cbn [perf_files default].
    by rewrite spec_write_0, drop_nil, app_nil_r.
  - cbn. rewrite Hwo, Hwb, Hlen, !wrap64_small by (unfold u64; lia). lia.
Qed.

Lemma perf_read e r i priv buf :
  perf_state 1000 r i priv → Z.of_nat r < 1000 → blen buf = 4096 →
  ∃ i' priv', mock_storage_read_sync e (Some i) (Some (perf_path r)) 0 (Some buf) 4096 =
      Some (error_code XDEVICE_OK, Some i', Some perf_data) ∧ perf_state 1000 (S r) i' priv'.
Proof.
  intros Hs Hr Hbuf. destruct Hs as [Hi Hwf Hcfg Hfs Hw [Hro Hrb] He]. pose proof blen_perf_data as Hlen.
  assert (Hsome : mock_abs (mp_files priv) !! perf_path r = Some perf_data).
  { rewrite Hfs, perf_files_lookup by lia. by rewrite decide_True by lia. }
  destruct (mock_read_spec e i priv (perf_path r) 0 buf 4096 Hi Hwf)
    as (ret&priv'&buf'&Hrd&Hwf'&Hcfg'&Hfs'&Hout); [lia..|].
  assert (ret = error_code XDEVICE_OK ∧ buf' = perf_data) as [-> ->].
  { destruct Hout as [(_&_&Hinj)|[(_&_&_&Hno)|(->&c&Hc&_&->)]].
    - destruct Hcfg as (_&_&Hc&_). by rewrite Hc in Hinj.
    - apply Hno in Hsome. lia.
    - split; [done|]. rewrite Hsome in Hc. injection Hc as <-.
      rewrite drop_ge by (unfold blen in Hbuf; lia). rewrite app_nil_r. unfold spec_read.
      rewrite pad_to_le by lia. cbn [drop]. rewrite drop_0, take_ge; [done|]. unfold blen in Hlen. lia. }
  destruct (mock_read_stats _ _ _ _ _ _ _ _ Hi Hrd) as (priv2&n&Hp2&Hst&Hn).
  injection Hp2 as <-. rewrite (Hn perf_data Hwf Hsome Hlen) in Hst.
  exists (i <| if_private := Some priv' |>), priv'. split; [done|].
  split; rewrite ?Hst; [by destruct i|done|by etrans|by rewrite Hfs'|exact Hw| |exact He].
  cbn. rewrite Hro, Hrb, !wrap64_small by (unfold u64; lia). lia.
Qed.

Lemma perf_writes_ok nospace e n w i priv :
  nospace ≠ error_code XDEVICE_OK → perf_state w 0 i priv → Z.of_nat (w + n) <= 1000 →
  (∀ k m, malloc_ok (e k) m = true) →
  ∃ i' priv', perf_writes nospace e perf_data n w (Some i) = Some (Some i') ∧ perf_state (w + n) 0 i' priv'.
Proof.
  intros Hns Hs Hn He. revert w i priv Hs Hn. induction n as [|n IH]; intros w i priv Hs Hn.
  { exists i, priv. by rewrite Nat.add_0_r. }
  destruct (perf_write nospace (e w) w i priv Hns Hs) as (i1&priv1&Hw&Hs1); [lia|done..|].
  cbn [perf_writes]. rewrite Hw. cbn [mbind option_bind]. change (negb _) with false. cbn match.
  destruct (IH (S w) i1 priv1 Hs1) as (i'&priv'&Hws&Hs'); [lia|]. exists i', priv'.
  split; [done|]. by rewrite <- Nat.add_succ_comm.
Qed.

Lemma perf_reads_ok e n r i priv buf :
  perf_state 1000 r i priv → Z.of_nat (r + n) <= 1000 → blen buf = 4096 →
  ∃ i' priv', perf_reads e (Some buf) 4096 n r (Some i) = Some (Some i') ∧ perf_state 1000 (r + n) i' priv'.
Proof.
  intros Hs Hn. revert r i priv buf Hs Hn. induction n as [|n IH]; intros r i priv buf Hs Hn Hb.
  { exists i, priv. by rewrite Nat.add_0_r. }
  destruct (perf_read (e r) r i priv buf Hs) as (i1&priv1&Hrd&Hs1); [lia|done|].
  cbn [perf_reads]. rewrite Hrd. cbn [mbind option_bind]. change (negb _) with false. cbn match.
  destruct (IH (S r) i1 priv1 perf_data Hs1) as (i'&priv'&Hrs&Hs'); [lia|apply blen_perf_data|]. exists i', priv'.
  split; [done|]. by rewrite <- Nat.add_succ_comm.
Qed.

(** The loops return in every environment. *)
Lemma perf_writes_total nospace e n w i priv :
  if_private i = Some priv → mock_wf priv → Z.of_nat (w + n) <= 1000 →
  ∃ i' priv', perf_writes nospace e perf_data n w (Some i) = Some (Some i') ∧
    if_private i' = Some priv' ∧ mock_wf priv'.
Proof.
  revert w i priv. induction n as [|n IH]; intros w i priv Hi Hwf Hn; [by exists i, priv|].
  destruct (perf_path_full w) as [_ Hp]; [lia|]. pose proof blen_perf_data as Hlen.
  destruct (mock_write_spec nospace (e w) i priv (perf_path w) 0 perf_data Hi Hwf Hp)
    as (ret&priv'&Hw&Hwf'&_); [lia..|].
  cbn [perf_writes]. rewrite Hw. cbn [mbind option_bind].
  destruct (ret =? XDEVICE_OK); cbn [negb]; [|by exists (i <| if_private := Some priv' |>), priv'].
  apply (IH (S w) _ priv'); [done|done|lia].
Qed.

Lemma perf_reads_total e n r i priv buf :
  if_private i = Some priv → mock_wf priv → Z.of_nat (r + n) <= 1000 → blen buf = 4096 →
  ∃ i' priv', perf_reads e (Some buf) 4096 n r (Some i) = Some (Some i') ∧
    if_private i' = Some priv' ∧ mock_wf priv'.
Proof.
  revert r i priv buf. induction n as [|n IH]; intros r i priv buf Hi Hwf Hn Hb; [by exists i, priv|].
  destruct (mock_read_spec (e r) i priv (perf_path r) 0 buf 4096 Hi Hwf)
    as (ret&priv'&buf'&Hr&Hwf'&_&_&Hout); [lia..|].
  cbn [perf_reads]. rewrite Hr. cbn [mbind option_bind].
  destruct (ret =? XDEVICE_OK); cbn [negb]; [|by exists (i <| if_private := Some priv' |>), priv'].
  apply (IH (S r) _ priv'); [done|done|lia|].
  destruct Hout as [(_&->&_)|[(_&->&_)|(_&c&_&_&->)]]; [done..|].
  rewrite drop_ge by (unfold blen in Hb; lia). rewrite app_nil_r. by apply blen_spec_read; lia.
Qed.

(** The object of the test before the loops. *)
Definition perf_iface : iface mock_storage_private_t :=
  mk_iface STORAGE_BACKEND_MOCK "MockStorage"
    (Some (mock_initial_private <| mp_read_delay_us := 100 |> <| mp_write_delay_us := 200 |>)).

Lemma perf_iface_state : ∃ priv, perf_state 0 0 perf_iface priv.
Proof.
  eexists. split; [reflexivity| |by split_and!|done..].
  destruct mock_wf_initial. by split.
Qed.

(** What the test does once it has its object and its two buffers. *)
Lemma test_performance_unfold nospace create init alloc ew er stats :
  malloc_ok create 0 = true → malloc_ok init 0 = true → mutex_init_ok init 0 = true →
  mutex_init_ok init 1 = true → malloc_ok alloc 0 = true → malloc_ok alloc 1 = true →
  test_performance nospace create init alloc ew er stats =
    (p ← perf_writes nospace ew perf_data 1000 0 (Some perf_iface);
     p ← perf_reads er (Some (junk alloc <$> seq 0 (Z.to_nat 4096))) 4096 1000 0 p;
     let '(_, st) := mock_storage_get_stats p (Some stats) in Some (0, st)).
Proof.
  intros H1 H2 H3 H4 H5 H6. unfold test_performance, create_mock_storage_interface, mock_storage_init.
  rewrite H1, H2, H3, H4, H5, H6. reflexivity.
Qed.

(** Without memory no file is created, and none is there to read. *)
Lemma perf_writes_none nospace e n :
  malloc_ok (e 0%nat) 0 = false →
  perf_writes nospace e perf_data (S n) 0 (Some perf_iface) = Some (Some perf_iface).
Proof.
  intros Hm. cbn [perf_writes]. unfold mock_storage_write_sync.
  cbn [private_of mbind option_bind perf_iface if_private]. rewrite blen_perf_data.
  unfold find_or_create, create_new_file. cbn [find_file mp_files mock_initial_private]. by rewrite Hm.
Qed.

Lemma perf_reads_none e buf n :
  perf_reads e (Some buf) 4096 (S n) 0 (Some perf_iface) = Some (Some perf_iface).
Proof. reflexivity. Qed.

(** The performance test cannot fail on a transfer: its loops stop at the first failure,
    and the test returns 0 all the same. When memory runs out before the first write it
    reports success on no transfer at all. *)
Theorem performance_test_ignores_failures nospace create init alloc ew er stats :
  malloc_ok create 0 = true → malloc_ok init 0 = true → mutex_init_ok init 0 = true →
  mutex_init_ok init 1 = true → malloc_ok alloc 0 = true → malloc_ok alloc 1 = true →
  ∃ st, test_performance nospace create init alloc ew er stats = Some (0, Some st) ∧
    (malloc_ok (ew 0%nat) 0 = false → write_ops st = 0 ∧ read_ops st = 0).
Proof.
  intros H1 H2 H3 H4 H5 H6. rewrite test_performance_unfold by done.
  destruct perf_iface_state as [priv Hs]. pose proof blen_perf_data as Hlen.
  destruct (malloc_ok (ew 0%nat) 0) eqn:Hm.
  - destruct (perf_writes_total nospace ew 1000 0 perf_iface priv) as (i1&priv1&->&Hi1&Hwf1);
      [apply Hs|apply Hs|done|]. cbn [mbind option_bind].
    destruct (perf_reads_total er 1000 0 i1 priv1 (junk alloc <$> seq 0 (Z.to_nat 4096)))
      as (i2&priv2&->&Hi2&_); [done|done|done|unfold blen; rewrite length_fmap, length_seq; lia|].
    cbn [mbind option_bind]. unfold mock_storage_get_stats. cbn [private_of mbind option_bind]. rewrite Hi2.
    by eexists.
  - change 1000%nat with (S 999). rewrite perf_writes_none by done. cbn [mbind option_bind].
    rewrite perf_reads_none. by eexists.
Qed.

(** With memory for all of them the 2000 transfers succeed: the 1000 files are as many
    as the backend takes. *)
Lemma performance_test_passes nospace create init alloc ew er stats :
  nospace ≠ error_code XDEVICE_OK →
  malloc_ok create 0 = true → malloc_ok init 0 = true → mutex_init_ok init 0 = true →
  mutex_init_ok init 1 = true → malloc_ok alloc 0 = true → malloc_ok alloc 1 = true →
  (∀ k m, malloc_ok (ew k) m = true) →
  ∃ st, test_performance nospace create init alloc ew er stats = Some (0, Some st) ∧
    write_ops st = 1000 ∧ write_bytes st = 4096000 ∧ read_ops st = 1000 ∧ read_bytes st = 4096000 ∧
    error_count st = 0.
Proof.
  intros Hns H1 H2 H3 H4 H5 H6 He. rewrite test_performance_unfold by done.
  destruct perf_iface_state as [priv Hs].
  destruct (perf_writes_ok nospace ew 1000 0 perf_iface priv Hns Hs) as (i1&priv1&->&Hs1); [done|done|].
  cbn [mbind option_bind].
  destruct (perf_reads_ok er 1000 0 i1 priv1 (junk alloc <$> seq 0 (Z.to_nat 4096)) Hs1)
    as (i2&priv2&->&[Hi2 _ _ _ [Hwo Hwb] [Hro Hrb] Herr]);
    [done|unfold blen; rewrite length_fmap, length_seq; lia|].
  cbn [mbind option_bind]. unfold mock_storage_get_stats. cbn [private_of mbind option_bind]. rewrite Hi2.
  eexists. split; [reflexivity|]. split_and!; [exact Hwo|exact Hwb|exact Hro|exact Hrb|exact Herr].
Qed.

(** ** The program *)

Section program.
Context (nospace : Z) (Hns : nospace ≠ error_code XDEVICE_OK).
Context {K : Type} {HP : Posix K} {HL : PosixLaws K}.

(** The C library grants what the tests of the in-memory backend ask for. *)
Definition mock_granted (te : test_env) : Prop :=
  malloc_ok (te_create te 0) 0 = true ∧
  (∃ t c d r j, te_mock te = λ n, granted_at t c d r j n 0) ∧
  (∃ t c d r j, te_manager te = granted_at t c d r j) ∧
  (∃ t c d r j, te_adapter te = granted_at t c d r j) ∧
  (∀ n m, malloc_ok (te_performance te n) m = true ∧ mutex_init_ok (te_performance te n) m = true).

(** C24: four of the five tests pass, the performance test with 1000 writes and 1000 reads of
    4 KB each, which is as many files as the backend takes. The fifth is the test of the
    local backend, which fails on every operating system that keeps the documented
    behaviour of its file calls: the program reports success only when it gets no memory
    for the interface object of that backend. *)
Theorem storage_test_program te (k : K) :
  mock_granted te →
  (∃ k', main nospace te k = Some (if malloc_ok (te_create te 1) 0 then -1 else 0, k')) ∧
  (∃ st, run_performance nospace te = Some (0, Some st) ∧ write_ops st = 1000 ∧ read_ops st = 1000 ∧
     write_bytes st = 4096000 ∧ read_bytes st = 4096000).
Proof.
  intros (Hc&(t&c&d&r&j&Hm)&(t2&c2&d2&r2&j2&Hmg)&(t3&c3&d3&r3&j3&Had)&Hp).
  assert (Hperf : ∃ st, run_performance nospace te = Some (0, Some st) ∧ write_ops st = 1000 ∧
    write_bytes st = 4096000 ∧ read_ops st = 1000 ∧ read_bytes st = 4096000 ∧ error_count st = 0).
  { apply performance_test_passes; try apply Hp; [done|]. intros. apply Hp. }
  destruct Hperf as (st&Hperf&Hwo&Hwb&Hro&Hrb&_). split; [|by exists st].
  unfold main, create_mock_storage_interface. rewrite Hc, Hm, Hmg, Had.
  pose proof (mock_interface_test nospace t c d r j (te_info te) (te_stats te) k) as Hi.
  destruct (test_storage_interface (mock_vtable nospace K) _ _ _ _ _) as [[[ret1 k1] p1]|]; [|done].
  injection Hi as -> ->. cbn [mbind option_bind failed Z.eqb].
  unfold create_local_storage_interface. destruct (malloc_ok (te_create te 1) 0).
  - destruct (local_interface_test_fails (te_local te) (te_info te) (te_stats te) k) as (k2&p2&Hl).
    unfold new_local in Hl. rewrite Hl. cbn [mbind option_bind failed Z.eqb].
    rewrite storage_manager_test. cbn [mbind option_bind]. rewrite raft_adapter_test. cbn [mbind option_bind].
    rewrite Hperf. by eexists.
  - cbn [mbind option_bind].
    rewrite storage_manager_test. cbn [mbind option_bind]. rewrite raft_adapter_test. cbn [mbind option_bind].
    rewrite Hperf. by eexists.
Qed.

End program.

(** ** Witnesses *)

Definition w_test_env : test_env :=
  let e := granted (λ _, 1700000000) (mk_timespec 10 500) (mk_timespec 10 900) 0 (λ _, Byte.xaa) in
  mk_test_env (λ _, e) (λ _, e) (λ _, e) (λ _ _, e) (λ _ _, e) (λ _, e) (mk_file_info 0 0 0 0 false) zero_stats
    manager_initial (mk_adapter None "" "" "" "" "" STORAGE_BACKEND_LOCAL STORAGE_BACKEND_LOCAL
      STORAGE_BACKEND_LOCAL STORAGE_BACKEND_LOCAL false 0 0 false).

Lemma w_test_granted : mock_granted w_test_env.
Proof.
  split_and!; [done| | | |done];
    (exists (λ _ _ _, 1700000000), (λ _ _, mk_timespec 10 500), (λ _ _, mk_timespec 10 900), (λ _ _, 0),
       (λ _ _ _, Byte.xaa); reflexivity).
Qed.

Lemma storage_test_program_witness : ∃ k', main (-99) w_test_env empty_kernel = Some (-1, k').
Proof. exact (proj1 (storage_test_program (-99) ltac:(discriminate) w_test_env empty_kernel w_test_granted)). Defined.

Lemma performance_test_ignores_failures_witness : ∃ st,
  test_performance (-99) default_env default_env default_env (λ _, default_env <| malloc_ok := λ _, false |>)
    (λ _, default_env) zero_stats = Some (0, Some st) ∧ write_ops st = 0 ∧ read_ops st = 0.
Proof.
  destruct (performance_test_ignores_failures (-99) default_env default_env default_env
    (λ _, default_env <| malloc_ok := λ _, false |>) (λ _, default_env) zero_stats) as (st&Ht&Hz); try reflexivity.
  exists st. split; [exact Ht|]. by apply Hz.
Defined.
